(* ===== verification/_CoqProject ===== *)
-Q . S2P
Prelude.v
Text.v
Exceptions.v
Config.v
Keys.v
Uuid.v
Binary64.v
Sha256.v
Redis.v
Streams.v
DB.v
Seating.v
Inventory.v
SeatRuns.v
RateLimit.v
SingleFlight.v
Calendar.v
Base64.v
AuditLog.v
AuditTrail.v
Auth.v
World.v
Pricing.v
EventCache.v
Orders.v
Payments.v
Worker.v
WaitingRoom.v
QueueEvents.v
EventAdmin.v
OrderPages.v
Http.v
Drift.v
Ledger.v
Pii.v
Zones.v
Seed.v
Simulation.v
ClosedLoop.v
Ops.v
SchemaDrift.v
Telemetry.v
Drill.v
