(* ===== verification/Prelude.v ===== *)
(** * The ticketing backend, verified

    The program (src/app) sells tickets to events at which everybody arrives in the
    same second.  Stock and seats live in Redis and are taken there by Lua scripts;
    an accepted order is an entry of a Redis stream, which a consumer turns into rows
    of PostgreSQL; payments run through Stripe and come back as webhooks; cron jobs
    repair, expire, audit and purge.  This library translates that logic into Rocq
    and proves what each part promises.  Names follow the source: a definition bears
    the name of the function, script or class it translates, and its comment the
    name in brackets where it differs.

    ** How the code became definitions

    A pure function of the code is a function here.  A function that may raise
    returns [result exn]; one that also changes state is a [M S exn A], the
    state-and-error monad of this file, in which the state survives an exception
    just as Redis keeps what a script wrote, and in which a database transaction
    puts the rows back ([transaction], [committed]).  A Lua script is one function
    of the Redis state, since Redis runs it alone.  Where several processes meet,
    the atomic steps of all of them form one inductive step relation and the theorem
    speaks of every reachable state, or an argument gives what the others did
    between two reads (the [seen] and [during] arguments).  A theorem about a
    function applied to one state is about that call alone.  Instants are integers
    of milliseconds (of microseconds in the audit log), or rationals where the code
    keeps fractions of seconds; prices are integers of cents; scores of seats are
    exact rationals, where the code has doubles.

    Code outside the repository is an argument: Stripe's answers, Argon2, AES-GCM,
    token signing, the ASGI server, the event loop's clock, the random generators,
    PostgreSQL's catalogue.  What the proofs need of it is a named hypothesis and
    states documented behaviour only.  SHA-256, HMAC, base64, UUID version 5, the
    Gregorian calendar and the ISO times are computed, not assumed.

    ** The files

    Foundations.
    - Prelude.v: this file; results, the monad, its invariants ([keeps]), Python's
      sort, sums over maps and lists, and the tactics.
    - Text.v: strip, split, case and int() as Python has them.
    - Exceptions.v: core/exceptions.py and the answers of api/exception_handlers.py.
    - Config.v: core/config.py, the settings read here and their validators.
    - Keys.v: every Redis key and channel; no two keys print alike.
    - Uuid.v, Sha256.v, Base64.v, Calendar.v: the computed standards.
    - Redis.v, Streams.v: the Redis commands in use; streams with a consumer group.
    - DB.v, World.v: the tables as maps of records with their constraints as checks;
      the database and Redis side by side, and the transactions.

    Selling.
    - Seating.v: services/seating.py, the choice of neighbouring seats.  [allocate]
      is the best legal place by score, whatever the order of the free runs;
      occupying and releasing change exactly the seats they name.
    - Inventory.v: services/inventory.py, the counter stock: reserve, release and
      reconcile scripts.  Free and sold stock add up to the total in every history,
      a release takes effect once.
    - SeatRuns.v: services/seat_runs.py, the free runs in Redis, the compare-and-swap
      scripts, the retry loop and the rebuild.  The scripts refine an abstract set of
      free seats, no seat is sold twice, a rebuild is the complement of the holds.
    - Pricing.v, EventCache.v, SingleFlight.v: prices (services/pricing.py), the
      metadata cache of services/event_cache.py with its lock, and
      core/singleflight.py as a step relation: one computation per key, no cached
      value older than its bound.
    - Orders.v: services/orders.py and crud/order.py: an order's transitions under
      compare-and-set, the outbox row that each owes, the two-step release.  Every
      history is a path of the state machine and ends; seats come back once.
    - Payments.v: services/stripe_client.py, api/v1/webhook.py, the payment endpoints
      and services/abandoned_payments.py.  A charge is kept by a paid order or
      refunded; an event takes effect once.
    - Worker.v: the consumer of the order stream, the recovery of stale intents,
      dead letters, the outbox relay and the first payment timeout of worker.py.  An
      intent becomes an order with its hold or nothing; no entry is lost; processed
      means released.
    - Ledger.v: the books of one counter sale over all of the above as one step
      relation, with reservations, consumers, recovery, transitions, the relay and
      the reconciliation in any order: stock, open intents and orders add up to the
      seats, nobody passes the limit, and a settled sale is what the audit expects.
    - RateLimit.v, WaitingRoom.v, QueueEvents.v: the limiter, the waiting room with
      its draw, passes and circuit breaker, and the live stream of its state with
      the subscriber behind it.
    - Zones.v: the public lists, the zone listing a buyer chooses from, the printed
      seats.  A quantity is listed if and only if an order for it can be placed.

    Running.
    - EventAdmin.v, Seed.v: creating, editing and publishing events under optimistic
      locking; seeding a venue's seat map.
    - Auth.v: accounts, sessions with rotating refresh tokens, lockout, erasure.
    - Pii.v: the buyer's personal data in envelopes and the rotation of their keys.
    - AuditTrail.v, AuditLog.v: from an audit event to its partitioned row, and the
      retention of the partitions.
    - OrderPages.v: a user's orders page by page.
    - Drift.v: the audits that compare Redis with the database, the repair scripts,
      the key purge, the pre-warm signal.
    - Http.v: api/middleware.py as transformers of a handler's messages: trace ids,
      the body limit, the request timeout, their order in main.py.
    - Ops.v: log records and alerts, the job wrapper, the cron table, the purge and
      sweep jobs, the consumer's loop, the health probes, create_admin, the claims of
      an access token.
    - SchemaDrift.v: scripts/check_schema_drift.py.
    - Telemetry.v: core/tracing.py and the gauges: a request starts a trace of its own,
      its order is processed in that trace, polling leaves none.
    - Drill.v: infra/drill.py, the comparison that proves a restore.
    - Simulation.v, ClosedLoop.v: the simulators the allocation policy was chosen
      with, run over the allocator of Seating.v.

    ** How the parts interact

    [submit_order] (Orders.v) reserves stock (Inventory.v) or seats (SeatRuns.v,
    which calls Seating.v) and adds the intent to the stream; [consume_batch]
    (Worker.v) reads it with the commands of Streams.v and writes order and hold
    (DB.v); payment, expiry and cancellation (Payments.v, Worker.v) go through the
    one compare-and-set of Orders.v, which writes the outbox row in the same
    transaction; [process_outbox] releases what the row owes through Inventory.v or
    SeatRuns.v.  [World] holds both stores, so these theorems are about the
    composition and not about each half; [sys_step] (Ledger.v) interleaves them all,
    and its guards name the three orders of steps that do break the books.  Drift.v's audits read the same two stores;
    WaitingRoom.v's breaker reads the stream's backlog and dead letters; Zones.v
    reads the runs that SeatRuns.v writes.

    ** What the theorems show, by group

    - No overselling: [no_seat_sold_twice], [scripts_refine_oracle], [sale_conserved],
      [books_balance], [limit_holds_end_to_end], [settled_stock_is_expected],
      [no_seat_is_printed_twice], [seat_audit_exact], [inventory_audit_exact].
    - Orders and money: [order_history_consistent], [order_lifecycle_terminates],
      [transition_has_one_winner], [charge_kept_or_refunded],
      [webhook_takes_effect_once], [abandoned_backlog_is_loud].
    - Nothing lost between the stores: [persist_intent_all_or_nothing],
      [consume_batch_loses_nothing], [processed_means_released],
      [audit_events_accounted_for], [consumer_loop_survives].
    - Traces: [inbound_trace_is_ignored], [one_trace_per_order],
      [trace_kept_unless_polling], [gauges_agree].
    - Fairness and load: [pass_single_use], [admitted_exactly_from_deadline],
      [breaker_follows_health], [one_computation_per_key], [no_update_is_lost],
      [answered_by_deadline], [body_never_exceeds_limit], [worker_load].
    - People and their data: [reuse_kills_the_session], [erased_account_is_shut],
      [pii_survives_rotation], [national_id_belongs_to_one_account],
      [purge_respects_retention].
    - Administration: [edit_is_never_lost], [publish_opens_the_venue],
      [seeding_keeps_the_map_sound], [schema_check_exact], [create_admin_exact],
      [unrestored_is_noticed].
    Theorems whose names tell of a failure ([racing_rotation_survives_revocation],
    [invalidation_can_be_overtaken], [pass_works_twice_in_its_last_second],
    [late_consumer_oversells], [reconciled_before_release_oversells],
    [unparsable_hash_is_a_server_error] and the like) prove that the code as written
    does what they say, against a comment or the intent beside it.

    ** Bounds and fuel

    Loops of the code that need fuel here take a bound that the theorem shows to
    suffice, and no result depends on running out: [MAX_CAS_ATTEMPTS] rounds of the
    seat reservation as in the code; in Seed.v nine times the number bounds the
    skips over digits four; in Simulation.v the seats still to sell; in Pii.v the
    job's own limit of batches ([rotation_completes]); in Drift.v the keys
    left; in Sha256.v the length of the message.  The histories of
    Ledger.v last as long as what their steps set in Redis lives, a day: markers and
    claims that lapse are outside of them.  Lists given as arguments (turns of
    a loop, attempts, draws) are any finite prefix of an endless run.  64-bit
    overflow does not arise in Python; the column widths that matter are checks of
    the insertions ([DataError]), and Redis integers stay far below their width.

    ** Not modelled

    configure_logging and the counters of Prometheus, which are declarations: they
    configure libraries.  The OpenTelemetry tracer and the CloudWatch client are
    parameters of Telemetry.v.  The factories of database, Redis and Stripe clients
    and their pools, the lifespan: no logic beyond opening and closing.  The Alembic migrations: SQL for one
    database; the constraints they leave are modelled where operations meet them,
    and SchemaDrift.v models the tool that compares them with the models.  Argon2
    and AES: native code, parameters here.  Message texts of exceptions, HTML, the
    printed tables of scripts, the load tests, the infrastructure and the tests
    themselves. *)

From stdpp Require Export base tactics option list gmap sets strings pretty.
From Stdlib Require Export ZArith Lia.
From Stdlib Require Export Sorting.Sorted.

#[global] Open Scope Z_scope.
#[global] Set Default Proof Using "Type".

(** ** Results and the state-error monad *)

(** What a Python call gives back: a value, or the exception it raised. *)
Inductive result (E A : Type) : Type :=
  | Ok (a : A)
  | Err (e : E).
Arguments Ok {E A} a.
Arguments Err {E A} e.

#[global] Instance result_eq_dec `{EqDecision E, EqDecision A} : EqDecision (result E A).
Proof. solve_decision. Defined.

Definition is_ok {E A} (r : result E A) : bool :=
  match r with Ok _ => true | Err _ => false end.

Definition is_some {A} (o : option A) : bool := match o with Some _ => true | None => false end.

Definition result_bind {E A B} (r : result E A) (f : A → result E B) : result E B :=
  match r with Ok a => f a | Err e => Err e end.

(** A computation over a state [S]: the state survives an exception, because
    what has been sent to Redis stays sent.  A database transaction is the
    computation that restores its own part of the state on [Err]. *)
Definition M (S E A : Type) : Type := S → result E A * S.

Definition ret {S E A} (a : A) : M S E A := λ s, (Ok a, s).
Definition raise {S E A} (e : E) : M S E A := λ s, (Err e, s).
Definition bind {S E A B} (m : M S E A) (f : A → M S E B) : M S E B := λ s,
  match m s with
  | (Ok a, s') => f a s'
  | (Err e, s') => (Err e, s')
  end.
Definition get {S E} : M S E S := λ s, (Ok s, s).
Definition gets {S E A} (f : S → A) : M S E A := λ s, (Ok (f s), s).
Definition put {S E} (s' : S) : M S E unit := λ _, (Ok tt, s').
Definition modify {S E} (f : S → S) : M S E unit := λ s, (Ok tt, f s).
Definition lift {S E A} (r : result E A) : M S E A := λ s, (r, s).
(** [try: m / except e: h(e)] *)
Definition try_catch {S E A} (m : M S E A) (h : E → M S E A) : M S E A := λ s,
  match m s with
  | (Ok a, s') => (Ok a, s')
  | (Err e, s') => h e s'
  end.

Declare Scope prog_scope.
Delimit Scope prog_scope with prog.
#[global] Open Scope prog_scope.

Notation "'let!' x ':=' m 'in' k" := (bind m (λ x, k))
  (at level 10, x name, m at level 100, k at level 200,
   format "'[v' 'let!'  x  ':='  m  'in' '/' k ']'") : prog_scope.
Notation "m1 ';;;' m2" := (bind m1 (λ _, m2))
  (at level 100, right associativity, format "'[v' m1  ';;;' '/' m2 ']'") : prog_scope.
Notation "'let?' x ':=' r 'in' k" := (result_bind r (λ x, k))
  (at level 10, x name, r at level 100, k at level 200,
   format "'[v' 'let?'  x  ':='  r  'in' '/' k ']'") : prog_scope.

Lemma bind_ok {S E A B} (m : M S E A) (f : A → M S E B) s a s' :
  m s = (Ok a, s') → bind m f s = f a s'.
Proof. unfold bind. by intros ->. Qed.

Lemma bind_err {S E A B} (m : M S E A) (f : A → M S E B) s e s' :
  m s = (Err e, s') → bind m f s = (Err e, s').
Proof. unfold bind. by intros ->. Qed.

Lemma bind_inv_ok {S E A B} (m : M S E A) (f : A → M S E B) s b s' :
  bind m f s = (Ok b, s') → ∃ a s1, m s = (Ok a, s1) ∧ f a s1 = (Ok b, s').
Proof. unfold bind. destruct (m s) as [[a|e] s1]; naive_solver. Qed.

(** One [let! x := lift r in k]. *)
Lemma bind_lift {S E A B} (r : result E A) (k : A → M S E B) s :
  bind (lift r) k s = match r with Ok a => k a s | Err e => (Err e, s) end.
Proof. unfold bind, lift. by destruct r. Qed.

(** A property of the state that every step of a computation keeps. *)
Definition keeps {S E A} (P : S → Prop) (m : M S E A) : Prop :=
  ∀ s, P s → P (m s).2.

Section keeps.
Context {S E : Type} (P : S → Prop).

Lemma keeps_ret {A} (a : A) : keeps P (ret (E:=E) a).
Proof. by intros s ?. Qed.
Lemma keeps_raise {A} (e : E) : keeps P (raise (A:=A) e).
Proof. by intros s ?. Qed.
Lemma keeps_gets {A} (f : S → A) : keeps P (gets (E:=E) f).
Proof. by intros s ?. Qed.
Lemma keeps_get : keeps P (get (E:=E)).
Proof. by intros s ?. Qed.
Lemma keeps_lift {A} (r : result E A) : keeps P (lift r).
Proof. by intros s ?. Qed.
Lemma keeps_modify (f : S → S) : (∀ s, P s → P (f s)) → keeps P (modify (E:=E) f).
Proof. intros Hf s Hs. by apply Hf. Qed.
Lemma keeps_bind {A B} (m : M S E A) (f : A → M S E B) :
  keeps P m → (∀ a, keeps P (f a)) → keeps P (bind m f).
Proof.
  intros Hm Hf s Hs. unfold bind. pose proof (Hm s Hs) as Hs1.
  destruct (m s) as [[a|e] s1]; simpl in *; [by apply Hf|done].
Qed.
Lemma keeps_try {A} (m : M S E A) (h : E → M S E A) :
  keeps P m → (∀ e, keeps P (h e)) → keeps P (try_catch m h).
Proof.
  intros Hm Hh s Hs. unfold try_catch. pose proof (Hm s Hs) as Hs1.
  destruct (m s) as [[a|e] s1]; simpl in *; [done|by apply Hh].
Qed.
End keeps.

Create HintDb prog.
#[export] Hint Resolve keeps_ret keeps_raise keeps_gets keeps_get keeps_lift
  keeps_bind keeps_try : prog.

(** ** Booleans as case analysis *)

(** Splits the [if]s and [match]es of a goal, keeping the equations. *)
Ltac case_goal :=
  repeat match goal with
  | |- context [if ?b then _ else _] => destruct b eqn:?
  | |- context [match ?x with _ => _ end] => destruct x eqn:?
  end.
Ltac case_hyp H :=
  repeat match type of H with
  | context [if ?b then _ else _] => destruct b eqn:?
  | context [match ?x with _ => _ end] => destruct x eqn:?
  end.
(** Turns boolean comparisons on [Z] in the context into propositions. *)
Ltac zbool :=
  rewrite ?andb_true_iff, ?andb_false_iff, ?orb_true_iff, ?orb_false_iff,
    ?negb_true_iff, ?negb_false_iff, ?Z.ltb_lt, ?Z.ltb_ge, ?Z.leb_le, ?Z.leb_gt,
    ?Z.eqb_eq, ?Z.eqb_neq in *.
Ltac zlia := zbool; try done; lia.

(** ** Stable insertion sort: Python's [sorted] *)

Section isort.
Context {A : Type} (le : A → A → bool).

Fixpoint insert_sorted (x : A) (l : list A) : list A :=
  match l with
  | [] => [x]
  | y :: l' => if le x y then x :: l else y :: insert_sorted x l'
  end.

(** An element is put before those it is not greater than, and elements are
    inserted from the last to the first: equal keys keep their order. *)
Fixpoint isort (l : list A) : list A :=
  match l with
  | [] => []
  | x :: l' => insert_sorted x (isort l')
  end.

Lemma insert_sorted_perm x l : insert_sorted x l ≡ₚ x :: l.
Proof.
  induction l as [|y l IH]; simpl; [done|].
  destruct (le x y); [done|]. rewrite IH. apply perm_swap.
Qed.

Lemma isort_perm l : isort l ≡ₚ l.
Proof. induction l as [|x l IH]; simpl; [done|]. by rewrite insert_sorted_perm, IH. Qed.

Lemma elem_of_isort x l : x ∈ isort l ↔ x ∈ l.
Proof. by rewrite isort_perm. Qed.

Hypothesis le_total : ∀ x y, le x y = false → le y x = true.
Hypothesis le_trans : ∀ x y z, le x y = true → le y z = true → le x z = true.

Lemma insert_sorted_sorted x l :
  StronglySorted (λ a b, le a b = true) l →
  StronglySorted (λ a b, le a b = true) (insert_sorted x l).
Proof using le_total le_trans.
  induction 1 as [|y l Hl IH Hy]; simpl; [by repeat constructor|].
  destruct (le x y) eqn:Hxy.
  - constructor; [by constructor|]. constructor; [done|].
    eapply Forall_impl; [exact Hy|]. eauto.
  - constructor; [done|]. rewrite insert_sorted_perm. constructor; auto.
Qed.

Lemma isort_sorted l : StronglySorted (λ a b, le a b = true) (isort l).
Proof using le_total le_trans.
  induction l; simpl; [constructor|]. by apply insert_sorted_sorted.
Qed.

(** Two sorted permutations of each other are equal when the order only
    ties an element with itself. *)
Lemma sorted_perm_unique l1 l2 :
  (∀ x y, x ∈ l1 → y ∈ l1 → le x y = true → le y x = true → x = y) →
  StronglySorted (λ a b, le a b = true) l1 →
  StronglySorted (λ a b, le a b = true) l2 →
  l1 ≡ₚ l2 → l1 = l2.
Proof.
  intros Hanti Hs1. revert l2 Hanti. induction Hs1 as [|x l1 Hs1 IH Hx];
    intros l2 Hanti Hs2 Hp; [by apply Permutation_nil_l in Hp|].
  destruct Hs2 as [|y l2 Hs2 Hy]; [by apply Permutation_nil_r in Hp|].
  assert (x = y) as ->.
  { assert (x ∈ y :: l2) as Hin by (rewrite <-Hp; left).
    assert (y ∈ x :: l1) as Hin' by (rewrite Hp; left).
    apply elem_of_cons in Hin as [->|Hin]; [done|].
    pose proof Hin' as Hin''.
    apply elem_of_cons in Hin' as [->|Hin']; [done|].
    rewrite Forall_forall in Hx, Hy. apply Hanti; [left|done|by apply Hx|by apply Hy]. }
  f_equal. apply IH; [|done|by apply (inj (cons y))].
  intros a b Ha Hb. apply Hanti; by right.
Qed.
End isort.

(** ** Sums over finite maps *)

(** Σ f(v) over the values of a map, the model of [sum(d.values())]. *)
Definition map_sum `{Countable K} {V} (f : V → Z) (m : gmap K V) : Z :=
  map_fold (λ _ v acc, f v + acc) 0 m.

Section map_sum.
Context `{Countable K} {V : Type} (f : V → Z).
Implicit Types m : gmap K V.

Lemma map_sum_empty : map_sum f (∅ : gmap K V) = 0.
Proof. apply map_fold_empty. Qed.

Lemma map_sum_insert m i v : m !! i = None → map_sum f (<[i:=v]> m) = f v + map_sum f m.
Proof.
  intros Hi. unfold map_sum. rewrite map_fold_insert_L; [done| |done].
  intros; lia.
Qed.

Lemma map_sum_delete m i v : m !! i = Some v → map_sum f (delete i m) = map_sum f m - f v.
Proof.
  intros Hi. rewrite <-(insert_delete_id m i v Hi) at 2.
  rewrite map_sum_insert by apply lookup_delete_eq. lia.
Qed.

Lemma map_sum_nonneg m : (∀ i v, m !! i = Some v → 0 <= f v) → 0 <= map_sum f m.
Proof.
  induction m as [|i v m Hi IH] using map_ind; intros Hp;
    [by rewrite map_sum_empty|].
  rewrite map_sum_insert by done.
  assert (0 <= f v) by (apply (Hp i); by rewrite lookup_insert_eq).
  assert (0 <= map_sum f m); [|lia].
  apply IH. intros j w Hj. apply (Hp j). rewrite lookup_insert_ne; [done|]. congruence.
Qed.

Lemma map_sum_update m i v w :
  m !! i = Some v → map_sum f (<[i:=w]> m) = map_sum f m - f v + f w.
Proof.
  intros Hi. rewrite <-insert_delete_eq.
  rewrite map_sum_insert by apply lookup_delete_eq.
  rewrite (map_sum_delete _ _ _ Hi). lia.
Qed.
End map_sum.

(** Σ over a list. *)
Definition list_sum {A} (f : A → Z) (l : list A) : Z := foldr (λ x acc, f x + acc) 0 l.

Lemma list_sum_app {A} (f : A → Z) l1 l2 :
  list_sum f (l1 ++ l2) = list_sum f l1 + list_sum f l2.
Proof. induction l1; simpl; lia. Qed.

Lemma list_sum_bind {A B} (f : B → Z) (g : A → list B) l :
  list_sum f (l ≫= g) = list_sum (λ x, list_sum f (g x)) l.
Proof. induction l as [|x l IH]; [done|]. cbn [mbind list_bind]. rewrite list_sum_app. simpl. lia. Qed.

Lemma list_sum_ext {A} (f g : A → Z) l : (∀ x, x ∈ l → f x = g x) → list_sum f l = list_sum g l.
Proof.
  induction l as [|x l IH]; simpl; intros H; [done|].
  rewrite (H x) by left. rewrite IH; [done|]. intros y Hy. apply H. by right.
Qed.

Lemma filter_none {A} (P : A → Prop) `{∀ x, Decision (P x)} l :
  (∀ x, x ∈ l → ¬ P x) → filter P l = [].
Proof.
  intros HP. induction l as [|x l IH]; [done|]. rewrite filter_cons_False by (apply HP; left).
  apply IH. intros y Hy. apply HP. by right.
Qed.

(** Filtering out only what a second filter drops anyway. *)
Lemma filter_keeps {A} (P Q : A → Prop) `{∀ x, Decision (P x), ∀ x, Decision (Q x)} (l : list A) :
  (∀ x, x ∈ l → Q x → P x) → filter Q (filter P l) = filter Q l.
Proof.
  intros H1. induction l as [|x l IH]; [done|]. rewrite !filter_cons.
  assert (IH' : filter Q (filter P l) = filter Q l) by (apply IH; intros y Hy; apply H1; by right).
  destruct (decide (P x)) as [HP|HP]; [rewrite filter_cons; by rewrite IH'|].
  rewrite IH'. destruct (decide (Q x)) as [HQ|]; [|done]. destruct HP. apply H1; [left|done].
Qed.

(** A filtered list keeps its order. *)
Lemma sorted_filter {A} (R : A → A → Prop) (P : A → Prop) `{∀ x, Decision (P x)} l :
  StronglySorted R l → StronglySorted R (filter P l).
Proof.
  induction 1 as [|x l Hl IH Hx]; [constructor|]. rewrite filter_cons.
  destruct (decide (P x)); [|done]. constructor; [done|].
  rewrite Forall_forall in *. intros y [_ Hy]%list_elem_of_filter. by apply Hx.
Qed.

Lemma list_sum_perm {A} (f : A → Z) l1 l2 : l1 ≡ₚ l2 → list_sum f l1 = list_sum f l2.
Proof. induction 1; simpl; lia. Qed.

(** ** Integer ranges: [range(start, start + n)] *)

Definition zrange (start len : Z) : list Z := seqZ start len.

Lemma elem_of_zrange x s n : x ∈ zrange s n ↔ s <= x < s + n.
Proof. apply elem_of_seqZ. Qed.
