(* ===== verification/Text.v ===== *)
(** Python's string methods on ASCII text: [str.strip], [str.split] on a comma,
    [str.lower] and [str.upper], character classes of the regular expressions. *)

From Stdlib Require Import Ascii String.
From S2P Require Import Prelude.

#[local] Open Scope string_scope.
#[local] Open Scope list_scope.
#[local] Open Scope Z_scope.

(** ** Characters *)

(** ASCII white space, as [\s] and [\d] of the regular expression see it. *)
Definition is_space (c : ascii) : bool :=
  let n := Ascii.nat_of_ascii c in
  ((9 <=? n) && (n <=? 13) || (28 <=? n) && (n <=? 32))%nat.
Definition is_digit (c : ascii) : bool :=
  let n := Ascii.nat_of_ascii c in ((48 <=? n) && (n <=? 57))%nat.

Fixpoint skip_spaces (l : list ascii) : list ascii :=
  match l with c :: l' => if is_space c then skip_spaces l' else l | [] => [] end.

(** ** Methods of [str] *)

(** [str.strip()] *)
Definition strip (l : list ascii) : list ascii := rev (skip_spaces (rev (skip_spaces l))).

(** [s.split(",")] *)
Fixpoint split_comma (l : list ascii) : list (list ascii) :=
  match l with
  | [] => [[]]
  | c :: l' =>
      if Ascii.eqb c "," then [] :: split_comma l'
      else match split_comma l' with
           | [] => [[c]]
           | h :: t => (c :: h) :: t
           end
  end.

(** [str.lower()] on ASCII. *)
Definition lower (c : ascii) : ascii :=
  let n := nat_of_ascii c in
  if ((65 <=? n) && (n <=? 90))%nat then ascii_of_nat (n + 32) else c.

(** [str.upper()] on ASCII. *)
Definition upper (c : ascii) : ascii :=
  let n := nat_of_ascii c in
  if ((97 <=? n) && (n <=? 122))%nat then ascii_of_nat (n - 32) else c.

(** [str.isprintable()] of one character, of those HTTP header bytes decode to
    (latin-1): U+0020 to U+007E and U+00A1 to U+00FF but for the soft hyphen. *)
Definition isprintable (c : ascii) : bool :=
  let n := nat_of_ascii c in
  ((32 <=? n) && (n <=? 126) || (161 <=? n) && negb (n =? 173))%nat.

(** The digits of [int(s)]: underscores are allowed between two of them. *)
Fixpoint int_digits (acc : Z) (l : list ascii) : option Z :=
  match l with
  | [] => Some acc
  | "_"%char :: d :: l' =>
      if is_digit d then int_digits (10 * acc + (Z.of_nat (nat_of_ascii d) - 48)) l' else None
  | d :: l' => if is_digit d then int_digits (10 * acc + (Z.of_nat (nat_of_ascii d) - 48)) l' else None
  end.

Definition nat_digits (l : list ascii) : option Z :=
  match l with
  | d :: _ => if is_digit d then int_digits 0 l else None
  | [] => None
  end.

(** [int(s)] of ASCII text; [None] is the [ValueError]. *)
Definition py_int (s : string) : option Z :=
  match strip (list_ascii_of_string s) with
  | "-"%char :: l => Z.opp <$> nat_digits l
  | "+"%char :: l => nat_digits l
  | l => nat_digits l
  end.

Example py_int_forms :
  py_int " 1_000 " = Some 1000 ∧ py_int "-5" = Some (-5) ∧ py_int "1__0" = None ∧ py_int "" = None ∧
  py_int "0x10" = None ∧ py_int "7_" = None.
Proof. done. Qed.

(** ** Lemmas *)

Lemma split_comma_app a b : split_comma (a ++ ","%char :: b) = split_comma a ++ split_comma b.
Proof.
  induction a as [|c a IH]; [done|]. simpl. destruct (Ascii.eqb c ","); [by rewrite IH|]. rewrite IH.
  destruct (split_comma a) as [|h t] eqn:Ha; [|done].
  exfalso. destruct a as [|d a]; simpl in Ha; [done|]. destruct (Ascii.eqb d ","); [done|].
  by destruct (split_comma a).
Qed.

