(* ===== verification/Exceptions.v ===== *)
(** The exceptions the services raise (src/app/core/exceptions.py), the few
    built-in and library exceptions they meet, and the HTTP answer each one
    gets (src/app/api/exception_handlers.py).  [str(exc)] is left out of the
    answers: only the status, the structured fields and the headers are kept. *)

From S2P Require Import Prelude.

(** Subclasses of [DomainError], with the attributes their constructors keep. *)
Inductive domain_error : Type :=
  | ConcurrentModification (resource : string) (resource_id : Z)
      (expected_version current_version : option Z)
  (* EventError *)
  | EventError (message : string)
  | EventNotFound (event_id : Z)
  | EventNotOnSale (event_id : Z)
  | EventCancelled (event_id : Z)
  | InvalidEventUpdate (event_id : Z) (reason : string)
  | ZoneRequired (event_id : Z)
  | ZoneNotForEvent (event_id zone_id : Z) (reason : string)
  | ZoneNotFound (zone_id : Z)
  | ZoneNameTaken (venue_id : Z) (name : string)
  | VenueNotFound (venue_id : Z)
  | ZonePricesInvalid (venue_id : Z) (missing unknown : list Z)
  | ZonePricesIncomplete (event_id : Z) (zone_ids : list Z)
  | SeatMapMismatch (event_id total_seats capacity : Z)
  (* OrderError *)
  | OrderNotFound (order_id : Z)
  | OrderNotOwned (order_id : Z)
  | InvalidOrderTransition (order_id : Z) (from_status to_status : string)
  | DuplicateOrderRequest (idempotency_key : string)
  | SeatsNotAssigned (order_id : Z)
  (* InventoryError *)
  | InventoryNotReconcilable (event_id backlog dead_letter : Z)
  | InsufficientInventory (event_id requested available : Z)
  | PurchaseLimitExceeded (event_id user_id requested already limit : Z)
  | NoSeatsAvailable (event_id zone_id quantity : Z) (feasible : list Z)
  | SeatContention (event_id zone_id attempts : Z)
  | SeatPlacementOutOfRun (event_id zone_id block_id start length : Z)
  | SeatReleaseOverlap (event_id zone_id block_id start length : Z) (reason : string)
  (* the rest *)
  | AdmissionDenied (reason : string)
  | RateLimited (retry_after : option Z)
  | BuyerInfoNotFound (user_id : Z)
  | BuyerInfoAlreadyExists (user_id : Z)
  | NationalIdAlreadyRegistered.

#[global] Instance domain_error_eq_dec : EqDecision domain_error.
Proof. solve_decision. Defined.

(** [PurchaseLimitExceeded.remaining] *)
Definition remaining (limit already : Z) : Z := Z.max 0 (limit - already).

(** Every exception a modelled function can raise. *)
Inductive exn : Type :=
  | Domain (e : domain_error)
  | HTTPException (status_code : Z) (detail : string)
  | ValueError
  | KeyError
  | IndexError
  | RuntimeError
  | ZeroDivisionError
  | TypeError
  | StaleDataError
  | IntegrityError (constraint : string)
  | DataError                               (* a value outside its column's type *)
  | OperationalError                        (* the database did not answer *)
  | RedisConnectionError                    (* Redis did not answer *)
  | PiiKeyVersionUnknown (version : Z)      (* of services/pii.py *)
  | StripeError.

#[global] Instance exn_eq_dec : EqDecision exn.
Proof. solve_decision. Defined.

(** The structured fields of an answer. *)
Inductive field : Type :=
  | FInt (n : Z)
  | FStr (s : string)
  | FInts (l : list Z)
  | FNull.

Record response : Type := mk_response {
  status_code : Z;
  content : list (string * field);
  headers : list (string * Z);
}.

Definition opt_field (o : option Z) : field :=
  match o with Some n => FInt n | None => FNull end.

Open Scope string_scope.

(** Handlers of the event and zone errors; [None]: no handler of their own. *)
Definition event_error_response (e : domain_error) : option response :=
  match e with
  | EventNotFound ev => Some (mk_response 404 [("event_id", FInt ev)] [])
  | EventCancelled ev => Some (mk_response 409 [("event_id", FInt ev)] [])
  | ZoneNotFound z => Some (mk_response 404 [("zone_id", FInt z)] [])
  | ZoneNameTaken v n => Some (mk_response 409 [("venue_id", FInt v); ("name", FStr n)] [])
  | VenueNotFound v => Some (mk_response 404 [("venue_id", FInt v)] [])
  | ZonePricesInvalid v m u =>
      Some (mk_response 422 [("venue_id", FInt v); ("missing_zone_ids", FInts m);
                             ("unknown_zone_ids", FInts u)] [])
  | ZoneRequired ev => Some (mk_response 422 [("event_id", FInt ev)] [])
  | ZoneNotForEvent ev z _ =>   (* the reason is not disclosed *)
      Some (mk_response 422 [("event_id", FInt ev); ("zone_id", FInt z)] [])
  | InvalidEventUpdate ev r =>
      Some (mk_response 422 [("event_id", FInt ev); ("reason", FStr r)] [])
  | EventNotOnSale ev => Some (mk_response 409 [("event_id", FInt ev)] [])
  | _ => None
  end.

(** Handlers of the order and inventory errors. *)
Definition order_error_response (e : domain_error) : option response :=
  match e with
  | OrderNotFound o => Some (mk_response 404 [("order_id", FInt o)] [])
  | OrderNotOwned o => Some (mk_response 403 [("order_id", FInt o)] [])
  | InvalidOrderTransition o f t =>
      Some (mk_response 409 [("order_id", FInt o); ("from_status", FStr f);
                             ("to_status", FStr t)] [])
  | DuplicateOrderRequest k => Some (mk_response 409 [("idempotency_key", FStr k)] [])
  | InsufficientInventory ev r a =>
      Some (mk_response 409 [("event_id", FInt ev); ("requested", FInt r);
                             ("available", FInt a)] [])
  | PurchaseLimitExceeded ev _ r a l =>
      Some (mk_response 409 [("event_id", FInt ev); ("requested", FInt r); ("limit", FInt l);
                             ("already_held", FInt a); ("remaining", FInt (remaining l a))] [])
  | NoSeatsAvailable ev z q f =>
      Some (mk_response 409 [("event_id", FInt ev); ("zone_id", FInt z); ("requested", FInt q);
                             ("available_quantities", FInts f)] [])
  | SeatContention ev z _ =>
      Some (mk_response 503 [("event_id", FInt ev); ("zone_id", FInt z)] [("Retry-After", 1)])
  | SeatPlacementOutOfRun _ _ _ _ _ => Some (mk_response 500 [] [])
  | SeatsNotAssigned o => Some (mk_response 409 [("order_id", FInt o)] [])
  | _ => None
  end.

(** Handlers of the remaining errors. *)
Definition other_error_response (e : domain_error) : option response :=
  match e with
  | BuyerInfoNotFound u => Some (mk_response 404 [("user_id", FInt u)] [])
  | BuyerInfoAlreadyExists u => Some (mk_response 409 [("user_id", FInt u)] [])
  | NationalIdAlreadyRegistered => Some (mk_response 409 [] [])
  | AdmissionDenied _ => Some (mk_response 403 [] [])
  | RateLimited ra =>
      Some (mk_response 429 []
        (match ra with
         | Some n => if (n =? 0)%Z then [] else [("Retry-After", n)]   (* [if exc.retry_after] *)
         | None => []
         end))
  | ConcurrentModification r i ev cv =>
      Some (mk_response 409 [("resource", FStr r); ("resource_id", FInt i);
                             ("expected_version", opt_field ev);
                             ("current_version", opt_field cv)] [])
  | _ => None
  end.

Definition opt_or {A} (a b : option A) : option A :=
  match a with Some _ => a | None => b end.

(** FastAPI picks the handler of the most specific class, and [DomainError]'s
    own handler answers 400 for what has none. *)
Definition http_response (e : domain_error) : response :=
  default (mk_response 400 [] [])
    (opt_or (event_error_response e)
       (opt_or (order_error_response e) (other_error_response e))).

Close Scope string_scope.
