(* ===== verification/Config.v ===== *)
(** The settings the services read (src/app/core/config.py) and the validators
    that refuse to start on a combination that would fail silently.  The keys of
    the personal data have their own validators in Pii.v. *)

From Stdlib Require Import Ascii String QArith.
From S2P Require Import Prelude Text Exceptions.

#[local] Open Scope string_scope.
#[local] Open Scope list_scope.
#[local] Open Scope Z_scope.

Record Settings : Type := mk_settings {
  DEBUG : bool;
  LOADTEST_BYPASS_ADMISSION : bool;
  ENABLE_MOCK_PAYMENT : bool;
  STRIPE_TIMEOUT_SECONDS : Q;
  STRIPE_EVENT_RETENTION_DAYS : Z;
  STRIPE_WEBHOOK_SECRET : string;
  CORS_ALLOW_ORIGINS : string;
  MAX_REQUEST_BODY_BYTES : Z;
  REQUEST_TIMEOUT_SECONDS : Q;
  DB_STATEMENT_TIMEOUT_MS : Z;
  AUTO_HEAL_LOST_REDIS_STATE : bool;
  LOG_LEVEL : string;
  MAX_TICKETS_PER_USER_PER_EVENT : Z;
  MAX_TICKETS_PER_ORDER : Z;
  PENDING_TIMEOUT_MINUTES : Z;
  PAYMENT_ABANDON_TIMEOUT_MINUTES : Z;
  ORDER_RECLAIM_IDLE_MS : Z;
  ORDER_MAX_DELIVERIES : Z;
  ORDER_BACKLOG_WARN : Z;
  QUEUE_LEAD_TIME_SECONDS : Z;
  QUEUE_ADMISSION_BUFFER_SECONDS : Z;
  QUEUE_ADMISSION_RATE : Z;
  QUEUE_ADMISSION_TOKEN_TTL_SECONDS : Z;
  ADMISSION_PAUSE_NEW_DEAD_LETTERS : Z;
  ADMISSION_PAUSE_BACKLOG_THRESHOLD : Z;
  PREWARM_LEAD_MINUTES : Z;
  PREWARM_TAIL_MINUTES : Z;
  RATE_LIMIT_ENABLED : bool;
  QUEUE_JOIN_LIMIT_PER_MINUTE : Z;
  ORDER_SUBMIT_LIMIT_PER_MINUTE : Z;
  LOGIN_RATE_LIMIT : string;
  REFRESH_RATE_LIMIT : string;
  REGISTER_RATE_LIMIT : string;
  LOGIN_FAILURE_LIMIT : Z;
  LOGIN_FAILURE_WINDOW_SECONDS : Z;
  TRUSTED_PROXY_COUNT : Z;
  ACCESS_TOKEN_EXPIRE_MINUTES : Z;
  REFRESH_TOKEN_SLIDING_DAYS : Z;
  REFRESH_TOKEN_ABSOLUTE_EXPIRE_DAYS : Z;
  REFRESH_TOKEN_REUSE_GRACE_SECONDS : Z;
}.

Definition set_log_level (v : string) (s : Settings) : Settings :=
  mk_settings (DEBUG s) (LOADTEST_BYPASS_ADMISSION s) (ENABLE_MOCK_PAYMENT s)
    (STRIPE_TIMEOUT_SECONDS s) (STRIPE_EVENT_RETENTION_DAYS s) (STRIPE_WEBHOOK_SECRET s)
    (CORS_ALLOW_ORIGINS s) (MAX_REQUEST_BODY_BYTES s) (REQUEST_TIMEOUT_SECONDS s)
    (DB_STATEMENT_TIMEOUT_MS s) (AUTO_HEAL_LOST_REDIS_STATE s) v (MAX_TICKETS_PER_USER_PER_EVENT s)
    (MAX_TICKETS_PER_ORDER s) (PENDING_TIMEOUT_MINUTES s) (PAYMENT_ABANDON_TIMEOUT_MINUTES s)
    (ORDER_RECLAIM_IDLE_MS s) (ORDER_MAX_DELIVERIES s) (ORDER_BACKLOG_WARN s)
    (QUEUE_LEAD_TIME_SECONDS s) (QUEUE_ADMISSION_BUFFER_SECONDS s) (QUEUE_ADMISSION_RATE s)
    (QUEUE_ADMISSION_TOKEN_TTL_SECONDS s) (ADMISSION_PAUSE_NEW_DEAD_LETTERS s)
    (ADMISSION_PAUSE_BACKLOG_THRESHOLD s) (PREWARM_LEAD_MINUTES s) (PREWARM_TAIL_MINUTES s)
    (RATE_LIMIT_ENABLED s) (QUEUE_JOIN_LIMIT_PER_MINUTE s) (ORDER_SUBMIT_LIMIT_PER_MINUTE s)
    (LOGIN_RATE_LIMIT s) (REFRESH_RATE_LIMIT s) (REGISTER_RATE_LIMIT s) (LOGIN_FAILURE_LIMIT s)
    (LOGIN_FAILURE_WINDOW_SECONDS s) (TRUSTED_PROXY_COUNT s) (ACCESS_TOKEN_EXPIRE_MINUTES s)
    (REFRESH_TOKEN_SLIDING_DAYS s) (REFRESH_TOKEN_ABSOLUTE_EXPIRE_DAYS s)
    (REFRESH_TOKEN_REUSE_GRACE_SECONDS s).

(** The declared defaults; the webhook secret is required outside DEBUG. *)
Definition default_settings (webhook_secret : string) : Settings :=
  mk_settings false false false 10 90 webhook_secret "" 1048576 15 0 true "INFO" 4 10 10 15
    60000 5 1000 600 30 500 120 100 10000 20 15 true 30 10
    "5/minute" "30/minute" "10/hour" 10 900 0 30 14 30 10.

(** [Field(gt=0)], [Field(ge=...)] of the declarations. *)
Definition field_bounds (s : Settings) : bool :=
  negb (Qle_bool (STRIPE_TIMEOUT_SECONDS s) 0) &&
  (7 <=? STRIPE_EVENT_RETENTION_DAYS s) &&
  (0 <? MAX_REQUEST_BODY_BYTES s) && Qle_bool 0 (REQUEST_TIMEOUT_SECONDS s) &&
  (1 <=? PENDING_TIMEOUT_MINUTES s) && (1 <=? PAYMENT_ABANDON_TIMEOUT_MINUTES s) &&
  (1 <=? PREWARM_LEAD_MINUTES s) && (1 <=? PREWARM_TAIL_MINUTES s).

Definition guard_prewarm_covers_the_queue (s : Settings) : bool :=
  negb (PREWARM_LEAD_MINUTES s * 60 <=? QUEUE_LEAD_TIME_SECONDS s).

Definition guard_abandon_after_pending (s : Settings) : bool :=
  negb (PAYMENT_ABANDON_TIMEOUT_MINUTES s <=? PENDING_TIMEOUT_MINUTES s).

(** [cors_allow_origins]: the origins between the commas, stripped, the empty ones
    left out. *)
Definition cors_allow_origins (s : Settings) : list string :=
  string_of_list_ascii <$>
  filter (λ o, o ≠ []) (strip <$> split_comma (list_ascii_of_string (CORS_ALLOW_ORIGINS s))).

Definition guard_cors_origins (s : Settings) : bool :=
  negb (bool_decide ("*" ∈ cors_allow_origins s) && negb (DEBUG s)).

Definition guard_inner_timeouts_are_shorter (s : Settings) : bool :=
  if Qle_bool (REQUEST_TIMEOUT_SECONDS s) 0 then true
  else
    let outer_ms := (REQUEST_TIMEOUT_SECONDS s * 1000)%Q in
    let inner_ms := [inject_Z (DB_STATEMENT_TIMEOUT_MS s);
                     (STRIPE_TIMEOUT_SECONDS s * 1000)%Q] in
    forallb (λ v, negb (Qle_bool outer_ms v)) inner_ms.

Definition guard_webhook_secret (s : Settings) : bool :=
  negb (bool_decide (STRIPE_WEBHOOK_SECRET s = EmptyString) && negb (DEBUG s)).

Definition guard_mock_payment (s : Settings) : bool :=
  negb (ENABLE_MOCK_PAYMENT s && negb (DEBUG s)).

Definition guard_loadtest_bypass (s : Settings) : bool :=
  negb (LOADTEST_BYPASS_ADMISSION s && negb (DEBUG s)).

Definition LOG_LEVELS : list string := ["CRITICAL"; "ERROR"; "WARNING"; "INFO"; "DEBUG"].

(** [_log_level_must_be_known] *)
Definition log_level_must_be_known (v : string) : option string :=
  let level := string_of_list_ascii (upper <$> strip (list_ascii_of_string v)) in
  if bool_decide (level ∈ LOG_LEVELS) then Some level else None.

Definition guards (s : Settings) : bool :=
  guard_prewarm_covers_the_queue s && guard_abandon_after_pending s
  && guard_cors_origins s && guard_inner_timeouts_are_shorter s
  && guard_webhook_secret s && guard_mock_payment s && guard_loadtest_bypass s.

(** [Settings()]: the field validators, of which one rewrites its field, then the
    guards; any that fails stops the process. *)
Definition load_settings (s : Settings) : result exn Settings :=
  match log_level_must_be_known (LOG_LEVEL s) with
  | None => Err ValueError
  | Some level =>
      let s := set_log_level level s in
      if field_bounds s && guards s then Ok s else Err ValueError
  end.

Definition max_purchasable (s : Settings) : Z :=
  Z.min (MAX_TICKETS_PER_ORDER s) (MAX_TICKETS_PER_USER_PER_EVENT s).

Lemma load_settings_guards s0 s :
  load_settings s0 = Ok s → LOG_LEVEL s ∈ LOG_LEVELS ∧ field_bounds s = true ∧ guards s = true.
Proof.
  unfold load_settings, log_level_must_be_known.
  destruct (bool_decide _) eqn:Hlvl; [|done]. apply bool_decide_eq_true in Hlvl.
  case_goal; [|done]. intros [= <-]. split; [done|]. by apply andb_true_iff.
Qed.

(** C38 (unsafe settings never start).  Whatever [load_settings] accepts: the log
    level is one of the five; outside DEBUG the webhook secret is not empty, neither
    the mock payment nor the admission bypass is on, and no origin is a wildcard; the
    second payment timeout is strictly after the first; capacity is there before the
    queue opens; and with a request timeout in force Stripe's and the database's are
    strictly shorter. *)
Theorem load_settings_fail_closed s0 s :
  load_settings s0 = Ok s →
  LOG_LEVEL s ∈ LOG_LEVELS ∧
  (DEBUG s = false → STRIPE_WEBHOOK_SECRET s ≠ EmptyString ∧
     ENABLE_MOCK_PAYMENT s = false ∧ LOADTEST_BYPASS_ADMISSION s = false ∧
     ("*" ∉ cors_allow_origins s)) ∧
  PENDING_TIMEOUT_MINUTES s < PAYMENT_ABANDON_TIMEOUT_MINUTES s ∧
  QUEUE_LEAD_TIME_SECONDS s < PREWARM_LEAD_MINUTES s * 60 ∧
  ((0 < REQUEST_TIMEOUT_SECONDS s)%Q →
     (STRIPE_TIMEOUT_SECONDS s * 1000 < REQUEST_TIMEOUT_SECONDS s * 1000)%Q ∧
     (inject_Z (DB_STATEMENT_TIMEOUT_MS s) < REQUEST_TIMEOUT_SECONDS s * 1000)%Q).
Proof.
  intros (Hlvl & _ & Hg)%load_settings_guards. split; [done|]. unfold guards in Hg. rewrite !andb_true_iff in Hg.
  destruct Hg as [[[[[[Hpre Hab] Hcors] Hin] Hsec] Hmock] Hload].
  unfold guard_prewarm_covers_the_queue in Hpre. unfold guard_abandon_after_pending in Hab.
  unfold guard_cors_origins in Hcors. unfold guard_webhook_secret in Hsec.
  unfold guard_mock_payment in Hmock. unfold guard_loadtest_bypass in Hload.
  split.
  { intros Hd. rewrite Hd in *. simpl in *. rewrite !andb_true_r in *.
    rewrite !negb_true_iff in *. rewrite !bool_decide_eq_false in *. done. }
  zbool. split; [lia|]. split; [lia|]. intros Hpos.
  unfold guard_inner_timeouts_are_shorter in Hin.
  destruct (Qle_bool (REQUEST_TIMEOUT_SECONDS s) 0) eqn:He.
  { apply Qle_bool_iff in He. by apply Qle_not_lt in He. }
  simpl in Hin. rewrite !andb_true_iff, !negb_true_iff in Hin.
  destruct Hin as (H1 & H2 & _).
  split; apply Qnot_le_lt; intros Hle%Qle_bool_iff; congruence.
Qed.

Lemma load_settings_fail_closed_witness :
  load_settings (default_settings "whsec") = Ok (default_settings "whsec") ∧
  load_settings (default_settings "") = Err ValueError ∧
  load_settings (set_log_level "infoo" (default_settings "whsec")) = Err ValueError ∧
  PENDING_TIMEOUT_MINUTES (default_settings "whsec") <
    PAYMENT_ABANDON_TIMEOUT_MINUTES (default_settings "whsec").
Proof.
  split; [done|]. split; [done|]. split; [done|].
  destruct (load_settings_fail_closed (default_settings "whsec") (default_settings "whsec"))
    as (_ & _ & ? & _); [reflexivity|done].
Defined.
