(* ===== verification/Keys.v ===== *)
(** Names and numbers as text: Python's [str(int)] / [int(str)], the key
    builders of every Redis key family, and the fields of the seat-run hashes.
    The other files use typed maps, one per family; [key_str_injective] is what
    makes that faithful: two different keys never share a name. *)

From Stdlib Require Import DecimalString DecimalPos DecimalZ Decimal.
From S2P Require Import Prelude.

#[local] Open Scope string_scope.
#[local] Open Scope Z_scope.

(** ** Integers *)

(** [str(z)] *)
Definition z_str (z : Z) : string := NilZero.string_of_int (Z.to_int z).

(** [int(s)] on plain decimals; what else Python accepts (spaces, a sign [+],
    underscores) is never written by this program. *)
Definition z_parse (s : string) : option Z := Z.of_int <$> NilZero.int_of_string s.

Lemma z_parse_str z : z_parse (z_str z) = Some z.
Proof.
  unfold z_parse, z_str. rewrite NilZero.isi.
  - simpl. f_equal. apply DecimalZ.of_to.
  - destruct z; simpl; [done|injection; apply DecimalPos.Unsigned.to_uint_nonnil|done].
  - destruct z; simpl; [done|done|injection; apply DecimalPos.Unsigned.to_uint_nonnil].
Qed.

#[global] Instance z_str_inj : Inj (=) (=) z_str.
Proof. intros x y H. apply (f_equal z_parse) in H. rewrite !z_parse_str in H. congruence. Qed.

(** ** Splitting on a colon *)

(** [":"] *)
Definition colon : Ascii.ascii := Ascii.ascii_of_nat 58.

Fixpoint no_colon (s : string) : bool :=
  match s with
  | EmptyString => true
  | String c s' => negb (Ascii.eqb c colon) && no_colon s'
  end.

(** [s.split(":")] *)
Fixpoint split_colon (s : string) : list string :=
  match s with
  | EmptyString => [""]
  | String c s' =>
      if Ascii.eqb c colon then "" :: split_colon s'
      else match split_colon s' with
           | [] => [String c ""]
           | h :: t => String c h :: t
           end
  end.

(** [s.partition(":")]: the text before the first colon, and the rest. *)
Fixpoint break_colon (s : string) : string * option string :=
  match s with
  | EmptyString => ("", None)
  | String c s' =>
      if Ascii.eqb c colon then ("", Some s')
      else let '(h, t) := break_colon s' in (String c h, t)
  end.

Lemma split_colon_none s : no_colon s = true → split_colon s = [s].
Proof.
  induction s as [|c s IH]; simpl; [done|]. rewrite andb_true_iff, negb_true_iff.
  intros [-> ?]. by rewrite IH.
Qed.

Lemma split_colon_app a s :
  no_colon a = true → split_colon (a +:+ String colon s) = a :: split_colon s.
Proof.
  induction a as [|c a IH]; simpl; [done|]. rewrite andb_true_iff, negb_true_iff.
  intros [Hc ?]. change (String.append a) with (String.app a). by rewrite Hc, IH.
Qed.

Lemma break_colon_app a s :
  no_colon a = true → break_colon (a +:+ String colon s) = (a, Some s).
Proof.
  induction a as [|c a IH]; simpl; [done|]. rewrite andb_true_iff, negb_true_iff.
  intros [Hc ?]. change (String.append a) with (String.app a). by rewrite Hc, IH.
Qed.

Lemma no_colon_uint d : no_colon (NilZero.string_of_uint d) = true.
Proof.
  assert (∀ d, no_colon (NilEmpty.string_of_uint d) = true) as He
    by (clear d; induction d; simpl; done).
  destruct d; simpl; try done; apply He.
Qed.

Lemma no_colon_z_str z : no_colon (z_str z) = true.
Proof.
  unfold z_str, NilZero.string_of_int. destruct (Z.to_int z); simpl; apply no_colon_uint.
Qed.

(** ** Redis keys *)

Inductive zone_field : Type :=
  | ZRuns | ZEnds | ZGeom | ZAvailable | ZMisses | ZRelaxed.

Inductive event_field : Type :=
  | EAvailable | EPurchased | EMeta | EZonesCache
  | EZone (zone_id : Z) (f : zone_field).

(** Every family of keys the program writes. *)
Inductive redis_key : Type :=
  | KEvent (event_id : Z) (f : event_field)
  | KMetaLock (event_id : Z)
  | KClaim (idempotency_key : string)
  | KReleased (marker : string)
  | KAdmissionPaused
  | KAdmissionUsed (jti : string)
  | KRateLimit (bucket : string)
  | KDraw (event_id : Z)
  | KSalt (event_id : Z)
  | KOrderStream
  | KOrderDead
  | KDeadCursor
  | KAuditStream
  | KAuditDead.

Definition zone_field_str (f : zone_field) : string :=
  match f with
  | ZRuns => "runs" | ZEnds => "ends" | ZGeom => "geom"
  | ZAvailable => "available" | ZMisses => "strict_misses" | ZRelaxed => "relaxed"
  end.

(** [f"{a}:{b}"] *)
Definition join (a b : string) : string := a +:+ String colon b.

Definition event_field_str (f : event_field) : string :=
  match f with
  | EAvailable => "available"
  | EPurchased => "purchased"
  | EMeta => "meta"
  | EZonesCache => join "zones" "cache"
  | EZone z g => join "zone" (join (z_str z) (zone_field_str g))
  end.

Definition key_str (k : redis_key) : string :=
  match k with
  | KEvent e f => join "event" (join (z_str e) (event_field_str f))
  | KMetaLock e => join "lock" (join "event" (join (z_str e) "meta"))
  | KClaim i => join "idempotency" i
  | KReleased m => join "released" m
  | KAdmissionPaused => join "admission" "paused"
  | KAdmissionUsed j => join "admission_used" j
  | KRateLimit b => join "rl" b
  | KDraw e => join "queue" (join (z_str e) "draw")
  | KSalt e => join "queue" (join (z_str e) "salt")
  | KOrderStream => join "orders" "stream"
  | KOrderDead => join "orders" (join "stream" "dead")
  | KDeadCursor => join "orders" (join "stream" (join "dead" "breaker_cursor"))
  | KAuditStream => join "audit" "events"
  | KAuditDead => join "audit" (join "events" "dead")
  end.

Lemma break_join a s : no_colon a = true → break_colon (join a s) = (a, Some s).
Proof. apply break_colon_app. Qed.

Lemma join_inj a b s t :
  no_colon a = true → no_colon b = true → join a s = join b t → a = b ∧ s = t.
Proof.
  intros Ha Hb H. apply (f_equal break_colon) in H. rewrite !break_join in H by done.
  by simplify_eq.
Qed.

(** Peels equal joins apart; different literal segments close the goal. *)
Ltac join_step :=
  match goal with
  | H : join ?a ?s = join ?b ?t |- _ =>
      apply join_inj in H as [? ?]; [|first [apply no_colon_z_str | done]..]
  | H : z_str _ = z_str _ |- _ => apply (inj z_str) in H
  | H : ?a = ?b |- _ => discriminate H
  end.

Lemma event_field_str_inj f g : event_field_str f = event_field_str g → f = g.
Proof.
  destruct f, g; simpl; intros H; try done; try (exfalso; repeat join_step; done).
  repeat join_step. subst. f_equal. by destruct f, f0.
Qed.

(** Redis keys never collide.  The strings the key builders produce are
    different for different keys, over all families, ids, idempotency keys,
    markers, token ids and rate-limit buckets, colons inside them included. *)
Theorem key_str_injective k1 k2 : key_str k1 = key_str k2 → k1 = k2.
Proof.
  destruct k1, k2; cbn [key_str]; intros H; try done;
    repeat join_step; subst; try done; try (exfalso; by repeat join_step).
  f_equal. by apply event_field_str_inj.
Qed.

(** ** Fields of the seat-run hashes *)

(** [f"{block}:{pos}"], on both the Python and the Lua side. *)
Definition run_field (block pos : Z) : string := join (z_str block) (z_str pos).

(** [block_id, start = field.split(":")] and the two [int(...)] *)
Definition run_field_parse (s : string) : option (Z * Z) :=
  match split_colon s with
  | [b; p] =>
      match z_parse b, z_parse p with
      | Some b, Some p => Some (b, p)
      | _, _ => None
      end
  | _ => None
  end.

(** Run fields round-trip.  Reading back the field name of a free run gives
    the block and position it was written for, so the hash is a map over pairs. *)
Theorem run_field_roundtrip block pos :
  run_field_parse (run_field block pos) = Some (block, pos).
Proof.
  unfold run_field_parse, run_field, join.
  rewrite split_colon_app, split_colon_none by apply no_colon_z_str.
  by rewrite !z_parse_str.
Qed.

(** ** Waiting-room channels *)

(** [_channel(event_id)] *)
Definition channel (event_id : Z) : string := join "queue" (join (z_str event_id) "events").

Definition GLOBAL_CHANNEL : string := join "queue" (join "all" "events").

(** [_event_id_from_channel] *)
Definition event_id_from_channel (s : string) : option Z :=
  match split_colon s with
  | [q; e; x] =>
      if bool_decide (q = "queue" ∧ x = "events") then z_parse e else None
  | _ => None
  end.

(** Channel names round-trip.  A poke published for an event is routed to
    that event, and one on the global channel to no single event. *)
Theorem channel_roundtrip event_id :
  event_id_from_channel (channel event_id) = Some event_id ∧
  event_id_from_channel GLOBAL_CHANNEL = None.
Proof.
  split; [|done]. unfold event_id_from_channel, channel, join.
  rewrite !split_colon_app by first [apply no_colon_z_str|done].
  rewrite split_colon_none by done. simpl. apply z_parse_str.
Qed.
