(* ===== verification/Uuid.v ===== *)
(** [uuid.UUID] as far as the idempotency keys need it: what [UUID(s)] accepts,
    what [str(u)] prints.  A UUID is its 32 lower-case hexadecimal digits. *)

From Stdlib Require Import Ascii.
From S2P Require Import Prelude.

#[local] Open Scope nat_scope.

Fixpoint chars (s : string) : list ascii :=
  match s with EmptyString => [] | String c s' => c :: chars s' end.
Fixpoint of_chars (l : list ascii) : string :=
  match l with [] => EmptyString | c :: l' => String c (of_chars l') end.

(** [s.replace(pat, "")]; [skip] characters of a match are left to drop. *)
Fixpoint remove_all (pat : list ascii) (skip : nat) (s : list ascii) : list ascii :=
  match s with
  | [] => []
  | c :: s' =>
      match skip with
      | S k => remove_all pat k s'
      | O => if bool_decide (take (length pat) s = pat)
             then remove_all pat (pred (length pat)) s' else c :: remove_all pat 0 s'
      end
  end.

Definition brace (c : ascii) : bool := bool_decide (c = "{"%char) || bool_decide (c = "}"%char).

Fixpoint lstrip (s : list ascii) : list ascii :=
  match s with c :: s' => if brace c then lstrip s' else s | [] => [] end.
(** [s.strip("{}")] *)
Definition strip_braces (s : list ascii) : list ascii := reverse (lstrip (reverse (lstrip s))).

(** A hexadecimal digit in lower case. *)
Definition lower_hex (c : ascii) : option ascii :=
  let n := nat_of_ascii c in
  if (48 <=? n) && (n <=? 57) then Some c
  else if (97 <=? n) && (n <=? 102) then Some c
  else if (65 <=? n) && (n <=? 70) then Some (ascii_of_nat (n + 32))
  else None.

(** [UUID(s)]; [None]: ValueError. *)
Definition uuid_of (s : string) : option string :=
  let hex := remove_all (chars "urn:") 0 (chars s) in
  let hex := remove_all (chars "uuid:") 0 hex in
  let hex := remove_all ["-"%char] 0 (strip_braces hex) in
  if negb (length hex =? 32) then None else of_chars <$> mapM lower_hex hex.

(** The digits of a UUID. *)
Definition is_uuid (u : string) : Prop :=
  length (chars u) = 32 ∧ Forall (λ c, lower_hex c = Some c) (chars u).

#[global] Instance is_uuid_dec u : Decision (is_uuid u).
Proof. unfold is_uuid. apply _. Defined.

(** [str(u)] *)
Definition uuid_str (u : string) : string :=
  let l := chars u in
  let dash := ["-"%char] in
  of_chars (take 8 l ++ dash ++ take 4 (drop 8 l) ++ dash ++ take 4 (drop 12 l) ++ dash ++
            take 4 (drop 16 l) ++ dash ++ drop 20 l).

Lemma chars_of_chars l : chars (of_chars l) = l.
Proof. induction l; simpl; congruence. Qed.
Lemma of_chars_chars s : of_chars (chars s) = s.
Proof. induction s; simpl; congruence. Qed.

(** Digits contain no 'u', no brace and no dash. *)
Definition plain (c : ascii) : bool :=
  negb (brace c) && negb (bool_decide (c = "-"%char)) && negb (bool_decide (c = "u"%char)).

Lemma lower_hex_plain c : lower_hex c = Some c → plain c = true.
Proof.
  intros H. destruct (plain c) eqn:Hp; [done|exfalso]. unfold plain in Hp.
  rewrite !andb_false_iff, !negb_false_iff in Hp. unfold brace in Hp.
  rewrite orb_true_iff, !bool_decide_eq_true in Hp.
  by destruct Hp as [[[->| ->]| ->]| ->]; vm_compute in H.
Qed.

(** A pattern that starts with 'u' is not found among dashes and digits. *)
Lemma remove_all_absent pat s :
  Forall (λ c, c ≠ "u"%char) s → remove_all ("u"%char :: pat) 0 s = s.
Proof.
  induction 1 as [|c s Hc _ IH]; simpl; [done|].
  rewrite bool_decide_eq_false_2 by (intros H; injection H; congruence). by rewrite IH.
Qed.

Lemma remove_all_dash s t :
  Forall (λ c, c ≠ "-"%char) s → remove_all ["-"%char] 0 (s ++ t) = s ++ remove_all ["-"%char] 0 t.
Proof.
  induction 1 as [|c s Hc _ IH]; simpl; [done|].
  rewrite bool_decide_eq_false_2 by (intros H; injection H; congruence). by rewrite IH.
Qed.

Lemma remove_all_nodash s : Forall (λ c, c ≠ "-"%char) s → remove_all ["-"%char] 0 s = s.
Proof. intros H. rewrite <-(app_nil_r s) at 1. rewrite remove_all_dash by done. apply app_nil_r. Qed.

Lemma lstrip_id s : Forall (λ c, brace c = false) s → lstrip s = s.
Proof. destruct 1 as [|c s Hc Hs]; simpl; [done|]. by rewrite Hc. Qed.

Lemma strip_braces_id s : Forall (λ c, brace c = false) s → strip_braces s = s.
Proof.
  intros H. unfold strip_braces. rewrite (lstrip_id s), lstrip_id by (by rewrite ?Forall_reverse).
  apply reverse_involutive.
Qed.

Lemma mapM_lower s : Forall (λ c, lower_hex c = Some c) s → mapM lower_hex s = Some s.
Proof. induction 1 as [|c s Hc _ IH]; simpl; [done|]. by rewrite Hc, IH. Qed.

(** Keys survive the stream.  Printing a UUID and reading it back gives the
    same UUID: the key the worker writes to the database is the one the client
    sent, whatever its digits. *)
Lemma uuid_of_str u : is_uuid u → uuid_of (uuid_str u) = Some u.
Proof.
  intros [Hlen Hhex]. unfold uuid_of, uuid_str. rewrite chars_of_chars.
  set (l := chars u) in *. set (d := "-"%char).
  assert (Hplain : Forall (λ c, plain c = true) l).
  { eapply Forall_impl; [exact Hhex|]. intros; by apply lower_hex_plain. }
  assert (Hsub : ∀ P : ascii → Prop, (∀ c, plain c = true → P c) → P d →
    Forall P (take 8 l ++ [d] ++ take 4 (drop 8 l) ++ [d] ++ take 4 (drop 12 l) ++ [d] ++
              take 4 (drop 16 l) ++ [d] ++ drop 20 l)).
  { intros P HP Hd. assert (Forall P l) by (eapply Forall_impl; [exact Hplain|]; auto).
    rewrite !Forall_app, !Forall_singleton. auto 20 using Forall_take, Forall_drop. }
  assert (Hsplit : ∀ c, plain c = true → c ≠ "-"%char ∧ c ≠ "u"%char ∧ brace c = false).
  { intros c. unfold plain. rewrite !andb_true_iff, !negb_true_iff, !bool_decide_eq_false. tauto. }
  change (chars "urn:") with ("u"%char :: chars "rn:").
  change (chars "uuid:") with ("u"%char :: chars "uid:").
  rewrite (remove_all_absent (chars "rn:")) by (apply Hsub; [intros; by apply Hsplit|done]).
  rewrite (remove_all_absent (chars "uid:")) by (apply Hsub; [intros; by apply Hsplit|done]).
  rewrite strip_braces_id by (apply Hsub; [intros; by apply Hsplit|done]).
  assert (Hnd : Forall (λ c, c ≠ "-"%char) l)
    by (eapply Forall_impl; [exact Hplain|]; intros; by apply Hsplit).
  assert (Hhyphens : ∀ a b c e f, Forall (λ c, c ≠ "-"%char) (a ++ b ++ c ++ e ++ f) →
    remove_all [d] 0 (a ++ [d] ++ b ++ [d] ++ c ++ [d] ++ e ++ [d] ++ f) = a ++ b ++ c ++ e ++ f).
  { intros a b c e f. rewrite !Forall_app. intros (Ha & Hb & Hc & He & Hf).
    do 4 (rewrite remove_all_dash by done; cbn [app remove_all length take];
          rewrite bool_decide_eq_true_2 by done; cbn [pred]; f_equal).
    by apply remove_all_nodash. }
  assert (Hjoin : take 8 l ++ take 4 (drop 8 l) ++ take 4 (drop 12 l) ++ take 4 (drop 16 l) ++
                  drop 20 l = l).
  { assert (Hp : ∀ m, take 4 (drop m l) ++ drop (m + 4) l = drop m l)
      by (intros m; rewrite <-drop_drop; apply take_drop).
    rewrite (Hp 16 : take 4 (drop 16 l) ++ drop 20 l = _).
    rewrite (Hp 12 : take 4 (drop 12 l) ++ drop 16 l = _).
    rewrite (Hp 8 : take 4 (drop 8 l) ++ drop 12 l = _). apply take_drop. }
  rewrite Hhyphens by (by rewrite Hjoin). rewrite Hjoin, Hlen. cbn [Nat.eqb negb].
  rewrite mapM_lower by done. simpl. f_equal. apply of_chars_chars.
Qed.

Example uuid_examples :
  let u := "0123456789abcdef0123456789abcdef"%string in
  uuid_str u = "01234567-89ab-cdef-0123-456789abcdef"%string ∧ uuid_of (uuid_str u) = Some u ∧
  uuid_of "{01234567-89AB-CDEF-0123-456789ABCDEF}" = Some u ∧ uuid_of "not a uuid" = None.
Proof. by vm_compute. Qed.
