(* ===== verification/Binary64.v ===== *)
(** Double precision, as far as the clock arithmetic of the waiting room uses it:
    rounding a rational to the nearest 53-bit float, ties to even, and the error it
    makes.  Exponents are unbounded: the instants and rates that are rounded here
    are far from the underflow and overflow of the type. *)

From Stdlib Require Import QArith Qabs Qround Qpower Lqa.
From S2P Require Import Prelude.

#[local] Open Scope Z_scope.

(** ** Rounding *)

(** To the nearest integer, a tie to the even one. *)
Definition round_half_even (x : Q) : Z :=
  let f := Qfloor x in
  match Qcompare (x - inject_Z f) (1 # 2) with
  | Lt => f
  | Gt => f + 1
  | Eq => if Z.even f then f else f + 1
  end.

Definition pow2 (k : Z) : Q := Qpower 2 k.

(** The weight of the last of the 53 bits of [q]: the [k] with
    2^52 <= |q| / 2^k < 2^53. *)
Definition ulp_exponent (q : Q) : Z :=
  let k := Z.log2 (Z.abs (Qnum q)) - Z.log2 (Zpos (Qden q)) - 53 in
  if Qle_bool (pow2 (k + 53)) (Qabs q) then k + 1 else k.

Definition rnd (q : Q) : Q :=
  if Qnum q =? 0 then 0%Q
  else let k := ulp_exponent q in Qred (inject_Z (round_half_even (q / pow2 k)) * pow2 k).

(** [int(x)] *)
Definition trunc (x : Q) : Z := Z.quot (Qnum x) (Zpos (Qden x)).

(** ** The error *)

Definition UNIT_ROUNDOFF : Q := 1 # 9007199254740992.      (* 2^-53 *)

Lemma round_half_even_error x : (Qabs (inject_Z (round_half_even x) - x) <= 1 # 2)%Q.
Proof.
  pose proof (Qfloor_le x) as Hlo. pose proof (Qlt_floor x) as Hhi.
  rewrite inject_Z_plus in Hhi. change (inject_Z 1) with 1%Q in Hhi.
  apply Qabs_Qle_condition. unfold round_half_even.
  destruct (Qcompare_spec (x - inject_Z (Qfloor x)) (1 # 2)); [destruct (Z.even _)|..];
    rewrite ?inject_Z_plus; change (inject_Z 1) with 1%Q; lra.
Qed.

Lemma pow2_pos k : (0 < pow2 k)%Q.
Proof. unfold pow2. by apply Qpower_0_lt. Qed.

Lemma pow2_add a b : (pow2 (a + b) == pow2 a * pow2 b)%Q.
Proof. unfold pow2. by apply Qpower_plus. Qed.

Lemma pow2_le_log n : 0 < n → (pow2 (Z.log2 n) <= inject_Z n)%Q.
Proof.
  intros Hn. destruct (Z.log2_spec n Hn) as [H _]. unfold pow2.
  rewrite Zle_Qle in H. rewrite Zpower_Qpower in H by apply Z.log2_nonneg. exact H.
Qed.

Lemma pow2_gt_log n : 0 < n → (inject_Z n < pow2 (Z.log2 n + 1))%Q.
Proof.
  intros Hn. destruct (Z.log2_spec n Hn) as [_ H]. unfold pow2.
  rewrite Zlt_Qlt in H. rewrite Zpower_Qpower in H by (pose proof (Z.log2_nonneg n); lia). exact H.
Qed.

Lemma Qabs_num q : (Qabs q == inject_Z (Z.abs (Qnum q)) / inject_Z (Zpos (Qden q)))%Q.
Proof. destruct q as [n d]. simpl. apply Qmake_Qdiv. Qed.

(** The bits of [q] fill at least 52 places above the last one. *)
Lemma ulp_exponent_le q : Qnum q ≠ 0 → (pow2 (ulp_exponent q + 52) <= Qabs q)%Q.
Proof.
  intros Hq. unfold ulp_exponent. set (a := Z.log2 (Z.abs (Qnum q))). set (b := Z.log2 (Zpos (Qden q))).
  destruct (Qle_bool _ _) eqn:H.
  { apply Qle_bool_iff in H. by replace (a - b - 53 + 1 + 52) with (a - b - 53 + 53) by lia. }
  replace (a - b - 53 + 52) with (a - (b + 1)) by lia. rewrite Qabs_num.
  apply Qle_shift_div_l; [by apply (Qlt_le_trans _ 1); [|rewrite <-(Zle_Qle 1); lia]|].
  assert (Hd : (inject_Z (Zpos (Qden q)) < pow2 (b + 1))%Q) by (apply pow2_gt_log; lia).
  assert (Hn : (pow2 a <= inject_Z (Z.abs (Qnum q)))%Q) by (apply pow2_le_log; lia).
  eapply Qle_trans; [|exact Hn].
  replace a with ((a - (b + 1)) + (b + 1)) at 2 by lia. rewrite pow2_add.
  apply Qmult_le_l; [apply pow2_pos|]. by apply Qlt_le_weak.
Qed.

(** Rounding moves a number by at most half a unit in the last place. *)
Lemma rnd_error q : (Qabs (rnd q - q) <= UNIT_ROUNDOFF * Qabs q)%Q.
Proof.
  unfold rnd. destruct (Qnum q =? 0) eqn:Hq.
  { apply Z.eqb_eq in Hq. destruct q as [n d]. simpl in Hq. subst n. by vm_compute. }
  apply Z.eqb_neq in Hq. set (k := ulp_exponent q). pose proof (pow2_pos k) as Hk.
  rewrite Qred_correct. set (n := round_half_even (q / pow2 k)).
  assert (Hx : (inject_Z n * pow2 k - q == (inject_Z n - q / pow2 k) * pow2 k)%Q)
    by (field; lra).
  rewrite Hx, Qabs_Qmult, (Qabs_pos (pow2 k)) by lra.
  pose proof (round_half_even_error (q / pow2 k)) as He. fold n in He.
  pose proof (ulp_exponent_le q Hq) as Hu. fold k in Hu. rewrite pow2_add in Hu.
  eapply Qle_trans; [apply Qmult_le_compat_r; [exact He|lra]|].
  change (pow2 52) with (4503599627370496 # 1)%Q in Hu. unfold UNIT_ROUNDOFF. lra.
Qed.

(** With a bound on the size, a bound on the error. *)
Lemma rnd_error_bound q B : (Qabs q <= B → Qabs (rnd q - q) <= UNIT_ROUNDOFF * B)%Q.
Proof.
  intros HB. eapply Qle_trans; [apply rnd_error|]. apply Qmult_le_l; [by vm_compute|done].
Qed.

Lemma trunc_floor x : (0 <= x)%Q → trunc x = Qfloor x.
Proof. destruct x as [n d]. unfold Qle, trunc. simpl. intros. apply Z.quot_div_nonneg; lia. Qed.

(** [int(x)] has reached [n] when [x] has. *)
Lemma trunc_ge x n : (0 <= x)%Q → n <= trunc x ↔ (inject_Z n <= x)%Q.
Proof.
  intros Hx. rewrite trunc_floor by done. split; intros H.
  - eapply Qle_trans; [|apply Qfloor_le]. by rewrite <-Zle_Qle.
  - rewrite <-(Qfloor_Z n). by apply Qfloor_resp_le.
Qed.

(** A double is left as it is: 0.1 is not one, its rounding is. *)
Example rnd_tenth : rnd (1 # 10) = (3602879701896397 # 36028797018963968)%Q ∧ rnd (rnd (1 # 10)) = rnd (1 # 10).
Proof. by vm_compute. Qed.
