(* ===== verification/Sha256.v ===== *)
(** [hashlib.sha256] on byte strings, as FIPS 180-4 states it: 32-bit words as
    integers with the wrap-around written out.  The draw score of the waiting
    room and the stored refresh tokens are made with it. *)

From Stdlib Require Import Ascii.
From S2P Require Import Prelude Uuid.

#[local] Open Scope Z_scope.

(** ** Words *)

Definition wrap32 (x : Z) : Z := x mod 2 ^ 32.
Definition add32 (x y : Z) : Z := wrap32 (x + y).
Definition not32 (x : Z) : Z := Z.lxor x (2 ^ 32 - 1).
Definition rotr (n x : Z) : Z := Z.lor (Z.shiftr x n) (wrap32 (Z.shiftl x (32 - n))).

Definition ch (x y z : Z) : Z := Z.lxor (Z.land x y) (Z.land (not32 x) z).
Definition maj (x y z : Z) : Z := Z.lxor (Z.lxor (Z.land x y) (Z.land x z)) (Z.land y z).
Definition big_sigma0 (x : Z) : Z := Z.lxor (Z.lxor (rotr 2 x) (rotr 13 x)) (rotr 22 x).
Definition big_sigma1 (x : Z) : Z := Z.lxor (Z.lxor (rotr 6 x) (rotr 11 x)) (rotr 25 x).
Definition small_sigma0 (x : Z) : Z := Z.lxor (Z.lxor (rotr 7 x) (rotr 18 x)) (Z.shiftr x 3).
Definition small_sigma1 (x : Z) : Z := Z.lxor (Z.lxor (rotr 17 x) (rotr 19 x)) (Z.shiftr x 10).

Definition round_constants : list Z :=
  [1116352408; 1899447441; 3049323471; 3921009573; 961987163; 1508970993; 2453635748;
   2870763221; 3624381080; 310598401; 607225278; 1426881987; 1925078388; 2162078206;
   2614888103; 3248222580; 3835390401; 4022224774; 264347078; 604807628; 770255983;
   1249150122; 1555081692; 1996064986; 2554220882; 2821834349; 2952996808; 3210313671;
   3336571891; 3584528711; 113926993; 338241895; 666307205; 773529912; 1294757372;
   1396182291; 1695183700; 1986661051; 2177026350; 2456956037; 2730485921; 2820302411;
   3259730800; 3345764771; 3516065817; 3600352804; 4094571909; 275423344; 430227734;
   506948616; 659060556; 883997877; 958139571; 1322822218; 1537002063; 1747873779;
   1955562222; 2024104815; 2227730452; 2361852424; 2428436474; 2756734187; 3204031479;
   3329325298].

Definition initial_hash : list Z :=
  [1779033703; 3144134277; 1013904242; 2773480762; 1359893119; 2600822924; 528734635;
   1541459225].

(** ** Blocks *)

Definition byte_of (c : ascii) : Z := Z.of_nat (nat_of_ascii c).

(** Big-endian: the bytes of a number, and the number of some bytes. *)
Fixpoint be_bytes (n : nat) (x : Z) : list Z :=
  match n with
  | O => []
  | S n' => be_bytes n' (Z.shiftr x 8) ++ [x mod 256]
  end.
Definition be_value (l : list Z) : Z := foldl (λ acc b, acc * 256 + b) 0 l.

(** The message, a one bit, zeros, and its length in bits. *)
Definition padded (msg : list Z) : list Z :=
  let len := Z.of_nat (length msg) in
  let zeros := (55 - len) mod 64 in
  msg ++ [128] ++ replicate (Z.to_nat zeros) 0 ++ be_bytes 8 (len * 8).

Fixpoint words (fuel : nat) (l : list Z) : list Z :=
  match fuel with
  | O => []
  | S fuel' => be_value (take 4 l) :: words fuel' (drop 4 l)
  end.

(** The message schedule; [w] holds the last sixteen words, oldest first. *)
Fixpoint schedule (n : nat) (w : list Z) : list Z :=
  match n with
  | O => []
  | S n' =>
      let nth i := default 0 (w !! i) in
      let next := add32 (add32 (small_sigma1 (nth 14%nat)) (nth 9%nat))
                        (add32 (small_sigma0 (nth 1%nat)) (nth 0%nat)) in
      nth 0%nat :: schedule n' (drop 1 w ++ [next])
  end.

Definition sha_round (st : list Z) (kw : Z * Z) : list Z :=
  match st with
  | [a; b; c; d; e; f; g; h] =>
      let t1 := add32 (add32 (add32 h (big_sigma1 e)) (ch e f g)) (add32 kw.1 kw.2) in
      let t2 := add32 (big_sigma0 a) (maj a b c) in
      [add32 t1 t2; a; b; c; add32 d t1; e; f; g]
  | _ => st
  end.

Definition compress (h block : list Z) : list Z :=
  zip_with add32 h
    (foldl sha_round h (zip round_constants (schedule 64 (words 16 block)))).

Fixpoint blocks (fuel : nat) (h msg : list Z) : list Z :=
  match fuel with
  | O => h
  | S fuel' =>
      match msg with
      | [] => h
      | _ => blocks fuel' (compress h (take 64 msg)) (drop 64 msg)
      end
  end.

(** The digest of some bytes; there are fewer blocks than bytes. *)
Definition sha256_bytes (bytes : list Z) : list Z :=
  let msg := padded bytes in
  mjoin (be_bytes 4 <$> blocks (length msg) initial_hash msg).

(** [hashlib.sha256(s.encode()).digest()] *)
Definition sha256 (s : string) : list Z := sha256_bytes (byte_of <$> chars s).

(** HMAC-SHA-256: a key longer than a block is hashed first. *)
Definition hmac_block (key : list Z) : list Z :=
  let key := if (64 <? length key)%nat then sha256_bytes key else key in
  key ++ replicate (64 - length key) 0.
Definition hmac_sha256 (key message : list Z) : list Z :=
  let pad c := Z.lxor c <$> hmac_block key in
  sha256_bytes (pad 92 ++ sha256_bytes (pad 54 ++ message)).

(** [.hexdigest()] *)
Definition hex_digit (n : Z) : ascii :=
  ascii_of_nat (Z.to_nat (if n <? 10 then n + 48 else n + 87)).
Definition hexdigest (l : list Z) : string :=
  of_chars (mjoin ((λ b, [hex_digit (b / 16); hex_digit (b mod 16)]) <$> l)).

(** The vectors of the standard. *)
Example sha256_vectors :
  hexdigest (sha256 "abc") =
    "ba7816bf8f01cfea414140de5dae2223b00361a396177a9cb410ff61f20015ad"%string ∧
  hexdigest (sha256 "") =
    "e3b0c44298fc1c149afbf4c8996fb92427ae41e4649b934ca495991b7852b855"%string ∧
  hexdigest (sha256 "abcdbcdecdefdefgefghfghighijhijkijkljklmklmnlmnomnopnopq") =
    "248d6a61d20638b8e5c026930c3e6039a33ce45964ff2167f6ecedd419db06c1"%string.
Proof. split_and!; vm_compute; reflexivity. Qed.

(** ** Ranges *)

(** The second test case of RFC 4231. *)
Example hmac_vector :
  hexdigest (hmac_sha256 (byte_of <$> chars "Jefe") (byte_of <$> chars "what do ya want for nothing?")) =
  "5bdcc146bf60754e6a042426089575c75a003f089d2739839dec58b964ec3843".
Proof. by vm_compute. Qed.

Lemma be_bytes_range n x : Forall (λ b, 0 <= b < 256) (be_bytes n x).
Proof.
  revert x. induction n as [|n IH]; intros x; simpl; [constructor|].
  apply Forall_app. split; [done|]. constructor; [|constructor]. apply Z.mod_pos_bound. lia.
Qed.

Lemma sha256_range s : Forall (λ b, 0 <= b < 256) (sha256 s).
Proof.
  unfold sha256, sha256_bytes. induction (blocks _ _ _) as [|w l IH]; [constructor|].
  change (mjoin (be_bytes 4 <$> w :: l)) with (be_bytes 4 w ++ mjoin (be_bytes 4 <$> l)).
  apply Forall_app. split; [apply be_bytes_range|done].
Qed.

Lemma be_value_acc l acc :
  0 <= acc → Forall (λ b, 0 <= b < 256) l →
  0 <= foldl (λ acc b, acc * 256 + b) acc l < (acc + 1) * 256 ^ Z.of_nat (length l).
Proof.
  intros Ha Hl. revert acc Ha. induction Hl as [|b l Hb _ IH]; intros acc Ha; simpl; [lia|].
  specialize (IH (acc * 256 + b) ltac:(lia)). split; [lia|].
  rewrite Nat2Z.inj_succ, Z.pow_succ_r by lia.
  assert (0 < 256 ^ Z.of_nat (length l)) by (apply Z.pow_pos_nonneg; lia). nia.
Qed.

Lemma be_value_range l :
  Forall (λ b, 0 <= b < 256) l → 0 <= be_value l < 256 ^ Z.of_nat (length l).
Proof. intros Hl. pose proof (be_value_acc l 0 ltac:(lia) Hl). unfold be_value. lia. Qed.
