(* ===== verification/Redis.v ===== *)
(** The part of Redis the inventory and the seat map live in: one typed map per
    key family (Keys.v), the two order streams, and the commands the scripts
    and the Python code use.  A hash without fields is the same as no key. *)

From Stdlib Require Import QArith.
From S2P Require Import Prelude Keys.

#[local] Open Scope Z_scope.

(** ** Streams *)

(** A stream id: milliseconds and sequence number. *)
Definition sid : Type := Z * Z.
Definition fields : Type := gmap string string.

Definition sid_ltb (a b : sid) : bool :=
  (a.1 <? b.1) || ((a.1 =? b.1) && (a.2 <? b.2)).

(** An entry delivered to a consumer of the group and not acknowledged yet. *)
Record pending : Type := mk_pending {
  p_consumer : string;
  p_delivered : Z;      (* when it was last delivered *)
  p_count : Z;          (* how many times *)
}.

(** A stream with its one consumer group. *)
Record Stream : Type := mk_stream {
  s_entries : list (sid * fields);
  s_last : sid;             (* the last id generated *)
  s_cursor : sid;           (* the last id delivered to the group *)
  s_pel : gmap sid pending; (* the pending entries list *)
}.

Definition empty_stream : Stream := mk_stream [] (0, 0) (0, 0) ∅.

(** The id [XADD] picks for '*'. *)
Definition next_sid (now : Z) (s : Stream) : sid :=
  let '(ms, sq) := s_last s in
  if ms <? now then (now, 0) else (ms, sq + 1).

Definition xadd (now : Z) (f : fields) (s : Stream) : sid * Stream :=
  let i := next_sid now s in
  (i, mk_stream (s_entries s ++ [(i, f)]) i (s_cursor s) (s_pel s)).

Definition xlen (s : Stream) : Z := Z.of_nat (length (s_entries s)).

(** ** The keyspace *)

Record Redis : Type := mk_redis {
  r_now : Z;   (* the server clock, in milliseconds *)
  r_available : gmap Z Z;   (* event:{e}:available *)
  r_purchased : gmap Z (gmap Z Z);   (* event:{e}:purchased, a hash by user *)
  r_claims : gmap string (string * Z);   (* idempotency:{key}, with its expiry *)
  r_released : gmap string Z;   (* released:{marker}, its expiry *)
  r_stream : Stream;   (* orders:stream *)
  r_dead : Stream;   (* orders:stream:dead *)
  r_runs : gmap (Z * Z) (gmap (Z * Z) Z);   (* event:{e}:zone:{z}:runs, (block, start) to length *)
  r_ends : gmap (Z * Z) (gmap (Z * Z) Z);   (* event:{e}:zone:{z}:ends, (block, end) to start *)
  r_geom : gmap (Z * Z) (gmap Z (Z * Q * Q));   (* event:{e}:zone:{z}:geom, block to cap:base:edge *)
  r_zone_available : gmap (Z * Z) Z;   (* event:{e}:zone:{z}:available *)
  r_misses : gmap (Z * Z) (Z * Z);   (* event:{e}:zone:{z}:strict_misses, with its expiry *)
  r_relaxed : gset (Z * Z);   (* event:{e}:zone:{z}:relaxed *)
  r_pokes : list Z;   (* what was published on queue:{e}:events, newest first *)
}.

(** Field updates. *)
Definition set_now (v : Z) (r : Redis) : Redis :=
  mk_redis v (r_available r) (r_purchased r) (r_claims r) (r_released r) (r_stream r) (r_dead r) (r_runs r) (r_ends r) (r_geom r) (r_zone_available r) (r_misses r) (r_relaxed r) (r_pokes r).
Definition set_available (v : gmap Z Z) (r : Redis) : Redis :=
  mk_redis (r_now r) v (r_purchased r) (r_claims r) (r_released r) (r_stream r) (r_dead r) (r_runs r) (r_ends r) (r_geom r) (r_zone_available r) (r_misses r) (r_relaxed r) (r_pokes r).
Definition set_purchased (v : gmap Z (gmap Z Z)) (r : Redis) : Redis :=
  mk_redis (r_now r) (r_available r) v (r_claims r) (r_released r) (r_stream r) (r_dead r) (r_runs r) (r_ends r) (r_geom r) (r_zone_available r) (r_misses r) (r_relaxed r) (r_pokes r).
Definition set_claims (v : gmap string (string * Z)) (r : Redis) : Redis :=
  mk_redis (r_now r) (r_available r) (r_purchased r) v (r_released r) (r_stream r) (r_dead r) (r_runs r) (r_ends r) (r_geom r) (r_zone_available r) (r_misses r) (r_relaxed r) (r_pokes r).
Definition set_released (v : gmap string Z) (r : Redis) : Redis :=
  mk_redis (r_now r) (r_available r) (r_purchased r) (r_claims r) v (r_stream r) (r_dead r) (r_runs r) (r_ends r) (r_geom r) (r_zone_available r) (r_misses r) (r_relaxed r) (r_pokes r).
Definition set_stream (v : Stream) (r : Redis) : Redis :=
  mk_redis (r_now r) (r_available r) (r_purchased r) (r_claims r) (r_released r) v (r_dead r) (r_runs r) (r_ends r) (r_geom r) (r_zone_available r) (r_misses r) (r_relaxed r) (r_pokes r).
Definition set_dead (v : Stream) (r : Redis) : Redis :=
  mk_redis (r_now r) (r_available r) (r_purchased r) (r_claims r) (r_released r) (r_stream r) v (r_runs r) (r_ends r) (r_geom r) (r_zone_available r) (r_misses r) (r_relaxed r) (r_pokes r).
Definition set_runs (v : gmap (Z * Z) (gmap (Z * Z) Z)) (r : Redis) : Redis :=
  mk_redis (r_now r) (r_available r) (r_purchased r) (r_claims r) (r_released r) (r_stream r) (r_dead r) v (r_ends r) (r_geom r) (r_zone_available r) (r_misses r) (r_relaxed r) (r_pokes r).
Definition set_ends (v : gmap (Z * Z) (gmap (Z * Z) Z)) (r : Redis) : Redis :=
  mk_redis (r_now r) (r_available r) (r_purchased r) (r_claims r) (r_released r) (r_stream r) (r_dead r) (r_runs r) v (r_geom r) (r_zone_available r) (r_misses r) (r_relaxed r) (r_pokes r).
Definition set_geom (v : gmap (Z * Z) (gmap Z (Z * Q * Q))) (r : Redis) : Redis :=
  mk_redis (r_now r) (r_available r) (r_purchased r) (r_claims r) (r_released r) (r_stream r) (r_dead r) (r_runs r) (r_ends r) v (r_zone_available r) (r_misses r) (r_relaxed r) (r_pokes r).
Definition set_zone_available (v : gmap (Z * Z) Z) (r : Redis) : Redis :=
  mk_redis (r_now r) (r_available r) (r_purchased r) (r_claims r) (r_released r) (r_stream r) (r_dead r) (r_runs r) (r_ends r) (r_geom r) v (r_misses r) (r_relaxed r) (r_pokes r).
Definition set_misses (v : gmap (Z * Z) (Z * Z)) (r : Redis) : Redis :=
  mk_redis (r_now r) (r_available r) (r_purchased r) (r_claims r) (r_released r) (r_stream r) (r_dead r) (r_runs r) (r_ends r) (r_geom r) (r_zone_available r) v (r_relaxed r) (r_pokes r).
Definition set_relaxed (v : gset (Z * Z)) (r : Redis) : Redis :=
  mk_redis (r_now r) (r_available r) (r_purchased r) (r_claims r) (r_released r) (r_stream r) (r_dead r) (r_runs r) (r_ends r) (r_geom r) (r_zone_available r) (r_misses r) v (r_pokes r).
Definition set_pokes (v : list Z) (r : Redis) : Redis :=
  mk_redis (r_now r) (r_available r) (r_purchased r) (r_claims r) (r_released r) (r_stream r) (r_dead r) (r_runs r) (r_ends r) (r_geom r) (r_zone_available r) (r_misses r) (r_relaxed r) v.

Definition empty_redis : Redis :=
  mk_redis 0 ∅ ∅ ∅ ∅ empty_stream empty_stream ∅ ∅ ∅ ∅ ∅ ∅ [].

(** ** Commands *)

(** [INCRBY], [DECRBY] with a negated amount: a missing key counts as 0. *)
Definition incrby `{Countable K} (k : K) (n : Z) (m : gmap K Z) : gmap K Z :=
  <[k := default 0 (m !! k) + n]> m.

Definition hash `{Countable K, Countable F} {V} (h : gmap K (gmap F V)) (k : K) : gmap F V :=
  default ∅ (h !! k).
Definition hget `{Countable K, Countable F} {V} (h : gmap K (gmap F V)) (k : K) (f : F) : option V :=
  hash h k !! f.
Definition hset `{Countable K, Countable F} {V} (k : K) (f : F) (v : V) (h : gmap K (gmap F V))
    : gmap K (gmap F V) := <[k := <[f := v]> (hash h k)]> h.
Definition hdel `{Countable K, Countable F} {V} (k : K) (f : F) (h : gmap K (gmap F V))
    : gmap K (gmap F V) := <[k := delete f (hash h k)]> h.
Definition hincrby `{Countable K, Countable F} (k : K) (f : F) (n : Z) (h : gmap K (gmap F Z))
    : gmap K (gmap F Z) := hset k f (default 0 (hget h k f) + n) h.

(** A key with a time to live is there until its expiry. *)
Definition live (r : Redis) (expiry : Z) : bool := r_now r <? expiry.
Definition expiry_after (r : Redis) (seconds : Z) : Z := r_now r + seconds * 1000.

Definition claim_state (r : Redis) (k : string) : option string :=
  match r_claims r !! k with
  | Some (v, e) => if live r e then Some v else None
  | None => None
  end.
Definition claim_exists (r : Redis) (k : string) : bool := bool_decide (is_Some (claim_state r k)).
Definition set_claim (k v : string) (ttl : Z) (r : Redis) : Redis :=
  set_claims (<[k := (v, expiry_after r ttl)]> (r_claims r)) r.

Definition released_exists (r : Redis) (m : string) : bool :=
  match r_released r !! m with Some e => live r e | None => false end.
Definition set_marker (m : string) (ttl : Z) (r : Redis) : Redis :=
  set_released (<[m := expiry_after r ttl]> (r_released r)) r.

(** [publish_event_poke] *)
Definition poke (event_id : Z) (r : Redis) : Redis := set_pokes (event_id :: r_pokes r) r.

Lemma hash_hset_eq `{Countable K, Countable F} {V} (h : gmap K (gmap F V)) k f v :
  hash (hset k f v h) k = <[f := v]> (hash h k).
Proof. unfold hset, hash at 1. by rewrite lookup_insert_eq. Qed.
Lemma hash_hset_ne `{Countable K, Countable F} {V} (h : gmap K (gmap F V)) k k' f v :
  k ≠ k' → hash (hset k f v h) k' = hash h k'.
Proof. intros ?. unfold hset, hash at 1. by rewrite lookup_insert_ne. Qed.
Lemma hash_hdel_eq `{Countable K, Countable F} {V} (h : gmap K (gmap F V)) k f :
  hash (hdel k f h) k = delete f (hash h k).
Proof. unfold hdel, hash at 1. by rewrite lookup_insert_eq. Qed.
Lemma hash_hdel_ne `{Countable K, Countable F} {V} (h : gmap K (gmap F V)) k k' f :
  k ≠ k' → hash (hdel k f h) k' = hash h k'.
Proof. intros ?. unfold hdel, hash at 1. by rewrite lookup_insert_ne. Qed.

Lemma incrby_eq `{Countable K} (k : K) n (m : gmap K Z) :
  default 0 (incrby k n m !! k) = default 0 (m !! k) + n.
Proof. unfold incrby. by rewrite lookup_insert_eq. Qed.
Lemma incrby_ne `{Countable K} (k k' : K) n (m : gmap K Z) :
  k ≠ k' → incrby k n m !! k' = m !! k'.
Proof. intros. unfold incrby. by rewrite lookup_insert_ne. Qed.

Create Rewrite HintDb redis.
#[export] Hint Rewrite @hash_hset_eq @hash_hdel_eq : redis.
#[export] Hint Rewrite @hash_hset_ne @hash_hdel_ne using done : redis.
