(* ===== verification/Streams.v ===== *)
(** A consumer group on a Redis stream, as the two consumers of
    src/app/worker.py use it: XREADGROUP, XPENDING, XCLAIM, XACK, the fields of an
    entry as Python reads them, and what never leaves an entry unaccounted for. *)

From S2P Require Import Prelude Exceptions Keys Redis.

#[local] Open Scope string_scope.
#[local] Open Scope Z_scope.

(** [int(fields[name])] *)
Definition int_field (f : fields) (name : string) : result exn Z :=
  match f !! name with
  | None => Err KeyError
  | Some s => match z_parse s with Some n => Ok n | None => Err ValueError end
  end.

(** [fields.get(name) or None] *)
Definition optional_field (f : fields) (name : string) : option string :=
  match f !! name with
  | Some s => if bool_decide (s = "") then None else Some s
  | None => None
  end.

(** [int(s)] of a string at hand. *)
Definition int_str (s : string) : result exn Z :=
  match z_parse s with Some n => Ok n | None => Err ValueError end.

(** [XREADGROUP ... '>' COUNT n]: entries past the cursor become pending. *)
Definition xreadgroup (now : Z) (consumer : string) (count : nat) (s : Stream)
    : list (sid * fields) * Stream :=
  let fresh := take count (filter (λ e, sid_ltb (s_cursor s) e.1 = true) (s_entries s)) in
  let cursor := match last fresh with Some e => e.1 | None => s_cursor s end in
  (fresh, mk_stream (s_entries s) (s_last s) cursor
            (foldr (λ e pel, <[e.1 := mk_pending consumer now 1]> pel) (s_pel s) fresh)).

(** [XACK] and [XDEL] in one MULTI. *)
Definition ack_entry (i : sid) (s : Stream) : Stream :=
  mk_stream (filter (λ e, e.1 ≠ i) (s_entries s)) (s_last s) (s_cursor s) (delete i (s_pel s)).

Definition sid_str (i : sid) : string := z_str i.1 +:+ "-" +:+ z_str i.2.

(** [XPENDING ... IDLE ms], by id. *)
Definition xpending (now min_idle : Z) (count : nat) (s : Stream) : list (sid * pending) :=
  take count (isort (λ a b, negb (sid_ltb b.1 a.1))
    (filter (λ x, min_idle <= now - p_delivered x.2) (map_to_list (s_pel s)))).

(** [XCLAIM]: the entry is ours when it is still idle long enough; an entry that
    is no longer in the stream leaves the pending list instead. *)
Definition xclaim (now min_idle : Z) (consumer : string) (i : sid) (s : Stream)
    : option fields * Stream :=
  match s_pel s !! i with
  | None => (None, s)
  | Some p =>
      if min_idle <=? now - p_delivered p then
        match list_find (λ e, e.1 = i) (s_entries s) with
        | None => (None, mk_stream (s_entries s) (s_last s) (s_cursor s) (delete i (s_pel s)))
        | Some (_, e) =>
            (Some e.2, mk_stream (s_entries s) (s_last s) (s_cursor s)
               (<[i := mk_pending consumer now (p_count p + 1)]> (s_pel s)))
        end
      else (None, s)
  end.

Lemma nodup_fst_unique {A B} `{Countable A} (l : list (A * B)) x y :
  NoDup l.*1 → x ∈ l → y ∈ l → x.1 = y.1 → x = y.
Proof.
  destruct x as [a b1], y as [a2 b2]. simpl. intros Hn Hx Hy <-. f_equal.
  apply (elem_of_list_to_map_1 (M := gmap A)) in Hx; [|done].
  apply (elem_of_list_to_map_1 (M := gmap A)) in Hy; [|done]. congruence.
Qed.

Definition id_before (a b : sid * fields) : Prop := sid_ltb a.1 b.1 = true.

Lemma sid_ltb_trans a b c : sid_ltb a b = true → sid_ltb b c = true → sid_ltb a c = true.
Proof. unfold sid_ltb. rewrite !orb_true_iff, !andb_true_iff, !Z.ltb_lt, !Z.eqb_eq. lia. Qed.

Lemma sid_ltb_irrefl a : sid_ltb a a = false.
Proof. unfold sid_ltb. apply orb_false_iff. rewrite andb_false_iff, !Z.ltb_ge. lia. Qed.

Lemma sorted_ids l : StronglySorted id_before l → NoDup l.*1.
Proof.
  induction 1 as [|x l Hl IH Hx]; simpl; [constructor|]. constructor; [|done].
  intros (y & Hy & Hin)%list_elem_of_fmap. rewrite Forall_forall in Hx.
  pose proof (Hx y Hin) as Hb. unfold id_before in Hb. rewrite Hy, sid_ltb_irrefl in Hb. done.
Qed.

Lemma foldr_pending_some (now : Z) (c : string) (l : list (sid * fields)) (pel : gmap sid pending)
    (i : sid) :
  (∃ e, e ∈ l ∧ e.1 = i) ∨ is_Some (pel !! i) →
  is_Some (foldr (λ (e : sid * fields) (pel : gmap sid pending),
                    <[e.1 := mk_pending c now 1]> pel) pel l !! i).
Proof.
  induction l as [|e l IH]; simpl; intros H.
  { destruct H as [(e & He & _)|?]; [by apply elem_of_nil in He|done]. }
  destruct (decide (e.1 = i)) as [<-|Hne]; [rewrite lookup_insert_eq; by eexists|].
  rewrite lookup_insert_ne by done. apply IH. destruct H as [(x & Hx & Hi)|?]; [|by right].
  left. apply elem_of_cons in Hx as [->|Hx]; [done|eauto].
Qed.

Lemma sorted_last_before (l1 l2 : list (sid * fields)) e x :
  StronglySorted id_before (l1 ++ l2) → last l1 = Some e → x ∈ l2 → id_before e x.
Proof.
  intros Hs Hl Hx. apply last_Some in Hl as [l ->]. rewrite <-app_assoc in Hs.
  revert Hs. induction l as [|y l IH]; intros Hs; inversion Hs as [|? ? Hs' Hf]; simplify_eq/=.
  - rewrite Forall_forall in Hf. by apply Hf.
  - by apply IH.
Qed.

Lemma xclaim_some now idle c i s f s' :
  xclaim now idle c i s = (Some f, s') →
  (i, f) ∈ s_entries s ∧ s_entries s' = s_entries s ∧ is_Some (s_pel s' !! i) ∧
  ∀ j, j ≠ i → s_pel s' !! j = s_pel s !! j.
Proof.
  unfold xclaim. destruct (s_pel s !! i) as [p|]; [|done]. destruct (_ <=? _); [|done].
  destruct (list_find _ _) as [[n e]|] eqn:Hf; [|done]. intros H. simplify_eq/=.
  apply list_find_Some in Hf as (Hl & <- & _). split_and!.
  - apply list_elem_of_lookup_2 in Hl. by destruct e.
  - done.
  - rewrite lookup_insert_eq. by eexists.
  - intros j Hj. by rewrite lookup_insert_ne.
Qed.

(** [XACK] alone: the entry stays in the stream. *)
Definition xack (i : sid) (s : Stream) : Stream :=
  mk_stream (s_entries s) (s_last s) (s_cursor s) (delete i (s_pel s)).

(** [XADD ... MAXLEN ~ n]: [excess] of the entries over the limit may go, the
    oldest first. *)
Definition xadd_capped (excess maxlen now : Z) (f : fields) (s : Stream) : Stream :=
  let st := (xadd now f s).2 in
  mk_stream (drop (Z.to_nat (Z.min excess (xlen st - maxlen))) (s_entries st)) (s_last st)
    (s_cursor st) (s_pel st).

(** An entry somebody will still handle: undelivered, or pending. *)
Definition open_entry (s : Stream) (e : sid * fields) : Prop :=
  e ∈ s_entries s ∧ (sid_ltb (s_cursor s) e.1 = true ∨ is_Some (s_pel s !! e.1)).

(** Reading a batch makes its entries pending, in order, and closes none. *)
Lemma xreadgroup_open now c n s :
  StronglySorted id_before (s_entries s) →
  let '(l, s') := xreadgroup now c n s in
  s_entries s' = s_entries s ∧ (∀ e, e ∈ l → e ∈ s_entries s) ∧
  (∀ e, open_entry s e → open_entry s' e).
Proof.
  intros Hs. unfold xreadgroup. set (new := filter _ (s_entries s)).
  assert (Hnew : ∀ e, e ∈ new ↔ sid_ltb (s_cursor s) e.1 = true ∧ e ∈ s_entries s)
    by (intros e; unfold new; by rewrite list_elem_of_filter).
  assert (Hsn : StronglySorted id_before new) by (by apply sorted_filter).
  split; [done|]. split.
  { intros e He. assert (He' : e ∈ new) by (rewrite <-(take_drop n new); apply elem_of_app; auto).
    by apply Hnew in He' as [_ ?]. }
  intros e [He Ho]. split; [done|]. simpl.
  destruct (sid_ltb (s_cursor s) e.1) eqn:Hc.
  2:{ right. apply foldr_pending_some. right. by destruct Ho. }
  assert (He' : e ∈ new) by (by apply Hnew). rewrite <-(take_drop n new) in He', Hsn.
  apply elem_of_app in He' as [He'|He'].
  - right. apply foldr_pending_some. left. eauto.
  - destruct (last (take n new)) as [x|] eqn:Hl; [|by left].
    left. by apply (sorted_last_before _ _ _ _ Hsn Hl).
Qed.

(** Claiming neither loses an entry nor closes it. *)
Lemma xclaim_open now idle c i s :
  let '(claimed, s') := xclaim now idle c i s in
  s_entries s' = s_entries s ∧ (∀ e, open_entry s e → open_entry s' e) ∧
  (∀ f, claimed = Some f → (i, f) ∈ s_entries s).
Proof.
  unfold xclaim. destruct (s_pel s !! i) as [p|] eqn:Hp; [|by split_and!].
  destruct (_ <=? _); [|by split_and!].
  destruct (list_find _ _) as [[n e]|] eqn:Hf; split_and!; try done.
  - intros x [Hx Ho]. split; [done|]. simpl. destruct Ho as [?|Ho]; [by left|right].
    destruct (decide (x.1 = i)) as [<-|]; [rewrite lookup_insert_eq; by eexists|by rewrite lookup_insert_ne].
  - intros f [= <-]. apply list_find_Some in Hf as (Hl & <- & _).
    apply list_elem_of_lookup_2 in Hl. by destruct e.
  - intros x [Hx Ho]. split; [done|]. simpl. destruct Ho as [?|Ho]; [by left|right].
    apply list_find_None in Hf. rewrite Forall_forall in Hf.
    rewrite lookup_delete_ne; [done|]. intros Heq. by apply (Hf x).
Qed.

Lemma xack_open i s e : open_entry s e → e.1 ≠ i → open_entry (xack i s) e.
Proof.
  intros [He Ho] Hne. split; [done|]. simpl. destruct Ho as [?|?]; [by left|right].
  by rewrite lookup_delete_ne.
Qed.

(** A short read leaves nothing undelivered. *)
Lemma xreadgroup_short now c n s :
  StronglySorted id_before (s_entries s) →
  let '(l, s') := xreadgroup now c n s in
  (length l < n)%nat → ∀ e, e ∈ s_entries s' → sid_ltb (s_cursor s') e.1 = false.
Proof.
  intros Hs. unfold xreadgroup. set (new := filter _ (s_entries s)). simpl. intros Hl e He.
  assert (Hsn : StronglySorted id_before new) by (by apply sorted_filter).
  assert (Ht : take n new = new) by (apply take_ge; rewrite length_take in Hl; lia).
  rewrite Ht. destruct (last new) as [x|] eqn:Hx.
  - apply last_Some in Hx as [l Hnl]. destruct (sid_ltb (s_cursor s) e.1) eqn:Hc.
    + assert (He' : e ∈ new) by (by apply list_elem_of_filter). rewrite Hnl in He', Hsn.
      apply elem_of_app in He' as [He'|He'%list_elem_of_singleton]; [|by subst; apply sid_ltb_irrefl].
      destruct (sid_ltb x.1 e.1) eqn:Hxe; [|done].
      assert (Hex : id_before e x).
      { clear -Hsn He'. induction l as [|y l IH]; [by apply elem_of_nil in He'|].
        inversion Hsn as [|? ? Hs' Hf]; subst. apply elem_of_cons in He' as [->|He']; [|by apply IH].
        rewrite Forall_forall in Hf. apply Hf, elem_of_app. right. by apply list_elem_of_singleton. }
      pose proof (sid_ltb_trans _ _ _ Hxe Hex) as Hxx. by rewrite sid_ltb_irrefl in Hxx.
    + destruct (sid_ltb x.1 e.1) eqn:Hxe; [|done].
      assert (Hxn : x ∈ new) by (rewrite Hnl; apply elem_of_app; right; by apply list_elem_of_singleton).
      apply list_elem_of_filter in Hxn as [Hcx _].
      rewrite (sid_ltb_trans _ _ _ Hcx Hxe) in Hc. done.
  - apply last_None in Hx. destruct (sid_ltb (s_cursor s) e.1) eqn:Hc; [|done].
    assert (He' : e ∈ new) by (by apply list_elem_of_filter). rewrite Hx in He'. by apply elem_of_nil in He'.
Qed.
