(* ===== verification/DB.v ===== *)
(** The relational state: the tables of src/app/models as maps, each row a
    record, with the constraints the schema declares as the checks an INSERT or
    UPDATE runs.  Times are milliseconds of one wall clock. *)

From Stdlib Require Import QArith.
From S2P Require Import Prelude Exceptions.

#[local] Open Scope Z_scope.

(** ** Rows *)

Inductive OrderStatus : Type :=
  | PENDING | PAID | CONFIRMED | EXPIRED | CANCELLED.
#[global] Instance OrderStatus_eq_dec : EqDecision OrderStatus.
Proof. solve_decision. Defined.

(** [OrderStatus.value] *)
Definition status_str (s : OrderStatus) : string :=
  match s with
  | PENDING => "pending" | PAID => "paid" | CONFIRMED => "confirmed"
  | EXPIRED => "expired" | CANCELLED => "cancelled"
  end.

Record Order : Type := mk_order {
  o_id : Z;
  o_user : Z;
  o_event : Z;
  o_zone : option Z;
  o_quantity : Z;
  o_total : Z;
  o_status : OrderStatus;
  o_idem : string;
  o_payment : option string;
  o_created : Z;
  o_paid_at : option Z;
  o_confirmed_at : option Z;
  o_expired_at : option Z;
  o_cancelled_at : option Z;
}.

(** A hold on [hd_start, hd_start + hd_len); the table is keyed by its order,
    which [uq_seat_holds_order] allows. *)
Record SeatHold : Type := mk_hold {
  hd_event : Z;
  hd_zone : Z;
  hd_block : Z;
  hd_order : Z;
  hd_start : Z;
  hd_len : Z;
  hd_confirmed_at : option Z;
}.

Record SeatBlock : Type := mk_block {
  bk_id : Z;
  bk_zone : Z;
  bk_capacity : Z;
  bk_base : Q;
  bk_edge : Q;
}.

Record OutboxEntry : Type := mk_outbox {
  ob_id : Z;
  ob_type : string;
  ob_aggregate : Z;
  ob_attempts : Z;
  ob_next_attempt : Z;
  ob_processed : option Z;
}.

Inductive EventStatus : Type := DRAFT | PUBLISHED | EV_CANCELLED.
#[global] Instance EventStatus_eq_dec : EqDecision EventStatus.
Proof. solve_decision. Defined.

Record Event : Type := mk_event {
  ev_id : Z;
  ev_venue : option Z;
  ev_starts : Z;
  ev_ends : Z;
  ev_sale_starts : Z;
  ev_sale_ends : Z;
  ev_queue_opens : option Z;
  ev_queue_closes : option Z;
  ev_total_seats : Z;
  ev_price : option Z;
  ev_status : EventStatus;
  ev_version : Z;
}.

Record Zone : Type := mk_zone { zn_id : Z; zn_venue : Z; zn_name : string; zn_order : Z; zn_version : Z }.

(** ** The database *)

Record DB : Type := mk_db {
  d_users : gset Z;
  d_events : gmap Z Event;
  d_zones : gmap Z Zone;
  d_blocks : gmap Z SeatBlock;
  d_seats : gmap (Z * Z) string;          (* (block, pos) to label *)
  d_prices : gmap (Z * Z) Z;              (* (event, zone) to price_cents *)
  d_orders : gmap Z Order;
  d_next_order : Z;                       (* the id sequence *)
  d_holds : gmap Z SeatHold;              (* by order id *)
  d_outbox : gmap Z OutboxEntry;
  d_next_outbox : Z;
  d_stripe : gmap string (string * Z);    (* event id to type and received_at *)
}.

Definition set_orders (v : gmap Z Order) (d : DB) : DB :=
  mk_db (d_users d) (d_events d) (d_zones d) (d_blocks d) (d_seats d) (d_prices d) v
    (d_next_order d) (d_holds d) (d_outbox d) (d_next_outbox d) (d_stripe d).
Definition set_next_order (v : Z) (d : DB) : DB :=
  mk_db (d_users d) (d_events d) (d_zones d) (d_blocks d) (d_seats d) (d_prices d) (d_orders d)
    v (d_holds d) (d_outbox d) (d_next_outbox d) (d_stripe d).
Definition set_holds (v : gmap Z SeatHold) (d : DB) : DB :=
  mk_db (d_users d) (d_events d) (d_zones d) (d_blocks d) (d_seats d) (d_prices d) (d_orders d)
    (d_next_order d) v (d_outbox d) (d_next_outbox d) (d_stripe d).
Definition set_outbox (v : gmap Z OutboxEntry) (n : Z) (d : DB) : DB :=
  mk_db (d_users d) (d_events d) (d_zones d) (d_blocks d) (d_seats d) (d_prices d) (d_orders d)
    (d_next_order d) (d_holds d) v n (d_stripe d).
Definition set_stripe (v : gmap string (string * Z)) (d : DB) : DB :=
  mk_db (d_users d) (d_events d) (d_zones d) (d_blocks d) (d_seats d) (d_prices d) (d_orders d)
    (d_next_order d) (d_holds d) (d_outbox d) (d_next_outbox d) v.
Definition set_events (v : gmap Z Event) (d : DB) : DB :=
  mk_db (d_users d) v (d_zones d) (d_blocks d) (d_seats d) (d_prices d) (d_orders d)
    (d_next_order d) (d_holds d) (d_outbox d) (d_next_outbox d) (d_stripe d).
Definition set_prices (v : gmap (Z * Z) Z) (d : DB) : DB :=
  mk_db (d_users d) (d_events d) (d_zones d) (d_blocks d) (d_seats d) v (d_orders d)
    (d_next_order d) (d_holds d) (d_outbox d) (d_next_outbox d) (d_stripe d).

Definition empty_db : DB := mk_db ∅ ∅ ∅ ∅ ∅ ∅ ∅ 1 ∅ ∅ 1 ∅.

(** ** Column widths *)

(** PostgreSQL's [integer]; the ids of orders, holds and outbox rows are [bigint]. *)
Definition INT4_MAX : Z := 2147483647.
Definition int4 (n : Z) : bool := (- INT4_MAX - 1 <=? n) && (n <=? INT4_MAX).

(** ** Constraints of [orders] *)

(** The [integer] columns of the row. *)
Definition order_fits (o : Order) : bool :=
  int4 (o_user o) && int4 (o_event o) && (match o_zone o with Some z => int4 z | None => true end) &&
  int4 (o_quantity o) && int4 (o_total o).

Definition implb_some (b : bool) (o : option Z) : bool :=
  negb b || bool_decide (is_Some o).

(** The CHECKs of [Order.__table_args__]: a name for the first one violated. *)
Definition order_violation (o : Order) : option string :=
  if negb (0 <? o_quantity o) then Some "ck_orders_quantity_pos"
  else if negb (0 <=? o_total o) then Some "ck_orders_total_nonneg"
  else if negb (implb_some (bool_decide (o_status o = PAID)) (o_paid_at o))
  then Some "ck_orders_paid_at"
  else if negb (implb_some (bool_decide (o_status o = CONFIRMED)) (o_confirmed_at o))
  then Some "ck_orders_confirmed_at"
  else if negb (implb_some (bool_decide (o_status o = EXPIRED)) (o_expired_at o))
  then Some "ck_orders_expired_at"
  else if negb (implb_some (bool_decide (o_status o = CANCELLED)) (o_cancelled_at o))
  then Some "ck_orders_cancelled_at"
  else match o_expired_at o, o_cancelled_at o with
  | Some _, Some _ => Some "ck_orders_terminal_exclusive"
  | _, _ =>
      match o_confirmed_at o, o_paid_at o with
      | Some _, None => Some "ck_orders_confirmed_needs_paid"
      | Some c, Some p => if (c <? p)%Z then Some "ck_orders_paid_before_confirmed" else None
      | None, _ => None
      end
  end%string.

(** The foreign keys and the unique key of an inserted order. *)
Definition order_reference_violation (d : DB) (o : Order) : option string :=
  if bool_decide (o_user o ∉ d_users d) then Some "fk_orders_user_id"
  else if bool_decide (d_events d !! o_event o = None) then Some "orders_event_id_fkey"
  else if match o_zone o with
          | Some z => bool_decide (d_prices d !! (o_event o, z) = None)
          | None => false        (* MATCH SIMPLE: a NULL passes *)
          end then Some "fk_orders_event_zone_price"
  else if existsb (λ '(_, x), bool_decide (o_idem x = o_idem o)) (map_to_list (d_orders d))
  then Some "ix_orders_idempotency_key"
  else None%string.

(** ** Constraints of [seat_holds] *)

Definition holds_overlap (a b : SeatHold) : bool :=
  (hd_event a =? hd_event b) && (hd_block a =? hd_block b) &&
  (hd_start a <? hd_start b + hd_len b) && (hd_start b <? hd_start a + hd_len a).

(** The [integer] columns of the row, and the sum in the generated [last_pos]. *)
Definition hold_fits (h : SeatHold) : bool :=
  int4 (hd_event h) && int4 (hd_zone h) && int4 (hd_block h) && int4 (hd_start h) && int4 (hd_len h).
Definition last_pos_fits (h : SeatHold) : bool := int4 (hd_start h + hd_len h).

(** [seat_holds_match_order]: the trigger's comparison with the order row. *)
Definition hold_matches_order (h : SeatHold) (o : Order) : bool :=
  (o_event o =? hd_event h) && bool_decide (o_zone o = Some (hd_zone h)) &&
  (o_quantity o =? hd_len h).

Definition TRG_MATCH : string := "trg_seat_holds_match_order".

Definition hold_violation (d : DB) (h : SeatHold) : option string :=
  if match d_orders d !! hd_order h with
     | Some o => negb (hold_matches_order h o)
     | None => false
     end then Some TRG_MATCH
  else if negb (0 <? hd_len h) then Some "ck_seat_holds_length_pos"
  else if negb (0 <=? hd_start h) then Some "ck_seat_holds_start_nonneg"
  else if bool_decide (is_Some (d_holds d !! hd_order h)) then Some "uq_seat_holds_order"
  else if existsb (λ '(_, x), holds_overlap h x) (map_to_list (d_holds d))
  then Some "ex_seat_holds_no_overlap"
  else if bool_decide (d_seats d !! (hd_block h, hd_start h + hd_len h - 1) = None)
  then Some "fk_seat_holds_last_seat"
  else if match d_blocks d !! hd_block h with
          | Some b => negb (bk_zone b =? hd_zone h)
          | None => true
          end then Some "fk_seat_holds_zone_block"
  else if bool_decide (d_prices d !! (hd_event h, hd_zone h) = None)
  then Some "fk_seat_holds_event_zone"
  else if bool_decide (d_events d !! hd_event h = None) then Some "seat_holds_event_id_fkey"
  else if bool_decide (d_orders d !! hd_order h = None) then Some "seat_holds_order_id_fkey"
  else None%string.

(** ** Statements *)

(** [INSERT INTO orders]: the driver refuses a number wider than its column
    before it sends the statement; a row the server refuses still uses up an id. *)
Definition insert_order (o : Z → Order) : M DB exn Order := λ d,
  let row := o (d_next_order d) in
  if negb (order_fits row) then (Err DataError, d)
  else
    let d1 := set_next_order (d_next_order d + 1) d in
    match opt_or (order_violation row) (order_reference_violation d row) with
    | Some c => (Err (IntegrityError c), d1)
    | None => (Ok row, set_orders (<[o_id row := row]> (d_orders d)) d1)
    end.

(** [INSERT INTO seat_holds]: [last_pos] is generated after the BEFORE trigger
    has run and before the other constraints are looked at. *)
Definition insert_hold (h : SeatHold) : M DB exn unit := λ d,
  if negb (hold_fits h) then (Err DataError, d)
  else
    match hold_violation d h with
    | Some c =>
        (Err (if negb (last_pos_fits h) && negb (bool_decide (c = TRG_MATCH)) then DataError
              else IntegrityError c), d)
    | None =>
        if negb (last_pos_fits h) then (Err DataError, d)
        else (Ok tt, set_holds (<[hd_order h := h]> (d_holds d)) d)
    end.

Definition insert_outbox (event_type : string) (aggregate now : Z) : M DB exn unit := λ d,
  let i := d_next_outbox d in
  (Ok tt, set_outbox (<[i := mk_outbox i event_type aggregate 0 now None]> (d_outbox d)) (i + 1) d).

(** ** What the constraints guarantee *)

(** Every stored row satisfies the table's constraints. *)
Record db_ok (d : DB) : Prop := {
  ok_order_checks : ∀ i o, d_orders d !! i = Some o → o_id o = i ∧ order_violation o = None;
  ok_order_ids : ∀ i, is_Some (d_orders d !! i) → i < d_next_order d;
  ok_idem_unique : ∀ i j a b, d_orders d !! i = Some a → d_orders d !! j = Some b →
    o_idem a = o_idem b → i = j;
  ok_hold_keys : ∀ i h, d_holds d !! i = Some h →
    hd_order h = i ∧ 0 < hd_len h ∧ 0 <= hd_start h ∧
    ∃ o, d_orders d !! i = Some o ∧ hold_matches_order h o = true;
  ok_no_overlap : ∀ i j a b, d_holds d !! i = Some a → d_holds d !! j = Some b →
    i ≠ j → holds_overlap a b = false;
  ok_outbox_ids : ∀ i, is_Some (d_outbox d !! i) → i < d_next_outbox d;
}.

Lemma opt_or_none {A} (a b : option A) : opt_or a b = None ↔ a = None ∧ b = None.
Proof. destruct a, b; simpl; split; try done; by intros [? ?]. Qed.

Lemma holds_overlap_sym a b : holds_overlap a b = holds_overlap b a.
Proof. apply eq_true_iff_eq. unfold holds_overlap. rewrite !andb_true_iff. zlia. Qed.

Lemma existsb_map_false `{Countable K} {V} (f : V → bool) (m : gmap K V) k v :
  existsb (λ '(_, x), f x) (map_to_list m) = false → m !! k = Some v → f v = false.
Proof.
  intros He Hk. apply not_true_iff_false. intros Hf.
  assert (false = true); [|done]. rewrite <-He. apply existsb_exists.
  exists (k, v). split; [|done]. by apply list_elem_of_In, elem_of_map_to_list.
Qed.
