(* ===== verification/Seating.v ===== *)
(** The seat allocator (src/app/services/seating.py): pure functions over the
    free runs of a zone.  A score is a rational here where the code has a
    double; only its sums and its order are used. *)

From Stdlib Require Export QArith Qabs Qround.
From Stdlib Require Import Lqa.
From S2P Require Import Prelude Exceptions.

#[global] Open Scope Z_scope.

(** ** Policy *)

Definition ORPHAN : Z := 1.

Record Policy : Type := mk_policy {
  min_run : Z;
  allow_mid_cut : bool;
  mid_cut_guard : Z;
  orphan_value : Q;
  fragmentation_weight : Q;
}.

(** [Policy.__post_init__]: the dataclass refuses values outside its domain. *)
Definition policy_init (min_run : Z) (allow_mid_cut : bool) (mid_cut_guard : Z)
    (orphan_value fragmentation_weight : Q) : result exn Policy :=
  if min_run <? 1 then Err ValueError
  else if mid_cut_guard <? 1 then Err ValueError
  else if negb (Qle_bool 0 orphan_value && Qle_bool orphan_value 1) then Err ValueError
  else if negb (Qle_bool 0 fragmentation_weight) then Err ValueError
  else Ok (mk_policy min_run allow_mid_cut mid_cut_guard orphan_value fragmentation_weight).

Definition mid_lo (p : Policy) : Z := Z.max 2 (mid_cut_guard p).

Definition phi (p : Policy) (length : Z) : Q :=
  if length =? 0 then 0%Q
  else if length =? ORPHAN then orphan_value p
  else inject_Z length.

Definition NORMAL_POLICY : Policy := mk_policy 2 false 4 (3 # 10) (15 # 10).
Definition ENDGAME_POLICY : Policy := mk_policy 1 false 4 (3 # 10) (15 # 10).

(** What [policy_init] lets through. *)
Definition policy_ok (p : Policy) : Prop :=
  1 <= min_run p ∧ 1 <= mid_cut_guard p ∧
  (0 <= orphan_value p <= 1)%Q ∧ (0 <= fragmentation_weight p)%Q.

(** ** Geometry of a block *)

Record BlockGeometry : Type := mk_geometry {
  geo_block_id : Z;
  capacity : Z;
  geo_base : Q;
  decay : Q;
}.

(** [BlockGeometry.__post_init__] *)
Definition geometry_init (block_id capacity : Z) (base decay : Q) : result exn BlockGeometry :=
  if capacity <? 1 then Err ValueError
  else if negb (Qle_bool 0 decay) then Err ValueError
  else Ok (mk_geometry block_id capacity base decay).

Definition geometry_ok (g : BlockGeometry) : Prop :=
  1 <= capacity g ∧ (0 <= decay g)%Q.

Definition center_of (capacity : Z) : Q := (inject_Z (capacity - 1) / 2)%Q.

(** [x % 1.0] *)
Definition Qfrac (x : Q) : Q := (x - inject_Z (Qfloor x))%Q.

(** [BlockGeometry.calibrated] *)
Definition calibrated (block_id capacity : Z) (base edge : Q) : result exn BlockGeometry :=
  let center := center_of capacity in
  let nearest := Qfrac center in
  let span := (center - nearest)%Q in
  let decay := if Qeq_bool span 0 then 0%Q else ((base - edge) / span)%Q in
  geometry_init block_id capacity (base + decay * nearest)%Q decay.

Definition center (g : BlockGeometry) : Q := center_of (capacity g).

Definition seat_quality (g : BlockGeometry) (pos : Z) : Q :=
  (geo_base g - decay g * Qabs (inject_Z pos - center g))%Q.

(** [sum(... for pos in range(start, start + length))] *)
Definition window_quality (g : BlockGeometry) (start length : Z) : Q :=
  fold_left (λ acc pos, (acc + seat_quality g pos)%Q) (zrange start length) 0%Q.

(** Python's [round]: to nearest, ties to the even integer. *)
Definition round_half_even (x : Q) : Z :=
  let f := Qfloor x in
  match Qcompare (x - inject_Z f) (1 # 2) with
  | Lt => f
  | Gt => f + 1
  | Eq => if Z.even f then f else f + 1
  end.

Definition ideal_start (g : BlockGeometry) (length : Z) : Z :=
  round_half_even (center g - inject_Z (length - 1) / 2)%Q.

(** ** Runs and placements *)

Record Run : Type := mk_run { run_block : Z; run_start : Z; run_len : Z }.
#[global] Instance Run_eq_dec : EqDecision Run.
Proof. solve_decision. Defined.

Record Placement : Type := mk_placement {
  pl_block : Z; pl_start : Z; pl_len : Z; pl_score : Q;
}.

Definition cut_cost (p : Policy) (run_length left right taken : Z) : Q :=
  (phi p run_length - phi p left - phi p right - inject_Z taken)%Q.

Definition placement_at (run : Run) (offset quantity : Z) (geo : BlockGeometry)
    (p : Policy) : Placement :=
  let start := run_start run + offset in
  mk_placement (run_block run) start quantity
    (window_quality geo start quantity
     - fragmentation_weight p
       * cut_cost p (run_len run) offset (run_len run - quantity - offset) quantity)%Q.

(** The offset the middle cut uses: the ideal one clamped into the window. *)
Definition clamp (ideal lo hi : Z) : Z := Z.min (Z.max ideal lo) hi.

(** The generator's elements, in the order it yields them. *)
Definition candidates (run : Run) (quantity : Z) (geo : BlockGeometry) (p : Policy)
    : list Placement :=
  let tail := run_len run - quantity in
  if (quantity <? 1) || (tail <? 0) then []
  else
    (if (tail =? 0) || (min_run p <=? tail) then
       placement_at run 0 quantity geo p ::
       (if 0 <? tail then [placement_at run tail quantity geo p] else [])
     else []) ++
    (if negb (allow_mid_cut p) then []
     else
       let lo := mid_lo p in
       let hi := tail - mid_lo p in
       if lo <=? hi then
         let ideal := ideal_start geo quantity - run_start run in
         [placement_at run (clamp ideal lo hi) quantity geo p]
       else []).

(** [a < b] and [a > b] on the tuples the code compares. *)
Definition Qltb (a b : Q) : bool := negb (Qle_bool b a).

(** [key > best_key] with [key = (score, -block_id, -start)] *)
Definition key_gt (c b : Placement) : bool :=
  if Qeq_bool (pl_score c) (pl_score b) then
    if - pl_block c =? - pl_block b then - pl_start b <? - pl_start c
    else - pl_block b <? - pl_block c
  else Qltb (pl_score b) (pl_score c).

(** [key(a) < key(b)] with [key(p) = (-p.score, p.block_id, p.start)] *)
Definition anchor_lt (a b : Placement) : bool :=
  if Qeq_bool (- pl_score a) (- pl_score b) then
    if pl_block a =? pl_block b then pl_start a <? pl_start b
    else pl_block a <? pl_block b
  else Qltb (- pl_score a) (- pl_score b).

(** [geometry[block_id]] *)
Definition geometry_at (geometry : gmap Z BlockGeometry) (b : Z) : result exn BlockGeometry :=
  match geometry !! b with Some g => Ok g | None => Err KeyError end.

Definition better (best : option Placement) (cand : Placement) : option Placement :=
  match best with
  | None => Some cand
  | Some b => if key_gt cand b then Some cand else Some b
  end.

Fixpoint allocate_from (best : option Placement) (runs : list Run) (quantity : Z)
    (geometry : gmap Z BlockGeometry) (p : Policy) : result exn (option Placement) :=
  match runs with
  | [] => Ok best
  | run :: rest =>
      let? geo := geometry_at geometry (run_block run) in
      allocate_from (fold_left better (candidates run quantity geo p) best)
        rest quantity geometry p
  end.

Definition allocate (runs : list Run) (quantity : Z) (geometry : gmap Z BlockGeometry)
    (p : Policy) : result exn (option Placement) :=
  allocate_from None runs quantity geometry p.

(** The generator expression of [legal_anchors]. *)
Fixpoint all_candidates (runs : list Run) (quantity : Z) (geometry : gmap Z BlockGeometry)
    (p : Policy) : result exn (list Placement) :=
  match runs with
  | [] => Ok []
  | run :: rest =>
      let? geo := geometry_at geometry (run_block run) in
      let? cs := all_candidates rest quantity geometry p in
      Ok (candidates run quantity geo p ++ cs)
  end.

Definition anchor_le (a b : Placement) : bool := negb (anchor_lt b a).

Definition legal_anchors (runs : list Run) (quantity : Z) (geometry : gmap Z BlockGeometry)
    (p : Policy) : result exn (list Placement) :=
  let? cs := all_candidates runs quantity geometry p in
  Ok (isort anchor_le cs).

(** [key=lambda r: (r.block_id, r.start)] *)
Definition run_le (a b : Run) : bool :=
  if run_block a =? run_block b then run_start a <=? run_start b
  else run_block a <? run_block b.

Definition run_end (r : Run) : Z := run_start r + run_len r.

(** [contains] of the loop of [occupy] *)
Definition contains (run : Run) (pl : Placement) : bool :=
  (run_block run =? pl_block pl) && (run_start run <=? pl_start pl)
  && (pl_start pl + pl_len pl <=? run_start run + run_len run).

(** What the loop of [occupy] appends for one run. *)
Definition occupy_run (pl : Placement) (run : Run) : list Run :=
  let e := pl_start pl + pl_len pl in
  if negb (contains run pl) then [run]
  else
    (if run_start run <? pl_start pl
     then [mk_run (run_block run) (run_start run) (pl_start pl - run_start run)] else []) ++
    (if e <? run_start run + run_len run
     then [mk_run (run_block run) e (run_start run + run_len run - e)] else []).

Definition occupy (runs : list Run) (pl : Placement) : result exn (list Run) :=
  let out := runs ≫= occupy_run pl in
  if negb (existsb (λ run, contains run pl) runs) then Err ValueError
  else Ok (isort run_le out).

(** The loop of [release]: [lo] and [hi] grow as adjacent runs are absorbed. *)
Fixpoint release_loop (runs : list Run) (block_id lo hi : Z) (out : list Run)
    : result exn (Z * Z * list Run) :=
  match runs with
  | [] => Ok (lo, hi, out)
  | run :: rest =>
      if negb (run_block run =? block_id) then
        release_loop rest block_id lo hi (out ++ [run])
      else
        let run_lo := run_start run in
        let run_hi := run_start run + run_len run in
        if (run_hi <? lo) || (hi <? run_lo) then
          release_loop rest block_id lo hi (out ++ [run])
        else if (run_lo <? hi) && (lo <? run_hi) then Err ValueError
        else release_loop rest block_id (Z.min lo run_lo) (Z.max hi run_hi) out
  end.

Definition release (runs : list Run) (block_id start length : Z) (capacity : option Z)
    : result exn (list Run) :=
  if length <? 1 then Err ValueError
  else if (start <? 0) ||
          match capacity with Some c => c <? start + length | None => false end
  then Err ValueError
  else
    let? r := release_loop runs block_id start (start + length) [] in
    let '(lo, hi, out) := r in
    Ok (isort run_le (out ++ [mk_run block_id lo (hi - lo)])).

(** [any(next(candidates(...), None) is not None for run in runs)] *)
Fixpoint any_candidate (runs : list Run) (n : Z) (geometry : gmap Z BlockGeometry)
    (p : Policy) : result exn bool :=
  match runs with
  | [] => Ok false
  | run :: rest =>
      let? geo := geometry_at geometry (run_block run) in
      match candidates run n geo p with
      | _ :: _ => Ok true
      | [] => any_candidate rest n geometry p
      end
  end.

Fixpoint feasible_from (ns : list Z) (runs : list Run) (geometry : gmap Z BlockGeometry)
    (p : Policy) : result exn (list Z) :=
  match ns with
  | [] => Ok []
  | n :: ns' =>
      let? b := any_candidate runs n geometry p in
      let? rest := feasible_from ns' runs geometry p in
      Ok (if (b : bool) then n :: rest else rest)
  end.

Definition feasible_quantities (runs : list Run) (geometry : gmap Z BlockGeometry)
    (max_order : Z) (p : Policy) : result exn (list Z) :=
  feasible_from (zrange 1 max_order) runs geometry p.

(** ** Candidates: what may be sold *)

(** A cut of [q] seats at offset [o] that the rules accept: an end cut leaves
    nothing or at least [min_run]; a middle cut leaves [mid_lo] on each side. *)
Definition legal_cut (p : Policy) (L q o : Z) : Prop :=
  1 <= q ∧ 0 <= o ∧ o + q <= L ∧
  ((o = 0 ∨ o = L - q) ∧ (q = L ∨ min_run p <= L - q) ∨
   allow_mid_cut p = true ∧ mid_lo p <= o ∧ mid_lo p <= L - q - o).

Lemma clamp_bounds i lo hi : lo <= hi → lo <= clamp i lo hi <= hi.
Proof. unfold clamp. lia. Qed.

Lemma mid_lo_ge p : 2 <= mid_lo p.
Proof. unfold mid_lo. lia. Qed.

Lemma candidates_cut run q geo p c :
  c ∈ candidates run q geo p →
  ∃ o, c = placement_at run o q geo p ∧ legal_cut p (run_len run) q o.
Proof.
  unfold candidates, legal_cut.
  destruct ((q <? 1) || (run_len run - q <? 0)) eqn:Hb; [by rewrite elem_of_nil|].
  rewrite elem_of_app. intros [Hc|Hc].
  - case_hyp Hc; rewrite ?elem_of_cons, ?elem_of_nil in Hc;
      destruct_or?; subst; try done; eexists; (split; [done|]); zlia.
  - pose proof (mid_lo_ge p). case_hyp Hc; rewrite ?elem_of_cons, ?elem_of_nil in Hc;
      destruct_or?; subst; try done. eexists; (split; [done|]).
    match goal with |- context [clamp ?i ?a ?b] =>
      pose proof (clamp_bounds i a b) end.
    zbool. split_and!; try lia. right. split; [done|lia].
Qed.

Lemma legal_cut_candidate run q geo p o :
  1 <= min_run p → legal_cut p (run_len run) q o → candidates run q geo p ≠ [].
Proof.
  intros Hm (Hq & Ho & Hoq & Hc). unfold candidates.
  destruct ((q <? 1) || (run_len run - q <? 0)) eqn:Hb; [zlia|].
  destruct ((run_len run - q =? 0) || (min_run p <=? run_len run - q)) eqn:He; [done|].
  destruct Hc as [[_ Hc]|(Ha & Hlo & Hhi)]; [zlia|]. rewrite Ha. simpl.
  destruct (mid_lo p <=? run_len run - q - mid_lo p) eqn:Hw; [done|zlia].
Qed.

(** The middle-cut window, when the policy opens it. *)
Definition mid_window (p : Policy) (L q : Z) : Prop :=
  allow_mid_cut p = true ∧ 2 * mid_lo p <= L - q.

Lemma candidates_nonempty run q geo p :
  1 <= min_run p →
  candidates run q geo p ≠ [] ↔
  1 <= q ∧ (q = run_len run ∨ q <= run_len run - min_run p ∨
            mid_window p (run_len run) q).
Proof.
  intros Hm. pose proof (mid_lo_ge p). unfold mid_window. split.
  - intros Hne. destruct (candidates run q geo p) as [|c cs] eqn:Hc; [done|].
    assert (c ∈ candidates run q geo p) as Hin by (rewrite Hc; left).
    apply candidates_cut in Hin as (o & _ & Hl & Ho & Hoq & Hcut).
    split; [done|]. destruct Hcut as [[_ [?|?]]|(? & ? & ?)]; [by left| |];
      right; [left; lia|right; split; [done|lia]].
  - intros (Hq & [->|[Hle|[Ha Hw]]]).
    + apply (legal_cut_candidate _ _ _ _ 0); [done|]. unfold legal_cut. lia.
    + apply (legal_cut_candidate _ _ _ _ 0); [done|]. unfold legal_cut. lia.
    + apply (legal_cut_candidate _ _ _ _ (mid_lo p)); [done|].
      unfold legal_cut. split_and!; try lia. right. split; [done|lia].
Qed.

(** ** The order on placements *)

Section key_order.
Local Open Scope Q_scope.

Lemma Qltb_spec a b : Qltb a b = true ↔ a < b.
Proof.
  unfold Qltb. rewrite negb_true_iff. pose proof (Qle_bool_iff b a) as Hle.
  destruct (Qle_bool b a); split; intros Hx; try done.
  - exfalso. apply (Qlt_not_le _ _ Hx). by apply Hle.
  - apply Qnot_le_lt. intros ?. by apply Hle in H.
Qed.

(** The order both loops use: higher score, then lower block, then lower start. *)
Definition before (a b : Placement) : Prop :=
  pl_score b < pl_score a ∨
  pl_score a == pl_score b ∧
    (pl_block a < pl_block b ∨ pl_block a = pl_block b ∧ pl_start a < pl_start b)%Z.

Lemma anchor_lt_spec a b : anchor_lt a b = true ↔ before a b.
Proof.
  unfold anchor_lt, before. pose proof (Qeq_bool_iff (- pl_score a) (- pl_score b)) as He.
  destruct (Qeq_bool (- pl_score a) (- pl_score b)).
  - assert (pl_score a == pl_score b) by (assert (- pl_score a == - pl_score b)
      by (by apply He); lra).
    destruct (pl_block a =? pl_block b)%Z eqn:Hb; zbool; split; intros Hx;
      [right|destruct Hx as [?|[? Hx]]; [lra|lia] |right
      |destruct Hx as [?|[? Hx]]; [lra|lia]]; (split; [done|lia]).
  - rewrite Qltb_spec. split; [intros; left; lra|].
    intros [?|[Heq _]]; [lra|]. assert (false = true); [apply He; lra|done].
Qed.

Lemma key_gt_spec a b : key_gt a b = true ↔ before a b.
Proof.
  unfold key_gt, before. pose proof (Qeq_bool_iff (pl_score a) (pl_score b)) as He.
  destruct (Qeq_bool (pl_score a) (pl_score b)).
  - assert (pl_score a == pl_score b) by (by apply He).
    destruct (- pl_block a =? - pl_block b)%Z eqn:Hb; zbool; split; intros Hx;
      [right|destruct Hx as [?|[? Hx]]; [lra|lia] |right
      |destruct Hx as [?|[? Hx]]; [lra|lia]]; (split; [done|lia]).
  - rewrite Qltb_spec. split; [intros; left; lra|].
    intros [?|[Heq _]]; [lra|]. assert (false = true); [by apply He|done].
Qed.

Lemma key_gt_anchor a b : key_gt a b = anchor_lt a b.
Proof. apply eq_true_iff_eq. by rewrite key_gt_spec, anchor_lt_spec. Qed.

Lemma anchor_le_spec a b : anchor_le a b = true ↔ ¬ before b a.
Proof.
  unfold anchor_le. rewrite negb_true_iff, <-anchor_lt_spec.
  by destruct (anchor_lt b a).
Qed.

Lemma anchor_le_total a b : anchor_le a b = false → anchor_le b a = true.
Proof.
  intros H. apply anchor_le_spec. intros Hba.
  unfold anchor_le in H. apply negb_false_iff, anchor_lt_spec in H.
  revert H Hba. unfold before. intros [?|[? ?]] [?|[? ?]]; lra || lia.
Qed.

Lemma not_before a b :
  ¬ before b a ↔ pl_score b < pl_score a ∨
    pl_score a == pl_score b ∧
    (pl_block a < pl_block b ∨ pl_block a = pl_block b ∧ pl_start a <= pl_start b)%Z.
Proof.
  unfold before. split.
  - intros Hn. destruct (Q_dec (pl_score a) (pl_score b)) as [[?|?]|Heq]; [|by left|].
    + exfalso. apply Hn. by left.
    + right. split; [done|]. apply dec_stable. intros Hc. apply Hn. right.
      split; [by symmetry|lia].
  - intros [?|[? ?]] [?|[? ?]]; lra || lia.
Qed.

Lemma anchor_le_trans a b c :
  anchor_le a b = true → anchor_le b c = true → anchor_le a c = true.
Proof.
  rewrite !anchor_le_spec, !not_before. intros [?|[? ?]] [?|[? ?]];
    [left; lra|left; lra|left; lra|right; split; [lra|lia]].
Qed.
End key_order.

(** ** [allocate] and [legal_anchors] *)

Lemma head_isort_cons x l :
  head (isort anchor_le (x :: l)) =
  Some (match head (isort anchor_le l) with
        | None => x
        | Some y => if anchor_le x y then x else y
        end).
Proof.
  simpl. destruct (isort anchor_le l) as [|y l']; simpl; [done|].
  by destruct (anchor_le x y).
Qed.

Lemma fold_better x l :
  fold_left better l (Some x) = head (isort anchor_le (x :: l)).
Proof.
  revert x. induction l as [|z l IH]; intros x; [done|].
  cbn [fold_left better]. rewrite key_gt_anchor.
  replace (if anchor_lt z x then Some z else Some x)
    with (Some (if anchor_le x z then x else z))
    by (unfold anchor_le; by destruct (anchor_lt z x)).
  rewrite IH, !head_isort_cons. f_equal.
  destruct (head (isort anchor_le l)) as [y|]; [|done].
  pose proof (anchor_le_trans x z y) as T1. pose proof (anchor_le_trans z x y) as T2.
  pose proof (anchor_le_total x z) as T3.
  destruct (anchor_le x z) eqn:Hxz, (anchor_le z y) eqn:Hzy; rewrite ?Hxz; try done.
  - by rewrite T1.
  - destruct (anchor_le x y); [|done].
    by assert (false = true) by (apply T2; [by apply T3|done]).
Qed.

Lemma fold_better_none l : fold_left better l None = head (isort anchor_le l).
Proof. destruct l; [done|]. by cbn [fold_left better]; rewrite fold_better. Qed.

Lemma allocate_from_all runs q geometry p best :
  allocate_from best runs q geometry p =
  let? cs := all_candidates runs q geometry p in Ok (fold_left better cs best).
Proof.
  revert best. induction runs as [|run runs IH]; intros best; simpl; [done|].
  destruct (geometry_at geometry (run_block run)) as [geo|e]; simpl; [|done].
  rewrite IH. destruct (all_candidates runs q geometry p); simpl; [|done].
  by rewrite fold_left_app.
Qed.

(** Automatic allocation is the first legal anchor.  [allocate] gives the
    head of [legal_anchors] on every input, a missing geometry included. *)
Theorem allocate_is_first_anchor runs q geometry p :
  allocate runs q geometry p =
  let? l := legal_anchors runs q geometry p in Ok (head l).
Proof.
  unfold allocate, legal_anchors. rewrite allocate_from_all.
  destruct (all_candidates runs q geometry p); simpl; [|done].
  by rewrite fold_better_none.
Qed.

(** ** Free runs as a set of seats *)

Definition run_has (r : Run) (b pos : Z) : Prop :=
  run_block r = b ∧ run_start r <= pos < run_end r.

Definition free (runs : list Run) (b pos : Z) : Prop := ∃ r, r ∈ runs ∧ run_has r b pos.

Definition pl_has (pl : Placement) (b pos : Z) : Prop :=
  pl_block pl = b ∧ pl_start pl <= pos < pl_start pl + pl_len pl.

(** Two runs of a block are apart: at least one seat between them is taken. *)
Definition apart (r1 r2 : Run) : Prop :=
  run_block r1 = run_block r2 → run_end r1 < run_start r2 ∨ run_end r2 < run_start r1.

(** The runs are the maximal ones of the set they cover, each listed once. *)
Record wf_runs (runs : list Run) : Prop := {
  wf_nodup : NoDup runs;
  wf_pos : ∀ r, r ∈ runs → 1 <= run_len r;
  wf_apart : ∀ r1 r2, r1 ∈ runs → r2 ∈ runs → r1 ≠ r2 → apart r1 r2;
}.

Lemma wf_runs_perm l1 l2 : l1 ≡ₚ l2 → wf_runs l1 → wf_runs l2.
Proof.
  intros Hp [Hn Hl Ha]. split.
  - by rewrite <-Hp.
  - intros r. rewrite <-Hp. apply Hl.
  - intros r1 r2. rewrite <-Hp. apply Ha.
Qed.

Lemma free_perm l1 l2 b pos : l1 ≡ₚ l2 → free l1 b pos ↔ free l2 b pos.
Proof. intros Hp. unfold free. setoid_rewrite Hp. done. Qed.

(** The seat a run contains determines the run. *)
Lemma wf_run_unique runs r1 r2 b pos :
  wf_runs runs → r1 ∈ runs → r2 ∈ runs → run_has r1 b pos → run_has r2 b pos → r1 = r2.
Proof.
  intros Hwf H1 H2 [Hb1 ?] [Hb2 ?]. destruct (decide (r1 = r2)) as [|Hne]; [done|].
  destruct (wf_apart _ Hwf _ _ H1 H2 Hne); [congruence|lia|lia].
Qed.

(** The maximal runs of a set of seats are unique. *)
Lemma wf_free_in l1 l2 r :
  wf_runs l1 → wf_runs l2 → (∀ b pos, free l1 b pos ↔ free l2 b pos) → r ∈ l1 → r ∈ l2.
Proof.
  intros Hw1 Hw2 Hf Hr. pose proof (wf_pos _ Hw1 _ Hr) as Hlen.
  set (b := run_block r).
  assert (Hin : ∀ pos, run_start r <= pos < run_end r → free l2 b pos)
    by (intros pos ?; apply Hf; exists r; done).
  destruct (Hin (run_start r)) as (r2 & Hr2 & Hb2 & Hs2); [unfold run_end; lia|].
  pose proof (wf_pos _ Hw2 _ Hr2) as Hlen2.
  (* the seat before [r] is taken, so [r2] starts where [r] does *)
  assert (run_start r2 = run_start r) as Hst.
  { destruct (decide (run_start r2 = run_start r)) as [|Hne]; [done|exfalso].
    assert (free l1 b (run_start r - 1)) as (r1 & Hr1 & Hb1 & Hs1).
    { apply Hf. exists r2. split; [done|]. split; [done|lia]. }
    destruct (decide (r1 = r)) as [->|Hn]; [lia|].
    destruct (wf_apart _ Hw1 _ _ Hr1 Hr Hn); [done|..]; unfold run_end in *; lia. }
  assert (run_end r2 = run_end r) as Hen.
  { destruct (Z.lt_trichotomy (run_end r2) (run_end r)) as [Hlt|[|Hgt]]; [exfalso|done|exfalso].
    - destruct (Hin (run_end r2)) as (r3 & Hr3 & Hb3 & Hs3); [unfold run_end in *; lia|].
      destruct (decide (r3 = r2)) as [->|Hn]; [lia|].
      destruct (wf_apart _ Hw2 _ _ Hr3 Hr2 Hn); [congruence|..]; unfold run_end in *; lia.
    - assert (free l1 b (run_end r)) as (r1 & Hr1 & Hb1 & Hs1).
      { apply Hf. exists r2. split; [done|]. split; [done|unfold run_end in *; lia]. }
      destruct (decide (r1 = r)) as [->|Hn]; [lia|].
      destruct (wf_apart _ Hw1 _ _ Hr1 Hr Hn); [done|..]; unfold run_end in *; lia. }
  replace r with r2; [done|]. destruct r, r2; unfold run_end in *; simpl in *; subst b.
  f_equal; lia.
Qed.

Lemma wf_free_perm l1 l2 :
  wf_runs l1 → wf_runs l2 → (∀ b pos, free l1 b pos ↔ free l2 b pos) → l1 ≡ₚ l2.
Proof.
  intros Hw1 Hw2 Hf. apply NoDup_Permutation; [apply Hw1|apply Hw2|].
  intros r. split; by eapply wf_free_in.
Qed.

Lemma run_le_total a b : run_le a b = false → run_le b a = true.
Proof. unfold run_le. intros. case_goal; case_hyp H; zlia. Qed.

Lemma run_le_trans a b c : run_le a b = true → run_le b c = true → run_le a c = true.
Proof. unfold run_le. intros H1 H2. case_goal; case_hyp H1; case_hyp H2; zlia. Qed.

(** On well-formed runs sorting is canonical: equal sets give equal lists. *)
Lemma isort_run_canonical l1 l2 :
  wf_runs l1 → wf_runs l2 → (∀ b pos, free l1 b pos ↔ free l2 b pos) →
  isort run_le l1 = isort run_le l2.
Proof.
  intros Hw1 Hw2 Hf.
  apply (sorted_perm_unique run_le); try (apply isort_sorted;
    [apply run_le_total|apply run_le_trans]).
  - intros x y Hx Hy Hxy Hyx. apply elem_of_isort in Hx, Hy.
    pose proof (wf_pos _ Hw1 _ Hx). pose proof (wf_pos _ Hw1 _ Hy).
    assert (run_block x = run_block y ∧ run_start x = run_start y) as [? ?]
      by (revert Hxy Hyx; unfold run_le; case_goal; zlia).
    apply (wf_run_unique l1 x y (run_block y) (run_start y)); try done;
      (split; [done|]); unfold run_end; lia.
  - rewrite !isort_perm. by apply wf_free_perm.
Qed.

(** ** Quality of a window of seats *)

Lemma inject_Z_minus a b : inject_Z (a - b) == inject_Z a - inject_Z b.
Proof. unfold Z.sub. rewrite inject_Z_plus, inject_Z_opp. lra. Qed.

Lemma inject_Z_2 : inject_Z 2 = 2%Q.
Proof. done. Qed.

(** Twice the distance of a seat to the middle of its block. *)
Definition dist2 (g : BlockGeometry) (pos : Z) : Z := Z.abs (2 * pos - (capacity g - 1)).

Lemma Qabs_half z : (Qabs (inject_Z z / 2) == inject_Z (Z.abs z) / 2)%Q.
Proof.
  destruct (Z.le_ge_cases 0 z) as [Hz|Hz].
  - rewrite Z.abs_eq by done. apply Qabs_pos.
    apply Qle_shift_div_l; [lra|]. rewrite Zle_Qle in Hz. unfold inject_Z in *. lra.
  - rewrite Z.abs_neq, inject_Z_opp by done. rewrite Qabs_neg; [field|].
    apply Qle_shift_div_r; [lra|]. rewrite Zle_Qle in Hz. unfold inject_Z in *. lra.
Qed.

Lemma seat_quality_dist g pos :
  (seat_quality g pos == geo_base g - decay g * (inject_Z (dist2 g pos) / 2))%Q.
Proof.
  unfold seat_quality, dist2, center, center_of.
  assert (inject_Z pos - inject_Z (capacity g - 1) / 2 ==
          inject_Z (2 * pos - (capacity g - 1)) / 2)%Q as ->.
  { rewrite !inject_Z_minus, inject_Z_mult, inject_Z_2. field. }
  by rewrite Qabs_half.
Qed.

Definition window_dist (g : BlockGeometry) (start length : Z) : Z :=
  list_sum (dist2 g) (zrange start length).

Lemma window_quality_acc g l acc :
  (fold_left (λ a pos, (a + seat_quality g pos)%Q) l acc ==
   acc + inject_Z (Z.of_nat (length l)) * geo_base g
   - decay g * (inject_Z (list_sum (dist2 g) l) / 2))%Q.
Proof.
  revert acc. induction l as [|x l IH]; intros acc; cbn [fold_left list_sum foldr length].
  - change (inject_Z (Z.of_nat 0)) with 0%Q. change (inject_Z 0) with 0%Q. field.
  - rewrite IH, seat_quality_dist, Nat2Z.inj_succ. fold (list_sum (dist2 g) l).
    unfold Z.succ. rewrite !inject_Z_plus. change (inject_Z 1) with 1%Q. field.
Qed.

Lemma window_quality_dist g s q :
  0 <= q →
  (window_quality g s q ==
   inject_Z q * geo_base g - decay g * (inject_Z (window_dist g s q) / 2))%Q.
Proof.
  intros Hq. unfold window_quality. rewrite window_quality_acc.
  unfold zrange. rewrite length_seqZ, Z2Nat.id by done.
  fold (zrange s q). unfold window_dist. lra.
Qed.

Lemma window_dist_step g s q :
  0 <= q → window_dist g (s + 1) q = window_dist g s q + dist2 g (s + q) - dist2 g s.
Proof.
  intros Hq. unfold window_dist, zrange.
  assert (list_sum (dist2 g) (seqZ s (q + 1)) =
          list_sum (dist2 g) (seqZ s q) + dist2 g (s + q)) as H1.
  { rewrite seqZ_app, list_sum_app by lia.
    change (seqZ (s + q) 1) with [0 + (s + q)]. unfold list_sum at 2. cbn [foldr].
    rewrite (Z.add_0_l (s + q)). lia. }
  assert (list_sum (dist2 g) (seqZ s (q + 1)) =
          dist2 g s + list_sum (dist2 g) (seqZ (s + 1) q)) as H2.
  { rewrite seqZ_cons by lia. cbn [list_sum foldr]. unfold Z.succ.
    by replace (Z.pred (q + 1)) with q by lia. }
  lia.
Qed.

(** Distances grow to the right of the middle and shrink to its left. *)
Lemma window_dist_right g s t q :
  0 <= q → s <= t → capacity g - 1 <= 2 * s + q → window_dist g s q <= window_dist g t q.
Proof.
  intros Hq Hst Hs. revert t Hst. apply Zlt_lower_bound_ind. intros t IH Hst.
  destruct (decide (t = s)) as [->|]; [done|].
  specialize (IH (t - 1)). replace t with ((t - 1) + 1) by lia.
  rewrite window_dist_step by done. unfold dist2 in *. lia.
Qed.

Lemma window_dist_left g s t q :
  0 <= q → s <= t → 2 * (t - 1) + q <= capacity g - 1 → window_dist g t q <= window_dist g s q.
Proof.
  intros Hq Hst Ht. revert t Hst Ht. apply (Zlt_lower_bound_ind (λ t,
    2 * (t - 1) + q <= capacity g - 1 → window_dist g t q <= window_dist g s q)).
  intros t IH Hst Ht. destruct (decide (t = s)) as [->|]; [done|].
  specialize (IH (t - 1)). replace t with ((t - 1) + 1) at 1 by lia.
  rewrite window_dist_step by done. unfold dist2 in *. lia.
Qed.

Lemma round_half_even_near x :
  (x - (1 # 2) <= inject_Z (round_half_even x) <= x + (1 # 2))%Q.
Proof.
  unfold round_half_even. pose proof (Qfloor_le x). pose proof (Qlt_floor x) as Hl.
  rewrite inject_Z_plus in Hl. change (inject_Z 1) with 1%Q in Hl.
  destruct (Qcompare_spec (x - inject_Z (Qfloor x)) (1 # 2)) as [He|He|He];
    [destruct (Z.even (Qfloor x))|..];
    rewrite ?inject_Z_plus; change (inject_Z 1) with 1%Q; lra.
Qed.

Lemma ideal_start_near g q :
  capacity g - 1 <= 2 * ideal_start g q + q <= capacity g + 1.
Proof.
  unfold ideal_start, center, center_of.
  set (x := (inject_Z (capacity g - 1) / 2 - inject_Z (q - 1) / 2)%Q).
  assert (x == (inject_Z (capacity g) - inject_Z q) * (1 # 2))%Q as Hx.
  { unfold x. rewrite !inject_Z_minus. change (inject_Z 1) with 1%Q. field. }
  pose proof (round_half_even_near x) as [H1 H2].
  set (m := round_half_even x) in *. clearbody m x.
  split; rewrite Zle_Qle, ?inject_Z_plus, ?inject_Z_minus, ?inject_Z_plus, ?inject_Z_mult;
    rewrite ?inject_Z_2; change (inject_Z 1) with 1%Q; lra.
Qed.

(** The clamped offset is as good as any other one of the window. *)
Lemma clamp_best g s0 q lo hi o :
  (0 <= decay g)%Q → 0 <= q → lo <= o <= hi →
  (window_quality g (s0 + o) q <=
   window_quality g (s0 + clamp (ideal_start g q - s0) lo hi) q)%Q.
Proof.
  intros Hd Hq Ho. rewrite !window_quality_dist by done.
  pose proof (ideal_start_near g q) as Hi. set (m := ideal_start g q) in *.
  set (x := clamp (m - s0) lo hi).
  assert (window_dist g (s0 + x) q <= window_dist g (s0 + o) q) as Hle.
  { destruct (Z.le_gt_cases x o).
    - destruct (decide (x = o)) as [->|]; [done|].
      apply window_dist_right; unfold x, clamp in *; lia.
    - apply window_dist_left; unfold x, clamp in *; lia. }
  rewrite Zle_Qle in Hle.
  apply Qplus_le_compat; [apply Qle_refl|]. apply Qopp_le_compat.
  rewrite !(Qmult_comm (decay g)).
  apply Qmult_le_compat_r; [|done]. unfold Qdiv. by apply Qmult_le_compat_r; [|vm_compute].
Qed.

(** ** Optimality of the allocation *)

Lemma phi_ge2 p n : 2 <= n → phi p n = inject_Z n.
Proof. intros. unfold phi, ORPHAN. case_goal; zlia. Qed.

(** Inside the middle window every cut is free of charge. *)
Lemma mid_cut_cost p L q o :
  1 <= q → mid_lo p <= o → mid_lo p <= L - q - o →
  (cut_cost p L o (L - q - o) q == 0)%Q.
Proof.
  intros. pose proof (mid_lo_ge p). unfold cut_cost. rewrite !phi_ge2 by lia.
  rewrite !inject_Z_minus. lra.
Qed.

Lemma end_candidate run q geo p o :
  1 <= q → 0 <= o → o + q <= run_len run → o = 0 ∨ o = run_len run - q →
  q = run_len run ∨ min_run p <= run_len run - q →
  placement_at run o q geo p ∈ candidates run q geo p.
Proof.
  intros Hq Ho Hoq Hend Htail. unfold candidates.
  destruct ((q <? 1) || (run_len run - q <? 0)) eqn:Hb; [zlia|].
  destruct ((run_len run - q =? 0) || (min_run p <=? run_len run - q)) eqn:He; [|zlia].
  apply elem_of_app. left. destruct (decide (o = 0)) as [->|]; [left|].
  assert (o = run_len run - q) as -> by lia.
  destruct (0 <? run_len run - q) eqn:Ht; [right; left|zlia].
Qed.

Lemma legal_cut_dominated run q geo p o :
  (0 <= decay geo)%Q → legal_cut p (run_len run) q o →
  ∃ c, c ∈ candidates run q geo p ∧ (pl_score (placement_at run o q geo p) <= pl_score c)%Q.
Proof.
  intros Hd (Hq & Ho & Hoq & [[Hend Htail]|(Ha & Hlo & Hhi)]).
  { exists (placement_at run o q geo p). split; [|apply Qle_refl].
    by apply end_candidate. }
  set (hi := run_len run - q - mid_lo p).
  set (x := clamp (ideal_start geo q - run_start run) (mid_lo p) hi).
  assert (mid_lo p <= x <= hi) as Hx by (apply clamp_bounds; lia).
  exists (placement_at run x q geo p). split.
  - unfold candidates.
    destruct ((q <? 1) || (run_len run - q <? 0)) eqn:Hb; [zlia|].
    apply elem_of_app. right. rewrite Ha. simpl.
    destruct (mid_lo p <=? run_len run - q - mid_lo p) eqn:Hw; [left|zlia].
  - cbn [pl_score placement_at]. rewrite !mid_cut_cost by lia.
    assert (window_quality geo (run_start run + o) q <=
            window_quality geo (run_start run + x) q)%Q as Hle.
    { apply clamp_best; [done|lia|lia]. }
    lra.
Qed.

Lemma elem_of_all_candidates runs q geometry p cs c :
  all_candidates runs q geometry p = Ok cs →
  c ∈ cs ↔ ∃ run geo, run ∈ runs ∧ geometry !! run_block run = Some geo ∧
                      c ∈ candidates run q geo p.
Proof.
  revert cs. induction runs as [|r runs IH]; intros cs Hcs; simpl in Hcs.
  - simplify_eq. split; [by intros ?%elem_of_nil|by intros (?&?&?%elem_of_nil&_)].
  - unfold geometry_at in Hcs. destruct (geometry !! run_block r) as [geo|] eqn:Hg; [|done].
    simpl in Hcs. destruct (all_candidates runs q geometry p) as [cs'|]; simplify_eq/=.
    rewrite elem_of_app, (IH cs') by done. split.
    + intros [Hc|(run & geo' & Hr & Hrest)]; [by exists r, geo; split; [left|]|].
      exists run, geo'. split; [by right|done].
    + intros (run & geo' & Hr & Hg' & Hc).
      apply elem_of_cons in Hr as [->|Hr]; [left; congruence|right; by eauto].
Qed.

Definition geometry_covers (runs : list Run) (geometry : gmap Z BlockGeometry) : Prop :=
  ∀ run, run ∈ runs → is_Some (geometry !! run_block run).

Lemma all_candidates_total runs q geometry p :
  geometry_covers runs geometry → ∃ cs, all_candidates runs q geometry p = Ok cs.
Proof.
  induction runs as [|r runs IH]; intros Hc; simpl; [by eexists|].
  unfold geometry_at. destruct (Hc r) as [geo ->]; [left|].
  destruct IH as [cs Hcs]; [intros run Hr; apply Hc; by right|].
  simpl. rewrite Hcs. by eexists.
Qed.

Lemma head_isort_min l :
  match head (isort anchor_le l) with
  | None => l = []
  | Some m => m ∈ l ∧ ∀ c, c ∈ l → ¬ before c m
  end.
Proof.
  pose proof (isort_sorted anchor_le anchor_le_total anchor_le_trans l) as Hs.
  pose proof (isort_perm anchor_le l) as Hp.
  destruct (isort anchor_le l) as [|m l']; simpl; [by apply Permutation_nil_l in Hp|].
  split; [rewrite <-Hp; left|]. intros c. rewrite <-Hp. inversion_clear Hs as [|? ? ? Hf].
  intros [->|Hc]%elem_of_cons; [unfold before; intros [?|[? ?]]; lra || lia|].
  rewrite Forall_forall in Hf. by apply anchor_le_spec, Hf.
Qed.

(** C37 (allocation is sound, complete and optimal).  With a geometry for every
    run and no negative decay, [allocate] raises nothing; a placement it returns
    is a legal cut of one of the runs and no legal cut of any run, at any offset
    and not only at the few it tries, scores higher; and it returns [None]
    exactly when no run has a legal cut for the quantity. *)
Theorem allocate_optimal runs q geometry p :
  1 <= min_run p →
  geometry_covers runs geometry →
  (∀ b geo, geometry !! b = Some geo → (0 <= decay geo)%Q) →
  match allocate runs q geometry p with
  | Ok (Some pl) =>
      (∃ run geo o, run ∈ runs ∧ geometry !! run_block run = Some geo ∧
         legal_cut p (run_len run) q o ∧ pl = placement_at run o q geo p) ∧
      (∀ run geo o, run ∈ runs → geometry !! run_block run = Some geo →
         legal_cut p (run_len run) q o →
         (pl_score (placement_at run o q geo p) <= pl_score pl)%Q)
  | Ok None => ∀ run o, run ∈ runs → ¬ legal_cut p (run_len run) q o
  | Err _ => False
  end.
Proof.
  intros Hm Hcov Hdec. unfold allocate. rewrite allocate_from_all.
  destruct (all_candidates_total runs q geometry p Hcov) as [cs Hcs]. rewrite Hcs.
  simpl. rewrite fold_better_none. pose proof (head_isort_min cs) as Hmin.
  destruct (head (isort anchor_le cs)) as [pl|]; [destruct Hmin as [Hin Hbest]; split|].
  - apply (elem_of_all_candidates _ _ _ _ _ _ Hcs) in Hin as (run & geo & Hr & Hg & Hc).
    apply candidates_cut in Hc as (o & -> & Hl). eauto 10.
  - intros run geo o Hr Hg Hl.
    destruct (legal_cut_dominated run q geo p o) as (c & Hc & Hle); [eauto|done|].
    apply (Qle_trans _ _ _ Hle), Qnot_lt_le. intros Hlt. apply (Hbest c); [|by left].
    apply (elem_of_all_candidates _ _ _ _ _ _ Hcs). eauto.
  - intros run o Hr Hl. destruct (Hcov run Hr) as [geo Hg].
    destruct (legal_cut_dominated run q geo p o) as (c & Hc & _); [eauto|done|].
    assert (c ∈ cs) as Hin by (apply (elem_of_all_candidates _ _ _ _ _ _ Hcs); eauto).
    rewrite Hmin in Hin. by apply elem_of_nil in Hin.
Qed.

(** A sample venue: three runs over two calibrated blocks. *)
Definition sample_runs : list Run := [mk_run 1 0 5; mk_run 2 0 2; mk_run 2 4 3].
Definition sample_geometry : gmap Z BlockGeometry :=
  <[1 := mk_geometry 1 10 (11 # 10) (2 # 9)]> {[2 := mk_geometry 2 7 1 (1 # 3)]}.

Lemma sample_wf : wf_runs sample_runs.
Proof.
  split.
  - by apply (bool_decide_unpack _).
  - intros r Hr. repeat (apply elem_of_cons in Hr as [->|Hr]; [simpl; lia|]).
    by apply elem_of_nil in Hr.
  - intros r1 r2 H1 H2 Hne.
    repeat (apply elem_of_cons in H1 as [->|H1]; [|]);
      [..|by apply elem_of_nil in H1];
      (repeat (apply elem_of_cons in H2 as [->|H2]; [|]); [..|by apply elem_of_nil in H2]);
      try done; unfold apart, run_end; simpl; lia.
Defined.

Lemma sample_covers : geometry_covers sample_runs sample_geometry.
Proof.
  intros r Hr. repeat (apply elem_of_cons in Hr as [->|Hr]; [eexists; reflexivity|]).
  by apply elem_of_nil in Hr.
Defined.

Lemma sample_decay b geo : sample_geometry !! b = Some geo → (0 <= decay geo)%Q.
Proof.
  unfold sample_geometry. rewrite lookup_insert_Some, lookup_singleton_Some.
  intros [[_ <-]|[_ [_ <-]]]; by vm_compute.
Defined.

Lemma allocate_optimal_witness :
  (∃ pl, allocate sample_runs 3 sample_geometry NORMAL_POLICY = Ok (Some pl) ∧
         pl_block pl = 1 ∧ pl_start pl = 2) ∧
  allocate sample_runs 4 sample_geometry NORMAL_POLICY = Ok None ∧
  (∀ run o, run ∈ sample_runs → ¬ legal_cut NORMAL_POLICY (run_len run) 4 o).
Proof.
  split; [eexists; split; [by vm_compute|done]|]. split; [by vm_compute|].
  apply (allocate_optimal sample_runs 4 sample_geometry NORMAL_POLICY);
    [done|apply sample_covers|apply sample_decay].
Defined.

(** ** Independence of the order the runs are listed in *)

Lemma all_candidates_perm r1 r2 q geometry p :
  r1 ≡ₚ r2 →
  match all_candidates r1 q geometry p, all_candidates r2 q geometry p with
  | Ok c1, Ok c2 => c1 ≡ₚ c2
  | Err e1, Err e2 => e1 = e2
  | _, _ => False
  end.
Proof.
  induction 1 as [|x l l' _ IH|x y l|l1 l2 l3 _ IH1 _ IH2]; simpl.
  - done.
  - destruct (geometry_at geometry (run_block x)); simpl; [|done].
    destruct (all_candidates l q geometry p), (all_candidates l' q geometry p);
      simpl; try done. by rewrite IH.
  - unfold geometry_at.
    destruct (geometry !! run_block x), (geometry !! run_block y); simpl;
      destruct (all_candidates l q geometry p); simpl; try done.
    rewrite !(assoc_L (++)). apply Permutation_app_tail, Permutation_app_comm.
  - destruct (all_candidates l1 q geometry p), (all_candidates l2 q geometry p),
      (all_candidates l3 q geometry p); try done; congruence || by rewrite IH1.
Qed.

(** In well-formed runs a candidate is known by its block and start. *)
Lemma candidate_unique runs q geometry p cs x y :
  wf_runs runs → all_candidates runs q geometry p = Ok cs → x ∈ cs → y ∈ cs →
  pl_block x = pl_block y → pl_start x = pl_start y → x = y.
Proof.
  intros Hwf Hcs Hx Hy Hb Hs.
  apply (elem_of_all_candidates _ _ _ _ _ _ Hcs) in Hx as (r1 & g1 & Hr1 & Hg1 & Hx).
  apply (elem_of_all_candidates _ _ _ _ _ _ Hcs) in Hy as (r2 & g2 & Hr2 & Hg2 & Hy).
  apply candidates_cut in Hx as (o1 & -> & Hl1).
  apply candidates_cut in Hy as (o2 & -> & Hl2). simpl in Hb, Hs.
  destruct Hl1 as (? & ? & ? & _), Hl2 as (? & ? & ? & _).
  assert (r1 = r2) as <-.
  { apply (wf_run_unique runs r1 r2 (run_block r1) (run_start r1 + o1)); try done;
      (split; [done|]); unfold run_end; lia. }
  assert (o1 = o2) as <- by lia. congruence.
Qed.

(** The iteration order of the runs does not matter.  Listing the same
    well-formed free runs in any other order, as an unordered hash read does,
    gives the same anchors in the same order, hence the same allocation. *)
Theorem allocation_order_independent r1 r2 q geometry p :
  wf_runs r1 → r1 ≡ₚ r2 →
  legal_anchors r1 q geometry p = legal_anchors r2 q geometry p ∧
  allocate r1 q geometry p = allocate r2 q geometry p.
Proof.
  intros Hwf Hp. unfold legal_anchors, allocate. rewrite !allocate_from_all.
  pose proof (all_candidates_perm r1 r2 q geometry p Hp) as Hc.
  destruct (all_candidates r1 q geometry p) as [c1|e1] eqn:H1,
    (all_candidates r2 q geometry p) as [c2|e2]; simpl; try done; [|by subst].
  assert (isort anchor_le c1 = isort anchor_le c2) as Heq.
  { apply (sorted_perm_unique anchor_le).
    - intros x y Hx Hy Hxy Hyx. apply elem_of_isort in Hx, Hy.
      apply anchor_le_spec, not_before in Hxy. apply anchor_le_spec, not_before in Hyx.
      eapply candidate_unique; try done;
        destruct Hxy as [?|[? ?]], Hyx as [?|[? ?]]; lra || lia.
    - apply isort_sorted; [apply anchor_le_total|apply anchor_le_trans].
    - apply isort_sorted; [apply anchor_le_total|apply anchor_le_trans].
    - by rewrite !isort_perm. }
  by rewrite !fold_better_none, Heq.
Qed.

(** ** Feasible quantities *)

Lemma any_candidate_all runs n geometry p :
  geometry_covers runs geometry →
  any_candidate runs n geometry p =
  Ok (match all_candidates runs n geometry p with Ok (_ :: _) => true | _ => false end).
Proof.
  induction runs as [|r runs IH]; intros Hc; simpl; [done|].
  unfold geometry_at. destruct (Hc r) as [geo ->]; [left|]. simpl.
  assert (geometry_covers runs geometry) as Hc' by (intros x Hx; apply Hc; by right).
  destruct (all_candidates_total runs n geometry p Hc') as [cs Hcs].
  rewrite IH, Hcs by done. simpl. destruct (candidates r n geo p); [by destruct cs|done].
Qed.

Lemma any_candidate_run runs n geometry p :
  1 <= min_run p → geometry_covers runs geometry →
  any_candidate runs n geometry p = Ok true ↔
  ∃ run, run ∈ runs ∧ 1 <= n ∧
    (n = run_len run ∨ n <= run_len run - min_run p ∨ mid_window p (run_len run) n).
Proof.
  intros Hm. induction runs as [|r runs IH]; intros Hc; simpl.
  - split; [done|by intros (? & ?%elem_of_nil & _)].
  - unfold geometry_at. destruct (Hc r) as [geo ->]; [left|]. simpl.
    pose proof (candidates_nonempty r n geo p Hm) as Hne.
    assert (geometry_covers runs geometry) as Hc' by (intros x Hx; apply Hc; by right).
    specialize (IH Hc'). destruct (candidates r n geo p) as [|c cs].
    + rewrite IH. split; [intros (run & Hr & ?); exists run; split; [by right|done]|].
      intros (run & Hr & Hq & Hcut). exists run.
      apply elem_of_cons in Hr as [->|Hr]; [|done].
      exfalso. by apply Hne; [split|].
    + split; [intros _|done]. exists r. split; [left|]. by apply Hne.
Qed.

Lemma feasible_from_spec ns runs geometry p :
  geometry_covers runs geometry →
  ∃ l, feasible_from ns runs geometry p = Ok l ∧
       ∀ n, n ∈ l ↔ n ∈ ns ∧ any_candidate runs n geometry p = Ok true.
Proof.
  intros Hc. induction ns as [|n ns (l & Hl & Hin)]; simpl.
  - exists []. split; [done|]. intros n.
    split; [by intros ?%elem_of_nil|by intros [?%elem_of_nil _]].
  - rewrite Hl. destruct (any_candidate runs n geometry p) as [b|e] eqn:Hn.
    + eexists. split; [done|]. intros m. destruct b; rewrite !elem_of_cons, ?Hin.
      * split; [intros [->|[? ?]]; auto|intros [[->|?] ?]; auto].
      * split; [intros [? ?]; auto|intros [[->|?] ?]; [congruence|auto]].
    + exfalso. by rewrite any_candidate_all in Hn.
Qed.

(** The quantities offered are exactly those that can be allocated.
    [feasible_quantities] lists [n] iff [1 <= n <= max_order] and some run is of
    length [n], keeps at least [min_run] seats besides [n], or has a middle
    window for [n]; these are exactly the quantities [allocate] can seat. *)
Theorem feasible_quantities_exact runs geometry max_order p :
  1 <= min_run p → geometry_covers runs geometry →
  ∃ l, feasible_quantities runs geometry max_order p = Ok l ∧
  ∀ n,
    (n ∈ l ↔ 1 <= n <= max_order ∧ ∃ run, run ∈ runs ∧
       (n = run_len run ∨ n <= run_len run - min_run p ∨ mid_window p (run_len run) n)) ∧
    (n ∈ l ↔ 1 <= n <= max_order ∧ ∃ pl, allocate runs n geometry p = Ok (Some pl)).
Proof.
  intros Hm Hc.
  destruct (feasible_from_spec (zrange 1 max_order) runs geometry p Hc) as (l & Hl & Hin).
  exists l. split; [done|]. intros n. rewrite Hin, elem_of_zrange. split.
  - rewrite any_candidate_run by done. split; [intros (? & r & ? & ? & ?); split; [lia|by exists r]|].
    intros (? & r & ? & ?). split; [lia|]. exists r. split_and!; [done|lia|done].
  - rewrite any_candidate_all by done. unfold allocate. rewrite allocate_from_all.
    destruct (all_candidates_total runs n geometry p Hc) as [cs Hcs]. rewrite Hcs. simpl.
    rewrite fold_better_none. pose proof (head_isort_min cs) as Hh.
    destruct cs as [|c cs].
    + split; [by intros [_ ?]|]. by intros [_ [pl Hpl]].
    + destruct (head (isort anchor_le (c :: cs))); [|done].
      split; [intros [? _]|intros [? _]]; (split; [lia|by eauto]).
Qed.

(** ** [occupy] *)

Lemma contains_spec r pl :
  contains r pl = true ↔
  run_block r = pl_block pl ∧ run_start r <= pl_start pl ∧
  pl_start pl + pl_len pl <= run_end r.
Proof. unfold contains, run_end. rewrite !andb_true_iff. zbool. tauto. Qed.

(** The pieces of a run lie inside it, outside the placement. *)
Lemma occupy_run_inside pl r r' :
  1 <= pl_len pl → 1 <= run_len r → r' ∈ occupy_run pl r →
  run_block r' = run_block r ∧ run_start r <= run_start r' ∧ run_end r' <= run_end r ∧
  1 <= run_len r'.
Proof.
  intros Hlen Hr. unfold occupy_run. destruct (contains r pl) eqn:Hc; simpl;
    [|rewrite list_elem_of_singleton; intros ->; unfold run_end; lia].
  apply contains_spec in Hc. unfold run_end in *. rewrite elem_of_app.
  case_goal; rewrite ?elem_of_nil, ?list_elem_of_singleton; intros [?|?];
    simplify_eq/=; try done; unfold run_end; simpl; zlia.
Qed.

Lemma occupy_run_has pl r b pos :
  1 <= pl_len pl → contains r pl = true →
  free (occupy_run pl r) b pos ↔ run_has r b pos ∧ ¬ pl_has pl b pos.
Proof.
  intros Hlen Hc. unfold occupy_run. rewrite Hc. apply contains_spec in Hc as (Hb & Hs & He).
  unfold free, run_has, pl_has, run_end in *; simpl. split.
  - intros (r' & Hr' & Hb' & Hp). apply elem_of_app in Hr'.
    case_hyp Hr'; rewrite ?elem_of_nil, ?list_elem_of_singleton in Hr';
      destruct Hr' as [?|?]; simplify_eq/=; try done; zbool;
      (split; [split; [done|lia]|intros [_ ?]; lia]).
  - intros [[Hb' Hp] Hn].
    assert (pos < pl_start pl ∨ pl_start pl + pl_len pl <= pos) as [Hl|Hl].
    { destruct (Z.lt_ge_cases pos (pl_start pl)); [by left|right].
      apply Z.nlt_ge. intros ?. apply Hn. split; [congruence|lia]. }
    + eexists. split; [apply elem_of_app; left|].
      * destruct (run_start r <? pl_start pl) eqn:?; [left|zlia].
      * simpl. split; [done|lia].
    + eexists. split; [apply elem_of_app; right|].
      * destruct (pl_start pl + pl_len pl <? run_start r + run_len r) eqn:?; [left|zlia].
      * simpl. split; [done|lia].
Qed.

Lemma occupy_run_nodup pl r : 1 <= pl_len pl → NoDup (occupy_run pl r).
Proof.
  intros Hl. unfold occupy_run. case_goal; simpl; try apply NoDup_singleton; try apply NoDup_nil_2.
  apply NoDup_cons. split; [|apply NoDup_singleton].
  rewrite list_elem_of_singleton. intros ?. simplify_eq. zlia.
Qed.

Section occupy.
Context (runs : list Run) (pl : Placement).
Context (Hwf : wf_runs runs) (Hlen : 1 <= pl_len pl).

Lemma occupy_wf : wf_runs (runs ≫= occupy_run pl).
Proof using Hwf Hlen.
  assert (Hin : ∀ r', r' ∈ (runs ≫= occupy_run pl) → ∃ r, r ∈ runs ∧ r' ∈ occupy_run pl r ∧
    run_block r' = run_block r ∧ run_start r <= run_start r' ∧ run_end r' <= run_end r ∧
    1 <= run_len r').
  { intros r' (r & Hr' & Hr)%list_elem_of_bind. exists r. split_and!; try done;
      by apply (occupy_run_inside pl r r' Hlen (wf_pos _ Hwf _ Hr)). }
  split.
  - apply NoDup_bind; [|intros; by apply occupy_run_nodup|apply Hwf].
    intros r1 r2 y Hr1 Hr2 Hy1 Hy2.
    destruct (occupy_run_inside pl r1 y Hlen (wf_pos _ Hwf _ Hr1) Hy1) as (? & ? & ? & ?).
    destruct (occupy_run_inside pl r2 y Hlen (wf_pos _ Hwf _ Hr2) Hy2) as (? & ? & ? & ?).
    apply (wf_run_unique runs r1 r2 (run_block y) (run_start y)); try done;
      (split; [done|]); unfold run_end in *; lia.
  - intros r' Hr'. by destruct (Hin r' Hr') as (? & ? & ? & ? & ? & ? & ?).
  - intros r1' r2' H1 H2 Hne Hb.
    destruct (Hin _ H1) as (r1 & Hr1 & Hp1 & Hb1 & Hs1 & He1 & _).
    destruct (Hin _ H2) as (r2 & Hr2 & Hp2 & Hb2 & Hs2 & He2 & _).
    destruct (decide (r1 = r2)) as [<-|Hn];
      [|destruct (wf_apart _ Hwf _ _ Hr1 Hr2 Hn); [congruence|left; lia|right; lia]].
    unfold occupy_run in Hp1, Hp2. destruct (contains r1 pl) eqn:Hc; simpl in Hp1, Hp2;
      [|rewrite list_elem_of_singleton in Hp1, Hp2; congruence].
    unfold run_end in *. apply elem_of_app in Hp1. apply elem_of_app in Hp2.
    case_hyp Hp1; case_hyp Hp2; rewrite ?elem_of_nil, ?list_elem_of_singleton in Hp1, Hp2;
      destruct Hp1, Hp2; simplify_eq/=; lia.
Qed.

Lemma occupy_free b pos :
  (∃ r, r ∈ runs ∧ contains r pl = true) →
  free (runs ≫= occupy_run pl) b pos ↔ free runs b pos ∧ ¬ pl_has pl b pos.
Proof using Hwf Hlen.
  intros (host & Hh & Hhc). split.
  - intros (r' & (r & Hr' & Hr)%list_elem_of_bind & Hp).
    destruct (contains r pl) eqn:Hc.
    + destruct (proj1 (occupy_run_has pl r b pos Hlen Hc)) as [? ?]; [by exists r'|].
      split; [by exists r|done].
    + unfold occupy_run in Hr'. rewrite Hc in Hr'. simpl in Hr'.
      apply list_elem_of_singleton in Hr' as ->. split; [by exists r|].
      intros Hpl. assert (r = host) as ->; [|congruence].
      apply contains_spec in Hhc as (? & ? & ?). destruct Hpl as [? ?].
      apply (wf_run_unique runs r host b pos); try done. split; [congruence|lia].
  - intros ((r & Hr & Hp) & Hn). destruct (contains r pl) eqn:Hc.
    + destruct (proj2 (occupy_run_has pl r b pos Hlen Hc)) as (r' & ? & ?); [done|].
      exists r'. split; [|done]. apply list_elem_of_bind. by exists r.
    + exists r. split; [|done]. apply list_elem_of_bind. exists r. split; [|done].
      unfold occupy_run. rewrite Hc. left.
Qed.
End occupy.

Lemma contains_exists runs pl :
  existsb (λ run, contains run pl) runs = true ↔ ∃ r, r ∈ runs ∧ contains r pl = true.
Proof.
  rewrite existsb_exists. split; intros (r & Hr & ?); exists r; (split; [|done]);
    by apply list_elem_of_In.
Qed.

Lemma isort_run_wf l : wf_runs l → wf_runs (isort run_le l).
Proof. apply wf_runs_perm. by rewrite isort_perm. Qed.

Lemma isort_run_free l b pos : free (isort run_le l) b pos ↔ free l b pos.
Proof. apply free_perm, isort_perm. Qed.

Lemma occupy_ok runs pl :
  wf_runs runs → 1 <= pl_len pl → (∃ r, r ∈ runs ∧ contains r pl = true) →
  ∃ out, occupy runs pl = Ok out ∧ wf_runs out ∧
    ∀ b pos, free out b pos ↔ free runs b pos ∧ ¬ pl_has pl b pos.
Proof.
  intros Hwf Hlen Hc. unfold occupy.
  rewrite (proj2 (contains_exists runs pl) Hc). simpl. eexists. split; [done|].
  split; [by apply isort_run_wf, occupy_wf|].
  intros. rewrite isort_run_free. by apply occupy_free.
Qed.

(** Occupying removes exactly the seats of the placement.  On well-formed
    runs [occupy] raises [ValueError] when no run contains the placement; when
    one does, the result is well formed again (maximal runs, no overlap, none
    empty) and its free seats are the former ones minus those placed. *)
Theorem occupy_removes_seats runs pl :
  wf_runs runs → 1 <= pl_len pl →
  match occupy runs pl with
  | Ok out => (∃ r, r ∈ runs ∧ contains r pl = true) ∧ wf_runs out ∧
      ∀ b pos, free out b pos ↔ free runs b pos ∧ ¬ pl_has pl b pos
  | Err e => e = ValueError ∧ ∀ r, r ∈ runs → contains r pl = false
  end.
Proof.
  intros Hwf Hlen. destruct (existsb (λ run, contains run pl) runs) eqn:He.
  - apply contains_exists in He. destruct (occupy_ok runs pl Hwf Hlen He) as (out & -> & ?).
    done.
  - unfold occupy. rewrite He. simpl. split; [done|]. intros r Hr.
    apply not_true_iff_false. intros Hc.
    assert (false = true); [|done]. rewrite <-He. apply contains_exists. by exists r.
Qed.

Definition sample_placement : Placement := mk_placement 2 4 2 0%Q.

(** ** [release] *)

Definition overlaps (r : Run) (b lo hi : Z) : Prop :=
  run_block r = b ∧ run_start r < hi ∧ lo < run_end r.

#[global] Instance overlaps_dec r b lo hi : Decision (overlaps r b lo hi).
Proof. unfold overlaps. apply _. Defined.

Definition new_run (b lo hi : Z) : Run := mk_run b lo (hi - lo).

(** The state of the loop: [rest] to visit, [out] kept, [lo, hi) grown so far. *)
Record release_inv (rest out : list Run) (b lo hi : Z) : Prop := {
  ri_wf : wf_runs (rest ++ out);
  ri_lt : lo < hi;
  ri_out : ∀ r, r ∈ out → apart r (new_run b lo hi);
  ri_rest : ∀ r, r ∈ rest → ¬ overlaps r b lo hi;
}.

Lemma wf_runs_cons r l :
  wf_runs (r :: l) ↔ 1 <= run_len r ∧ (r ∉ l) ∧ (∀ r', r' ∈ l → apart r r') ∧ wf_runs l.
Proof.
  split.
  - intros [Hn Hl Ha]. apply NoDup_cons in Hn as [Hr Hn].
    split_and!; [apply Hl; left|done| |].
    + intros r' Hr'. apply Ha; [left|by right|]. by intros ->.
    + split; [done|intros; apply Hl; by right|intros; apply Ha; [by right..|done]].
  - intros (Hl & Hr & Ha & [Hn' Hl' Ha']). split.
    + by apply NoDup_cons.
    + intros x [->|?]%elem_of_cons; [done|by apply Hl'].
    + intros r1 r2 [->|H1]%elem_of_cons [->|H2]%elem_of_cons Hne; [done|by apply Ha| |by apply Ha'].
      intros Hb. destruct (Ha r1 H1) as [?|?]; [done|by right|by left].
Qed.

Lemma wf_runs_app_comm l1 l2 : wf_runs (l1 ++ l2) ↔ wf_runs (l2 ++ l1).
Proof. split; apply wf_runs_perm, Permutation_app_comm. Qed.

(** A run with a gap to the interval, or of another block, is kept. *)
Lemma release_inv_keep r rest out b lo hi :
  release_inv (r :: rest) out b lo hi → apart r (new_run b lo hi) →
  release_inv rest (out ++ [r]) b lo hi.
Proof.
  intros [Hwf Hlt Ho Hr] Hap. split; [|done| |by intros; apply Hr; right].
  - eapply wf_runs_perm; [|exact Hwf]. rewrite <-app_comm_cons, (assoc_L (++)).
    apply Permutation_cons_append.
  - intros r0 [?|Hr0]%elem_of_app; [by apply Ho|]. by apply list_elem_of_singleton in Hr0 as ->.
Qed.

(** A run that touches the interval is absorbed. *)
Lemma release_inv_absorb r rest out b lo hi :
  release_inv (r :: rest) out b lo hi →
  run_block r = b → run_end r = lo ∨ run_start r = hi →
  release_inv rest out b (Z.min lo (run_start r)) (Z.max hi (run_end r)).
Proof.
  intros [Hwf Hlt Ho Hr] Hb Ht. rewrite <-app_comm_cons in Hwf.
  apply wf_runs_cons in Hwf as (Hlen & _ & Hap & Hwf). split; [done|lia| |].
  - intros r0 Hr0 Hb0. simpl in Hb0.
    pose proof (wf_pos _ Hwf r0 ltac:(apply elem_of_app; by right)).
    destruct (Ho r0 Hr0 Hb0) as [?|?], (Hap r0) as [?|?];
      try (apply elem_of_app; by right); try congruence;
      unfold run_end in *; simpl in *; lia.
  - intros r0 Hr0 (Hb0 & ? & ?). apply (Hr r0); [by right|].
    pose proof (wf_pos _ Hwf r0 ltac:(apply elem_of_app; by left)).
    destruct (Hap r0) as [?|?]; [apply elem_of_app; by left|congruence|..];
      unfold overlaps, run_end in *; split_and!; try done; lia.
Qed.

Lemma free_cons r l b pos : free (r :: l) b pos ↔ run_has r b pos ∨ free l b pos.
Proof.
  unfold free. setoid_rewrite elem_of_cons. split.
  - intros (x & [->|?] & ?); [by left|right; by exists x].
  - intros [?|(x & ? & ?)]; [exists r; auto|exists x; auto].
Qed.

Lemma free_app l1 l2 b pos : free (l1 ++ l2) b pos ↔ free l1 b pos ∨ free l2 b pos.
Proof.
  unfold free. setoid_rewrite elem_of_app. split.
  - intros (x & [?|?] & ?); [left|right]; by exists x.
  - intros [(x & ? & ?)|(x & ? & ?)]; exists x; auto.
Qed.

Lemma free_nil b pos : ¬ free [] b pos.
Proof. by intros (x & ?%elem_of_nil & _). Qed.

Lemma free_one r b pos : free [r] b pos ↔ run_has r b pos.
Proof. rewrite free_cons. pose proof (free_nil b pos). tauto. Qed.

Lemma release_loop_ok rest b lo hi out :
  release_inv rest out b lo hi →
  ∃ lo' hi' out', release_loop rest b lo hi out = Ok (lo', hi', out') ∧
    wf_runs (out' ++ [new_run b lo' hi']) ∧
    ∀ b' pos, free (out' ++ [new_run b lo' hi']) b' pos ↔
              free (rest ++ out) b' pos ∨ b' = b ∧ lo <= pos < hi.
Proof.
  revert lo hi out. induction rest as [|r rest IH]; intros lo hi out Hinv; simpl.
  - destruct Hinv as [Hwf Hlt Ho _]. exists lo, hi, out. split; [done|]. split.
    + apply wf_runs_app_comm, wf_runs_cons. simpl. split_and!; [lia| | |done].
      * intros Hin. destruct (Ho _ Hin); unfold run_end in *; simpl in *; lia.
      * intros r' Hr' Hb. destruct (Ho _ Hr'); [done|by right|by left].
    + intros b' pos. rewrite free_app, free_one. unfold run_has, run_end. simpl.
      replace (lo + (hi - lo)) with hi by lia.
      split; (intros [?|[? ?]]; [by left|by right]).
  - pose proof (ri_rest _ _ _ _ _ Hinv r) as Hnov. unfold overlaps in Hnov.
    assert (Hkeep : apart r (new_run b lo hi) → ∃ lo' hi' out',
      release_loop rest b lo hi (out ++ [r]) = Ok (lo', hi', out') ∧
      wf_runs (out' ++ [new_run b lo' hi']) ∧
      ∀ b' pos, free (out' ++ [new_run b lo' hi']) b' pos ↔
        free (r :: rest ++ out) b' pos ∨ b' = b ∧ lo <= pos < hi).
    { intros Hap. destruct (IH lo hi (out ++ [r])) as (lo' & hi' & out' & Hl & Hw & Hf);
        [by apply release_inv_keep|].
      exists lo', hi', out'. split_and!; [done|done|]. intros. rewrite Hf.
      rewrite free_cons, !free_app, free_one. tauto. }
    case_goal; zbool.
    + apply Hkeep. intros Hb. by simpl in Hb.
    + apply Hkeep. unfold apart, run_end; simpl. lia.
    + exfalso. apply Hnov; [left|]. unfold run_end. split_and!; [done|lia|lia].
    + destruct (IH (Z.min lo (run_start r)) (Z.max hi (run_end r)) out)
        as (lo' & hi' & out' & Hl & Hw & Hf);
        [apply release_inv_absorb; [done|done|unfold run_end; lia]|].
      exists lo', hi', out'. split_and!; [done|done|]. intros b' pos. rewrite Hf, free_cons.
      pose proof (ri_lt _ _ _ _ _ Hinv).
      assert ((b' = b ∧ Z.min lo (run_start r) <= pos < Z.max hi (run_end r)) ↔
              run_has r b' pos ∨ (b' = b ∧ lo <= pos < hi)) as ->; [|tauto].
      unfold run_has, run_end in *. split; [intros [-> ?]|intros [[<- ?]|[-> ?]]];
        [destruct (decide (lo <= pos < hi)); [by right|left]|..]; (split; [done|lia]).
Qed.

Lemma release_loop_overlap rest b lo hi out :
  lo < hi → (∃ r, r ∈ rest ∧ overlaps r b lo hi) →
  release_loop rest b lo hi out = Err ValueError.
Proof.
  revert lo hi out. induction rest as [|r rest IH]; intros lo hi out Hlt (r0 & Hr0 & Hov);
    [by apply elem_of_nil in Hr0|]. destruct Hov as (Hb & ? & ?). simpl.
  apply elem_of_cons in Hr0 as [->|Hr0].
  - rewrite Hb, Z.eqb_refl. simpl. unfold run_end in *.
    case_goal; zbool; try done; lia.
  - assert (Hex : ∀ lo' hi', lo' <= lo → hi <= hi' → ∃ r1, r1 ∈ rest ∧ overlaps r1 b lo' hi').
    { intros. exists r0. unfold overlaps. split_and!; [done|done|lia|lia]. }
    case_goal; try done; apply IH; try apply Hex; lia.
Qed.

Lemma release_ok runs b start length capacity :
  wf_runs runs → 1 <= length → 0 <= start →
  (∀ c, capacity = Some c → start + length <= c) →
  (∀ r, r ∈ runs → ¬ overlaps r b start (start + length)) →
  ∃ out, release runs b start length capacity = Ok (isort run_le out) ∧ wf_runs out ∧
    ∀ b' pos, free out b' pos ↔
              free runs b' pos ∨ b' = b ∧ start <= pos < start + length.
Proof.
  intros Hwf Hlen Hst Hcap Hno. unfold release.
  destruct (length <? 1) eqn:?; [zlia|].
  destruct ((start <? 0) || _) eqn:Hc.
  { exfalso. apply orb_true_iff in Hc as [Hc|Hc]; [zlia|].
    destruct capacity as [c|]; [specialize (Hcap c eq_refl); zlia|done]. }
  destruct (release_loop_ok runs b start (start + length) [])
    as (lo & hi & out & Hl & Hw & Hf).
  { split; rewrite ?app_nil_r; try done; [lia|]. by intros r ?%elem_of_nil. }
  rewrite Hl. simpl. eexists. split; [done|]. split; [done|].
  intros. rewrite Hf. by rewrite app_nil_r.
Qed.

(** Releasing gives back exactly the seats, once.  On well-formed runs
    [release] raises [ValueError] for an empty interval, one out of the block or
    one that meets a free seat (a double release); otherwise the result is well
    formed, the neighbours merged, and its free seats are the former ones plus
    those given back. *)
Theorem release_adds_seats runs b start length capacity :
  wf_runs runs →
  match release runs b start length capacity with
  | Ok out => wf_runs out ∧
      (∀ pos, start <= pos < start + length → ¬ free runs b pos) ∧
      ∀ b' pos, free out b' pos ↔ free runs b' pos ∨ b' = b ∧ start <= pos < start + length
  | Err e => e = ValueError ∧
      (length < 1 ∨ start < 0 ∨ (∃ c, capacity = Some c ∧ c < start + length) ∨
       ∃ pos, start <= pos < start + length ∧ free runs b pos)
  end.
Proof.
  intros Hwf. destruct (length <? 1) eqn:Hlen.
  { unfold release. rewrite Hlen. split; [done|left; zlia]. }
  destruct (start <? 0) eqn:Hst.
  { unfold release. rewrite Hlen, Hst. split; [done|right; left; zlia]. }
  destruct (match capacity with Some c => c <? start + length | None => false end) eqn:Hc.
  { unfold release. rewrite Hlen, Hst, Hc. destruct capacity as [c|]; [|done].
    split; [done|]. right; right; left. exists c. zlia. }
  destruct (existsb (λ r, bool_decide (overlaps r b start (start + length))) runs) eqn:Hov.
  - apply existsb_exists in Hov as (r & Hr%list_elem_of_In & Hov%bool_decide_eq_true).
    unfold release. rewrite Hlen, Hst, Hc. simpl.
    rewrite release_loop_overlap; [|zlia|by exists r]. split; [done|].
    do 3 right. destruct Hov as (? & ? & ?). exists (Z.max start (run_start r)).
    pose proof (wf_pos _ Hwf _ Hr). unfold run_end in *. zbool.
    split; [lia|]. exists r. split; [done|]. split; [done|unfold run_end; lia].
  - assert (Hno : ∀ r, r ∈ runs → ¬ overlaps r b start (start + length)).
    { intros r Hr Ho. assert (false = true); [|done]. rewrite <-Hov.
      apply existsb_exists. exists r. split; [by apply list_elem_of_In|].
      by apply bool_decide_eq_true. }
    destruct (release_ok runs b start length capacity) as (out & -> & Hw & Hf); try done.
    { zlia. } { zlia. }
    { intros c ->. zlia. }
    split; [by apply isort_run_wf|]. split.
    + intros pos Hp (r & Hr & ? & ?). apply (Hno r Hr). split_and!; [done|lia|lia].
    + intros. by rewrite isort_run_free.
Qed.

(** ** Round trip *)

(** A sold window can be given back.  Releasing what was occupied restores
    the free runs, in their normal order: selling and cancelling leaves no scar. *)
Theorem release_occupy_roundtrip runs pl capacity :
  wf_runs runs → 1 <= pl_len pl → 0 <= pl_start pl →
  (∀ c, capacity = Some c → pl_start pl + pl_len pl <= c) →
  (∃ r, r ∈ runs ∧ contains r pl = true) →
  (let? sold := occupy runs pl in
   release sold (pl_block pl) (pl_start pl) (pl_len pl) capacity) = Ok (isort run_le runs).
Proof.
  intros Hwf Hlen Hst Hcap Hc.
  destruct (occupy_ok runs pl Hwf Hlen Hc) as (sold & -> & Hws & Hfs). simpl.
  destruct (release_ok sold (pl_block pl) (pl_start pl) (pl_len pl) capacity)
    as (out & -> & Hwo & Hfo); try done.
  - intros r Hr (Hb & ? & ?). pose proof (wf_pos _ Hws _ Hr).
    destruct (proj1 (Hfs (pl_block pl) (Z.max (pl_start pl) (run_start r)))) as [_ Hn].
    + exists r. split; [done|]. split; [done|unfold run_end in *; lia].
    + apply Hn. split; [done|unfold run_end in *; lia].
  - f_equal. apply isort_run_canonical; [done..|]. intros b pos. rewrite Hfo, Hfs.
    split; [intros [[? _]|[-> ?]]; [done|]|].
    + destruct Hc as (r & Hr & (? & ? & ?)%contains_spec). exists r. split; [done|].
      split; [done|lia].
    + intros Hf. destruct (decide (b = pl_block pl ∧ pl_start pl <= pos < pl_start pl + pl_len pl))
        as [?|Hn]; [by right|left]. split; [done|]. intros [? ?]. by apply Hn.
Qed.

(** ** Calibration *)

Lemma Qfrac_half n : 0 <= n →
  (Qfrac (inject_Z n / 2) == if Z.even n then 0 else 1 # 2)%Q.
Proof.
  intros Hn. unfold Qfrac.
  assert (Qfloor (inject_Z n / 2) = n / 2) as ->.
  { unfold Qfloor, Qdiv, Qmult, Qinv, inject_Z. simpl. by rewrite Z.mul_1_r. }
  rewrite (Z.div_mod n 2) at 1 by done. rewrite inject_Z_plus, inject_Z_mult, inject_Z_2.
  rewrite Zmod_even. destruct (Z.even n); simpl; field.
Qed.

Lemma dist2_range g pos : 0 <= pos < capacity g →
  (if Z.even (capacity g - 1) then 0 else 1) <= dist2 g pos <= capacity g - 1.
Proof.
  intros Hp. unfold dist2. split; [|lia].
  destruct (Z.even (capacity g - 1)) eqn:He; [lia|].
  destruct (decide (2 * pos - (capacity g - 1) = 0)) as [Hz|]; [|lia].
  replace (capacity g - 1) with (2 * pos) in He by lia. by rewrite Z.even_mul in He.
Qed.

Section calibrated.
Local Open Scope Q_scope.
Context (base edge span : Q) (Hbe : edge <= base) (Hspan : 0 <= span).

Let d : Q := if Qeq_bool span 0 then 0 else (base - edge) / span.

Lemma calibrated_decay_nonneg : 0 <= d.
Proof using Hbe Hspan.
  unfold d. destruct (Qeq_bool span 0) eqn:He; [by vm_compute|].
  apply Qle_shift_div_l; [|lra].
  apply Qeq_bool_neq in He. destruct (Qlt_le_dec 0 span); [done|].
  exfalso. apply He. lra.
Qed.

Lemma calibrated_drop t : 0 <= t <= span → 0 <= d * t <= base - edge.
Proof using Hbe Hspan.
  intros [H0 Ht]. pose proof calibrated_decay_nonneg as Hd. split.
  { by apply Qmult_le_0_compat. }
  apply (Qle_trans _ (d * span)).
  - rewrite !(Qmult_comm d). by apply Qmult_le_compat_r.
  - unfold d. destruct (Qeq_bool span 0) eqn:He; [lra|].
    apply Qeq_bool_neq in He. rewrite Qmult_comm, Qmult_div_r by done. lra.
Qed.
End calibrated.

(** Calibration keeps seat quality in its range.  [calibrated] accepts every
    capacity of at least one seat with [edge <= base], and every seat of the
    block it builds has a quality between [edge] and [base]. *)
Theorem calibrated_quality_range block_id capacity0 base edge :
  1 <= capacity0 → (edge <= base)%Q →
  ∃ g, calibrated block_id capacity0 base edge = Ok g ∧ geometry_ok g ∧
    ∀ pos, 0 <= pos < capacity0 → (edge <= seat_quality g pos <= base)%Q.
Proof.
  intros Hc Hbe. unfold calibrated, geometry_init.
  destruct (capacity0 <? 1) eqn:?; [zlia|].
  set (nn := if Z.even (capacity0 - 1) then 0 else 1).
  set (nearest := Qfrac (center_of capacity0)). set (span := (center_of capacity0 - nearest)%Q).
  assert (nearest == inject_Z nn * (1 # 2))%Q as Hnear.
  { unfold nearest, center_of. rewrite Qfrac_half by lia. unfold nn.
    by destruct (Z.even (capacity0 - 1)). }
  assert (span == (inject_Z (capacity0 - 1) - inject_Z nn) * (1 # 2))%Q as Hspan.
  { unfold span, center_of. rewrite Hnear. field. }
  pose proof (dist2_range (mk_geometry 0 capacity0 0 0) 0) as Hr. simpl in Hr. fold nn in Hr.
  assert (0 <= span)%Q as Hs0.
  { rewrite Hspan. assert (inject_Z nn <= inject_Z (capacity0 - 1))%Q; [|lra].
    rewrite <-Zle_Qle. lia. }
  set (d := if Qeq_bool span 0 then 0%Q else ((base - edge) / span)%Q).
  pose proof (calibrated_decay_nonneg base edge span Hbe Hs0) as Hd. fold d in Hd.
  rewrite (proj2 (Qle_bool_iff 0 d) Hd). simpl. eexists. split; [done|].
  split; [split; simpl; [lia|done]|]. intros pos Hpos. rewrite seat_quality_dist. simpl.
  set (g := mk_geometry _ _ _ _). pose proof (dist2_range g pos Hpos) as Hdist.
  cbn [capacity g] in Hdist. fold nn in Hdist.
  set (t := ((inject_Z (dist2 g pos) - inject_Z nn) * (1 # 2))%Q).
  assert (0 <= t <= span)%Q as Ht.
  { destruct Hdist as [H1 H2]. rewrite Zle_Qle in H1, H2. rewrite Hspan. unfold t. split; lra. }
  pose proof (calibrated_drop base edge span Hbe Hs0 t Ht) as Hdrop. fold d in Hdrop.
  assert (base + d * nearest - d * (inject_Z (dist2 g pos) / 2) == base - d * t)%Q as ->;
    [|lra].
  unfold t. rewrite Hnear. field.
Qed.
