(* ===== verification/Inventory.v ===== *)
(** The seat counter of events without a seat map, and the per-person quota
    (src/app/services/inventory.py): the two scripts, the plain reads, and the
    reconciliation from the database. *)

From Stdlib Require Import QArith.
From S2P Require Import Prelude Exceptions Keys Redis DB.

#[local] Open Scope Z_scope.

(** [queue_depth]: (backlog, dead letters). *)
Definition queue_depth (r : Redis) : Z * Z := (xlen (r_stream r), xlen (r_dead r)).

(** [SET ... NX] *)
Definition set_initial_stock (event_id total_seats : Z) : M Redis exn unit :=
  modify (λ r, match r_available r !! event_id with
               | Some _ => r
               | None => set_available (<[event_id := total_seats]> (r_available r)) r
               end).

Definition get_available (event_id : Z) (r : Redis) : Z :=
  match r_available r !! event_id with
  | Some v => Z.max 0 v
  | None => 0
  end.

Definition read_available (event_id : Z) (r : Redis) : option Z := r_available r !! event_id.

(** [oldest_intent_age_seconds]: the milliseconds are in the stream id. *)
Definition oldest_intent_age_seconds (now : Q) (r : Redis) : Q :=
  match s_entries (r_stream r) with
  | [] => 0%Q
  | ((added_ms, _), _) :: _ =>
      let age := (now - inject_Z added_ms / 1000)%Q in
      if Qle_bool 0 age then age else 0%Q
  end.

(** ** The reserve script *)

Record reserve_args : Type := mk_reserve_args {
  va_event : Z; va_user : Z; va_quantity : Z; va_price : Z; va_idem : string;
  va_zone : option Z; va_ttl : Z; va_limit : Z; va_trace : string; va_traceparent : string;
}.

Inductive reserve_reply : Type :=
  | VDup
  | VSoldOut (remaining : Z)
  | VOverLimit (held limit : Z)
  | VOk (stream_id : sid) (remaining : Z).

(** The order intent of an unseated reservation; an absent zone is ''. *)
Definition counter_intent (a : reserve_args) : fields :=
  list_to_map [
    ("user_id", z_str (va_user a));
    ("event_id", z_str (va_event a));
    ("quantity", z_str (va_quantity a));
    ("total_price_cents", z_str (va_price a));
    ("idempotency_key", va_idem a);
    ("zone_id", match va_zone a with Some z => z_str z | None => EmptyString end);
    ("trace_id", va_trace a);
    ("traceparent", va_traceparent a)]%string.

Definition reserve_lua (a : reserve_args) (r : Redis) : reserve_reply * Redis :=
  let qty := va_quantity a in
  if claim_exists r (va_idem a) then (VDup, r)
  else
    match r_available r !! va_event a with
    | None => (VSoldOut 0, r)
    | Some avail =>
        if avail <? qty then (VSoldOut avail, r)
        else
          let limit := va_limit a in
          let held := default 0 (hget (r_purchased r) (va_event a) (va_user a)) in
          if limit <? held + qty then (VOverLimit held limit, r)
          else
            let r := set_available (incrby (va_event a) (- qty) (r_available r)) r in
            let r := set_purchased (hincrby (va_event a) (va_user a) qty (r_purchased r)) r in
            let '(stream_id, st) := xadd (r_now r) (counter_intent a) (r_stream r) in
            let r := set_stream st r in
            let r := set_claim (va_idem a) "PENDING" (va_ttl a) r in
            (VOk stream_id (avail - qty), r)
    end.

(** [reserve]: DECRBY, compensated by INCRBY when it went below zero. *)
Definition reserve (event_id quantity : Z) : M Redis exn unit := λ r,
  let r1 := set_available (incrby event_id (- quantity) (r_available r)) r in
  let remaining := default 0 (r_available r1 !! event_id) in
  if remaining <? 0 then
    let r2 := set_available (incrby event_id quantity (r_available r1)) r1 in
    (Err (Domain (InsufficientInventory event_id quantity (remaining + quantity))), r2)
  else if remaining =? 0 then (Ok tt, poke event_id r1)
  else (Ok tt, r1).

(** ** The release script *)

(** The quota given back: what stays, or no field once it is used up. *)
Definition refund_quota (event_id user_id n : Z) (p : gmap Z (gmap Z Z)) : gmap Z (gmap Z Z) :=
  let p := hincrby event_id user_id (- n) p in
  if default 0 (hget p event_id user_id) <=? 0 then hdel event_id user_id p else p.

(** [None]: DUP; [Some n]: OK with the new count. *)
Definition release_lua (event_id user_id quantity : Z) (marker : string) (ttl : Z) (r : Redis)
    : option Z * Redis :=
  if released_exists r marker then (None, r)
  else
    let r := set_marker marker ttl r in
    let r := set_purchased (refund_quota event_id user_id quantity (r_purchased r)) r in
    let r := set_available (incrby event_id quantity (r_available r)) r in
    (Some (default 0 (r_available r !! event_id)), r).

(** [release] *)
Definition release (event_id user_id quantity : Z) (marker : string) (ttl_seconds : Z)
    : M Redis exn bool := λ r,
  match release_lua event_id user_id quantity marker ttl_seconds r with
  | (None, r') => (Ok false, r')
  | (Some new_available, r') =>
      (Ok true, if (new_available - quantity <=? 0) && (0 <? new_available)
                then poke event_id r' else r')
  end.

(** ** Reconciliation *)

Definition held_status (s : OrderStatus) : bool :=
  match s with PENDING | PAID | CONFIRMED => true | EXPIRED | CANCELLED => false end.

(** The orders of the event that hold seats. *)
Definition held_orders (d : DB) (event_id : Z) : list Order :=
  filter (λ o, o_event o = event_id ∧ held_status (o_status o) = true) (map_to_list (d_orders d)).*2.

(** [coalesce(sum(quantity), 0)] over them. *)
Definition sold (d : DB) (event_id : Z) : Z := list_sum o_quantity (held_orders d event_id).

(** [SELECT user_id, sum(quantity) ... GROUP BY user_id] *)
Definition quotas_by_user (l : list Order) : gmap Z Z :=
  foldr (λ o m, incrby (o_user o) (o_quantity o) m) ∅ l.

Definition compute_expected_available (d : DB) (event_id : Z) : result exn Z :=
  match d_events d !! event_id with
  | None => Err (Domain (EventNotFound event_id))
  | Some ev => Ok (ev_total_seats ev - sold d event_id)
  end.

Definition compute_expected_quotas (d : DB) (event_id : Z) : gmap Z Z :=
  quotas_by_user (held_orders d event_id).

Definition read_purchase_quotas (event_id : Z) (r : Redis) : gmap Z Z :=
  hash (r_purchased r) event_id.

(** [_rebuild_purchase_quotas]: DEL, then HSET of every row. *)
Definition rebuild_purchase_quotas (d : DB) (event_id : Z) : M Redis exn Z := λ r,
  let rows := quotas_by_user (held_orders d event_id) in
  (Ok (Z.of_nat (size rows)), set_purchased (<[event_id := rows]> (r_purchased r)) r).

(** [reconcile_inventory] *)
Definition reconcile_inventory (d : DB) (event_id : Z) (force : bool) : M Redis exn Z := λ r,
  let '(backlog, dead) := queue_depth r in
  if negb force && negb (backlog =? 0) then
    (Err (Domain (InventoryNotReconcilable event_id backlog dead)), r)
  else
    match d_events d !! event_id with
    | None => (Err (Domain (EventNotFound event_id)), r)
    | Some ev =>
        let remaining := ev_total_seats ev - sold d event_id in
        let r := set_available (<[event_id := remaining]> (r_available r)) r in
        let '(_, r) := rebuild_purchase_quotas d event_id r in
        (Ok remaining, r)
    end.

(** ** [reserve_and_enqueue] *)

Inductive ReserveOutcome : Type := RO_OK | RO_DUP | RO_SOLD_OUT | RO_OVER_LIMIT.
#[global] Instance ReserveOutcome_eq_dec : EqDecision ReserveOutcome.
Proof. solve_decision. Defined.

Record ReserveResult : Type := mk_reserve_result {
  rr_outcome : ReserveOutcome;
  rr_stream_id : option sid;
  rr_available : option Z;
  rr_held : option Z;
  rr_limit : option Z;
}.

Definition reserve_and_enqueue (a : reserve_args) : M Redis exn ReserveResult := λ r,
  match reserve_lua a r with
  | (VDup, r') => (Ok (mk_reserve_result RO_DUP None None None None), r')
  | (VSoldOut n, r') => (Ok (mk_reserve_result RO_SOLD_OUT None (Some n) None None), r')
  | (VOverLimit h l, r') =>
      (Ok (mk_reserve_result RO_OVER_LIMIT None None (Some h) (Some l)), r')
  | (VOk i remaining, r') =>
      (Ok (mk_reserve_result RO_OK (Some i) None None None),
       if remaining =? 0 then poke (va_event a) r' else r')
  end.

(** ** The reserve script *)

(** The quota a person has used for an event. *)
Definition quota (r : Redis) (event_id user_id : Z) : Z :=
  default 0 (hget (r_purchased r) event_id user_id).

(** An accepted reservation: what was checked, and all that changed. *)
Record reserve_effect (a : reserve_args) (r : Redis) (i : sid) (n : Z) (r' : Redis) : Prop := {
  ve_fresh : claim_exists r (va_idem a) = false;
  ve_stock : ∃ avail, r_available r !! va_event a = Some avail ∧ va_quantity a <= avail ∧
                      n = avail - va_quantity a;
  ve_quota : quota r (va_event a) (va_user a) + va_quantity a <= va_limit a;
  ve_available : r_available r' = incrby (va_event a) (- va_quantity a) (r_available r);
  ve_purchased : r_purchased r' = hincrby (va_event a) (va_user a) (va_quantity a) (r_purchased r);
  ve_stream : (i, r_stream r') = xadd (r_now r) (counter_intent a) (r_stream r);
  ve_claims : r_claims r' = <[va_idem a := ("PENDING"%string, expiry_after r (va_ttl a))]> (r_claims r);
  ve_released : r_released r' = r_released r;
  ve_now : r_now r' = r_now r;
}.

Lemma reserve_lua_cases a r :
  match reserve_lua a r with
  | (VDup, r') => r' = r ∧ claim_exists r (va_idem a) = true
  | (VSoldOut n, r') => r' = r ∧ claim_exists r (va_idem a) = false ∧
      n = default 0 (r_available r !! va_event a) ∧
      (r_available r !! va_event a = None ∨ n < va_quantity a)
  | (VOverLimit h l, r') => r' = r ∧ claim_exists r (va_idem a) = false ∧
      (∃ avail, r_available r !! va_event a = Some avail ∧ va_quantity a <= avail) ∧
      h = quota r (va_event a) (va_user a) ∧ l = va_limit a ∧ l < h + va_quantity a
  | (VOk i n, r') => reserve_effect a r i n r'
  end.
Proof.
  unfold reserve_lua, quota. destruct (claim_exists r (va_idem a)) eqn:Hc; [done|].
  destruct (r_available r !! va_event a) as [avail|] eqn:Hav; [|by auto].
  destruct (avail <? va_quantity a) eqn:Hs; [split_and!; [done..|right; simpl; zlia]|].
  destruct (va_limit a <? _) eqn:Hl.
  { split_and!; [done|done|exists avail; zlia|done|done|zlia]. }
  destruct (xadd _ _ _) as [i st] eqn:Hx.
  split; simpl; try done; [exists avail; zlia|unfold quota; zlia].
Qed.

Lemma quota_hincrby (p : gmap Z (gmap Z Z)) e u n e' u' :
  default 0 (hget (hincrby e u n p) e' u') =
  default 0 (hget p e' u') + if decide (e' = e ∧ u' = u) then n else 0.
Proof.
  unfold hincrby, hget. destruct (decide (e = e')) as [<-|Hne].
  - rewrite hash_hset_eq. destruct (decide (u = u')) as [<-|Hu].
    + rewrite lookup_insert_eq. rewrite decide_True by done. done.
    + rewrite lookup_insert_ne by done. rewrite decide_False; [lia|]. by intros [_ ->].
  - rewrite hash_hset_ne by done. rewrite decide_False; [lia|]. by intros [-> _].
Qed.

(** Giving back at most what is held is exact: the floor only shows on more. *)
Lemma quota_refund (p : gmap Z (gmap Z Z)) e u n e' u' :
  n <= default 0 (hget p e u) →
  default 0 (hget (refund_quota e u n p) e' u') =
  default 0 (hget p e' u') - if decide (e' = e ∧ u' = u) then n else 0.
Proof.
  intros Hn. unfold refund_quota.
  pose proof (quota_hincrby p e u (- n) e u) as Hself.
  rewrite decide_True in Hself by done.
  assert (Hgen : default 0 (hget (hincrby e u (- n) p) e' u') =
    default 0 (hget p e' u') - if decide (e' = e ∧ u' = u) then n else 0).
  { rewrite quota_hincrby. destruct (decide _); lia. }
  destruct (default 0 (hget (hincrby e u (- n) p) e u) <=? 0) eqn:Hz; [|done]. zbool.
  rewrite <-Hgen. unfold hget at 1. destruct (decide (e = e')) as [<-|Hne].
  - rewrite hash_hdel_eq. destruct (decide (u = u')) as [<-|Hu].
    + rewrite lookup_delete_eq. simpl. lia.
    + by rewrite lookup_delete_ne.
  - by rewrite hash_hdel_ne.
Qed.

(** One reservation is all or nothing, in the order dedup, stock, quota.
    A repeated key changes nothing, whatever the stock; too little stock is
    reported with what is left, before any talk of the quota; a full quota only
    when the stock would do; and an accepted one takes the quantity from the
    stock, which stays non-negative, adds it to the buyer's quota, which stays
    within the limit, appends exactly one intent to the stream and writes the
    claim, touching no other event and no other buyer. *)
Theorem reserve_script_outcomes a r :
  match reserve_lua a r with
  | (VDup, r') => r' = r ∧ claim_exists r (va_idem a) = true
  | (VSoldOut n, r') => r' = r ∧ claim_exists r (va_idem a) = false ∧
      n = default 0 (r_available r !! va_event a) ∧
      (r_available r !! va_event a = None ∨ n < va_quantity a)
  | (VOverLimit h l, r') => r' = r ∧ claim_exists r (va_idem a) = false ∧
      (∃ avail, r_available r !! va_event a = Some avail ∧ va_quantity a <= avail) ∧
      h = quota r (va_event a) (va_user a) ∧ l = va_limit a ∧ l < h + va_quantity a
  | (VOk i n, r') =>
      0 <= n ∧ r_available r' !! va_event a = Some n ∧
      r_available r !! va_event a = Some (n + va_quantity a) ∧
      (∀ e, e ≠ va_event a → r_available r' !! e = r_available r !! e) ∧
      quota r' (va_event a) (va_user a) = quota r (va_event a) (va_user a) + va_quantity a ∧
      quota r' (va_event a) (va_user a) <= va_limit a ∧
      (∀ e u, (e, u) ≠ (va_event a, va_user a) → quota r' e u = quota r e u) ∧
      s_entries (r_stream r') = s_entries (r_stream r) ++ [(i, counter_intent a)] ∧
      (0 < va_ttl a → claim_state r' (va_idem a) = Some "PENDING"%string)
  end.
Proof.
  pose proof (reserve_lua_cases a r) as H.
  destruct (reserve_lua a r) as [[|n|h l|i n] r']; try done.
  destruct H as [_ (avail & Hav & Hle & ->) Hq Ha Hp Hs Hc _ Hnow].
  unfold quota in *. rewrite Ha, Hp. split_and!.
  - lia.
  - unfold incrby. rewrite lookup_insert_eq, Hav. simpl. f_equal; lia.
  - rewrite Hav. f_equal; lia.
  - intros e ?. by rewrite incrby_ne.
  - rewrite quota_hincrby, decide_True by done. lia.
  - rewrite quota_hincrby, decide_True by done. lia.
  - intros e u Hne. rewrite quota_hincrby, decide_False; [lia|]. intros [-> ->]. done.
  - unfold xadd in Hs. injection Hs as -> Hs. by rewrite Hs.
  - intros Httl. unfold claim_state. rewrite Hc, lookup_insert_eq. unfold live.
    rewrite Hnow. unfold expiry_after. destruct (_ <? _) eqn:?; [done|zlia].
Qed.

(** ** Releases *)

Lemma release_lua_fresh e u q m ttl r :
  released_exists r m = false →
  ∃ n r', release_lua e u q m ttl r = (Some n, r') ∧
    r_available r' = incrby e q (r_available r) ∧
    n = default 0 (r_available r !! e) + q ∧
    r_purchased r' = refund_quota e u q (r_purchased r) ∧
    r_released r' = <[m := expiry_after r ttl]> (r_released r) ∧
    r_now r' = r_now r ∧ r_stream r' = r_stream r ∧ r_claims r' = r_claims r.
Proof.
  intros Hm. unfold release_lua. rewrite Hm. do 2 eexists. split; [done|].
  simpl. rewrite incrby_eq. done.
Qed.

Lemma release_lua_replay e u q m ttl r :
  released_exists r m = true → release_lua e u q m ttl r = (None, r).
Proof. intros Hm. unfold release_lua. by rewrite Hm. Qed.

(** A release happens at most once per marker.  After a release that went
    through, any further release under the same marker, for whatever event,
    buyer and quantity, changes nothing as long as the marker has not been
    rewritten and its time to live is not over: the replay reports [False]. *)
Theorem release_at_most_once e u q m ttl r r1 e' u' q' ttl' r2 :
  release e u q m ttl r = (Ok true, r1) →
  r_released r2 !! m = r_released r1 !! m →
  r_now r2 < r_now r + ttl * 1000 →
  release e' u' q' m ttl' r2 = (Ok false, r2).
Proof.
  unfold release. intros H Hm Hnow.
  assert (r_released r1 !! m = Some (expiry_after r ttl)) as H1.
  { destruct (released_exists r m) eqn:He.
    - rewrite release_lua_replay in H by done. done.
    - destruct (release_lua_fresh e u q m ttl r He) as (n & r' & Hl & _ & _ & _ & Hr & _).
      rewrite Hl in H. case_hyp H; simplify_eq; simpl; rewrite Hr; apply lookup_insert_eq. }
  rewrite release_lua_replay; [done|]. unfold released_exists. rewrite Hm, H1.
  unfold live, expiry_after. zlia.
Qed.

(** ** A sale: conservation and the quota over any history *)

Section sale.
Context (event_id limit : Z).

Definition sale_total (l : list (Z * Z)) : Z := list_sum snd l.
Definition bought (l : list (Z * Z)) (u : Z) : Z :=
  list_sum (λ x, if decide (x.1 = u) then x.2 else 0) l.

(** The reservations of the event not released yet: (buyer, quantity). *)
Inductive sale_step : Redis * list (Z * Z) → Redis * list (Z * Z) → Prop :=
  | sale_reserve a r res r' out :
      va_event a = event_id → va_limit a = limit → 0 < va_quantity a →
      reserve_lua a r = (res, r') →
      sale_step (r, out)
        (r', match res with VOk _ _ => (va_user a, va_quantity a) :: out | _ => out end)
  | sale_release u q m ttl r res r' out1 out2 :
      release_lua event_id u q m ttl r = (res, r') →
      sale_step (r, out1 ++ (u, q) :: out2)
        (r', match res with Some _ => out1 ++ out2 | None => out1 ++ (u, q) :: out2 end)
  | sale_other r r' out :
      r_available r' !! event_id = r_available r !! event_id →
      hash (r_purchased r') event_id = hash (r_purchased r) event_id →
      sale_step (r, out) (r', out).

Record sale_inv (total : Z) (s : Redis * list (Z * Z)) : Prop := {
  sv_stock : ∃ n, r_available s.1 !! event_id = Some n ∧ 0 <= n ∧ n + sale_total s.2 = total;
  sv_quota : ∀ u, quota s.1 event_id u = bought s.2 u;
  sv_limit : ∀ u, bought s.2 u <= Z.max 0 limit;
  sv_pos : ∀ u q, (u, q) ∈ s.2 → 0 < q;
}.

Lemma sale_total_remove l1 l2 u q :
  sale_total (l1 ++ (u, q) :: l2) = q + sale_total (l1 ++ l2).
Proof. unfold sale_total. rewrite !list_sum_app. simpl. unfold list_sum. lia. Qed.
Lemma bought_remove l1 l2 u q v :
  bought (l1 ++ (u, q) :: l2) v = (if decide (u = v) then q else 0) + bought (l1 ++ l2) v.
Proof. unfold bought. rewrite !list_sum_app. simpl. unfold list_sum. lia. Qed.

Lemma bought_nonneg l u : (∀ u q, (u, q) ∈ l → 0 < q) → 0 <= bought l u.
Proof.
  induction l as [|[v q] l IH]; simpl; intros Hp; [done|].
  assert (0 <= bought l u) by (apply IH; intros; eapply Hp; by right).
  pose proof (Hp v q ltac:(left)). unfold bought in *. simpl. destruct (decide _); lia.
Qed.

Lemma sale_step_inv total s s' : sale_inv total s → sale_step s s' → sale_inv total s'.
Proof.
  intros Hinv Hstep. destruct Hstep as [a r res r' out He Hl Hq Hr|u q m ttl r res r' o1 o2 Hr|
    r r' out Ha Hp].
  - pose proof (reserve_lua_cases a r) as Hc. rewrite Hr in Hc.
    destruct res as [|n|h l|i n]; [by destruct Hc as [-> _]|by destruct Hc as [-> _]..|].
    destruct Hc as [_ (avail & Hav & Hle & ->) Hquota Ha Hp _ _ _ _].
    destruct Hinv as [(k & Hk & Hk0 & Htot) Hqs Hlim Hpos]. cbn [fst snd] in *.
    rewrite He in *. rewrite Hk in Hav. simplify_eq. split; cbn [fst snd].
    + exists (avail - va_quantity a). rewrite Ha. unfold incrby. rewrite lookup_insert_eq, Hk. simpl.
      split; [f_equal; lia|]. split; [lia|]. unfold sale_total in *. simpl. fold (list_sum (A:=Z*Z) snd).
      unfold list_sum in *. lia.
    + intros u. unfold quota. rewrite Hp, quota_hincrby. fold (quota r event_id u). rewrite Hqs.
      unfold bought. simpl. fold (bought out u). unfold list_sum. 
      destruct (decide (event_id = event_id ∧ u = va_user a)) as [[_ ->]|Hn];
        [rewrite decide_True by done; lia|rewrite decide_False; [lia|]; intros <-; by apply Hn].
    + intros u. specialize (Hlim u). unfold bought in *. simpl. unfold list_sum in *.
      destruct (decide (va_user a = u)) as [<-|]; [|lia].
      rewrite Hqs in Hquota. unfold bought, list_sum in Hquota. lia.
    + intros u q [[= -> ->]|?]%elem_of_cons; [done|by eapply Hpos].
  - destruct (released_exists r m) eqn:Hm.
    { rewrite release_lua_replay in Hr by done. by simplify_eq. }
    destruct (release_lua_fresh event_id u q m ttl r Hm) as (n & r1 & Hl & Ha & _ & Hp & _).
    rewrite Hl in Hr. simplify_eq.
    destruct Hinv as [(k & Hk & Hk0 & Htot) Hqs Hlim Hpos]. cbn [fst snd] in *.
    assert (Hpos' : ∀ u0 q0, (u0, q0) ∈ o1 ++ o2 → 0 < q0).
    { intros u0 q0 Hin. apply (Hpos u0). apply elem_of_app in Hin as [?|?];
        apply elem_of_app; [by left|right; by right]. }
    assert (0 < q) by (apply (Hpos u); apply elem_of_app; right; left).
    assert (q <= quota r event_id u) as Hle.
    { rewrite Hqs, bought_remove, decide_True by done.
      pose proof (bought_nonneg (o1 ++ o2) u Hpos'). lia. }
    split; cbn [fst snd].
    + exists (k + q). rewrite Ha. unfold incrby. rewrite lookup_insert_eq, Hk. simpl.
      split; [done|]. split; [lia|]. rewrite sale_total_remove in Htot. lia.
    + intros v. unfold quota. rewrite Hp, quota_refund by done. fold (quota r event_id v).
      rewrite Hqs, bought_remove.
      destruct (decide (event_id = event_id ∧ v = u)) as [[_ ->]|Hn];
        [rewrite decide_True by done; lia|rewrite decide_False; [lia|]; intros ->; by apply Hn].
    + intros v. specialize (Hlim v). rewrite bought_remove in Hlim. destruct (decide _); lia.
    + done.
  - destruct Hinv as [Hs Hq Hl Hpos]. split; cbn [fst snd] in *; [by rewrite Ha| |done|done].
    intros u. unfold quota, hget. rewrite Hp. apply Hq.
Qed.
End sale.

(** A counted sale never oversells and never exceeds the quota.  Start with
    [total] seats in stock and nobody holding any.  After any interleaving of
    reservations, releases of outstanding reservations (replayed ones included)
    and unrelated activity, the stock is not negative, stock plus outstanding
    seats is exactly [total], every buyer's quota counter equals what that buyer
    holds, and nobody holds more than the limit. *)
Theorem sale_conserved event_id limit total r0 r out :
  0 <= total → r_available r0 !! event_id = Some total →
  (∀ u, quota r0 event_id u = 0) →
  rtc (sale_step event_id limit) (r0, []) (r, out) →
  ∃ n, r_available r !! event_id = Some n ∧ 0 <= n ∧ n + sale_total out = total ∧
  ∀ u, quota r event_id u = bought out u ∧ bought out u <= Z.max 0 limit.
Proof.
  intros Ht H0 Hq Hsteps.
  assert (sale_inv event_id limit total (r0, [])) as Hinv.
  { split; cbn [fst snd]; [exists total; split_and!; [done|done|unfold sale_total; simpl; lia]
      |done|unfold bought; simpl; lia|by intros ? ? ?%elem_of_nil]. }
  assert (∀ s, rtc (sale_step event_id limit) (r0, []) s → sale_inv event_id limit total s) as Hall.
  { apply rtc_ind_r; [done|]. intros s s' _ Hs IH. by eapply sale_step_inv. }
  destruct (Hall _ Hsteps) as [(n & Hn & Hn0 & Htot) Hqs Hlim _]. exists n.
  split; [done|]. split; [done|]. split; [done|]. intros u. split; [apply Hqs|apply Hlim].
Qed.

(** ** Reconciliation *)

Lemma quotas_by_user_sum l u :
  default 0 (quotas_by_user l !! u) =
  list_sum (λ o, if decide (o_user o = u) then o_quantity o else 0) l.
Proof.
  induction l as [|o l IH]; simpl; [by rewrite lookup_empty|]. fold (quotas_by_user l).
  destruct (decide (o_user o = u)) as [<-|Hne].
  - rewrite incrby_eq, IH. unfold list_sum. lia.
  - rewrite incrby_ne by done. rewrite IH. unfold list_sum. lia.
Qed.

(** Reconciliation restores the counters from the orders.  While intents are
    in flight and without [force] it refuses; an unknown event is an error; both
    leave Redis as it was.  Otherwise the stock becomes the seats of the event
    minus those of its held orders, every buyer's quota what that buyer's held
    orders sum up to, stale quota fields included, and no other event changes;
    dead letters never block it. *)
Theorem reconcile_restores_counters d event_id force r :
  match reconcile_inventory d event_id force r with
  | (Err e, r') => r' = r ∧
      (force = false ∧ xlen (r_stream r) ≠ 0 ∧
         e = Domain (InventoryNotReconcilable event_id (xlen (r_stream r)) (xlen (r_dead r))) ∨
       d_events d !! event_id = None ∧ e = Domain (EventNotFound event_id))
  | (Ok n, r') =>
      (force = true ∨ xlen (r_stream r) = 0) ∧
      (∃ ev, d_events d !! event_id = Some ev ∧ n + sold d event_id = ev_total_seats ev) ∧
      r_available r' !! event_id = Some n ∧
      (∀ u, quota r' event_id u =
         list_sum (λ o, if decide (o_user o = u) then o_quantity o else 0)
           (held_orders d event_id)) ∧
      (∀ e, e ≠ event_id → r_available r' !! e = r_available r !! e ∧
                           ∀ u, quota r' e u = quota r e u)
  end.
Proof.
  unfold reconcile_inventory, queue_depth.
  destruct (negb force && negb (xlen (r_stream r) =? 0)) eqn:Hg.
  { split; [done|left]. zbool. destruct Hg as [Hf ?]. destruct force; done. }
  destruct (d_events d !! event_id) as [ev|] eqn:Hev; [|by auto]. simpl.
  split; [destruct force; [by left|right; simpl in Hg; zlia]|].
  split; [exists ev; split; [done|lia]|]. split; [by rewrite lookup_insert_eq|]. split.
  - intros u. unfold quota, hget. simpl. unfold hash. rewrite lookup_insert_eq. simpl.
    apply quotas_by_user_sum.
  - intros e He. split; [by rewrite lookup_insert_ne|]. intros u. unfold quota, hget, hash.
    simpl. by rewrite lookup_insert_ne.
Qed.
