(* ===== verification/SeatRuns.v ===== *)
(** The seat map in Redis (src/app/services/seat_runs.py): the two scripts that
    claim and release an interval of seats, the read-compute-compare-and-swap
    loop around the first, and the rebuild from the database.  A script is one
    atomic step on the keyspace. *)

From Stdlib Require Import QArith.
From S2P Require Import Prelude Exceptions Config Keys Redis DB Inventory Seating.

#[local] Open Scope Z_scope.

Definition TOP_K : Z := 16.
Definition MAX_CAS_ATTEMPTS : Z := 5.
Definition STRICT_MISS_THRESHOLD : Z := 3.
Definition STRICT_MISS_TTL_SECONDS : Z := 300.

(** ** Reading *)

(** A free-run hash as the runs it lists. *)
Definition runs_of (m : gmap (Z * Z) Z) : list Run :=
  (λ '((b, s), l), mk_run b s l) <$> map_to_list m.

Record ZoneState : Type := mk_zone_state {
  zs_runs : list Run;
  zs_geometry : gmap Z BlockGeometry;
}.

(** [ZoneState.remaining] *)
Definition zs_remaining (z : ZoneState) : Z := list_sum run_len (zs_runs z).

Fixpoint parse_geometry (raw : list (Z * (Z * Q * Q))) (acc : gmap Z BlockGeometry)
    : result exn (gmap Z BlockGeometry) :=
  match raw with
  | [] => Ok acc
  | (block_id, (capacity, base, edge)) :: raw' =>
      let? g := calibrated block_id capacity base edge in
      parse_geometry raw' (<[block_id := g]> acc)
  end.

(** [_parse_state]; the field names are parsed by [Keys.run_field_parse]. *)
Definition parse_state (raw_runs : gmap (Z * Z) Z) (raw_geom : gmap Z (Z * Q * Q))
    : result exn ZoneState :=
  let? geometry := parse_geometry (map_to_list raw_geom) ∅ in
  Ok (mk_zone_state (runs_of raw_runs) geometry).

(** Both hashes are read in one MULTI/EXEC. *)
Definition read_zone_state (event_id zone_id : Z) : M Redis exn ZoneState :=
  let! rg := gets (λ r, (hash (r_runs r) (event_id, zone_id), hash (r_geom r) (event_id, zone_id))) in
  lift (parse_state (fst rg) (snd rg)).

Definition is_relaxed (event_id zone_id : Z) : M Redis exn bool :=
  gets (λ r, bool_decide ((event_id, zone_id) ∈ r_relaxed r)).

Record ZoneSnapshot : Type := mk_zone_snapshot { sn_state : ZoneState; sn_relaxed : bool }.

(** [read_zone_snapshots]: the same reads for several zones, in one MULTI/EXEC. *)
Fixpoint parse_snapshots (r : Redis) (event_id : Z) (zone_ids : list Z)
    (out : gmap Z ZoneSnapshot) : result exn (gmap Z ZoneSnapshot) :=
  match zone_ids with
  | [] => Ok out
  | z :: zone_ids' =>
      let? st := parse_state (hash (r_runs r) (event_id, z)) (hash (r_geom r) (event_id, z)) in
      parse_snapshots r event_id zone_ids'
        (<[z := mk_zone_snapshot st (bool_decide ((event_id, z) ∈ r_relaxed r))]> out)
  end.

Definition read_zone_snapshots (event_id : Z) (zone_ids : list Z)
    : M Redis exn (gmap Z ZoneSnapshot) :=
  let! r := get in lift (parse_snapshots r event_id zone_ids ∅).

(** A missing or expired counter counts from 0. *)
Definition misses_at (r : Redis) (k : Z * Z) : Z :=
  match r_misses r !! k with
  | Some (n, e) => if live r e then n else 0
  | None => 0
  end.

(** [_record_strict_miss]: INCR, EXPIRE, and past the threshold SET and DEL. *)
Definition record_strict_miss (event_id zone_id : Z) : M Redis exn bool := λ r,
  let k := (event_id, zone_id) in
  let misses := misses_at r k + 1 in
  let r1 := set_misses (<[k := (misses, expiry_after r STRICT_MISS_TTL_SECONDS)]> (r_misses r)) r in
  if misses <? STRICT_MISS_THRESHOLD then (Ok false, r1)
  else
    let r2 := set_relaxed ({[k]} ∪ r_relaxed r1) r1 in
    (Ok true, set_misses (delete k (r_misses r2)) r2).

(** ** The claim script *)

Record claim_args : Type := mk_claim_args {
  ca_event : Z; ca_zone : Z; ca_idem : string;
  ca_block : Z; ca_run_start : Z; ca_run_len : Z;
  ca_start : Z; ca_len : Z;
  ca_ttl : Z; ca_user : Z; ca_price : Z; ca_limit : Z;
  ca_trace : string; ca_traceparent : string;
}.

Inductive claim_result : Type :=
  | CDup
  | COverLimit (held limit : Z)
  | CRetry
  | CBounds
  | COk (stream_id : sid) (zone_remaining : Z).

(** The order intent of a seated reservation. *)
Definition seat_intent (a : claim_args) : fields :=
  list_to_map [
    ("user_id", z_str (ca_user a));
    ("event_id", z_str (ca_event a));
    ("quantity", z_str (ca_len a));
    ("total_price_cents", z_str (ca_price a));
    ("idempotency_key", ca_idem a);
    ("zone_id", z_str (ca_zone a));
    ("block_id", z_str (ca_block a));
    ("start_pos", z_str (ca_start a));
    ("trace_id", ca_trace a);
    ("traceparent", ca_traceparent a)]%string.

Definition claim_seats_lua (a : claim_args) (r : Redis) : claim_result * Redis :=
  let zk := (ca_event a, ca_zone a) in
  let block := ca_block a in
  let run_start := ca_run_start a in
  let run_len := ca_run_len a in
  let start_pos := ca_start a in
  let length := ca_len a in
  if claim_exists r (ca_idem a) then (CDup, r)
  else
    let limit := ca_limit a in
    let held := default 0 (hget (r_purchased r) (ca_event a) (ca_user a)) in
    if limit <? held + length then (COverLimit held limit, r)
    else
      match hget (r_runs r) zk (block, run_start) with
      | None => (CRetry, r)
      | Some current =>
          if negb (current =? run_len) then (CRetry, r)
          else if (start_pos <? run_start) || (run_start + run_len <? start_pos + length)
          then (CBounds, r)
          else
            let run_end := run_start + run_len in
            let left := start_pos - run_start in
            let right := run_end - (start_pos + length) in
            let r := set_runs (hdel zk (block, run_start) (r_runs r)) r in
            let r := set_ends (hdel zk (block, run_end) (r_ends r)) r in
            let r := if 0 <? left then
                       set_ends (hset zk (block, start_pos) run_start (r_ends r))
                         (set_runs (hset zk (block, run_start) left (r_runs r)) r)
                     else r in
            let r := if 0 <? right then
                       set_ends (hset zk (block, run_end) (start_pos + length) (r_ends r))
                         (set_runs (hset zk (block, start_pos + length) right (r_runs r)) r)
                     else r in
            let r := set_zone_available (incrby zk (- length) (r_zone_available r)) r in
            let zone_remaining := default 0 (r_zone_available r !! zk) in
            let r := set_available (incrby (ca_event a) (- length) (r_available r)) r in
            let r := set_purchased (hincrby (ca_event a) (ca_user a) length (r_purchased r)) r in
            let '(stream_id, st) := xadd (r_now r) (seat_intent a) (r_stream r) in
            let r := set_stream st r in
            let r := set_claim (ca_idem a) "PENDING" (ca_ttl a) r in
            (COk stream_id zone_remaining, r)
      end.

(** ** The release script *)

Record release_args : Type := mk_release_args {
  ra_event : Z; ra_zone : Z; ra_marker : string;
  ra_block : Z; ra_start : Z; ra_len : Z; ra_ttl : Z; ra_user : Z;
}.

Inductive release_result : Type :=
  | RDup
  | ROverlap (run_start run_length : Z)
  | ROob (capacity : Z)
  | ROk (merged_start merged_length zone_remaining : Z).

(** The scan over HGETALL: the first run of the block that meets [lo, hi). *)
Fixpoint find_overlap (block lo hi : Z) (all : list ((Z * Z) * Z)) : option (Z * Z) :=
  match all with
  | [] => None
  | ((b, run_lo), l) :: all' =>
      if b =? block then
        let run_hi := run_lo + l in
        if (run_lo <? hi) && (lo <? run_hi) then Some (run_lo, run_hi - run_lo)
        else find_overlap block lo hi all'
      else find_overlap block lo hi all'
  end.

Definition release_seats_lua (a : release_args) (r : Redis) : release_result * Redis :=
  let zk := (ra_event a, ra_zone a) in
  let block := ra_block a in
  if released_exists r (ra_marker a) then (RDup, r)
  else
    let lo := ra_start a in
    let hi := lo + ra_len a in
    let oob := match hget (r_geom r) zk block with
    | Some (capacity, _, _) =>
        if (lo <? 0) || (capacity <? hi) then Some (ROob capacity) else None
    | None => None
    end in
    match oob with
    | Some e => (e, r)
    | None =>
        match find_overlap block lo hi (map_to_list (hash (r_runs r) zk)) with
        | Some (s, l) => (ROverlap s l, r)
        | None =>
            let r := set_marker (ra_marker a) (ra_ttl a) r in
            let r := set_purchased
                       (refund_quota (ra_event a) (ra_user a) (ra_len a) (r_purchased r)) r in
            let '(lo, r) :=
              match hget (r_ends r) zk (block, lo) with
              | Some left_start =>
                  (left_start,
                   set_ends (hdel zk (block, lo) (r_ends r))
                     (set_runs (hdel zk (block, left_start) (r_runs r)) r))
              | None => (lo, r)
              end in
            let '(hi, r) :=
              match hget (r_runs r) zk (block, hi) with
              | Some right_len =>
                  (hi + right_len,
                   set_ends (hdel zk (block, hi + right_len) (r_ends r))
                     (set_runs (hdel zk (block, hi) (r_runs r)) r))
              | None => (hi, r)
              end in
            let r := set_runs (hset zk (block, lo) (hi - lo) (r_runs r)) r in
            let r := set_ends (hset zk (block, hi) lo (r_ends r)) r in
            let r := set_zone_available (incrby zk (ra_len a) (r_zone_available r)) r in
            let zone_remaining := default 0 (r_zone_available r !! zk) in
            let r := set_available (incrby (ra_event a) (ra_len a) (r_available r)) r in
            (ROk lo (hi - lo) zone_remaining, r)
        end
    end.

(** ** Rebuilding from the database *)

(** [sorted] on pairs. *)
Definition pair_le (a b : Z * Z) : bool :=
  if a.1 =? b.1 then a.2 <=? b.2 else a.1 <? b.1.

(** The cursor loop: the free runs between sorted occupied intervals. *)
Fixpoint gap_runs (block_id capacity cursor : Z) (occupied : list (Z * Z)) : list Run :=
  match occupied with
  | [] =>
      if cursor <? capacity then [mk_run block_id cursor (capacity - cursor)] else []
  | (lo, hi) :: rest =>
      (if cursor <? lo then [mk_run block_id cursor (lo - cursor)] else []) ++
      gap_runs block_id capacity (Z.max cursor hi) rest
  end.

Definition zone_blocks (d : DB) (zone_id : Z) : list SeatBlock :=
  filter (λ b, bk_zone b = zone_id) (map_to_list (d_blocks d)).*2.

(** The intervals held in one block of the event. *)
Definition occupied_of (d : DB) (event_id block_id : Z) : list (Z * Z) :=
  (λ h, (hd_start h, hd_start h + hd_len h)) <$>
  filter (λ h, hd_event h = event_id ∧ hd_block h = block_id) (map_to_list (d_holds d)).*2.

Definition block_runs (d : DB) (event_id : Z) (b : SeatBlock) : list Run :=
  gap_runs (bk_id b) (bk_capacity b) 0 (isort pair_le (occupied_of d event_id (bk_id b))).

Definition runs_map (runs : list Run) : gmap (Z * Z) Z :=
  list_to_map ((λ r, ((run_block r, run_start r), run_len r)) <$> runs).
Definition ends_map (runs : list Run) : gmap (Z * Z) Z :=
  list_to_map ((λ r, ((run_block r, run_end r), run_start r)) <$> runs).
Definition geom_map (blocks : list SeatBlock) : gmap Z (Z * Q * Q) :=
  list_to_map ((λ b, (bk_id b, (bk_capacity b, bk_base b, bk_edge b))) <$> blocks).

(** [rebuild_zone_runs] *)
Definition rebuild_zone_runs (d : DB) (event_id zone_id : Z) (force : bool) : M Redis exn Z := λ r,
  let '(backlog, dead) := queue_depth r in
  if negb force && negb (backlog =? 0) then
    (Err (Domain (InventoryNotReconcilable event_id backlog dead)), r)
  else
    match zone_blocks d zone_id with
    | [] => (Ok 0, r)
    | blocks =>
        let zk := (event_id, zone_id) in
        let runs := blocks ≫= block_runs d event_id in
        let remaining := list_sum run_len runs in
        let r := set_geom (<[zk := geom_map blocks]> (r_geom r)) r in
        let r := set_runs (<[zk := runs_map runs]> (r_runs r)) r in
        let r := set_ends (<[zk := ends_map runs]> (r_ends r)) r in
        (Ok remaining, set_zone_available (<[zk := remaining]> (r_zone_available r)) r)
    end.

(** ** The reservation loop *)

Record SeatReservation : Type := mk_reservation {
  sr_block : Z; sr_start : Z; sr_len : Z; sr_stream_id : sid; sr_zone_remaining : Z;
}.

Section reserve.
Context (settings : Settings).
(* [picker.randrange(n)] of an attempt *)
Context (randrange : Z → Z → Z).
(* what the other clients do to Redis between the snapshot and the script *)
Context (others : Z → Redis → Redis).
Context (event_id zone_id user_id quantity total_price_cents : Z) (idempotency_key : string).
Context (claim_ttl_seconds top_k max_per_user : Z) (trace traceparent : string).

(** [_feasible] *)
Definition feasible (state : ZoneState) (p : Policy) : result exn (list Z) :=
  feasible_quantities (zs_runs state) (zs_geometry state) (max_purchasable settings) p.

(** [host = next(run for run in state.runs if ...)] *)
Definition host_of (runs : list Run) (pick : Placement) : result exn Run :=
  match filter (λ run, contains run pick = true) runs with
  | run :: _ => Ok run
  | [] => Err RuntimeError          (* StopIteration inside a coroutine *)
  end.

Definition claim_call (pick : Placement) (host : Run) : claim_args :=
  mk_claim_args event_id zone_id idempotency_key
    (pl_block pick) (run_start host) (run_len host) (pl_start pick) (pl_len pick)
    claim_ttl_seconds user_id total_price_cents max_per_user trace traceparent.

Definition no_seats (state : ZoneState) (p : Policy) : M Redis exn (option SeatReservation) :=
  let! f := lift (feasible state p) in
  raise (Domain (NoSeatsAvailable event_id zone_id quantity f)).

(** What follows an accepted claim. *)
Definition reserved (pick : Placement) (stream_id : sid) (zone_remaining : Z)
    : M Redis exn (option SeatReservation) :=
  modify (λ r, set_misses (delete (event_id, zone_id) (r_misses r)) r) ;;;
  (if zone_remaining =? 0 then modify (poke event_id) else ret tt) ;;;
  ret (Some (mk_reservation (pl_block pick) (pl_start pick) (pl_len pick) stream_id zone_remaining)).

(** The body of [for attempt in range(1, MAX_CAS_ATTEMPTS + 1)]; [fuel] attempts
    are left. *)
Fixpoint reserve_loop (fuel : nat) (attempt : Z) (relaxed : bool) (effective : Policy)
    : M Redis exn (option SeatReservation) :=
  match fuel with
  | O => raise (Domain (SeatContention event_id zone_id MAX_CAS_ATTEMPTS))
  | S fuel' =>
      let! state := read_zone_state event_id zone_id in
      let! anchors := lift (legal_anchors (zs_runs state) quantity (zs_geometry state) effective) in
      match anchors with
      | [] =>
          if zs_remaining state <? quantity then
            raise (Domain (InsufficientInventory event_id quantity (zs_remaining state)))
          else if relaxed then no_seats state effective
          else
            let! switch := record_strict_miss event_id zone_id in
            if (switch : bool) then reserve_loop fuel' (attempt + 1) true ENDGAME_POLICY
            else no_seats state effective
      | _ :: _ =>
          let n := Z.min top_k (Z.of_nat (length anchors)) in
          let! pick := lift (match anchors !! Z.to_nat (randrange attempt n) with
                             | Some p => Ok p
                             | None => Err IndexError
                             end) in
          let! host := lift (host_of (zs_runs state) pick) in
          modify (others attempt) ;;;
          let! res := (λ r, let '(res, r') := claim_seats_lua (claim_call pick host) r in
                            (Ok res, r')) in
          match res with
          | CDup => ret None
          | COverLimit held limit =>
              raise (Domain (PurchaseLimitExceeded event_id user_id quantity held limit))
          | CBounds =>
              raise (Domain (SeatPlacementOutOfRun event_id zone_id
                               (pl_block pick) (pl_start pick) (pl_len pick)))
          | CRetry => reserve_loop fuel' (attempt + 1) relaxed effective
          | COk stream_id zone_remaining => reserved pick stream_id zone_remaining
          end
      end
  end.

(** [reserve_seats_and_enqueue] *)
Definition reserve_seats_and_enqueue (p : Policy) : M Redis exn (option SeatReservation) :=
  let! relaxed := is_relaxed event_id zone_id in
  reserve_loop (Z.to_nat MAX_CAS_ATTEMPTS) 1 relaxed (if (relaxed : bool) then ENDGAME_POLICY else p).
End reserve.

(** [release_seats] *)
Definition release_seats (event_id zone_id user_id block_id start_pos length : Z)
    (marker : string) (ttl_seconds : Z) : M Redis exn bool := λ r,
  let '(res, r') := release_seats_lua
    (mk_release_args event_id zone_id marker block_id start_pos length ttl_seconds user_id) r in
  match res with
  | RDup => (Ok false, r')
  | ROverlap _ _ =>
      (Err (Domain (SeatReleaseOverlap event_id zone_id block_id start_pos length
                      "intersects a free run")), r')
  | ROob _ =>
      (Err (Domain (SeatReleaseOverlap event_id zone_id block_id start_pos length
                      "out of block bounds")), r')
  | ROk _ _ zone_remaining =>
      (Ok true, if (zone_remaining - length <=? 0) && (0 <? zone_remaining)
                then poke event_id r' else r')
  end.

(** ** The zone invariant *)

(** A zone's two hashes. *)
Definition zmaps : Type := gmap (Z * Z) Z * gmap (Z * Z) Z.

(** Adding and removing a run with its boundary tag. *)
Definition zadd (b s l : Z) (m : zmaps) : zmaps := (<[(b, s) := l]> m.1, <[(b, s + l) := s]> m.2).
Definition zdel (b s l : Z) (m : zmaps) : zmaps := (delete (b, s) m.1, delete (b, s + l) m.2).

(** Runs maximal and disjoint; [ends] their exact reverse index. *)
Record zone_wf (m : zmaps) : Prop := {
  zw_runs : wf_runs (runs_of m.1);
  zw_ends : ∀ b e s, m.2 !! (b, e) = Some s ↔ m.1 !! (b, s) = Some (e - s);
}.

Lemma elem_of_runs_of m r :
  r ∈ runs_of m ↔ m !! (run_block r, run_start r) = Some (run_len r).
Proof.
  unfold runs_of. rewrite list_elem_of_fmap. split.
  - intros ([[b s] l] & -> & Hin%elem_of_map_to_list). done.
  - intros H. exists ((run_block r, run_start r), run_len r). split; [by destruct r|].
    by apply elem_of_map_to_list.
Qed.

Lemma runs_of_insert m b s l :
  m !! (b, s) = None → runs_of (<[(b, s) := l]> m) ≡ₚ mk_run b s l :: runs_of m.
Proof. intros H. unfold runs_of. by rewrite map_to_list_insert. Qed.

Lemma runs_of_delete m b s l :
  m !! (b, s) = Some l → runs_of m ≡ₚ mk_run b s l :: runs_of (delete (b, s) m).
Proof.
  intros H. rewrite <-(insert_delete_id m (b, s) l H) at 1.
  apply runs_of_insert, lookup_delete_eq.
Qed.

(** The number of free seats. *)
Definition seats_in (m : gmap (Z * Z) Z) : Z := list_sum run_len (runs_of m).

Lemma zone_wf_del m b s l :
  zone_wf m → m.1 !! (b, s) = Some l →
  zone_wf (zdel b s l m) ∧ 1 <= l ∧
  (∀ r, r ∈ runs_of (zdel b s l m).1 → apart (mk_run b s l) r) ∧
  (∀ b' p, free (runs_of m.1) b' p ↔
           run_has (mk_run b s l) b' p ∨ free (runs_of (zdel b s l m).1) b' p) ∧
  seats_in (zdel b s l m).1 = seats_in m.1 - l.
Proof.
  intros [Hw He] Hl. pose proof (runs_of_delete _ _ _ _ Hl) as Hp.
  pose proof (wf_runs_perm _ _ Hp Hw) as Hw'. apply wf_runs_cons in Hw' as (Hlen & _ & Hap & Hw').
  simpl in Hlen. split; [split; [done|]|].
  - intros b' e' s'. unfold zdel; simpl.
    destruct (decide ((b', s') = (b, s))) as [Heq|Hne].
    + simplify_eq. rewrite lookup_delete_eq. split; [|done].
      intros [Hne H]%lookup_delete_Some. apply He in H. rewrite Hl in H. simplify_eq.
      exfalso. apply Hne. f_equal. lia.
    + rewrite (lookup_delete_ne m.1) by done.
      destruct (decide ((b', e') = (b, s + l))) as [Heq|Hne2].
      * simplify_eq. rewrite lookup_delete_eq. split; [done|]. intros H. exfalso.
        assert (mk_run b s l ∈ runs_of m.1) as Hin1 by by apply elem_of_runs_of.
        assert (mk_run b s' (s + l - s') ∈ runs_of m.1) as Hin2 by by apply elem_of_runs_of.
        pose proof (wf_pos _ Hw _ Hin2).
        destruct (wf_apart _ Hw _ _ Hin1 Hin2) as [?|?]; [congruence|done|..];
          unfold run_end in *; simpl in *; lia.
      * rewrite lookup_delete_ne by done. apply He.
  - split; [done|]. split; [done|]. split.
    + intros b' p. rewrite (free_perm _ _ b' p Hp). apply free_cons.
    + unfold seats_in. rewrite (list_sum_perm _ _ _ Hp). simpl. unfold list_sum. lia.
Qed.

Lemma zone_wf_add m b s l :
  zone_wf m → 1 <= l → (∀ r, r ∈ runs_of m.1 → apart (mk_run b s l) r) →
  zone_wf (zadd b s l m) ∧
  (∀ r, r ∈ runs_of (zadd b s l m).1 ↔ r = mk_run b s l ∨ r ∈ runs_of m.1) ∧
  (∀ b' p, free (runs_of (zadd b s l m).1) b' p ↔
           run_has (mk_run b s l) b' p ∨ free (runs_of m.1) b' p) ∧
  seats_in (zadd b s l m).1 = seats_in m.1 + l.
Proof.
  intros [Hw He] Hlen Hap.
  assert (m.1 !! (b, s) = None) as Hnone.
  { destruct (m.1 !! (b, s)) as [l'|] eqn:Hl'; [exfalso|done].
    assert (mk_run b s l' ∈ runs_of m.1) as Hin by by apply elem_of_runs_of.
    pose proof (wf_pos _ Hw _ Hin). destruct (Hap _ Hin eq_refl);
      unfold run_end in *; simpl in *; lia. }
  pose proof (runs_of_insert m.1 b s l Hnone) as Hp.
  split; [split|].
  - apply (wf_runs_perm (mk_run b s l :: runs_of m.1)); [by symmetry|].
    apply wf_runs_cons. split_and!; [done| |done|done].
    rewrite elem_of_runs_of. simpl. by rewrite Hnone.
  - intros b' e' s'. unfold zadd; simpl.
    destruct (decide ((b', s') = (b, s))) as [Heq|Hne].
    + simplify_eq. rewrite lookup_insert_eq. split.
      * destruct (decide (e' = s + l)) as [->|Hne]; [by intros _; f_equal; lia|].
        rewrite lookup_insert_ne by congruence. intros H%He. by rewrite Hnone in H.
      * intros [= H]. replace e' with (s + l) by lia. by rewrite lookup_insert_eq.
    + rewrite (lookup_insert_ne m.1) by congruence.
      destruct (decide ((b', e') = (b, s + l))) as [Heq|Hne2].
      * simplify_eq. rewrite lookup_insert_eq. split; [by intros [= ->]|]. intros H.
        assert (mk_run b s' (s + l - s') ∈ runs_of m.1) as Hin by by apply elem_of_runs_of.
        pose proof (wf_pos _ Hw _ Hin). destruct (Hap _ Hin eq_refl);
          unfold run_end in *; simpl in *; lia.
      * rewrite lookup_insert_ne by congruence. apply He.
  - split; [|split].
    + intros r. change (zadd b s l m).1 with (<[(b, s) := l]> m.1).
      by rewrite Hp, elem_of_cons.
    + intros b' p. change (zadd b s l m).1 with (<[(b, s) := l]> m.1).
      by rewrite (free_perm _ _ b' p Hp), free_cons.
    + unfold seats_in. change (zadd b s l m).1 with (<[(b, s) := l]> m.1).
      rewrite (list_sum_perm _ _ _ Hp). simpl. unfold list_sum. lia.
Qed.

(** ** What the claim script does to a zone *)

Definition zone_maps (r : Redis) (zk : Z * Z) : zmaps := (hash (r_runs r) zk, hash (r_ends r) zk).

(** Cutting [start, start + len) out of the run at [rs] of length [rl]. *)
Definition cut (b rs rl start len : Z) (m : zmaps) : zmaps :=
  let m := zdel b rs rl m in
  let m := if 0 <? start - rs then zadd b rs (start - rs) m else m in
  if 0 <? rs + rl - (start + len) then zadd b (start + len) (rs + rl - (start + len)) m else m.

Lemma cut_spec b rs rl start len m :
  zone_wf m → m.1 !! (b, rs) = Some rl → rs <= start → start + len <= rs + rl → 1 <= len →
  zone_wf (cut b rs rl start len m) ∧
  (∀ b' p, free (runs_of (cut b rs rl start len m).1) b' p ↔
           free (runs_of m.1) b' p ∧ ¬ (b' = b ∧ start <= p < start + len)) ∧
  seats_in (cut b rs rl start len m).1 = seats_in m.1 - len.
Proof.
  intros Hw Hl Hs He Hlen.
  destruct (zone_wf_del m b rs rl Hw Hl) as (Hw1 & Hrl & Hap1 & Hf1 & Hn1).
  pose proof (zw_runs _ Hw) as Hwr.
  assert (Hout : ∀ b' p, free (runs_of (zdel b rs rl m).1) b' p →
                         ¬ (b' = b ∧ rs <= p < rs + rl)).
  { intros b' p (r & Hr & Hb & Hp) [-> ?]. pose proof (wf_pos _ (zw_runs _ Hw1) _ Hr).
    destruct (Hap1 r Hr); [by simpl|..]; unfold run_end in *; simpl in *; lia. }
  unfold cut. set (m1 := zdel b rs rl m) in *. clearbody m1.
  (* the left remainder *)
  assert (∃ m2, (if 0 <? start - rs then zadd b rs (start - rs) m1 else m1) = m2 ∧ zone_wf m2 ∧
    (∀ r, r ∈ runs_of m2.1 → r ∈ runs_of m1.1 ∨ r = mk_run b rs (start - rs)) ∧
    (∀ b' p, free (runs_of m2.1) b' p ↔ (b' = b ∧ rs <= p < start) ∨ free (runs_of m1.1) b' p) ∧
    seats_in m2.1 = seats_in m1.1 + (start - rs)) as (m2 & -> & Hw2 & Hin2 & Hf2 & Hn2).
  { destruct (0 <? start - rs) eqn:Hleft; zbool.
    - destruct (zone_wf_add m1 b rs (start - rs)) as (? & Hin & Hf & ?); [done|lia| |].
      { intros r Hr Hb. destruct (Hap1 r Hr Hb); unfold run_end in *; simpl in *; lia. }
      eexists. split; [done|]. split; [done|]. split; [intros r; rewrite Hin; tauto|].
      split; [|done]. intros b' p. rewrite Hf. unfold run_has, run_end; simpl.
      replace (rs + (start - rs)) with start by lia. split; (intros [[? ?]|?]; auto).
    - eexists. split; [done|]. split; [done|]. split; [by left|].
      split; [|lia]. intros b' p. split; [by right|]. intros [[_ ?]|?]; [lia|done]. }
  destruct (0 <? rs + rl - (start + len)) eqn:Hright; zbool.
  - destruct (zone_wf_add m2 b (start + len) (rs + rl - (start + len))) as (? & _ & Hf & ?);
      [done|lia| |].
    { intros r Hr Hb. destruct (Hin2 r Hr) as [Hr1| ->].
      - destruct (Hap1 r Hr1 Hb); unfold run_end in *; simpl in *; lia.
      - unfold run_end; simpl; lia. }
    split; [done|]. split; [|lia]. intros b' p. rewrite Hf, Hf2, Hf1.
    pose proof (Hout b' p). unfold run_has, run_end; simpl.
    split; [intros [[<- ?]|[[-> ?]|?]]; (split; [|try lia])|intros [[[<- ?]|?] ?]]; try tauto.
    + left. split; [done|lia].
    + left. split; [done|lia].
    + intros [-> ?]. apply H1; [done|]. split; [done|lia].
    + destruct (decide (p < start)); [right; left|left]; (split; [done|lia]).
  - split; [done|]. split; [|lia]. intros b' p. rewrite Hf2, Hf1.
    pose proof (Hout b' p). unfold run_has, run_end; simpl.
    split; [intros [[-> ?]|?]; (split; [|try lia])|intros [[[<- ?]|?] ?]]; try tauto.
    + left. split; [done|lia].
    + intros [-> ?]. apply H; [done|]. split; [done|lia].
    + left. split; [done|lia].
Qed.

(** An accepted claim: what the script checked, and all it changed. *)
Record claim_effect (a : claim_args) (r : Redis) (i : sid) (n : Z) (r' : Redis) : Prop := {
  ce_fresh : claim_exists r (ca_idem a) = false;
  ce_quota : default 0 (hget (r_purchased r) (ca_event a) (ca_user a)) + ca_len a <= ca_limit a;
  ce_run : (zone_maps r (ca_event a, ca_zone a)).1 !! (ca_block a, ca_run_start a)
           = Some (ca_run_len a);
  ce_inside : ca_run_start a <= ca_start a ∧
              ca_start a + ca_len a <= ca_run_start a + ca_run_len a;
  ce_zone : zone_maps r' (ca_event a, ca_zone a) =
            cut (ca_block a) (ca_run_start a) (ca_run_len a) (ca_start a) (ca_len a)
              (zone_maps r (ca_event a, ca_zone a));
  ce_others : ∀ zk, zk ≠ (ca_event a, ca_zone a) → zone_maps r' zk = zone_maps r zk;
  ce_zone_available : r_zone_available r' =
    incrby (ca_event a, ca_zone a) (- ca_len a) (r_zone_available r);
  ce_remaining : n = default 0 (r_zone_available r' !! (ca_event a, ca_zone a));
  ce_available : r_available r' = incrby (ca_event a) (- ca_len a) (r_available r);
  ce_purchased : r_purchased r' = hincrby (ca_event a) (ca_user a) (ca_len a) (r_purchased r);
  ce_stream : (i, r_stream r') = xadd (r_now r) (seat_intent a) (r_stream r);
  ce_claims : r_claims r' = <[ca_idem a := ("PENDING"%string, expiry_after r (ca_ttl a))]> (r_claims r);
  ce_now : r_now r' = r_now r;
  ce_geom : r_geom r' = r_geom r;
  ce_released : r_released r' = r_released r;
}.

Lemma claim_rejected a r res r' :
  claim_seats_lua a r = (res, r') →
  match res with COk _ _ => True | _ => r' = r end.
Proof.
  unfold claim_seats_lua. intros H. case_hyp H; by simplify_eq/=.
Qed.

Lemma claim_accepted a r i n r' :
  claim_seats_lua a r = (COk i n, r') → claim_effect a r i n r'.
Proof.
  unfold claim_seats_lua. intros H.
  destruct (claim_exists r (ca_idem a)) eqn:Hc; [done|].
  destruct (ca_limit a <? _) eqn:Hq; [done|].
  destruct (hget (r_runs r) _ _) as [current|] eqn:Hr; [|done].
  destruct (negb (current =? ca_run_len a)) eqn:Hcur; [done|].
  destruct (_ || _) eqn:Hb; [done|]. zbool. subst current.
  destruct (xadd _ _ _) as [i' st] eqn:Hx. simplify_eq/=.
  unfold hget in Hr.
  destruct (0 <? ca_start a - ca_run_start a) eqn:Hleft,
    (0 <? ca_run_start a + ca_run_len a - (ca_start a + ca_len a)) eqn:Hright;
    (split; [done|done|done|done| | |done|done|done|done| |done|done|done|done];
     [unfold zone_maps, cut; rewrite Hleft, Hright; unfold zadd, zdel; simpl;
      autorewrite with redis;
      rewrite ?(Zplus_minus (ca_run_start a) (ca_start a)),
        ?(Zplus_minus (ca_start a + ca_len a) (ca_run_start a + ca_run_len a)); done
     |intros zk ?; unfold zone_maps; simpl; by autorewrite with redis
     |simpl in *; by rewrite <-Hx]).
Qed.

(** The seat map of every zone is well formed and its counter exact. *)
Record seats_inv (r : Redis) : Prop := {
  si_wf : ∀ zk, zone_wf (zone_maps r zk);
  si_count : ∀ zk, default 0 (r_zone_available r !! zk) = seats_in (zone_maps r zk).1;
}.

(** The free seats of a zone. *)
Definition zone_free (r : Redis) (zk : Z * Z) (b p : Z) : Prop :=
  free (runs_of (zone_maps r zk).1) b p.

Lemma claim_effect_seats a r i n r' :
  seats_inv r → 1 <= ca_len a → claim_effect a r i n r' →
  seats_inv r' ∧
  ∀ zk b p, zone_free r' zk b p ↔
    zone_free r zk b p ∧
    ¬ (zk = (ca_event a, ca_zone a) ∧ b = ca_block a ∧ ca_start a <= p < ca_start a + ca_len a).
Proof.
  intros [Hw Hn] Hlen [_ _ Hrun [Hs He] Hz Ho Hav _ _ _ _ _ _ _ _].
  set (zk0 := (ca_event a, ca_zone a)) in *.
  destruct (cut_spec (ca_block a) (ca_run_start a) (ca_run_len a) (ca_start a) (ca_len a)
              (zone_maps r zk0)) as (Hw' & Hf & Hc); [apply Hw|done..|].
  rewrite <-Hz in Hw', Hf, Hc. split; [split|].
  - intros zk. destruct (decide (zk = zk0)) as [->|Hne]; [done|]. rewrite Ho by done. apply Hw.
  - intros zk. rewrite Hav. destruct (decide (zk = zk0)) as [->|Hne].
    + rewrite incrby_eq, Hn, Hc. lia.
    + rewrite incrby_ne, Ho by done. apply Hn.
  - intros zk b p. unfold zone_free. destruct (decide (zk = zk0)) as [->|Hne].
    + rewrite Hf. split; intros [? Hno]; (split; [done|]); [by intros [_ ?]|].
      intros ?. by apply Hno.
    + rewrite Ho by done. split; [|by intros [? _]]. intros ?. split; [done|]. by intros [? _].
Qed.

(** ** What the release script does to a zone *)

(** The left neighbour ends where the interval starts, the right one starts
    where it ends; both are taken out and one run is put in. *)
Definition absorb_left (b lo : Z) (m : zmaps) : Z * zmaps :=
  match m.2 !! (b, lo) with
  | Some left_start => (left_start, zdel b left_start (lo - left_start) m)
  | None => (lo, m)
  end.
Definition absorb_right (b hi : Z) (m : zmaps) : Z * zmaps :=
  match m.1 !! (b, hi) with
  | Some right_len => (hi + right_len, zdel b hi right_len m)
  | None => (hi, m)
  end.
Definition merge (b lo hi : Z) (m : zmaps) : zmaps :=
  let '(lo', m1) := absorb_left b lo m in
  let '(hi', m2) := absorb_right b hi m1 in
  zadd b lo' (hi' - lo') m2.

Lemma absorb_left_spec b lo hi m :
  zone_wf m → lo < hi → (∀ r, r ∈ runs_of m.1 → ¬ overlaps r b lo hi) →
  let '(lo', m1) := absorb_left b lo m in
  zone_wf m1 ∧ lo' <= lo ∧
  (∀ r, r ∈ runs_of m1.1 → run_block r = b → run_end r < lo' ∨ hi <= run_start r) ∧
  (∀ b' p, free (runs_of m.1) b' p ↔ free (runs_of m1.1) b' p ∨ b' = b ∧ lo' <= p < lo) ∧
  seats_in m1.1 = seats_in m.1 - (lo - lo').
Proof.
  intros Hw Hlt Hno. unfold absorb_left. unfold overlaps in Hno.
  destruct (m.2 !! (b, lo)) as [ls|] eqn:Hl.
  - apply (zw_ends _ Hw) in Hl.
    destruct (zone_wf_del m b ls (lo - ls) Hw Hl) as (Hw1 & Hlen & Hap & Hf & Hn).
    split; [done|]. split; [lia|]. split; [|split; [|lia]].
    + intros r Hr Hb.
      assert (r ∈ runs_of m.1) as Hr0.
      { rewrite (runs_of_delete _ _ _ _ Hl). by right. }
      pose proof (wf_pos _ (zw_runs _ Hw) _ Hr0). pose proof (Hno r Hr0).
      destruct (Z.le_gt_cases hi (run_start r)); [by right|left].
      destruct (Hap r Hr) as [?|?]; [done|..]; unfold run_end in *; simpl in *; lia.
    + intros b' p. rewrite Hf. unfold run_has, run_end; simpl.
      replace (ls + (lo - ls)) with lo by lia.
      split; [intros [[<- ?]|?]|intros [?|[-> ?]]]; auto.
  - split; [done|]. split; [lia|]. split; [|split; [|lia]].
    + intros r Hr Hb. pose proof (Hno r Hr).
      destruct (Z.le_gt_cases hi (run_start r)); [by right|left].
      assert (run_end r ≠ lo).
      { intros Heq. apply elem_of_runs_of in Hr. rewrite Hb in Hr.
        assert (m.2 !! (b, lo) = Some (run_start r)); [|congruence].
        apply (zw_ends _ Hw). rewrite Hr. f_equal. unfold run_end in Heq. lia. }
      lia.
    + intros b' p. split; [by left|]. intros [?|[_ ?]]; [done|lia].
Qed.

Lemma absorb_right_spec b lo hi m :
  zone_wf m → lo < hi →
  (∀ r, r ∈ runs_of m.1 → run_block r = b → run_end r < lo ∨ hi <= run_start r) →
  let '(hi', m1) := absorb_right b hi m in
  zone_wf m1 ∧ hi <= hi' ∧
  (∀ r, r ∈ runs_of m1.1 → run_block r = b → run_end r < lo ∨ hi' < run_start r) ∧
  (∀ b' p, free (runs_of m.1) b' p ↔ free (runs_of m1.1) b' p ∨ b' = b ∧ hi <= p < hi') ∧
  seats_in m1.1 = seats_in m.1 - (hi' - hi).
Proof.
  intros Hw Hlt Hno. unfold absorb_right.
  destruct (m.1 !! (b, hi)) as [rl|] eqn:Hl.
  - destruct (zone_wf_del m b hi rl Hw Hl) as (Hw1 & Hlen & Hap & Hf & Hn).
    split; [done|]. split; [lia|]. split; [|split; [|lia]].
    + intros r Hr Hb.
      assert (r ∈ runs_of m.1) as Hr0.
      { rewrite (runs_of_delete _ _ _ _ Hl). by right. }
      pose proof (wf_pos _ (zw_runs _ Hw) _ Hr0). destruct (Hno r Hr0 Hb) as [?|?]; [by left|right].
      destruct (Hap r Hr) as [?|?]; [done|..]; unfold run_end in *; simpl in *; lia.
    + intros b' p. rewrite Hf. unfold run_has, run_end; simpl.
      split; [intros [[<- ?]|?]|intros [?|[-> ?]]]; auto.
  - split; [done|]. split; [lia|]. split; [|split; [|lia]].
    + intros r Hr Hb. destruct (Hno r Hr Hb) as [?|?]; [by left|right].
      assert (run_start r ≠ hi); [|lia]. intros <-. apply elem_of_runs_of in Hr.
      rewrite Hb in Hr. congruence.
    + intros b' p. split; [by left|]. intros [?|[_ ?]]; [done|lia].
Qed.

Lemma merge_spec b lo hi m :
  zone_wf m → lo < hi → (∀ r, r ∈ runs_of m.1 → ¬ overlaps r b lo hi) →
  zone_wf (merge b lo hi m) ∧
  (∀ b' p, free (runs_of (merge b lo hi m).1) b' p ↔
           free (runs_of m.1) b' p ∨ b' = b ∧ lo <= p < hi) ∧
  seats_in (merge b lo hi m).1 = seats_in m.1 + (hi - lo).
Proof.
  intros Hw Hlt Hno. unfold merge. pose proof (absorb_left_spec b lo hi m Hw Hlt Hno) as Hl.
  destruct (absorb_left b lo m) as [lo' m1]. destruct Hl as (Hw1 & Hlo & Hs1 & Hf1 & Hn1).
  pose proof (absorb_right_spec b lo' hi m1 Hw1) as Hr.
  destruct (absorb_right b hi m1) as [hi' m2].
  destruct Hr as (Hw2 & Hhi & Hs2 & Hf2 & Hn2); [lia|done|].
  destruct (zone_wf_add m2 b lo' (hi' - lo') Hw2) as (Hw3 & _ & Hf3 & Hn3); [lia| |].
  { intros r Hr Hb. destruct (Hs2 r Hr); [done|right|left]; unfold run_end in *; simpl; lia. }
  split; [done|]. split; [|lia]. intros b' p. rewrite Hf3, Hf1, Hf2.
  unfold run_has, run_end; simpl. replace (lo' + (hi' - lo')) with hi' by lia.
  split; [intros [[<- ?]|?]|intros [[[?|[-> ?]]|[-> ?]]|[-> ?]]]; auto;
    [|by left; split; [done|lia]..].
  destruct (decide (p < lo)); [by left; right; split; [done|lia]|].
  destruct (decide (p < hi)); [by right; split; [done|lia]|].
  left; left; right; split; [done|lia].
Qed.

Lemma find_overlap_spec b lo hi m :
  match find_overlap b lo hi (map_to_list m) with
  | Some _ => ∃ r, r ∈ runs_of m ∧ overlaps r b lo hi
  | None => ∀ r, r ∈ runs_of m → ¬ overlaps r b lo hi
  end.
Proof.
  unfold runs_of. generalize (map_to_list m). intros l. unfold overlaps, run_end.
  induction l as [|[[b' s] n] l IH]; simpl; [by intros r ?%elem_of_nil|].
  assert (Hrec : (∀ s', s' = mk_run b' s n → ¬ (run_block s' = b ∧ run_start s' < hi ∧
                          lo < run_start s' + run_len s')) →
    match find_overlap b lo hi l with
    | Some _ => ∃ r, r ∈ mk_run b' s n :: ((λ '((b0, s0), l0), mk_run b0 s0 l0) <$> l) ∧
        run_block r = b ∧ run_start r < hi ∧ lo < run_start r + run_len r
    | None => ∀ r, r ∈ mk_run b' s n :: ((λ '((b0, s0), l0), mk_run b0 s0 l0) <$> l) →
        ¬ (run_block r = b ∧ run_start r < hi ∧ lo < run_start r + run_len r)
    end).
  { intros Hh. destruct (find_overlap b lo hi l).
    - destruct IH as (r & ? & ?). exists r. split; [by right|done].
    - intros r [->|?]%elem_of_cons; [by apply Hh|by apply IH]. }
  destruct (b' =? b) eqn:Hb; zbool.
  - destruct ((s <? hi) && (lo <? s + n)) eqn:Ho; zbool.
    + exists (mk_run b' s n). split; [left|]. simpl. lia.
    + apply Hrec. intros ? -> (_ & ? & ?). simpl in *. lia.
  - apply Hrec. intros ? -> (? & _ & _). by simpl in *.
Qed.

Definition geom_capacity (r : Redis) (zk : Z * Z) (b : Z) : option Z :=
  (λ '(c, _, _), c) <$> hash (r_geom r) zk !! b.

(** Out of the block, as far as its geometry is known. *)
Definition out_of_block (cap : option Z) (lo hi : Z) : bool :=
  match cap with Some c => (lo <? 0) || (c <? hi) | None => false end.

(** An accepted release: what the script checked, and all it changed. *)
Record release_effect (a : release_args) (r : Redis) (n : Z) (r' : Redis) : Prop := {
  re_fresh : released_exists r (ra_marker a) = false;
  re_bounds : out_of_block (geom_capacity r (ra_event a, ra_zone a) (ra_block a))
                (ra_start a) (ra_start a + ra_len a) = false;
  re_taken : ∀ x, x ∈ runs_of (zone_maps r (ra_event a, ra_zone a)).1 →
                  ¬ overlaps x (ra_block a) (ra_start a) (ra_start a + ra_len a);
  re_zone : zone_maps r' (ra_event a, ra_zone a) =
            merge (ra_block a) (ra_start a) (ra_start a + ra_len a)
              (zone_maps r (ra_event a, ra_zone a));
  re_others : ∀ zk, zk ≠ (ra_event a, ra_zone a) → zone_maps r' zk = zone_maps r zk;
  re_zone_available : r_zone_available r' =
    incrby (ra_event a, ra_zone a) (ra_len a) (r_zone_available r);
  re_remaining : n = default 0 (r_zone_available r' !! (ra_event a, ra_zone a));
  re_available : r_available r' = incrby (ra_event a) (ra_len a) (r_available r);
  re_purchased : r_purchased r' =
    refund_quota (ra_event a) (ra_user a) (ra_len a) (r_purchased r);
  re_released : r_released r' = <[ra_marker a := expiry_after r (ra_ttl a)]> (r_released r);
  re_stream : r_stream r' = r_stream r;
  re_claims : r_claims r' = r_claims r;
  re_now : r_now r' = r_now r;
  re_geom : r_geom r' = r_geom r;
}.

Lemma release_rejected a r res r' :
  release_seats_lua a r = (res, r') →
  let zk := (ra_event a, ra_zone a) in
  let hi := ra_start a + ra_len a in
  match res with
  | RDup => r' = r ∧ released_exists r (ra_marker a) = true
  | ROob _ => r' = r ∧ released_exists r (ra_marker a) = false ∧
      out_of_block (geom_capacity r zk (ra_block a)) (ra_start a) hi = true
  | ROverlap _ _ => r' = r ∧ released_exists r (ra_marker a) = false ∧
      ∃ x, x ∈ runs_of (zone_maps r zk).1 ∧ overlaps x (ra_block a) (ra_start a) hi
  | ROk _ _ _ => True
  end.
Proof.
  unfold release_seats_lua. intros H. unfold geom_capacity, hget in *.
  destruct (released_exists r (ra_marker a)) eqn:Hm; [by simplify_eq|].
  destruct (hash (r_geom r) _ !! _) as [[[c q1] q2]|]; simpl in *;
    [destruct (_ || _) eqn:Ho; simplify_eq/=; [done|]|];
    (pose proof (find_overlap_spec (ra_block a) (ra_start a) (ra_start a + ra_len a)
       (hash (r_runs r) (ra_event a, ra_zone a))) as Hf;
     destruct (find_overlap _ _ _ _) as [[? ?]|]; [by simplify_eq|]);
    case_hyp H; by simplify_eq.
Qed.

Lemma release_accepted a r lo n s r' :
  release_seats_lua a r = (ROk lo n s, r') → release_effect a r s r'.
Proof.
  unfold release_seats_lua. intros H.
  destruct (released_exists r (ra_marker a)) eqn:Hm; [done|].
  set (zk := (ra_event a, ra_zone a)) in *.
  assert (Hb : out_of_block (geom_capacity r zk (ra_block a)) (ra_start a)
                 (ra_start a + ra_len a) = false).
  { unfold geom_capacity, hget in *. destruct (hash (r_geom r) zk !! ra_block a) as [[[c ?] ?]|];
      simpl in *; [|done]. by destruct (_ || _). }
  destruct (match hget (r_geom r) zk (ra_block a) with Some _ => _ | None => _ end) as [e|] eqn:Hg.
  { exfalso. case_hyp Hg; by simplify_eq. }
  pose proof (find_overlap_spec (ra_block a) (ra_start a) (ra_start a + ra_len a)
       (hash (r_runs r) zk)) as Hf.
  destruct (find_overlap _ _ _ _) as [[? ?]|]; [done|].
  simpl in H. unfold hget in H.
  destruct (hash (r_ends r) zk !! (ra_block a, ra_start a)) as [ls|] eqn:Hl; simpl in H;
  [rewrite hash_hdel_eq in H|];
  [destruct (delete _ (hash (r_runs r) zk) !! (ra_block a, ra_start a + ra_len a)) as [rl|] eqn:Hr
  |destruct (hash (r_runs r) zk !! (ra_block a, ra_start a + ra_len a)) as [rl|] eqn:Hr];
  simplify_eq/=;
  (split; [done|done|done| | |done|done|done|done|done|done|done|done|done];
   [unfold zone_maps, merge, absorb_left, absorb_right, zadd, zdel; simpl; fold zk;
    rewrite Hl; simpl; rewrite ?(Zplus_minus ls (ra_start a)), Hr; simpl;
    autorewrite with redis; repeat (f_equal; try lia)
   |intros zk' ?; unfold zone_maps; simpl; by autorewrite with redis]).
Qed.

Lemma release_effect_seats a r n r' :
  seats_inv r → 1 <= ra_len a → release_effect a r n r' →
  seats_inv r' ∧
  ∀ zk b p, zone_free r' zk b p ↔
    zone_free r zk b p ∨
    zk = (ra_event a, ra_zone a) ∧ b = ra_block a ∧ ra_start a <= p < ra_start a + ra_len a.
Proof.
  intros [Hw Hn] Hlen [_ _ Hno Hz Ho Hav _ _ _ _ _ _ _ _].
  set (zk0 := (ra_event a, ra_zone a)) in *.
  destruct (merge_spec (ra_block a) (ra_start a) (ra_start a + ra_len a) (zone_maps r zk0))
    as (Hw' & Hf & Hc); [apply Hw|lia|done|].
  rewrite <-Hz in Hw', Hf, Hc. split; [split|].
  - intros zk. destruct (decide (zk = zk0)) as [->|Hne]; [done|]. rewrite Ho by done. apply Hw.
  - intros zk. rewrite Hav. destruct (decide (zk = zk0)) as [->|Hne].
    + rewrite incrby_eq, Hn, Hc. lia.
    + rewrite incrby_ne, Ho by done. apply Hn.
  - intros zk b p. unfold zone_free. destruct (decide (zk = zk0)) as [->|Hne].
    + rewrite Hf. split; (intros [?|?]; [by left|right]); [done|by destruct_and!].
    + rewrite Ho by done. split; [by left|]. by intros [?|[? _]].
Qed.

(** An interval of a well-formed zone overlaps a run iff it has a free seat. *)
Lemma overlap_free runs b lo hi :
  wf_runs runs → lo < hi →
  (∃ x, x ∈ runs ∧ overlaps x b lo hi) ↔ ∃ p, lo <= p < hi ∧ free runs b p.
Proof.
  intros Hw Hlt. split.
  - intros (x & Hx & Hb & ? & ?). pose proof (wf_pos _ Hw _ Hx).
    exists (Z.max lo (run_start x)). unfold run_end in *. split; [lia|].
    exists x. split; [done|]. split; [done|unfold run_end; lia].
  - intros (p & ? & x & Hx & Hb & ?). exists x. split; [done|].
    unfold overlaps. split_and!; [done|lia|lia].
Qed.

(** A claim from any snapshot only sells free seats.  For every argument,
    however stale the run it was computed from, [claim_seats_lua] keeps every
    zone well formed (maximal runs, exact reverse index, exact counter); when it
    answers OK each seat of the window was free and exactly those seats stop
    being free; when it answers anything else nothing changes. *)
Theorem claim_sells_free_seats_only a r :
  seats_inv r → 1 <= ca_len a →
  let '(res, r') := claim_seats_lua a r in
  seats_inv r' ∧
  match res with
  | COk _ _ =>
      (∀ p, ca_start a <= p < ca_start a + ca_len a →
         zone_free r (ca_event a, ca_zone a) (ca_block a) p) ∧
      (∀ zk b p, zone_free r' zk b p ↔ zone_free r zk b p ∧
         ¬ (zk = (ca_event a, ca_zone a) ∧ b = ca_block a ∧
            ca_start a <= p < ca_start a + ca_len a))
  | _ => r' = r
  end.
Proof.
  intros Hinv Hlen. destruct (claim_seats_lua a r) as [res r'] eqn:Hc.
  pose proof (claim_rejected _ _ _ _ Hc) as Hrej.
  destruct res as [| | | |i n]; [by subst..|]. apply claim_accepted in Hc.
  destruct (claim_effect_seats _ _ _ _ _ Hinv Hlen Hc) as [Hinv' Hf].
  split; [done|]. split; [|done]. intros p Hp.
  destruct Hc as [_ _ Hrun [Hs He] _ _ _ _ _ _ _ _ _ _ _].
  exists (mk_run (ca_block a) (ca_run_start a) (ca_run_len a)).
  split; [by apply elem_of_runs_of|]. split; [done|]. unfold run_end; simpl; lia.
Qed.

(** A release gives seats back once, or changes nothing.  For every
    argument [release_seats_lua] keeps the zones well formed; OK means no seat
    of the interval was free and exactly the interval is added, the neighbours
    merged; a replay under a live marker, an interval that leaves the block and
    one that meets a free seat are refused with the state untouched. *)
Theorem release_returns_taken_seats_only a r :
  seats_inv r → 1 <= ra_len a →
  let '(res, r') := release_seats_lua a r in
  let zk := (ra_event a, ra_zone a) in
  seats_inv r' ∧
  match res with
  | ROk _ _ _ =>
      released_exists r (ra_marker a) = false ∧
      (∀ p, ra_start a <= p < ra_start a + ra_len a → ¬ zone_free r zk (ra_block a) p) ∧
      (∀ zk' b p, zone_free r' zk' b p ↔ zone_free r zk' b p ∨
         zk' = zk ∧ b = ra_block a ∧ ra_start a <= p < ra_start a + ra_len a)
  | RDup => r' = r ∧ released_exists r (ra_marker a) = true
  | ROob _ => r' = r ∧
      out_of_block (geom_capacity r zk (ra_block a)) (ra_start a) (ra_start a + ra_len a) = true
  | ROverlap _ _ => r' = r ∧
      ∃ p, ra_start a <= p < ra_start a + ra_len a ∧ zone_free r zk (ra_block a) p
  end.
Proof.
  intros Hinv Hlen. destruct (release_seats_lua a r) as [res r'] eqn:Hc.
  pose proof (release_rejected _ _ _ _ Hc) as Hrej. cbn zeta in Hrej.
  destruct res as [|s l|c|lo n rem].
  - by destruct Hrej as [-> ?].
  - destruct Hrej as (-> & _ & Hex). split; [done|]. split; [done|].
    apply overlap_free; [apply Hinv|lia|done].
  - by destruct Hrej as (-> & _ & ?).
  - apply release_accepted in Hc.
    destruct (release_effect_seats _ _ _ _ Hinv Hlen Hc) as [Hinv' Hf].
    split; [done|]. destruct Hc as [Hm _ Hno _ _ _ _ _ _ _ _ _ _ _].
    split; [done|]. split; [|done]. intros p Hp Hfree.
    destruct (proj2 (overlap_free (runs_of (zone_maps r (ra_event a, ra_zone a)).1) (ra_block a)
      (ra_start a) (ra_start a + ra_len a) (zw_runs _ (si_wf _ Hinv _)) ltac:(lia)))
      as (x & Hx & Hov); [by exists p|]. by apply (Hno x Hx).
Qed.

(** A placement as the claim script's window. *)
Definition claim_placement (a : claim_args) : Placement :=
  mk_placement (ca_block a) (ca_start a) (ca_len a) 0%Q.

(** C2 (the scripts refine the pure allocator).  On a well-formed zone, in
    canonical order: an accepted claim of at least one seat leaves exactly the runs
    [occupy] computes.  A release whose marker is live answers a duplicate and
    changes nothing.  A release of at least one seat whose marker is fresh agrees with
    the pure [release] under the capacity Redis knows for the block - both accept with
    the same runs, or both refuse and nothing changes - provided that the capacity is
    known or the start is not negative.  The script checks no length, and checks the
    bounds only against a known geometry; what it does on the inputs left out here is
    shown by [script_accepts_what_release_refuses]. *)
Theorem scripts_refine_oracle r zk :
  seats_inv r →
  let runs_in r := runs_of (zone_maps r zk).1 in
  (∀ a i n r', (ca_event a, ca_zone a) = zk → 1 <= ca_len a →
     claim_seats_lua a r = (COk i n, r') →
     occupy (runs_in r) (claim_placement a) = Ok (isort run_le (runs_in r'))) ∧
  (∀ a, released_exists r (ra_marker a) = true → release_seats_lua a r = (RDup, r)) ∧
  (∀ a, (ra_event a, ra_zone a) = zk → 1 <= ra_len a →
     released_exists r (ra_marker a) = false →
     let capacity := geom_capacity r zk (ra_block a) in
     (capacity = None → 0 <= ra_start a) →
     match release_seats_lua a r with
     | (ROk _ _ _, r') =>
         release (runs_in r) (ra_block a) (ra_start a) (ra_len a) capacity =
         Ok (isort run_le (runs_in r'))
     | (RDup, _) => False
     | (_, r') => r' = r ∧
         release (runs_in r) (ra_block a) (ra_start a) (ra_len a) capacity = Err ValueError
     end).
Proof.
  intros Hinv runs_in. pose proof (zw_runs _ (si_wf _ Hinv zk)) as Hw. split_and!.
  - intros a i n r' <- Hlen Hc. apply claim_accepted in Hc.
    destruct (claim_effect_seats _ _ _ _ _ Hinv Hlen Hc) as [Hinv' Hf].
    assert (Hcont : ∃ x, x ∈ runs_in r ∧ contains x (claim_placement a) = true).
    { destruct Hc as [_ _ Hrun [Hs He] _ _ _ _ _ _ _ _ _ _ _].
      exists (mk_run (ca_block a) (ca_run_start a) (ca_run_len a)).
      split; [by apply elem_of_runs_of|]. apply contains_spec. done. }
    unfold occupy. rewrite (proj2 (contains_exists _ _) Hcont). simpl. f_equal.
    apply isort_run_canonical; [by apply occupy_wf|apply Hinv'|].
    intros b p. rewrite occupy_free by done.
    etrans; [|symmetry; apply (Hf (ca_event a, ca_zone a) b p)]. unfold pl_has; simpl.
    split; intros [? Hn]; (split; [done|]); [by intros (_ & -> & ?); apply Hn|].
    intros [<- ?]. by apply Hn.
  - intros a Hm. unfold release_seats_lua. by rewrite Hm.
  - intros a <- Hlen Hm capacity Hst. destruct (release_seats_lua a r) as [res r'] eqn:Hc.
    pose proof (release_rejected _ _ _ _ Hc) as Hrej. cbn zeta in Hrej.
    destruct res as [|s l|c'|lo n rem].
    + destruct Hrej. congruence.
    + destruct Hrej as (-> & _ & Hex). split; [done|].
      unfold release. destruct (ra_len a <? 1) eqn:?; [done|].
      destruct ((ra_start a <? 0) || _); [done|].
      rewrite release_loop_overlap; [done|lia|done].
    + destruct Hrej as (-> & _ & Ho). split; [done|]. fold capacity in Ho.
      unfold release. destruct (ra_len a <? 1); [done|].
      unfold out_of_block in Ho. destruct capacity as [c|]; [by rewrite Ho|done].
    + apply release_accepted in Hc.
      destruct (release_effect_seats _ _ _ _ Hinv Hlen Hc) as [Hinv' Hf].
      destruct Hc as [_ Hb Hno _ _ _ _ _ _ _ _ _ _ _]. fold capacity in Hb.
      destruct (release_ok (runs_in r) (ra_block a) (ra_start a) (ra_len a) capacity)
        as (out & -> & Hwo & Hfo); [done|done| | |done|].
      * destruct capacity as [c|]; [|by apply Hst]. unfold out_of_block in Hb. zlia.
      * intros c Hcap. rewrite Hcap in Hb. unfold out_of_block in Hb. zlia.
      * f_equal. apply isort_run_canonical; [done|apply Hinv'|].
        intros b p. rewrite Hfo.
        etrans; [|symmetry; apply (Hf (ra_event a, ra_zone a) b p)].
        split; (intros [?|?]; [by left|right]); [done|by destruct_and!].
Qed.

(** ** The rebuild *)

Lemma pair_le_total a b : pair_le a b = false → pair_le b a = true.
Proof. unfold pair_le. intros H. case_goal; case_hyp H; zlia. Qed.
Lemma pair_le_trans a b c : pair_le a b = true → pair_le b c = true → pair_le a c = true.
Proof. unfold pair_le. intros H1 H2. case_goal; case_hyp H1; case_hyp H2; zlia. Qed.
Lemma pair_le_fst a b : pair_le a b = true → a.1 <= b.1.
Proof. unfold pair_le. intros H. case_hyp H; zlia. Qed.

Lemma wf_runs_nil : wf_runs [].
Proof. split; [constructor|by intros ? ?%elem_of_nil|by intros ? ? ?%elem_of_nil]. Qed.

Definition covered (occ : list (Z * Z)) (p : Z) : Prop := ∃ i, i ∈ occ ∧ i.1 <= p < i.2.

Lemma gap_runs_spec id cap cursor occ :
  StronglySorted (λ a b, pair_le a b = true) occ →
  (∀ i, i ∈ occ → 0 <= i.1 < i.2 ∧ i.2 <= cap) → 0 <= cursor →
  wf_runs (gap_runs id cap cursor occ) ∧
  (∀ r, r ∈ gap_runs id cap cursor occ →
        run_block r = id ∧ cursor <= run_start r ∧ run_end r <= cap) ∧
  (∀ b p, free (gap_runs id cap cursor occ) b p ↔
          b = id ∧ cursor <= p < cap ∧ ¬ covered occ p).
Proof.
  intros Hs. revert cursor. induction Hs as [|[lo hi] occ Hs IH Hlo]; intros cursor Hocc Hc.
  - simpl. destruct (cursor <? cap) eqn:Hcap; zbool.
    + split; [|split].
      * apply wf_runs_cons. simpl. split; [lia|]. split; [by intros ?%elem_of_nil|].
        split; [by intros ? ?%elem_of_nil|]. apply wf_runs_nil.
      * intros r ->%list_elem_of_singleton. unfold run_end; simpl. lia.
      * intros b p. rewrite free_one. unfold run_has, run_end, covered; simpl. split.
        -- intros [<- ?]. split_and!; [done|lia|lia|]. by intros (? & ?%elem_of_nil & _).
        -- intros (-> & ? & _). split; [done|lia].
    + split; [|split].
      * apply wf_runs_nil.
      * by intros ? ?%elem_of_nil.
      * intros b p. split; [by intros ?%free_nil|]. intros (_ & ? & _). lia.
  - simpl. destruct (Hocc (lo, hi)) as [? ?]; [left|]. simpl in *.
    assert (Hlo' : ∀ i, i ∈ occ → lo <= i.1).
    { intros i Hi. rewrite Forall_forall in Hlo. by apply (pair_le_fst (lo, hi)), Hlo. }
    destruct (IH (Z.max cursor hi)) as (Hw & Hin & Hf); [intros i Hi; apply Hocc; by right|lia|].
    assert (Hcov : ∀ p, covered ((lo, hi) :: occ) p ↔ lo <= p < hi ∨ covered occ p).
    { intros p. unfold covered. setoid_rewrite elem_of_cons. split.
      - intros (i & [->|?] & ?); [by left|right; by exists i].
      - intros [?|(i & ? & ?)]; [by exists (lo, hi); split; [left|]|exists i; auto]. }
    destruct (cursor <? lo) eqn:Hcl; zbool; simpl.
    + split; [|split].
      * apply wf_runs_cons. simpl. split; [lia|]. split; [|split; [|done]].
        -- intros (? & ? & ?)%Hin. simpl in *. lia.
        -- intros r (? & ? & ?)%Hin Hb. left. unfold run_end in *; simpl in *. lia.
      * intros r [->|Hr]%elem_of_cons; [unfold run_end; simpl; lia|].
        destruct (Hin r Hr) as (? & ? & ?). split_and!; [done|lia|done].
      * intros b p. rewrite free_cons, Hf, Hcov. unfold run_has, run_end; simpl.
        replace (cursor + (lo - cursor)) with lo by lia. split.
        -- intros [[<- ?]|(-> & ? & Hn)]; (split; [done|]); (split; [lia|]).
           ++ intros [?|(i & Hi & ?)]; [lia|]. specialize (Hlo' i Hi). lia.
           ++ intros [?|?]; [lia|done].
        -- intros (-> & ? & Hn). destruct (decide (p < lo)); [left; split; [done|lia]|right].
           split_and!; [done| |lia|by intros ?; apply Hn; right].
           assert (¬ lo <= p < hi) by (intros ?; apply Hn; by left). lia.
    + split; [done|]. split; [intros r Hr; destruct (Hin r Hr) as (? & ? & ?);
                              split_and!; [done|lia|done]|].
      intros b p. rewrite Hf, Hcov. split.
      * intros (-> & ? & Hn). split_and!; [done|lia|lia|]. intros [?|?]; [lia|done].
      * intros (-> & ? & Hn). split_and!; [done| |lia|by intros ?; apply Hn; right].
        assert (¬ lo <= p < hi) by (intros ?; apply Hn; by left). lia.
Qed.

(** A block of the zone, with the holds of an event on it inside its capacity. *)
Record blocks_ok (d : DB) (event_id : Z) : Prop := {
  bo_ids : ∀ i b, d_blocks d !! i = Some b → bk_id b = i;
  bo_holds : ∀ i h b, d_holds d !! i = Some h → hd_event h = event_id →
    d_blocks d !! hd_block h = Some b →
    0 <= hd_start h ∧ 0 < hd_len h ∧ hd_start h + hd_len h <= bk_capacity b;
}.

(** The seats the database knows to be free. *)
Definition db_free (d : DB) (event_id zone_id b p : Z) : Prop :=
  ∃ blk, d_blocks d !! b = Some blk ∧ bk_zone blk = zone_id ∧ 0 <= p < bk_capacity blk ∧
    ∀ i h, d_holds d !! i = Some h → hd_event h = event_id → hd_block h = b →
           ¬ hd_start h <= p < hd_start h + hd_len h.

Lemma elem_of_values `{Countable K} {V} (m : gmap K V) v :
  v ∈ (map_to_list m).*2 ↔ ∃ k, m !! k = Some v.
Proof.
  rewrite list_elem_of_fmap. split.
  - intros ([k w] & -> & Hin%elem_of_map_to_list). by exists k.
  - intros [k Hk%elem_of_map_to_list]. by exists (k, v).
Qed.

Lemma elem_of_zone_blocks d event_id zone_id b :
  blocks_ok d event_id →
  b ∈ zone_blocks d zone_id ↔ d_blocks d !! bk_id b = Some b ∧ bk_zone b = zone_id.
Proof.
  intros Hok. unfold zone_blocks. rewrite list_elem_of_filter, elem_of_values. split.
  - intros (Hz & k & Hk). by rewrite (bo_ids _ _ Hok _ _ Hk).
  - intros [? ?]. split; [done|]. by eexists.
Qed.

Lemma block_runs_spec d event_id b :
  blocks_ok d event_id → d_blocks d !! bk_id b = Some b →
  wf_runs (block_runs d event_id b) ∧
  (∀ r, r ∈ block_runs d event_id b → run_block r = bk_id b) ∧
  (∀ b' p, free (block_runs d event_id b) b' p ↔
           b' = bk_id b ∧ db_free d event_id (bk_zone b) b' p).
Proof.
  intros Hok Hb. unfold block_runs.
  destruct (gap_runs_spec (bk_id b) (bk_capacity b) 0
              (isort pair_le (occupied_of d event_id (bk_id b)))) as (Hw & Hin & Hf);
    [apply isort_sorted; [apply pair_le_total|apply pair_le_trans]| |done|].
  { intros i Hi%elem_of_isort. unfold occupied_of in Hi.
    apply list_elem_of_fmap in Hi as (h & -> & Hh). apply list_elem_of_filter in Hh as ([He Hbk] & Hv).
    apply elem_of_values in Hv as [k Hk]. rewrite <-Hbk in Hb.
    destruct (bo_holds _ _ Hok k h b Hk He Hb). simpl. lia. }
  split; [done|]. split; [by intros r (? & _ & _)%Hin|]. intros b' p. rewrite Hf.
  assert (covered (isort pair_le (occupied_of d event_id (bk_id b))) p ↔
    ∃ i h, d_holds d !! i = Some h ∧ hd_event h = event_id ∧ hd_block h = bk_id b ∧
           hd_start h <= p < hd_start h + hd_len h) as ->.
  { unfold covered, occupied_of. setoid_rewrite elem_of_isort.
    setoid_rewrite list_elem_of_fmap. setoid_rewrite list_elem_of_filter.
    setoid_rewrite elem_of_values. split.
    - intros (x & (h & -> & ([? ?] & (k & ?))) & ?). eauto 10.
    - intros (k & h & ? & ? & ? & ?). eexists. split; [by eauto 10|done]. }
  unfold db_free. split.
  - intros (-> & ? & Hn). split; [done|]. exists b. split_and!; [done..|lia|lia|].
    intros i h Hi He Hbk Hp. apply Hn. eauto 10.
  - intros (-> & blk & Hblk & _ & ? & Hn). simplify_eq. split_and!; [done|lia|lia|].
    intros (i & h & ? & ? & ? & ?). by eapply Hn.
Qed.

Lemma zone_blocks_nodup d zone_id event_id :
  blocks_ok d event_id → NoDup (zone_blocks d zone_id).
Proof.
  intros Hok. unfold zone_blocks. apply NoDup_filter.
  assert (Forall (λ kv, bk_id kv.2 = kv.1) (map_to_list (d_blocks d))) as Hf.
  { apply Forall_forall. intros [k b] Hin%elem_of_map_to_list. by eapply bo_ids. }
  pose proof (NoDup_fst_map_to_list (d_blocks d)) as Hn.
  induction (map_to_list (d_blocks d)) as [|[k b] l IH]; simpl in *; [constructor|].
  apply NoDup_cons in Hn as [Hk Hn]. inversion_clear Hf as [|? ? Hb Hf'].
  apply NoDup_cons. split; [|by apply IH]. intros Hin. apply Hk. simpl in Hb.
  apply list_elem_of_fmap in Hin as ([k' b'] & -> & Hin). apply list_elem_of_fmap.
  exists (k', b'). split; [|done]. simpl in *. rewrite Forall_forall in Hf'.
  specialize (Hf' _ Hin). simpl in Hf'. congruence.
Qed.

Lemma zone_runs_spec d event_id zone_id :
  blocks_ok d event_id →
  let runs := zone_blocks d zone_id ≫= block_runs d event_id in
  wf_runs runs ∧ ∀ b p, free runs b p ↔ db_free d event_id zone_id b p.
Proof.
  intros Hok runs.
  assert (Hb : ∀ b, b ∈ zone_blocks d zone_id →
    wf_runs (block_runs d event_id b) ∧
    (∀ r, r ∈ block_runs d event_id b → run_block r = bk_id b) ∧
    (∀ b' p, free (block_runs d event_id b) b' p ↔
             b' = bk_id b ∧ db_free d event_id zone_id b' p)).
  { intros b (Hd & <-)%(elem_of_zone_blocks _ event_id); [|done]. by apply block_runs_spec. }
  split; [split|].
  - apply NoDup_bind; [|intros b Hin; apply (Hb b Hin)|by eapply zone_blocks_nodup].
    intros b1 b2 r H1 H2 Hr1 Hr2. destruct (Hb b1 H1) as (_ & Hi1 & _).
    destruct (Hb b2 H2) as (_ & Hi2 & _).
    apply (elem_of_zone_blocks _ event_id) in H1 as [H1 _]; [|done].
    apply (elem_of_zone_blocks _ event_id) in H2 as [H2 _]; [|done].
    rewrite <-(Hi1 r Hr1), (Hi2 r Hr2) in H1. congruence.
  - intros r (b & Hr & Hin)%list_elem_of_bind. destruct (Hb b Hin) as (Hw & _).
    by apply (wf_pos _ Hw).
  - intros r1 r2 (b1 & Hr1 & H1)%list_elem_of_bind (b2 & Hr2 & H2)%list_elem_of_bind Hne Heq.
    destruct (Hb b1 H1) as (Hw & Hi1 & _). destruct (Hb b2 H2) as (_ & Hi2 & _).
    assert (b1 = b2) as <-; [|by apply (wf_apart _ Hw)].
    apply (elem_of_zone_blocks _ event_id) in H1 as [H1 _]; [|done].
    apply (elem_of_zone_blocks _ event_id) in H2 as [H2 _]; [|done].
    rewrite <-(Hi1 r1 Hr1), Heq, (Hi2 r2 Hr2) in H1. congruence.
  - intros b p. split.
    + intros (r & (blk & Hr & Hin)%list_elem_of_bind & Hp). destruct (Hb blk Hin) as (_ & _ & Hf).
      apply (Hf b p). by exists r.
    + intros Hfree. pose proof Hfree as (blk & Hd & Hz & _).
      assert (bk_id blk = b) as Hid by by eapply bo_ids.
      assert (blk ∈ zone_blocks d zone_id) as Hin.
      { apply (elem_of_zone_blocks _ event_id); [done|]. by rewrite Hid. }
      destruct (Hb blk Hin) as (_ & _ & Hf).
      destruct (proj2 (Hf b p)) as (r & Hr & Hp); [done|]. exists r. split; [|done].
      apply list_elem_of_bind. by exists blk.
Qed.

Lemma runs_map_lookup runs b s l :
  wf_runs runs → runs_map runs !! (b, s) = Some l ↔ mk_run b s l ∈ runs.
Proof.
  intros Hw. unfold runs_map. rewrite <-elem_of_list_to_map.
  - rewrite list_elem_of_fmap. split.
    + intros (r & [= -> -> ->] & Hr). by destruct r.
    + intros Hr. by exists (mk_run b s l).
  - rewrite <-list_fmap_compose. apply NoDup_fmap_2_strong; [|apply Hw].
    intros r1 r2 H1 H2 [= Hb Hs]. pose proof (wf_pos _ Hw _ H1). pose proof (wf_pos _ Hw _ H2).
    apply (wf_run_unique runs r1 r2 (run_block r1) (run_start r1)); try done;
      (split; [done|]); unfold run_end; lia.
Qed.

Lemma ends_map_lookup runs b e s :
  wf_runs runs → ends_map runs !! (b, e) = Some s ↔ mk_run b s (e - s) ∈ runs.
Proof.
  intros Hw. unfold ends_map. rewrite <-elem_of_list_to_map.
  - rewrite list_elem_of_fmap. split.
    + intros (r & [= -> -> ->] & Hr). destruct r as [b' s' l']. unfold run_end; simpl in *.
      by replace (s' + l' - s') with l' by lia.
    + intros Hr. exists (mk_run b s (e - s)). unfold run_end; simpl.
      split; [|done]. repeat f_equal. lia.
  - rewrite <-list_fmap_compose. apply NoDup_fmap_2_strong; [|apply Hw].
    intros r1 r2 H1 H2 [= Hb He]. pose proof (wf_pos _ Hw _ H1). pose proof (wf_pos _ Hw _ H2).
    apply (wf_run_unique runs r1 r2 (run_block r1) (run_end r1 - 1)); try done;
      (split; [done|]); unfold run_end in *; lia.
Qed.

Lemma runs_map_perm runs : wf_runs runs → runs_of (runs_map runs) ≡ₚ runs.
Proof.
  intros Hw. apply NoDup_Permutation; [|apply Hw|].
  - unfold runs_of. apply (NoDup_fmap_2_strong _); [|apply NoDup_map_to_list].
    intros [[? ?] ?] [[? ?] ?] _ _ [=]. by subst.
  - intros [b s l]. rewrite elem_of_runs_of. simpl. by apply runs_map_lookup.
Qed.

Lemma rebuilt_zone_wf runs : wf_runs runs → zone_wf (runs_map runs, ends_map runs).
Proof.
  intros Hw. split; simpl.
  - eapply wf_runs_perm; [symmetry; by apply runs_map_perm|done].
  - intros b e s. by rewrite ends_map_lookup, runs_map_lookup.
Qed.

Lemma hash_insert_eq `{Countable K, Countable F} {V} (h : gmap K (gmap F V)) k m :
  hash (<[k := m]> h) k = m.
Proof. unfold hash. by rewrite lookup_insert_eq. Qed.
Lemma hash_insert_ne `{Countable K, Countable F} {V} (h : gmap K (gmap F V)) k k' m :
  k ≠ k' → hash (<[k := m]> h) k' = hash h k'.
Proof. intros. unfold hash. by rewrite lookup_insert_ne. Qed.

(** What a rebuild does, whatever it returned. *)
Lemma rebuild_zone_cases d event_id zone_id force r :
  blocks_ok d event_id →
  let zk := (event_id, zone_id) in
  let '(res, r') := rebuild_zone_runs d event_id zone_id force r in
  (∀ zk', zk' ≠ zk → zone_maps r' zk' = zone_maps r zk') ∧
  match res with
  | Err e => r' = r ∧ force = false ∧ xlen (r_stream r) ≠ 0 ∧
      e = Domain (InventoryNotReconcilable event_id (xlen (r_stream r)) (xlen (r_dead r)))
  | Ok n =>
      (force = true ∨ xlen (r_stream r) = 0) ∧
      (zone_blocks d zone_id = [] ∧ r' = r ∧ n = 0 ∨
       zone_wf (zone_maps r' zk) ∧
       n = seats_in (zone_maps r' zk).1 ∧ r_zone_available r' !! zk = Some n ∧
       ∀ b p, zone_free r' zk b p ↔ db_free d event_id zone_id b p)
  end.
Proof.
  intros Hok. cbn zeta. unfold rebuild_zone_runs, queue_depth.
  destruct (negb force && negb (xlen (r_stream r) =? 0)) eqn:Hg.
  { split; [done|]. zbool. destruct force; [by destruct Hg|]. by destruct Hg. }
  assert (force = true ∨ xlen (r_stream r) = 0) as Hguard.
  { destruct force; [by left|right]. simpl in Hg. zlia. }
  destruct (zone_runs_spec d event_id zone_id Hok) as [Hw Hf].
  destruct (zone_blocks d zone_id) as [|b0 bs] eqn:Hbs.
  { split; [done|]. split; [done|]. by left. }
  rewrite <-Hbs in *. set (runs := zone_blocks d zone_id ≫= block_runs d event_id) in *.
  split.
  { intros zk' Hne. unfold zone_maps; simpl. by rewrite !hash_insert_ne. }
  split; [done|]. right. unfold zone_free, zone_maps; simpl.
  rewrite !hash_insert_eq. pose proof (runs_map_perm runs Hw) as Hp.
  split; [by apply rebuilt_zone_wf|]. split; [|split].
  - unfold seats_in. simpl. symmetry. by apply list_sum_perm.
  - by rewrite lookup_insert_eq.
  - intros b p. by rewrite (free_perm _ _ b p Hp).
Qed.

(** C10 (the rebuild restores the seat map from the database).  While intents are
    in flight and without [force] it refuses and changes nothing; a zone without
    blocks is left alone; otherwise the rebuilt zone is well formed with an exact
    counter, its free seats are exactly those no hold of the event covers, and no
    other zone changes: whatever Redis held before, overlaps included. *)
Theorem rebuild_is_complement_of_holds d event_id zone_id force r :
  blocks_ok d event_id →
  let zk := (event_id, zone_id) in
  let '(res, r') := rebuild_zone_runs d event_id zone_id force r in
  (∀ zk', zk' ≠ zk → zone_maps r' zk' = zone_maps r zk') ∧
  match res with
  | Err e => r' = r ∧ force = false ∧ xlen (r_stream r) ≠ 0 ∧
      e = Domain (InventoryNotReconcilable event_id (xlen (r_stream r)) (xlen (r_dead r)))
  | Ok n =>
      (force = true ∨ xlen (r_stream r) = 0) ∧
      (zone_blocks d zone_id = [] ∧ r' = r ∧ n = 0 ∨
       zone_wf (zone_maps r' zk) ∧
       n = seats_in (zone_maps r' zk).1 ∧ r_zone_available r' !! zk = Some n ∧
       ∀ b p, zone_free r' zk b p ↔ db_free d event_id zone_id b p)
  end.
Proof. apply rebuild_zone_cases. Qed.

(** ** The reservation loop *)

Lemma anchor_in_run runs q geometry p anchors pick :
  legal_anchors runs q geometry p = Ok anchors → pick ∈ anchors →
  pl_len pick = q ∧ 1 <= q ∧ ∃ run, run ∈ runs ∧ contains run pick = true.
Proof.
  unfold legal_anchors. destruct (all_candidates runs q geometry p) as [cs|] eqn:Hcs; [|done].
  simpl. intros [= <-] Hin%elem_of_isort.
  apply (elem_of_all_candidates _ _ _ _ _ _ Hcs) in Hin as (run & geo & Hr & _ & Hc).
  apply candidates_cut in Hc as (o & -> & Hq & Ho & Hoq & _).
  split; [done|]. split; [done|]. exists run. split; [done|].
  apply contains_spec. simpl. unfold run_end. lia.
Qed.

Lemma host_of_ok runs pick :
  (∃ run, run ∈ runs ∧ contains run pick = true) →
  ∃ host, host_of runs pick = Ok host ∧ host ∈ runs ∧ contains host pick = true.
Proof.
  intros (run & Hr & Hc). unfold host_of.
  assert (run ∈ filter (λ run, contains run pick = true) runs) as Hf
    by by apply list_elem_of_filter.
  destruct (filter _ runs) as [|host l] eqn:Hl; [by apply elem_of_nil in Hf|].
  exists host. split; [done|].
  assert (host ∈ filter (λ run, contains run pick = true) runs) as Hh by (rewrite Hl; left).
  apply list_elem_of_filter in Hh as [? ?]. done.
Qed.

(** A claim whose window lies in the run it names is never out of bounds. *)
Lemma claim_in_host_not_bounds a r r' :
  ca_run_start a <= ca_start a →
  ca_start a + ca_len a <= ca_run_start a + ca_run_len a →
  claim_seats_lua a r ≠ (CBounds, r').
Proof.
  intros H1 H2 H. unfold claim_seats_lua in H. case_hyp H; try done.
  zbool. lia.
Qed.

Section reserve_facts.
Context (settings : Settings) (randrange : Z → Z → Z) (others : Z → Redis → Redis).
Context (event_id zone_id user_id quantity price : Z) (idem : string).
Context (ttl top_k max_per_user : Z) (trace traceparent : string).
Hypothesis randrange_in : ∀ k n, 0 < n → 0 <= randrange k n < n.
Hypothesis top_k_pos : 0 < top_k.

(* a preorder the other clients' steps respect and the strict-miss bookkeeping
   is invisible to: what the loop does before its claim stays within it *)
Context (R : Redis → Redis → Prop) `{!PreOrder R}.
Hypothesis R_others : ∀ k r, R r (others k r).
Hypothesis R_misses : ∀ r m x, R r (set_misses m (set_relaxed x r)).

#[local] Abbreviation loop := (reserve_loop settings randrange others event_id zone_id user_id
  quantity price idem ttl top_k max_per_user trace traceparent).

(** The errors the loop may not raise: each would be a defect of its own. *)
Definition own_defect (e : exn) : Prop :=
  e = IndexError ∨ e = RuntimeError ∨
  ∃ b s l, e = Domain (SeatPlacementOutOfRun event_id zone_id b s l).

(** A success is one accepted claim, on whatever state the others left. *)
Definition reserved_by_claim (r : Redis) (res : SeatReservation) (r' : Redis) : Prop :=
  ∃ a r1 i n r2, R r r1 ∧ claim_seats_lua a r1 = (COk i n, r2) ∧
    ca_event a = event_id ∧ ca_zone a = zone_id ∧ ca_user a = user_id ∧ ca_idem a = idem ∧
    ca_limit a = max_per_user ∧ ca_len a = quantity ∧ ca_price a = price ∧
    res = mk_reservation (ca_block a) (ca_start a) quantity i n ∧
    r_runs r' = r_runs r2 ∧ r_ends r' = r_ends r2 ∧
    r_zone_available r' = r_zone_available r2 ∧ r_available r' = r_available r2 ∧
    r_purchased r' = r_purchased r2 ∧ r_stream r' = r_stream r2.

(** What an outcome of the loop may be. *)
Definition outcome_ok (r : Redis) (out : result exn (option SeatReservation) * Redis) : Prop :=
  match out with
  | (Ok (Some res), r') => reserved_by_claim r res r'
  | (Ok None, r') => R r r' ∧ claim_exists r' idem = true
  | (Err e, r') => R r r' ∧ ¬ own_defect e
  end.

Lemma outcome_ok_trans r r1 out : R r r1 → outcome_ok r1 out → outcome_ok r out.
Proof using PreOrder0.
  intros H. destruct out as [[[res|]|e] r']; simpl.
  - intros (a & r2 & i & n & r3 & Hr & Hc). exists a, r2, i, n, r3. split; [by etrans|done].
  - intros [? ?]. split; [by etrans|done].
  - intros [? ?]. split; [by etrans|done].
Qed.

Lemma benign e r : ¬ own_defect e → outcome_ok r (Err e, r).
Proof using PreOrder0. intros H. split; [reflexivity|done]. Qed.

Lemma pick_ok k (anchors : list Placement) :
  anchors ≠ [] →
  ∃ pick, anchors !! Z.to_nat (randrange k (Z.min top_k (Z.of_nat (length anchors)))) = Some pick
          ∧ pick ∈ anchors.
Proof using randrange_in top_k_pos.
  intros Hne. set (n := Z.min top_k (Z.of_nat (length anchors))).
  assert (0 < n ∧ n <= Z.of_nat (length anchors)) as [Hn Hle].
  { unfold n. destruct anchors; [done|simpl length]. lia. }
  pose proof (randrange_in k n Hn) as Hr.
  destruct (lookup_lt_is_Some_2 anchors (Z.to_nat (randrange k n))) as [pick Hp]; [lia|].
  exists pick. split; [done|]. by eapply list_elem_of_lookup_2.
Qed.

Lemma feasible_not_defect runs geometry ns p e :
  feasible_from ns runs geometry p = Err e → e = KeyError.
Proof using.
  assert (Hany : ∀ n rs e, any_candidate rs n geometry p = Err e → e = KeyError).
  { intros n rs. induction rs as [|r rs IH]; intros e' H; simpl in H; [done|].
    unfold geometry_at in H. destruct (geometry !! _); simpl in H; [|by simplify_eq].
    destruct (candidates _ _ _ _); [by apply IH|done]. }
  revert e. induction ns as [|n ns IH]; intros e' H; simpl in H; [done|].
  destruct (any_candidate runs n geometry p) eqn:Hn; simpl in H; [|simplify_eq; by eapply Hany].
  destruct (feasible_from ns runs geometry p); simpl in H; [done|]. simplify_eq. by apply IH.
Qed.

Lemma anchors_error runs q geometry p e :
  legal_anchors runs q geometry p = Err e → e = KeyError.
Proof using.
  unfold legal_anchors. intros H.
  destruct (all_candidates runs q geometry p) as [|e'] eqn:Hc; simplify_eq/=.
  revert e Hc. induction runs as [|r runs IH]; intros e Hc; simpl in Hc; [done|].
  unfold geometry_at in Hc. destruct (geometry !! _); simpl in Hc; [|by simplify_eq].
  destruct (all_candidates runs q geometry p); simpl in Hc; [done|]. simplify_eq. by apply IH.
Qed.

Lemma parse_error runs geom e : parse_state runs geom = Err e → e = ValueError.
Proof using.
  unfold parse_state. intros H.
  destruct (parse_geometry (map_to_list geom) ∅) as [|e'] eqn:Hp; simplify_eq/=.
  revert Hp. generalize (∅ : gmap Z BlockGeometry).
  induction (map_to_list geom) as [|[b [[c q1] q2]] l IH]; intros acc Hp; simpl in Hp; [done|].
  destruct (calibrated b c q1 q2) as [g|e'] eqn:Hc; simpl in Hp; [by eapply IH|].
  simplify_eq. unfold calibrated, geometry_init in Hc. case_hyp Hc; by simplify_eq.
Qed.

(** The call a chosen anchor leads to. *)
Definition claim_of (pick : Placement) (host : Run) : claim_args :=
  claim_call event_id zone_id user_id price idem ttl max_per_user trace traceparent pick host.

Lemma reserved_ok pick host r1 i n r2 :
  pl_len pick = quantity → claim_seats_lua (claim_of pick host) r1 = (COk i n, r2) →
  outcome_ok r1 (reserved event_id zone_id pick i n r2).
Proof using PreOrder0.
  intros Hq Hc. unfold reserved, bind, modify, ret, poke.
  destruct (n =? 0); simpl; exists (claim_of pick host), r1, i, n, r2; simpl;
    rewrite ?Hq; (split; [reflexivity|]); done.
Qed.

Lemma dup_claimed a r r' : claim_seats_lua a r = (CDup, r') → claim_exists r' (ca_idem a) = true.
Proof using. unfold claim_seats_lua. intros H. case_hyp H; by simplify_eq. Qed.

Lemma no_seats_ok state p r :
  outcome_ok r (no_seats settings event_id zone_id quantity state p r).
Proof using PreOrder0.
  unfold no_seats, bind, lift, raise. destruct (feasible settings state p) as [f|e] eqn:Hf; simpl.
  - apply benign. by intros [?|[?|(? & ? & ? & ?)]].
  - unfold feasible, feasible_quantities in Hf. apply feasible_not_defect in Hf as ->.
    apply benign. by intros [?|[?|(? & ? & ? & ?)]].
Qed.

Lemma loop_outcome fuel attempt relaxed effective r :
  outcome_ok r (loop fuel attempt relaxed effective r).
Proof using All.
  assert (Hdone : ∀ e r, e = KeyError ∨ e = ValueError ∨
    (∃ v, e = Domain v ∧ ∀ ev z b s l, v ≠ SeatPlacementOutOfRun ev z b s l) →
    outcome_ok r (Err e, r)).
  { intros e r0 He. apply benign.
    destruct He as [->|[->|(v & -> & Hv)]]; intros [?|[?|(b & s & l & ?)]]; try done.
    simplify_eq. by eapply Hv. }
  revert attempt relaxed effective r.
  induction fuel as [|fuel IH]; intros attempt relaxed effective r; [apply Hdone; eauto 6|].
  cbn [reserve_loop]. unfold read_zone_state, bind at 1 2, gets, lift at 1. simpl.
  destruct (parse_state _ _) as [state|e] eqn:Hps; [|apply parse_error in Hps; by apply Hdone; auto].
  unfold bind at 1, lift at 1.
  destruct (legal_anchors _ _ _ _) as [anchors|e] eqn:Hl;
    [|apply anchors_error in Hl; by apply Hdone; auto].
  destruct anchors as [|p0 ps] eqn:Ha.
  - destruct (zs_remaining state <? quantity); [by apply Hdone; eauto 6|].
    destruct relaxed; [apply no_seats_ok|].
    unfold bind, record_strict_miss. destruct (_ <? STRICT_MISS_THRESHOLD).
    + eapply (λ m, outcome_ok_trans _ _ _ (R_misses r m (r_relaxed r))). apply no_seats_ok.
    + eapply (λ m x, outcome_ok_trans _ _ _ (R_misses r m x)). apply IH.
  - rewrite <-Ha in *. destruct (pick_ok attempt anchors) as (pick & Hpick & Hin);
      [by rewrite Ha|].
    rewrite Hpick. unfold bind at 1, lift at 1.
    destruct (anchor_in_run _ _ _ _ _ _ Hl Hin) as (Hq & Hq1 & Hrun).
    destruct (host_of_ok _ _ Hrun) as (host & -> & _ & Hcont).
    unfold bind at 1, lift at 1. unfold bind at 1, modify at 1. unfold bind at 1.
    fold (claim_of pick host). eapply outcome_ok_trans; [apply (R_others attempt)|].
    destruct (claim_seats_lua (claim_of pick host) (others attempt r)) as [res r'] eqn:Hc.
    pose proof (claim_rejected _ _ _ _ Hc) as Hrej.
    apply contains_spec in Hcont as (_ & Hs & He). unfold run_end in He.
    destruct res as [| | | |i n].
    + rewrite Hrej in *. split; [reflexivity|]. by apply dup_claimed in Hc.
    + rewrite Hrej. by apply Hdone; eauto 6.
    + rewrite Hrej. apply IH.
    + exfalso. by apply (claim_in_host_not_bounds (claim_of pick host) (others attempt r) r').
    + by eapply reserved_ok.
Qed.
End reserve_facts.

(** The reservation loop ends in one accepted claim or an explained refusal.
    Whatever the other clients do between each snapshot and its script,
    [reserve_seats_and_enqueue] stops after at most five attempts; it never
    raises the allocator-bug, index or iteration errors; [None] means the
    idempotency key is claimed; and a reservation is exactly one accepted claim
    of the requested length, price, user and key, on the state it met.  A refusal
    does nothing of its own but the strict-miss bookkeeping: any preorder [R] that
    ignores it and that the others' steps respect relates the state before to the
    state after, and to the one an accepted claim met. *)
Theorem reserve_outcomes settings randrange others event_id zone_id user_id quantity price idem
    ttl top_k max_per_user trace traceparent (R : Redis → Redis → Prop) p r :
  (∀ k n, 0 < n → 0 <= randrange k n < n) → 0 < top_k →
  PreOrder R → (∀ k r, R r (others k r)) → (∀ r m x, R r (set_misses m (set_relaxed x r))) →
  outcome_ok event_id zone_id user_id quantity price idem max_per_user R r
    (reserve_seats_and_enqueue settings randrange others event_id zone_id user_id quantity price
       idem ttl top_k max_per_user trace traceparent p r).
Proof.
  intros Hr Hk HR Ho Hm. unfold reserve_seats_and_enqueue, bind, is_relaxed, gets.
  by apply loop_outcome.
Qed.

(** A claim is refused before the swap only for a known reason, so with the
    others quiet the first attempt is the last one. *)
Lemma claim_on_snapshot a r :
  claim_exists r (ca_idem a) = false →
  default 0 (hget (r_purchased r) (ca_event a) (ca_user a)) + ca_len a <= ca_limit a →
  (zone_maps r (ca_event a, ca_zone a)).1 !! (ca_block a, ca_run_start a) = Some (ca_run_len a) →
  ca_run_start a <= ca_start a →
  ca_start a + ca_len a <= ca_run_start a + ca_run_len a →
  ∃ i n r', claim_seats_lua a r = (COk i n, r').
Proof.
  intros Hc Hq Hr Hs He. unfold claim_seats_lua. rewrite Hc.
  destruct (ca_limit a <? _) eqn:?; [zlia|]. unfold hget. simpl in Hr. rewrite Hr.
  rewrite Z.eqb_refl. simpl.
  destruct ((ca_start a <? ca_run_start a) || _) eqn:?; [zlia|].
  by do 3 eexists.
Qed.

(** An uncontended reservation succeeds whenever one is legal.  When nobody
    interferes, the key is fresh, the quota allows the quantity and the zone has
    a legal anchor for it under the policy in force, the reservation is made, at
    the first attempt and for the quantity asked. *)
Theorem uncontended_reservation_succeeds settings randrange event_id zone_id user_id quantity
    price idem ttl top_k max_per_user trace traceparent p r state anchors :
  (∀ k n, 0 < n → 0 <= randrange k n < n) → 0 < top_k →
  let policy := if bool_decide ((event_id, zone_id) ∈ r_relaxed r) then ENDGAME_POLICY else p in
  parse_state (hash (r_runs r) (event_id, zone_id)) (hash (r_geom r) (event_id, zone_id))
    = Ok state →
  legal_anchors (zs_runs state) quantity (zs_geometry state) policy = Ok anchors →
  anchors ≠ [] →
  claim_exists r idem = false →
  default 0 (hget (r_purchased r) event_id user_id) + quantity <= max_per_user →
  ∃ res r', reserve_seats_and_enqueue settings randrange (λ _ r, r) event_id zone_id user_id
              quantity price idem ttl top_k max_per_user trace traceparent p r
            = (Ok (Some res), r') ∧ sr_len res = quantity.
Proof.
  intros Hrand Hk policy Hps Hl Hne Hc Hq.
  unfold reserve_seats_and_enqueue, bind, is_relaxed, gets. fold policy.
  change (Z.to_nat MAX_CAS_ATTEMPTS) with 5%nat. cbn [reserve_loop].
  unfold read_zone_state, bind at 1 2, gets, lift at 1. simpl. rewrite Hps.
  unfold bind at 1, lift at 1. rewrite Hl.
  destruct (pick_ok randrange top_k Hrand Hk 1 anchors Hne) as (pick & Hpick & Hin).
  destruct anchors as [|p0 ps] eqn:Ha; [done|]. rewrite <-Ha in *.
  rewrite Hpick. unfold bind at 1, lift at 1.
  destruct (anchor_in_run _ _ _ _ _ _ Hl Hin) as (Hlen & Hq1 & Hrun).
  destruct (host_of_ok _ _ Hrun) as (host & -> & Hhost & Hcont).
  unfold bind at 1, lift at 1. unfold bind at 1, modify at 1. unfold bind at 1.
  apply contains_spec in Hcont as (Hb & Hs & He). unfold run_end in He.
  edestruct (claim_on_snapshot (claim_call event_id zone_id user_id price idem ttl max_per_user
    trace traceparent pick host) r) as (i & n & r' & ->); simpl; [done|by rewrite Hlen| |done|done|].
  - unfold parse_state in Hps. destruct (parse_geometry _ _); simplify_eq/=.
    apply elem_of_runs_of in Hhost. by rewrite <-Hb.
  - unfold reserved, bind, modify, ret. destruct (n =? 0); simpl; eauto.
Qed.

(** ** No seat is sold twice *)

Record window : Type := mk_window {
  w_zone : Z * Z; w_block : Z; w_start : Z; w_len : Z;
}.
Definition covers (zk : Z * Z) (b p : Z) (w : window) : Prop :=
  w_zone w = zk ∧ w_block w = b ∧ w_start w <= p < w_start w + w_len w.
#[global] Instance covers_dec zk b p w : Decision (covers zk b p w).
Proof. unfold covers. apply _. Defined.

(** The sold windows a seat lies in. *)
Definition owners (sold : list window) (zk : Z * Z) (b p : Z) : list window :=
  filter (covers zk b p) sold.

Definition claim_window (a : claim_args) : window :=
  mk_window (ca_event a, ca_zone a) (ca_block a) (ca_start a) (ca_len a).
Definition release_window (a : release_args) : window :=
  mk_window (ra_event a, ra_zone a) (ra_block a) (ra_start a) (ra_len a).

(** One step of the shop: any client's claim, with arguments computed from any
    snapshot; the release of a window sold before, at most refused; anything
    that leaves the seat maps alone (time, queues, counters of other keys). *)
Inductive shop_step : Redis * list window → Redis * list window → Prop :=
  | step_claim a r r' res sold :
      1 <= ca_len a → claim_seats_lua a r = (res, r') →
      shop_step (r, sold)
        (r', match res with COk _ _ => claim_window a :: sold | _ => sold end)
  | step_release a r r' res sold1 sold2 :
      1 <= ra_len a → release_seats_lua a r = (res, r') →
      shop_step (r, sold1 ++ release_window a :: sold2)
        (r', match res with
             | ROk _ _ _ => sold1 ++ sold2
             | _ => sold1 ++ release_window a :: sold2
             end)
  | step_other r r' sold :
      (∀ zk, zone_maps r' zk = zone_maps r zk) → r_zone_available r' = r_zone_available r →
      shop_step (r, sold) (r', sold).

(** Each seat free at the start is free and unsold, or taken and sold once; each
    seat taken at the start stays taken and unsold. *)
Definition seat_account (r0 : Redis) (s : Redis * list window) : Prop :=
  ∀ zk b p,
    (zone_free r0 zk b p →
       zone_free s.1 zk b p ∧ owners s.2 zk b p = [] ∨
       ¬ zone_free s.1 zk b p ∧ ∃ w, owners s.2 zk b p = [w]) ∧
    (¬ zone_free r0 zk b p → ¬ zone_free s.1 zk b p ∧ owners s.2 zk b p = []).

Lemma owners_cons w sold zk b p :
  owners (w :: sold) zk b p =
  if decide (covers zk b p w) then w :: owners sold zk b p else owners sold zk b p.
Proof. done. Qed.

Lemma owners_app s1 s2 zk b p : owners (s1 ++ s2) zk b p = owners s1 zk b p ++ owners s2 zk b p.
Proof. apply filter_app. Qed.

Lemma shop_step_account r0 s s' :
  seats_inv s.1 → seat_account r0 s → shop_step s s' →
  seats_inv s'.1 ∧ seat_account r0 s'.
Proof.
  intros Hinv Hacc Hstep. destruct Hstep as [a r r' res sold Hlen Hc|a r r' res s1 s2 Hlen Hc|
    r r' sold Hz Hn]; cbn [fst snd] in *.
  - pose proof (claim_rejected _ _ _ _ Hc) as Hrej.
    destruct res as [| | | |i n]; try (subst; by split).
    apply claim_accepted in Hc.
    destruct (claim_effect_seats _ _ _ _ _ Hinv Hlen Hc) as [Hinv' Hf]. split; [done|].
    intros zk b p. destruct (Hacc zk b p) as [H1 H2]. cbn [fst snd] in *.
    rewrite owners_cons, Hf. unfold covers; simpl.
    destruct (decide _) as [(<- & <- & Hp)|Hn].
    + assert (zone_free r (ca_event a, ca_zone a) (ca_block a) p) as Hfree.
      { destruct Hc as [_ _ Hrun [Hs He] _ _ _ _ _ _ _ _ _ _ _].
        exists (mk_run (ca_block a) (ca_run_start a) (ca_run_len a)).
        split; [by apply elem_of_runs_of|]. split; [done|unfold run_end; simpl; lia]. }
      split.
      * intros H0. right. destruct (H1 H0) as [[_ ->]|[? _]]; [|done].
        split; [intros [_ Hx]; by apply Hx|by eexists].
      * intros H0. by destruct (H2 H0).
    + assert (¬ (zk = (ca_event a, ca_zone a) ∧ b = ca_block a ∧
                 ca_start a <= p < ca_start a + ca_len a)) by (intros (-> & -> & ?); by apply Hn).
      tauto.
  - pose proof (release_rejected _ _ _ _ Hc) as Hrej. cbn zeta in Hrej.
    destruct res as [|s l|c|lo n rem];
      [destruct Hrej as [-> _]; by split|destruct Hrej as (-> & _); by split..|].
    apply release_accepted in Hc.
    destruct (release_effect_seats _ _ _ _ Hinv Hlen Hc) as [Hinv' Hf]. split; [done|].
    intros zk b p. destruct (Hacc zk b p) as [H1 H2]. cbn [fst snd] in *.
    rewrite owners_app, owners_cons in H1, H2. rewrite owners_app, Hf.
    unfold covers in H1, H2; simpl in H1, H2.
    destruct (decide _) as [(<- & <- & Hp)|Hn].
    + assert (∀ w, owners s1 (ra_event a, ra_zone a) (ra_block a) p ++
        release_window a :: owners s2 (ra_event a, ra_zone a) (ra_block a) p = [w] →
        owners s1 (ra_event a, ra_zone a) (ra_block a) p ++
        owners s2 (ra_event a, ra_zone a) (ra_block a) p = []) as Hone.
      { intros w Hw. destruct (owners s1 _ _ p) as [|x l]; simpl in *;
          [by injection Hw|]. injection Hw as _ Hw. by apply app_eq_nil in Hw as [_ ?]. }
      split.
      * intros H0. left. destruct (H1 H0) as [[_ Hx]|[_ [w Hw]]];
          [by apply app_eq_nil in Hx as [_ ?]|]. split; [by right|by eapply Hone].
      * intros H0. destruct (H2 H0) as [_ Hx]. by apply app_eq_nil in Hx as [_ ?].
    + assert (¬ (zk = (ra_event a, ra_zone a) ∧ b = ra_block a ∧
                 ra_start a <= p < ra_start a + ra_len a)) by (intros (-> & -> & ?); by apply Hn).
      tauto.
  - split; [split|].
    + intros zk. rewrite Hz. apply Hinv.
    + intros zk. rewrite Hz, Hn. apply Hinv.
    + intros zk b p. unfold zone_free. cbn [fst snd]. rewrite Hz. apply Hacc.
Qed.

(** C1 (no seat is ever sold twice).  From a well-formed seat map with nothing
    sold, after any interleaving of claims from arbitrary snapshots, releases of
    sold windows and unrelated changes, every seat that was free is either free
    and in no sold window, or taken and in exactly one; seats that were taken at
    the start are never sold; and the map is still well formed. *)
Theorem no_seat_sold_twice r0 r sold :
  seats_inv r0 → rtc shop_step (r0, []) (r, sold) →
  seats_inv r ∧ seat_account r0 (r, sold).
Proof.
  intros Hinv Hsteps.
  assert (∀ s, rtc shop_step (r0, []) s → seats_inv s.1 ∧ seat_account r0 s) as Hall.
  { apply rtc_ind_r.
    - split; [done|]. intros zk b p. simpl. tauto.
    - intros s s' _ Hstep [Hi Ha]. by apply (shop_step_account r0 s s'). }
  by apply (Hall (r, sold)).
Qed.

(** ** A sample zone *)

Lemma rebuild_seats_inv d event_id zone_id r n r' :
  seats_inv r → blocks_ok d event_id →
  rebuild_zone_runs d event_id zone_id true r = (Ok n, r') → seats_inv r'.
Proof.
  intros [Hw Hn] Hok. unfold rebuild_zone_runs. destruct (queue_depth r). cbn [negb andb].
  destruct (zone_runs_spec d event_id zone_id Hok) as [Hwf _].
  destruct (zone_blocks d zone_id) as [|b0 bs] eqn:Hbs; [by intros [= _ <-]|].
  rewrite <-Hbs in *. intros [= <- <-].
  set (runs := zone_blocks d zone_id ≫= block_runs d event_id) in *. split; intros zk;
    unfold zone_maps; simpl; (destruct (decide ((event_id, zone_id) = zk)) as [<-|Hne]).
  - rewrite !hash_insert_eq. by apply rebuilt_zone_wf.
  - rewrite !hash_insert_ne by done. apply Hw.
  - rewrite hash_insert_eq, lookup_insert_eq. simpl. unfold seats_in. symmetry.
    by apply list_sum_perm, runs_map_perm.
  - rewrite hash_insert_ne, lookup_insert_ne by done. apply Hn.
Qed.

Lemma empty_seats_inv : seats_inv empty_redis.
Proof.
  split; intros zk.
  - replace (zone_maps empty_redis zk) with (∅ : gmap (Z * Z) Z, ∅ : gmap (Z * Z) Z)
      by (unfold zone_maps, hash; simpl; by rewrite !lookup_empty).
    split; [apply wf_runs_nil|]. intros b e s. simpl. by rewrite !lookup_empty.
  - unfold zone_maps, hash. simpl. by rewrite !lookup_empty.
Qed.

(** One block of six seats, the middle two held. *)
Definition sample_db : DB :=
  set_holds {[9 := mk_hold 7 3 1 9 2 2 None]}
    (mk_db ∅ ∅ ∅ {[1 := mk_block 1 3 6 1 0]} ∅ ∅ ∅ 1 ∅ ∅ 1 ∅).
Definition sample_redis : Redis := (rebuild_zone_runs sample_db 7 3 true empty_redis).2.

Lemma sample_blocks_ok : blocks_ok sample_db 7.
Proof.
  split.
  - intros i b. simpl. by intros [<- <-]%lookup_singleton_Some.
  - intros i h b. simpl. intros [<- <-]%lookup_singleton_Some _. simpl.
    intros [_ <-]%lookup_singleton_Some. simpl. lia.
Defined.

Lemma sample_seats_inv : seats_inv sample_redis.
Proof.
  apply (rebuild_seats_inv sample_db 7 3 empty_redis 4); [apply empty_seats_inv|apply sample_blocks_ok|].
  by vm_compute.
Defined.

Lemma rebuild_is_complement_of_holds_witness :
  rebuild_zone_runs sample_db 7 3 true empty_redis = (Ok 4, sample_redis) ∧
  zone_wf (zone_maps sample_redis (7, 3)) ∧
  ∀ b p, zone_free sample_redis (7, 3) b p ↔ db_free sample_db 7 3 b p.
Proof.
  pose proof (rebuild_is_complement_of_holds sample_db 7 3 true empty_redis sample_blocks_ok) as H.
  cbn zeta in H.
  destruct (rebuild_zone_runs sample_db 7 3 true empty_redis) as [res r'] eqn:He.
  assert (res = Ok 4) as -> by (apply (f_equal fst) in He; vm_compute in He; by rewrite <-He).
  assert (r' = sample_redis) as -> by (unfold sample_redis; by rewrite He).
  destruct H as (_ & _ & [(Hb & _)|(Hw & _ & _ & Hf)]); [by vm_compute in Hb|]. done.
Defined.

(** Two seats at the left of the free run [0, 2). *)
Definition sample_claim : claim_args := mk_claim_args 7 3 "key" 1 0 2 0 2 60 5 100 4 "" "".
Definition sample_release : release_args := mk_release_args 7 3 "order:9" 1 2 2 60 5.

(** The release script takes a length of zero, and in a block whose geometry it does
    not know a negative start: it marks the release done and writes a run, where the
    pure [release] raises.  No caller sends either: lengths and starts are those of
    claims and holds. *)
Lemma script_accepts_what_release_refuses :
  let empty := mk_release_args 7 3 "order:8" 1 2 0 60 5 in
  let below := mk_release_args 7 3 "order:8" 9 (-2) 2 60 5 in
  (release_seats_lua empty sample_redis).1 = ROk 0 2 4 ∧
  release (runs_of (zone_maps sample_redis (7, 3)).1) 1 2 0 (Some 6) = Err ValueError ∧
  geom_capacity sample_redis (7, 3) 9 = None ∧
  (release_seats_lua below sample_redis).1 = ROk (-2) 2 6 ∧
  release (runs_of (zone_maps sample_redis (7, 3)).1) 9 (-2) 2 None = Err ValueError.
Proof. by vm_compute. Qed.

Lemma scripts_refine_oracle_witness :
  release (runs_of (zone_maps sample_redis (7, 3)).1) 1 2 2 (Some 6) = Ok [mk_run 1 0 6].
Proof.
  destruct (scripts_refine_oracle sample_redis (7, 3) sample_seats_inv) as (_ & _ & H).
  specialize (H sample_release eq_refl ltac:(by vm_compute) ltac:(by vm_compute) ltac:(by vm_compute)).
  destruct (release_seats_lua sample_release sample_redis) as [res r'] eqn:He.
  assert (res = ROk 0 6 6) as -> by (apply (f_equal fst) in He; vm_compute in He; by rewrite <-He).
  cbn beta iota zeta in H. etrans; [exact H|].
  assert (r' = (release_seats_lua sample_release sample_redis).2) as -> by (by rewrite He).
  by vm_compute.
Defined.

Lemma no_seat_sold_twice_witness :
  let s := ((claim_seats_lua sample_claim sample_redis).2, [claim_window sample_claim]) in
  seats_inv s.1 ∧ seat_account sample_redis s.
Proof.
  cbn zeta. apply no_seat_sold_twice; [apply sample_seats_inv|]. apply rtc_once.
  pose proof (step_claim sample_claim sample_redis
    (claim_seats_lua sample_claim sample_redis).2
    (claim_seats_lua sample_claim sample_redis).1 []) as H.
  replace (claim_seats_lua sample_claim sample_redis).1 with (COk (0, 1) 2) in H
    by by vm_compute.
  apply H; [done|]. etrans; [apply surjective_pairing|]. f_equal.
Defined.
