(* ===== verification/RateLimit.v ===== *)
(** The fixed-window rate limiter (src/app/services/rate_limit.py): one counter
    per key, incremented and given its expiry by one atomic script. *)

From Stdlib Require Import Ascii.
From S2P Require Import Prelude Text Exceptions Config Keys Uuid.

#[local] Open Scope string_scope.
#[local] Open Scope Z_scope.

(** A counter with its expiry in milliseconds; [None]: it never expires. *)
Abbreviation Limits := (gmap string (Z * option Z)).

Definition unexpired (now : Z) (e : option Z) : bool :=
  match e with Some t => now <? t | None => true end.

(** What GET sees of a key. *)
Definition counter (now : Z) (key : string) (m : Limits) : option (Z * option Z) :=
  match m !! key with
  | Some (n, e) => if unexpired now e then Some (n, e) else None
  | None => None
  end.

(** [TTL]: seconds, rounded; -2 without the key, -1 without an expiry. *)
Definition ttl (now : Z) (key : string) (m : Limits) : Z :=
  match counter now key m with
  | None => -2
  | Some (_, None) => -1
  | Some (_, Some t) => (t - now + 500) / 1000
  end.

(** [EXPIRE key seconds]: a key is deleted at once when the time is not positive. *)
Definition expire (now : Z) (key : string) (seconds : Z) (m : Limits) : Limits :=
  match counter now key m with
  | None => m
  | Some (n, _) =>
      if seconds <=? 0 then delete key m else <[key := (n, Some (now + seconds * 1000))]> m
  end.

(** [_HIT_LUA] *)
Definition hit_lua (now : Z) (key : string) (window_seconds : Z) (m : Limits)
    : (Z * Z) * Limits :=
  let '(n, e) := match counter now key m with Some (n, e) => (n + 1, e) | None => (1, None) end in
  let m := <[key := (n, e)]> m in
  let m := if n =? 1 then expire now key window_seconds m else m in
  ((n, ttl now key m), m).

(** [peek] *)
Definition peek (now : Z) (key : string) (m : Limits) : Z * Z :=
  (match counter now key m with Some (n, _) => n | None => 0 end, Z.max 0 (ttl now key m)).

(** [clear] *)
Definition clear (key : string) (m : Limits) : Limits := delete key m.

(** [enforce_rate_limit] *)
Definition enforce_rate_limit (s : Settings) (now : Z) (key : string) (limit window_seconds : Z)
    : M Limits exn unit := λ m,
  if negb (RATE_LIMIT_ENABLED s) then (Ok tt, m)
  else
    let '((count, ttl_left), m) := hit_lua now key window_seconds m in
    if limit <? count
    then (Err (Domain (RateLimited (Some (if 0 <? ttl_left then ttl_left else window_seconds)))), m)
    else (Ok tt, m).

(** ** Rate specifications *)

(** [\d+] and the [int] of what it matched. *)
Fixpoint take_digits (acc : Z) (l : list ascii) : Z * list ascii :=
  match l with
  | c :: l' =>
      if is_digit c
      then take_digits (acc * 10 + (Z.of_nat (Ascii.nat_of_ascii c) - 48)) l'
      else (acc, l)
  | [] => (acc, [])
  end.

Definition PERIODS : list (string * Z) :=
  [("second", 1); ("minute", 60); ("hour", 3600); ("day", 86400)].

Fixpoint strip_prefix (p l : list ascii) : option (list ascii) :=
  match p, l with
  | [], _ => Some l
  | c :: p', d :: l' => if bool_decide (c = d) then strip_prefix p' l' else None
  | _ :: _, [] => None
  end.

(** The alternative of the periods and the end of the pattern. *)
Fixpoint match_period (periods : list (string * Z)) (l : list ascii) : option Z :=
  match periods with
  | [] => None
  | (name, seconds) :: rest =>
      match strip_prefix (chars name) l with
      | Some l' => if bool_decide (skip_spaces l' = []) then Some seconds else match_period rest l
      | None => match_period rest l
      end
  end.

(** [parse_rate] *)
Definition parse_rate (spec : string) : result exn (Z * Z) :=
  match skip_spaces (chars spec) with
  | (c :: _) as l =>
      if is_digit c then
        let '(n, l) := take_digits 0 l in
        match skip_spaces l with
        | d :: l' =>
            if bool_decide (d = "/"%char)
            then match match_period PERIODS (skip_spaces l') with
                 | Some seconds => Ok (n, seconds)
                 | None => Err ValueError
                 end
            else Err ValueError
        | [] => Err ValueError
        end
      else Err ValueError
  | [] => Err ValueError
  end.

(** [enforce] *)
Definition enforce (s : Settings) (now : Z) (key rate : string) : M Limits exn unit :=
  let! r := lift (parse_rate rate) in
  enforce_rate_limit s now key r.1 r.2.

Example parse_rate_examples :
  parse_rate "5/minute" = Ok (5, 60) ∧ parse_rate " 12 / day " = Ok (12, 86400) ∧
  parse_rate "5/minutes" = Err ValueError ∧ parse_rate "/minute" = Err ValueError ∧
  parse_rate "5 minute" = Err ValueError.
Proof. by vm_compute. Qed.

(** ** One window *)

(** Calls on one key, one after the other. *)
Fixpoint enforce_at (s : Settings) (key : string) (limit window : Z) (times : list Z) (m : Limits)
    : list (result exn unit) * Limits :=
  match times with
  | [] => ([], m)
  | t :: times' =>
      let '(out, m) := enforce_rate_limit s t key limit window m in
      let '(outs, m) := enforce_at s key limit window times' m in
      (out :: outs, m)
  end.

(** The answer of the [k]-th call of a window. *)
Definition answer_ok (limit window k : Z) (out : result exn unit) : Prop :=
  if k <=? limit then out = Ok tt
  else ∃ r, out = Err (Domain (RateLimited (Some r))) ∧ 1 <= r <= window.

Lemma counter_insert now key n e m :
  counter now key (<[key := (n, e)]> m) = if unexpired now e then Some (n, e) else None.
Proof. unfold counter. by rewrite lookup_insert_eq. Qed.

Lemma enforce_live s t key limit window m n e :
  RATE_LIMIT_ENABLED s = true → 0 < window → 1 <= n → t < e <= t + window * 1000 →
  m !! key = Some (n, Some e) →
  ∃ out, enforce_rate_limit s t key limit window m = (out, <[key := (n + 1, Some e)]> m) ∧
    answer_ok limit window (n + 1) out.
Proof.
  intros Hs Hw Hn He Hm. unfold enforce_rate_limit. rewrite Hs. simpl. unfold hit_lua.
  unfold counter at 1. rewrite Hm. simpl. assert ((t <? e) = true) as -> by zlia.
  assert ((n + 1 =? 1) = false) as -> by zlia. unfold ttl. rewrite counter_insert. simpl.
  assert ((t <? e) = true) as -> by zlia. unfold answer_ok.
  assert (0 <= (e - t + 500) / 1000 <= window)
    by (split; [apply Z.div_pos; lia|apply Z.lt_succ_r, Z.div_lt_upper_bound; lia]).
  destruct (n + 1 <=? limit) eqn:Hl; destruct (limit <? n + 1) eqn:Hl'; try zlia; eauto.
  eexists. split; [done|]. eexists. split; [done|]. destruct (0 <? _) eqn:H0; zlia.
Qed.

Lemma enforce_fresh s t key limit window m :
  RATE_LIMIT_ENABLED s = true → 0 < window → counter t key m = None →
  ∃ out m', enforce_rate_limit s t key limit window m = (out, m') ∧
    m' !! key = Some (1, Some (t + window * 1000)) ∧ (∀ k, k ≠ key → m' !! k = m !! k) ∧
    answer_ok limit window 1 out.
Proof.
  intros Hs Hw Hc. unfold enforce_rate_limit. rewrite Hs. simpl. unfold hit_lua. rewrite Hc.
  simpl. unfold expire. rewrite counter_insert. simpl. assert ((window <=? 0) = false) as -> by zlia.
  unfold ttl. rewrite counter_insert. simpl. assert ((t <? t + window * 1000) = true) as -> by zlia.
  assert (Ht : (t + window * 1000 - t + 500) / 1000 = window).
  { symmetry. apply (Z.div_unique _ _ _ 500); lia. }
  rewrite Ht. assert ((0 <? window) = true) as -> by zlia. unfold answer_ok.
  destruct (limit <? 1) eqn:Hl; do 2 eexists; (split; [done|]); rewrite lookup_insert_eq;
    (split; [done|]); (split; [intros k Hk; by rewrite !lookup_insert_ne by done|]);
    destruct (1 <=? limit) eqn:Hl'; try zlia.
  eexists. split; [done|lia].
Qed.

(** The limiter lets exactly [limit] calls through per window, and never locks a
    key for good.  From the first call on a key with no live counter, for
    [window] seconds, the k-th call passes exactly when k is at most the limit;
    any other gets 429 with a Retry-After between one second and the window; the
    other keys are not touched; and when the window is over the counter is gone,
    whatever was rejected in it. *)
Theorem limiter_exact_per_window s key limit window t0 ts m :
  RATE_LIMIT_ENABLED s = true → 0 < window → counter t0 key m = None →
  Forall (λ t, t0 <= t < t0 + window * 1000) ts →
  let '(outs, m') := enforce_at s key limit window (t0 :: ts) m in
  length outs = S (length ts) ∧
  (∀ i out, outs !! i = Some out → answer_ok limit window (Z.of_nat i + 1) out) ∧
  (∀ t, t0 + window * 1000 <= t → counter t key m' = None) ∧
  (∀ k, k ≠ key → m' !! k = m !! k).
Proof.
  intros Hs Hw Hc Hts.
  assert (Hgen : ∀ n m1, 1 <= n → m1 !! key = Some (n, Some (t0 + window * 1000)) →
    let '(outs, m') := enforce_at s key limit window ts m1 in
    length outs = length ts ∧
    (∀ i out, outs !! i = Some out → answer_ok limit window (Z.of_nat i + n + 1) out) ∧
    (∃ k, m' !! key = Some (k, Some (t0 + window * 1000))) ∧
    (∀ k, k ≠ key → m' !! k = m1 !! k)).
  { clear Hc m. induction Hts as [|t ts Ht _ IH]; intros n m1 Hn Hm1; simpl.
    { split_and!; [done|by intros []|eauto|done]. }
    destruct (enforce_live s t key limit window m1 n (t0 + window * 1000)) as (out & -> & Ho);
      [done|done|done|lia|done|].
    specialize (IH (n + 1) (<[key := (n + 1, Some (t0 + window * 1000))]> m1)).
    destruct (enforce_at _ _ _ _ ts _) as [outs m'].
    destruct IH as (Hl & Ha & Hk & Hf); [lia|by rewrite lookup_insert_eq|].
    split_and!; [simpl; by rewrite Hl| |done|].
    - intros [|i] o; simpl; [intros [= <-]; by rewrite Z.add_0_l|]. intros Hi.
      replace (Z.of_nat (S i) + n + 1) with (Z.of_nat i + (n + 1) + 1) by lia. by apply Ha.
    - intros k Hk'. rewrite Hf by done. by rewrite lookup_insert_ne. }
  cbn [enforce_at].
  destruct (enforce_fresh s t0 key limit window m Hs Hw Hc) as (out & m1 & -> & Hm1 & Hf1 & Ho).
  specialize (Hgen 1 m1 ltac:(lia) Hm1). destruct (enforce_at _ _ _ _ ts m1) as [outs m'].
  destruct Hgen as (Hl & Ha & (k & Hk) & Hf). split_and!.
  - simpl. by rewrite Hl.
  - intros [|i] o; simpl; [intros [= <-]; done|]. intros Hi.
    replace (Z.of_nat (S i) + 1) with (Z.of_nat i + 1 + 1) by lia. by apply Ha.
  - intros t Ht. unfold counter. rewrite Hk. simpl. by assert ((t <? t0 + window * 1000) = false) as -> by zlia.
  - intros k' Hk'. by rewrite Hf, Hf1.
Qed.
