(* ===== verification/SingleFlight.v ===== *)
(** Merging concurrent computations of one process (src/app/core/singleflight.py):
    the registry of running tasks, its waiters, and the event loop as a step
    relation - a call, the end of a computation, a done callback, a cancelled
    waiter, a waiter that gets its result - in any order. *)

From S2P Require Import Prelude Exceptions.

#[local] Open Scope Z_scope.

Section flight.
Context {A : Type}.

(** [asyncio.Task]: running, or done with a value or an exception. *)
Inductive task_state : Type :=
  | Running
  | Done (r : result exn A).

Record Task : Type := mk_task { tk_key : Z; tk_state : task_state }.

(** [SingleFlight], with the tasks of the event loop, the done callbacks it has
    scheduled and the callers that wait behind a shield. *)
Record Flight : Type := mk_flight {
  fl_tasks : gmap nat Task;
  fl_next : nat;
  fl_inflight : gmap Z nat;
  fl_callbacks : list (Z * nat);
  fl_waiters : gmap nat nat;       (* caller to task *)
}.

Definition empty_flight : Flight := mk_flight ∅ 0 ∅ [] ∅.

Definition is_done (t : Task) : bool := match tk_state t with Running => false | Done _ => true end.

(** [task is None or task.done()], for the registered task of a key. *)
Definition available (key : Z) (f : Flight) : option nat :=
  match fl_inflight f !! key with
  | Some i => match fl_tasks f !! i with
              | Some t => if is_done t then None else Some i
              | None => None
              end
  | None => None
  end.

(** [run], up to its [await]: the call joins the running task or starts one. *)
Definition run (key : Z) (caller : nat) (f : Flight) : Flight :=
  match available key f with
  | Some i => mk_flight (fl_tasks f) (fl_next f) (fl_inflight f) (fl_callbacks f) (<[caller := i]> (fl_waiters f))
  | None =>
      let i := fl_next f in
      mk_flight (<[i := mk_task key Running]> (fl_tasks f)) (S i) (<[key := i]> (fl_inflight f)) (fl_callbacks f)
        (<[caller := i]> (fl_waiters f))
  end.

(** The computation ends: its result is set and its done callback scheduled. *)
Definition finish (i : nat) (r : result exn A) (f : Flight) : Flight :=
  match fl_tasks f !! i with
  | Some (mk_task key Running) =>
      mk_flight (<[i := mk_task key (Done r)]> (fl_tasks f)) (fl_next f) (fl_inflight f)
        (fl_callbacks f ++ [(key, i)]) (fl_waiters f)
  | _ => f
  end.

(** [_forget] *)
Definition forget (key : Z) (i : nat) (f : Flight) : Flight :=
  if bool_decide (fl_inflight f !! key = Some i)
  then mk_flight (fl_tasks f) (fl_next f) (delete key (fl_inflight f)) (fl_callbacks f) (fl_waiters f)
  else f.

(** The event loop runs a scheduled callback. *)
Definition callback (n : nat) (f : Flight) : Flight :=
  match fl_callbacks f !! n with
  | Some (key, i) =>
      forget key i (mk_flight (fl_tasks f) (fl_next f) (fl_inflight f) (delete n (fl_callbacks f)) (fl_waiters f))
  | None => f
  end.

(** A waiter is cancelled: the shield keeps the task running. *)
Definition cancel (caller : nat) (f : Flight) : Flight :=
  mk_flight (fl_tasks f) (fl_next f) (fl_inflight f) (fl_callbacks f) (delete caller (fl_waiters f)).

(** What the [await] gives a caller, when its task is done. *)
Definition outcome (caller : nat) (f : Flight) : option (result exn A) :=
  i ← fl_waiters f !! caller; t ← fl_tasks f !! i;
  match tk_state t with Running => None | Done r => Some r end.

Inductive step : Flight → Flight → Prop :=
  | st_run key caller f : fl_waiters f !! caller = None → step f (run key caller f)
  | st_finish i r f : step f (finish i r f)
  | st_callback n f : step f (callback n f)
  | st_cancel caller f : step f (cancel caller f)
  | st_return caller r f : outcome caller f = Some r → step f (cancel caller f).

(** [__len__] *)
Definition flight_len (f : Flight) : nat := size (fl_inflight f).

(** ** The registry *)

Record flight_ok (f : Flight) : Prop := {
  fo_next : ∀ i t, fl_tasks f !! i = Some t → (i < fl_next f)%nat;
  fo_running : ∀ i t, fl_tasks f !! i = Some t → is_done t = false → fl_inflight f !! tk_key t = Some i;
  fo_inflight : ∀ key i, fl_inflight f !! key = Some i →
    ∃ t, fl_tasks f !! i = Some t ∧ tk_key t = key ∧ (is_done t = true → (key, i) ∈ fl_callbacks f);
  fo_callbacks : ∀ key i, (key, i) ∈ fl_callbacks f → ∃ t, fl_tasks f !! i = Some t ∧ tk_key t = key ∧ is_done t = true;
  fo_waiters : ∀ c i, fl_waiters f !! c = Some i → is_Some (fl_tasks f !! i);
}.

Lemma empty_ok : flight_ok empty_flight.
Proof. split; simpl; try by intros *; rewrite lookup_empty. intros ? ? H. by apply elem_of_nil in H. Qed.

Lemma available_spec key f i :
  flight_ok f → available key f = Some i ↔
  ∃ t, fl_tasks f !! i = Some t ∧ tk_key t = key ∧ is_done t = false.
Proof.
  intros Hok. unfold available. split.
  - destruct (fl_inflight f !! key) as [j|] eqn:Hj; [|discriminate].
    destruct (fo_inflight _ Hok _ _ Hj) as (t & Ht & Hk & _). rewrite Ht. destruct (is_done t) eqn:Hd; [discriminate|].
    intros [= <-]. eauto.
  - intros (t & Ht & <- & Hd). rewrite (fo_running _ Hok _ _ Ht Hd), Ht, Hd. reflexivity.
Qed.

Lemma run_ok key caller f : flight_ok f → flight_ok (run key caller f).
Proof.
  intros Hok. unfold run. destruct (available key f) as [i|] eqn:Ha.
  - destruct Hok as [H1 H2 H3 H4 H5]. split; simpl; auto.
    intros c j [[_ <-]|[_ Hj]]%lookup_insert_Some; [|by eapply H5].
    assert (Hav : flight_ok f) by (split; auto). apply (available_spec _ _ _ Hav) in Ha as (t & Ht & _). by exists t.
  - assert (Hnone : ∀ i t, fl_tasks f !! i = Some t → tk_key t = key → is_done t = true).
    { intros i t Ht Hk. destruct (is_done t) eqn:Hd; [reflexivity|].
      assert (available key f = Some i) by (apply available_spec; eauto). congruence. }
    destruct Hok as [H1 H2 H3 H4 H5].
    assert (Hold : ∀ i t, fl_tasks f !! i = Some t → <[fl_next f := mk_task key Running]> (fl_tasks f) !! i = Some t).
    { intros i t Ht. rewrite lookup_insert_ne; [exact Ht|]. specialize (H1 i t Ht). lia. }
    split; simpl.
    + intros i t [[<- _]|[_ Ht]]%lookup_insert_Some; [lia|]. specialize (H1 i t Ht). lia.
    + intros i t [[<- <-]|[_ Ht]]%lookup_insert_Some Hd; [apply lookup_insert_eq|].
      rewrite lookup_insert_ne; [by apply H2|]. intros Hk. by rewrite (Hnone i t) in Hd.
    + intros k i [[<- <-]|[_ Hi]]%lookup_insert_Some.
      * exists (mk_task key Running). rewrite lookup_insert_eq. by split_and!.
      * destruct (H3 k i Hi) as (t & Ht & Hk & Hc). exists t. split; [by apply Hold|by split].
    + intros k i Hc. destruct (H4 k i Hc) as (t & Ht & Hk). exists t. split; [by apply Hold|exact Hk].
    + intros c j [[_ <-]|[_ Hj]]%lookup_insert_Some; [rewrite lookup_insert_eq; eauto|].
      destruct (H5 c j Hj) as [t Ht]. exists t. by apply Hold.
Qed.

Lemma finish_ok i r f : flight_ok f → flight_ok (finish i r f).
Proof.
  intros Hok. unfold finish. destruct (fl_tasks f !! i) as [[key st]|] eqn:Hi; [|exact Hok].
  destruct st as [|r0]; [|exact Hok]. destruct Hok as [H1 H2 H3 H4 H5]. split; simpl.
  - intros j t [[<- _]|[_ Ht]]%lookup_insert_Some; [by eapply H1|by eapply H1].
  - intros j t [[<- <-]|[_ Ht]]%lookup_insert_Some Hd; [discriminate|by apply H2].
  - intros k j Hj. destruct (H3 k j Hj) as (t & Ht & Hk & Hc). destruct (decide (j = i)) as [->|Hne].
    + exists (mk_task key (Done r)). rewrite lookup_insert_eq. rewrite Hi in Ht. injection Ht as <-. simpl in *. subst k.
      split_and!; [reflexivity|reflexivity|]. intros _. apply elem_of_app. right. by apply list_elem_of_singleton.
    + exists t. rewrite lookup_insert_ne by congruence. split_and!; [exact Ht|exact Hk|].
      intros Hd. apply elem_of_app. left. auto.
  - intros k j [Hc|[= -> ->]%list_elem_of_singleton]%elem_of_app.
    + destruct (H4 k j Hc) as (t & Ht & Hk & Hd). exists t. rewrite lookup_insert_ne; [by split_and!|].
      intros <-. rewrite Hi in Ht. injection Ht as <-. discriminate.
    + exists (mk_task key (Done r)). rewrite lookup_insert_eq. by split_and!.
  - intros c j Hj. destruct (decide (j = i)) as [->|Hne]; [rewrite lookup_insert_eq; eauto|].
    rewrite lookup_insert_ne by congruence. by eapply H5.
Qed.

Lemma forget_ok key i f :
  flight_ok (mk_flight (fl_tasks f) (fl_next f) (fl_inflight f) ((key, i) :: fl_callbacks f) (fl_waiters f)) →
  flight_ok (forget key i f).
Proof.
  intros [H1 H2 H3 H4 H5]. simpl in *. unfold forget. case_bool_decide as Hin; split; simpl; try assumption.
  - intros j t Ht Hd. specialize (H2 j t Ht Hd). destruct (decide (tk_key t = key)) as [Hk|Hk].
    + exfalso. assert (j = i) as -> by congruence. destruct (H4 key i) as (t' & Ht' & _ & Hd'); [by left|]. congruence.
    + by rewrite lookup_delete_ne.
  - intros k j [Hk Hj]%lookup_delete_Some. destruct (H3 k j Hj) as (t & Ht & Hkt & Hc). exists t.
    split_and!; [exact Ht|exact Hkt|]. intros Hd. specialize (Hc Hd). apply elem_of_cons in Hc as [[= -> _]|Hc]; done.
  - intros k j Hc. apply H4. by right.
  - intros k j Hj. destruct (H3 k j Hj) as (t & Ht & Hkt & Hc). exists t. split_and!; [exact Ht|exact Hkt|].
    intros Hd. specialize (Hc Hd). apply elem_of_cons in Hc as [[= -> ->]|Hc]; done.
  - intros k j Hc. apply H4. by right.
Qed.

Lemma callback_ok n f : flight_ok f → flight_ok (callback n f).
Proof.
  intros Hok. unfold callback. destruct (fl_callbacks f !! n) as [[key i]|] eqn:Hn; [|exact Hok].
  apply forget_ok. simpl. pose proof (delete_Permutation _ _ _ Hn) as Hp. destruct Hok as [H1 H2 H3 H4 H5].
  split; simpl; try assumption.
  - intros k j Hj. destruct (H3 k j Hj) as (t & Ht & Hk & Hc). exists t. split_and!; [exact Ht|exact Hk|].
    intros Hd. rewrite <-Hp. auto.
  - intros k j Hc. rewrite <-Hp in Hc. auto.
Qed.

Lemma cancel_ok caller f : flight_ok f → flight_ok (cancel caller f).
Proof.
  intros [H1 H2 H3 H4 H5]. split; simpl; try assumption. intros c i [_ Hi]%lookup_delete_Some. eauto.
Qed.

Lemma step_ok f f' : step f f' → flight_ok f → flight_ok f'.
Proof.
  destruct 1; intros Hok.
  - by apply run_ok.
  - by apply finish_ok.
  - by apply callback_ok.
  - by apply cancel_ok.
  - by apply cancel_ok.
Qed.

Lemma steps_ok f f' : rtc step f f' → flight_ok f → flight_ok f'.
Proof. induction 1 as [|f f1 f2 Hst _ IH]; [done|]. intros Hok. by eapply IH, step_ok. Qed.

(** The running computations of a key. *)
Definition running (key : Z) (f : Flight) : gset nat :=
  dom (filter (λ p, tk_key p.2 = key ∧ is_done p.2 = false) (fl_tasks f)).

Lemma elem_of_running key f i :
  i ∈ running key f ↔ ∃ t, fl_tasks f !! i = Some t ∧ tk_key t = key ∧ is_done t = false.
Proof.
  unfold running. rewrite elem_of_dom. unfold is_Some. split.
  - intros [t (Ht & Hk & Hd)%map_lookup_filter_Some]. eauto.
  - intros (t & Ht & Hk & Hd). exists t. by apply map_lookup_filter_Some.
Qed.


(** A task stays; once done it keeps its result. *)
Definition task_kept (f f' : Flight) : Prop :=
  ∀ i t, fl_tasks f !! i = Some t →
  ∃ t', fl_tasks f' !! i = Some t' ∧ tk_key t' = tk_key t ∧ (is_done t = true → t' = t).

Lemma step_kept f f' : flight_ok f → step f f' → task_kept f f'.
Proof.
  intros Hok Hst i t Ht. destruct Hst as [key c f _|j r f|n f|c f|c r f _].
  - unfold run. destruct (available key f); simpl; [eauto|]. exists t.
    rewrite lookup_insert_ne; [by split_and!|]. pose proof (fo_next _ Hok _ _ Ht). lia.
  - unfold finish. destruct (fl_tasks f !! j) as [[k [|r0]]|] eqn:Hj; simpl; [|eauto..].
    destruct (decide (i = j)) as [->|Hne].
    + rewrite Hj in Ht. injection Ht as <-. exists (mk_task k (Done r)). rewrite lookup_insert_eq. by split_and!.
    + exists t. rewrite lookup_insert_ne by congruence. by split_and!.
  - unfold callback. destruct (fl_callbacks f !! n) as [[k j]|]; [|eauto]. unfold forget.
    case_bool_decide; simpl; eauto.
  - simpl. eauto.
  - simpl. eauto.
Qed.

Lemma steps_kept f f' : rtc step f f' → flight_ok f → task_kept f f'.
Proof.
  induction 1 as [f|f f1 f2 Hst _ IH]; intros Hok i t Ht; [eauto|].
  destruct (step_kept _ _ Hok Hst i t Ht) as (t1 & Ht1 & Hk1 & Hd1).
  destruct (IH (step_ok _ _ Hst Hok) i t1 Ht1) as (t2 & Ht2 & Hk2 & Hd2). exists t2.
  split_and!; [done|congruence|]. intros Hd. specialize (Hd1 Hd). subst t1. by apply Hd2.
Qed.

(** C28 (concurrent calls for one key share one computation).  In every order of calls,
    computations that end, callbacks the event loop runs late and waiters that are
    cancelled: a key has at most one running computation; a call joins it, and starts
    one only when there is none, so that no call waits on a computation that had
    already ended - on somebody else's failure - when it was made; that computation
    runs to its end and keeps its result whoever leaves; and when everything has
    ended and the callbacks have run, the registry is empty again. *)
Theorem one_computation_per_key key c f :
  rtc step empty_flight f →
  let f1 := run key c f in
  (size (running key f) <= 1)%nat ∧
  (∃ i, fl_waiters f1 !! c = Some i ∧ running key f1 = {[i]} ∧
     (running key f ≠ ∅ → fl_tasks f1 = fl_tasks f) ∧
     ∀ f2, rtc step f1 f2 → ∃ t, fl_tasks f2 !! i = Some t ∧ tk_key t = key ∧
       ∀ f3, rtc step f2 f3 → is_done t = true → fl_tasks f3 !! i = Some t) ∧
  ((∀ k, running k f = ∅) → fl_callbacks f = [] → flight_len f = 0%nat).
Proof.
  intros Hreach. cbv zeta. pose proof (steps_ok _ _ Hreach empty_ok) as Hok.
  pose proof (run_ok key c f Hok) as Hok1.
  assert (Huniq : ∀ g i, flight_ok g → i ∈ running key g → running key g = {[i]}).
  { intros g i Hg (t & Ht & Hk & Hd)%elem_of_running. apply set_eq. intros j.
    rewrite elem_of_singleton, elem_of_running. split; [|by intros ->; eauto].
    intros (t' & Ht' & Hk' & Hd'). pose proof (fo_running _ Hg _ _ Ht Hd). pose proof (fo_running _ Hg _ _ Ht' Hd').
    congruence. }
  split_and!.
  - destruct (set_choose_or_empty (running key f)) as [[i Hi]|He].
    + rewrite (Huniq f i Hok Hi), size_singleton. lia.
    + apply leibniz_equiv in He. rewrite He, size_empty. lia.
  - assert (Hi : ∃ i t, fl_waiters (run key c f) !! c = Some i ∧ fl_tasks (run key c f) !! i = Some t ∧
      tk_key t = key ∧ is_done t = false ∧ (running key f ≠ ∅ → fl_tasks (run key c f) = fl_tasks f)).
    { unfold run. destruct (available key f) as [i|] eqn:Ha; simpl.
      - apply (available_spec _ _ _ Hok) in Ha as (t & Ht & Hk & Hd). exists i, t. rewrite lookup_insert_eq. done.
      - exists (fl_next f), (mk_task key Running). rewrite !lookup_insert_eq. split_and!; try done. intros Hne. exfalso.
        apply set_choose_L in Hne as [i (t & Ht & Hk & Hd)%elem_of_running].
        assert (available key f = Some i) by (apply available_spec; eauto). congruence. }
    destruct Hi as (i & t & Hw & Ht & Hk & Hd & Hsame). exists i.
    split_and!; [done|by apply Huniq, elem_of_running; eauto|done|].
    intros f2 Hf2. destruct (steps_kept _ _ Hf2 Hok1 i t Ht) as (t2 & Ht2 & Hk2 & _). exists t2.
    split_and!; [done|congruence|]. intros f3 Hf3 Hd2.
    destruct (steps_kept _ _ Hf3 (steps_ok _ _ Hf2 Hok1) i t2 Ht2) as (t3 & Ht3 & _ & He). by rewrite <-(He Hd2).
  - intros Hnone Hcb. unfold flight_len. apply map_size_empty_iff, map_empty. intros k.
    destruct (fl_inflight f !! k) as [i|] eqn:Hi; [|done]. exfalso.
    destruct (fo_inflight _ Hok _ _ Hi) as (t & Ht & Hk & Hc). rewrite Hcb in Hc.
    destruct (is_done t) eqn:Hd; [by apply elem_of_nil in Hc|].
    assert (i ∈ running k f) as Hin by (apply elem_of_running; eauto). by rewrite Hnone in Hin.
Qed.
End flight.
Arguments Flight : clear implicits.

(** Two calls, the first one's caller is cancelled, the computation fails, and a third
    call before the callback has run starts its own. *)
Definition flight_demo : Flight Z :=
  finish 0 (Err ValueError) (cancel 10 (run 7 11 (run 7 10 empty_flight))).

Lemma one_computation_per_key_witness :
  running 7 flight_demo = ∅ ∧ outcome 11 flight_demo = Some (Err ValueError) ∧
  ∃ i, fl_waiters (run 7 12 flight_demo) !! 12%nat = Some i ∧ running 7 (run 7 12 flight_demo) = {[i]} ∧
    fl_inflight (callback 0 (run 7 12 flight_demo)) !! 7 = Some i.
Proof.
  split_and!; [by vm_compute|by vm_compute|].
  destruct (one_computation_per_key 7 12 flight_demo) as (_ & (i & Hw & Hr & _) & _).
  - unfold flight_demo. eapply rtc_l; [apply (st_run 7 10); by vm_compute|].
    eapply rtc_l; [apply (st_run 7 11); by vm_compute|]. eapply rtc_l; [apply (st_cancel 10)|].
    apply rtc_once, st_finish.
  - exists i. split_and!; [exact Hw|exact Hr|]. assert (i = 1%nat) as -> by (vm_compute in Hw; congruence). by vm_compute.
Defined.
