(* ===== verification/Calendar.v ===== *)
(** Dates and instants as Python's [datetime] has them: the proleptic Gregorian
    calendar, [isoformat] and [fromisoformat].  Instants are
    microseconds since the epoch, in UTC. *)

From Stdlib Require Import Ascii String.
From S2P Require Import Prelude Text Keys RateLimit.

#[local] Open Scope string_scope.
#[local] Open Scope list_scope.
#[local] Open Scope Z_scope.

(** ** The calendar *)

Definition DAY : Z := 86400000000.

(** Days from 1970-01-01 to a date of the proleptic Gregorian calendar; the year
    is counted from March, so that the leap day is its last. *)
Definition days_from_civil (y m d : Z) : Z :=
  let y := if m <=? 2 then y - 1 else y in
  let doy := (153 * (if m <=? 2 then m + 9 else m - 3) + 2) / 5 + d - 1 in
  365 * y + y / 4 - y / 100 + y / 400 + doy - 719468.

Definition is_leap (y : Z) : bool := (y mod 4 =? 0) && (negb (y mod 100 =? 0) || (y mod 400 =? 0)).

Definition days_in_month (y m : Z) : Z :=
  if m =? 2 then (if is_leap y then 29 else 28)
  else if existsb (Z.eqb m) [4; 6; 9; 11] then 30 else 31.

(** What Python's [date] accepts. *)
Definition valid_date (y m d : Z) : bool :=
  (1 <=? y) && (y <=? 9999) && (1 <=? m) && (m <=? 12) && (1 <=? d) && (d <=? days_in_month y m).

Definition next_month (y m : Z) : Z * Z := if m =? 12 then (y + 1, 1) else (y, m + 1).

(** The instant a month begins at, in UTC. *)
Definition month_start (y m : Z) : Z := days_from_civil y m 1 * DAY.
Definition month_bounds (ym : Z * Z) : Z * Z :=
  (month_start ym.1 ym.2, month_start (next_month ym.1 ym.2).1 (next_month ym.1 ym.2).2).

(** ** Dates as text *)

Definition digit_char (d : Z) : ascii := ascii_of_nat (Z.to_nat (48 + d)).

(** ["{:0nd}".format(z)] for [0 <= z < 10^n]. *)
Fixpoint pad (n : nat) (z : Z) : string :=
  match n with
  | O => ""
  | S n => String (digit_char (z / 10 ^ Z.of_nat n mod 10)) (pad n z)
  end.

(** [date.isoformat()] *)
Definition date_iso (y m d : Z) : string := pad 4 y +:+ "-" +:+ pad 2 m +:+ "-" +:+ pad 2 d.

(** Exactly [n] digits. *)
Fixpoint digits (n : nat) (acc : Z) (l : list ascii) : option (Z * list ascii) :=
  match n, l with
  | O, _ => Some (acc, l)
  | S n, c :: l' =>
      if is_digit c then digits n (acc * 10 + (Z.of_nat (nat_of_ascii c) - 48)) l' else None
  | S _, [] => None
  end.

Definition eat (c : ascii) (l : list ascii) : option (list ascii) :=
  match l with x :: l' => if Ascii.eqb x c then Some l' else None | [] => None end.

(** [HH[:MM[:SS[.ffffff]]]], in microseconds. *)
Definition parse_clock (l : list ascii) : option (Z * list ascii) :=
  match digits 2 0 l with
  | None => None
  | Some (h, l) =>
      match eat ":" l with
      | None => Some (h * 3600000000, l)
      | Some l =>
          match digits 2 0 l with
          | None => None
          | Some (mi, l) =>
              let t := (h * 60 + mi) * 60000000 in
              if 59 <? mi then None
              else
                match eat ":" l with
                | None => Some (t, l)
                | Some l =>
                    match digits 2 0 l with
                    | None => None
                    | Some (s, l) =>
                        if 59 <? s then None
                        else
                          match eat "." l with
                          | None => Some (t + s * 1000000, l)
                          | Some l =>
                              match digits 6 0 l with
                              | Some (us, l) => Some (t + s * 1000000 + us, l)
                              | None => None
                              end
                          end
                    end
                end
          end
      end
  end.

(** [Z], [+HH[:MM[:SS]]] or nothing: the offset, None when the text is naive. *)
Definition parse_offset (l : list ascii) : option (option Z) :=
  match l with
  | [] => Some None
  | c :: l' =>
      if Ascii.eqb c "Z" then (if bool_decide (l' = []) then Some (Some 0) else None)
      else
        let sign := if Ascii.eqb c "+" then Some 1 else if Ascii.eqb c "-" then Some (-1) else None in
        match sign, parse_clock l' with
        | Some k, Some (t, []) => if t <? DAY then Some (Some (k * t)) else None
        | _, _ => None
        end
  end.

(** [datetime.fromisoformat], in the forms [isoformat()] and PostgreSQL print:
    the instant, None when refused; text without an offset is read as UTC, as
    [_partition_upper_bound] does, and audit events always carry one. *)
Definition fromisoformat (s : string) : option Z :=
  match digits 4 0 (list_ascii_of_string s) with
  | None => None
  | Some (y, l) =>
      match eat "-" l with
      | None => None
      | Some l =>
          match digits 2 0 l with
          | None => None
          | Some (m, l) =>
              match eat "-" l with
              | None => None
              | Some l =>
                  match digits 2 0 l with
                  | None => None
                  | Some (d, l) =>
                      if negb (valid_date y m d) then None
                      else
                        match l with
                        | [] => Some (days_from_civil y m d * DAY)
                        | _ :: l =>
                            match parse_clock l with
                            | None => None
                            | Some (t, l) =>
                                if t <? DAY then
                                  match parse_offset l with
                                  | Some o => Some (days_from_civil y m d * DAY + t - default 0 o)
                                  | None => None
                                  end
                                else None
                            end
                        end
                  end
              end
          end
      end
  end.

Example fromisoformat_bound : fromisoformat "2026-10-01 00:00:00+00" = Some (month_start 2026 10).
Proof. by vm_compute. Qed.
Example fromisoformat_emitted :
  fromisoformat "2026-09-15T12:34:56.000789+00:00" = Some (1789475696 * 1000000 + 789).
Proof. by vm_compute. Qed.

(** An aware UTC [datetime]. *)
Record UtcTime : Type := mk_utc {
  u_year : Z; u_month : Z; u_day : Z; u_hour : Z; u_minute : Z; u_second : Z; u_micro : Z;
}.

Definition valid_utc (t : UtcTime) : bool :=
  valid_date (u_year t) (u_month t) (u_day t) && (0 <=? u_hour t) && (u_hour t <=? 23) &&
  (0 <=? u_minute t) && (u_minute t <=? 59) && (0 <=? u_second t) && (u_second t <=? 59) &&
  (0 <=? u_micro t) && (u_micro t <=? 999999).

Definition instant (t : UtcTime) : Z :=
  days_from_civil (u_year t) (u_month t) (u_day t) * DAY +
  ((u_hour t * 60 + u_minute t) * 60 + u_second t) * 1000000 + u_micro t.

(** [isoformat()]: the fraction is left out when it is zero. *)
Definition isoformat (t : UtcTime) : string :=
  date_iso (u_year t) (u_month t) (u_day t) +:+ "T" +:+ pad 2 (u_hour t) +:+ ":" +:+
  pad 2 (u_minute t) +:+ ":" +:+ pad 2 (u_second t) +:+
  (if u_micro t =? 0 then "" else "." +:+ pad 6 (u_micro t)) +:+ "+00:00".

(** ** Lemmas *)

Lemma days_in_month_bounds y m : 28 <= days_in_month y m <= 31.
Proof. unfold days_in_month. destruct (m =? 2), (is_leap y), (existsb (Z.eqb m) [4; 6; 9; 11]); lia. Qed.

Lemma digit_char_digit d : 0 <= d < 10 →
  is_digit (digit_char d) = true ∧ Z.of_nat (nat_of_ascii (digit_char d)) - 48 = d.
Proof.
  intros Hd. assert (d = 0 ∨ d = 1 ∨ d = 2 ∨ d = 3 ∨ d = 4 ∨ d = 5 ∨ d = 6 ∨ d = 7 ∨ d = 8 ∨ d = 9)
    as Hc by lia.
  destruct Hc as [->|[->|[->|[->|[->|[->|[->|[->|[->| ->]]]]]]]]]; done.
Qed.

Lemma digits_pad n acc z l :
  0 <= z < 10 ^ Z.of_nat n →
  digits n acc (list_ascii_of_string (pad n z) ++ l) = Some (acc * 10 ^ Z.of_nat n + z, l).
Proof.
  enough (Hgen : ∀ z', z = z' mod 10 ^ Z.of_nat n → 0 <= z' →
    digits n acc (list_ascii_of_string (pad n z') ++ l) = Some (acc * 10 ^ Z.of_nat n + z, l)).
  { intros Hz. apply Hgen; [by rewrite Z.mod_small|lia]. }
  revert acc z. induction n as [|n IH]; intros acc z z' -> Hz'.
  - simpl. do 2 f_equal. rewrite Z.mod_1_r. lia.
  - set (p := 10 ^ Z.of_nat n). assert (0 < p) by (apply Z.pow_pos_nonneg; lia).
    cbn [pad list_ascii_of_string app digits]. fold p.
    destruct (digit_char_digit (z' / p mod 10)) as [-> ->]; [apply Z.mod_pos_bound; lia|].
    rewrite (IH _ (z' mod p) z' eq_refl Hz'). fold p.
    do 2 f_equal. replace (10 ^ Z.of_nat (S n)) with (p * 10) by (unfold p; rewrite Nat2Z.inj_succ, Z.pow_succ_r by lia; apply Z.mul_comm).
    rewrite Z.rem_mul_r by lia. lia.
Qed.

Lemma digits_pad0 n z l :
  0 <= z < 10 ^ Z.of_nat n → digits n 0 (list_ascii_of_string (pad n z) ++ l) = Some (z, l).
Proof. intros. by rewrite digits_pad. Qed.

Lemma list_ascii_app a b :
  list_ascii_of_string (a +:+ b) = list_ascii_of_string a ++ list_ascii_of_string b.
Proof. induction a as [|c a IH]; simpl; [done|]. by rewrite IH. Qed.

Lemma fromisoformat_month y m :
  1 <= y <= 9999 → 1 <= m <= 12 → fromisoformat (date_iso y m 1) = Some (month_start y m).
Proof.
  intros Hy Hm. unfold fromisoformat, date_iso. rewrite !list_ascii_app.
  rewrite digits_pad0 by lia. cbn [list_ascii_of_string app eat]. simpl (Ascii.eqb "-" "-").
  cbn iota. rewrite digits_pad0 by lia. cbn [list_ascii_of_string app eat]. simpl (Ascii.eqb "-" "-").
  cbn iota. rewrite <-(app_nil_r (list_ascii_of_string (pad 2 1))), digits_pad0 by lia.
  replace (negb (valid_date _ _ _)) with false; [done|].
  unfold valid_date. pose proof (days_in_month_bounds y m).
  symmetry. apply negb_false_iff. rewrite !andb_true_iff, !Z.leb_le. lia.
Qed.

Lemma fromisoformat_isoformat t : valid_utc t = true → fromisoformat (isoformat t) = Some (instant t).
Proof.
  unfold valid_utc. rewrite !andb_true_iff, !Z.leb_le. intros H. destruct_and!.
  match goal with Hd : valid_date _ _ _ = true |- _ => pose proof Hd as Hdate end.
  unfold valid_date in Hdate. rewrite !andb_true_iff, !Z.leb_le in Hdate. destruct_and!.
  pose proof (days_in_month_bounds (u_year t) (u_month t)).
  unfold fromisoformat, isoformat, date_iso. rewrite !list_ascii_app, <-!app_assoc.
  rewrite digits_pad0 by lia. cbn [list_ascii_of_string app eat]. rewrite (Ascii.eqb_refl "-"). cbn iota.
  rewrite digits_pad0 by lia. cbn [list_ascii_of_string app eat]. rewrite (Ascii.eqb_refl "-"). cbn iota.
  rewrite digits_pad0 by lia.
  match goal with Hd : valid_date _ _ _ = true |- _ => rewrite Hd end. cbn [negb list_ascii_of_string app].
  unfold parse_clock at 1.
  rewrite digits_pad0 by lia. cbn [list_ascii_of_string app eat]. rewrite (Ascii.eqb_refl ":"). cbn iota.
  rewrite digits_pad0 by lia. cbn [list_ascii_of_string app eat]. rewrite (Ascii.eqb_refl ":"). cbn iota zeta.
  replace (59 <? u_minute t) with false by (symmetry; apply Z.ltb_ge; lia).
  rewrite digits_pad0 by lia.
  replace (59 <? u_second t) with false by (symmetry; apply Z.ltb_ge; lia).
  assert (Hoff : parse_offset (list_ascii_of_string "+00:00") = Some (Some 0)) by by vm_compute.
  destruct (u_micro t =? 0) eqn:Hmicro.
  - apply Z.eqb_eq in Hmicro. cbn [list_ascii_of_string app eat].
    change (Ascii.eqb "+" ".") with false. cbn iota.
    change ("+"%char :: "0"%char :: "0"%char :: ":"%char :: "0"%char :: "0"%char :: []) with
      (list_ascii_of_string "+00:00").
    match goal with |- context [?a <? DAY] =>
      assert ((a <? DAY) = true) as -> by (apply Z.ltb_lt; unfold DAY; lia) end.
    rewrite Hoff. unfold instant. simpl default. f_equal. lia.
  - rewrite list_ascii_app. cbn [list_ascii_of_string app eat]. rewrite (Ascii.eqb_refl "."). cbn iota.
    rewrite digits_pad0 by lia.
    change ("+"%char :: "0"%char :: "0"%char :: ":"%char :: "0"%char :: "0"%char :: []) with
      (list_ascii_of_string "+00:00").
    match goal with |- context [?a <? DAY] =>
      assert ((a <? DAY) = true) as -> by (apply Z.ltb_lt; unfold DAY; lia) end.
    rewrite Hoff. unfold instant. simpl default. f_equal. lia.
Qed.

(** ** The datetime of an instant *)

(** [date.fromordinal]: centuries, four-year cycles and years of a 400-year era
    counted from March, then the month and the day. *)
Definition civil_from_days (n : Z) : Z * Z * Z :=
  let z := n + 719468 in
  let era := z / 146097 in
  let doe := z mod 146097 in
  let c := Z.min 3 (doe / 36524) in
  let r := doe - c * 36524 in
  let q := r / 1461 in
  let r := r - q * 1461 in
  let a := Z.min 3 (r / 365) in
  let doy := r - a * 365 in
  let y := era * 400 + c * 100 + q * 4 + a in
  let mp := (5 * doy + 2) / 153 in
  let d := doy - (153 * mp + 2) / 5 + 1 in
  let m := if mp <? 10 then mp + 3 else mp - 9 in
  ((if m <=? 2 then y + 1 else y, m), d).

(** The aware UTC [datetime] of an instant. *)
Definition utc_of (t : Z) : UtcTime :=
  let '((y, m), d) := civil_from_days (t / DAY) in
  let s := t mod DAY in
  mk_utc y m d (s / 3600000000) (s / 60000000 mod 60) (s / 1000000 mod 60) (s mod 1000000).

(** 0001-01-01 and 9999-12-31, in days. *)
Definition MIN_DAYS : Z := days_from_civil 1 1 1.
Definition MAX_DAYS : Z := days_from_civil 9999 12 31.

Lemma civil_days n : let '((y, m), d) := civil_from_days n in
  days_from_civil y m d = n ∧ 1 <= m <= 12 ∧ 1 <= d <= days_in_month y m.
Proof.
  unfold civil_from_days.
  set (z := n + 719468). set (era := z / 146097). set (doe := z mod 146097).
  assert (Hz : z = era * 146097 + doe) by (unfold era, doe; pose proof (Z.div_mod z 146097); lia).
  assert (Hdoe : 0 <= doe < 146097) by (apply Z.mod_pos_bound; lia).
  set (c := Z.min 3 (doe / 36524)).
  assert (Hc : 0 <= c <= 3 ∧ 0 <= doe - c * 36524 <= 36524 ∧ (c < 3 → doe - c * 36524 < 36524))
    by (unfold c; Z.to_euclidean_division_equations; lia).
  set (r := doe - c * 36524) in *. set (q := r / 1461).
  assert (Hq : 0 <= q <= 24 ∧ 0 <= r - q * 1461 <= 1460 ∧ (q = 24 → c < 3 → r - q * 1461 < 1460))
    by (unfold q; Z.to_euclidean_division_equations; lia).
  set (r2 := r - q * 1461) in *. set (a := Z.min 3 (r2 / 365)).
  assert (Ha : 0 <= a <= 3 ∧ 0 <= r2 - a * 365 <= 365 ∧ (a < 3 → r2 - a * 365 < 365))
    by (unfold a; Z.to_euclidean_division_equations; lia).
  set (doy := r2 - a * 365) in *. set (mp := (5 * doy + 2) / 153).
  assert (Hmp : 0 <= mp <= 11) by (unfold mp; Z.to_euclidean_division_equations; lia).
  set (d := doy - (153 * mp + 2) / 5 + 1).
  set (y := era * 400 + c * 100 + q * 4 + a).
  assert (Hy4 : y / 4 = era * 100 + c * 25 + q)
    by (symmetry; apply (Z.div_unique_pos _ _ _ a); unfold y; lia).
  assert (Hy100 : y / 100 = era * 4 + c)
    by (symmetry; apply (Z.div_unique_pos _ _ _ (q * 4 + a)); unfold y; lia).
  assert (Hy400 : y / 400 = era)
    by (symmetry; apply (Z.div_unique_pos _ _ _ (c * 100 + q * 4 + a)); unfold y; lia).
  assert (Hdoy : n = 365 * y + y / 4 - y / 100 + y / 400 + doy - 719468)
    by (rewrite Hy4, Hy100, Hy400; unfold doy, r2, r, y; unfold z in Hz; lia).
  assert (Hd : 1 <= d ∧ d <= if mp =? 11 then doy - 336 else if existsb (Z.eqb mp) [1; 3; 6; 8] then 30 else 31).
  { clear Hdoy Hy4 Hy100 Hy400 y. assert (Hdoy : 0 <= doy <= 365) by lia. clearbody doy.
    unfold d. split; [unfold mp; Z.to_euclidean_division_equations; lia|].
    assert (Hm2 : 153 * mp <= 5 * doy + 2 < 153 * mp + 153) by (unfold mp; Z.to_euclidean_division_equations; lia).
    clearbody mp. assert (mp = 0 ∨ mp = 1 ∨ mp = 2 ∨ mp = 3 ∨ mp = 4 ∨ mp = 5 ∨ mp = 6 ∨ mp = 7 ∨ mp = 8 ∨
      mp = 9 ∨ mp = 10 ∨ mp = 11) as Hc' by lia.
    destruct Hc' as [->|[->|[->|[->|[->|[->|[->|[->|[->|[->|[->| ->]]]]]]]]]]]; simpl; Z.to_euclidean_division_equations; lia. }
  assert (Hleap : doy = 365 → is_leap (y + 1) = true).
  { intros H365. assert (Ha3 : a = 3) by (unfold doy in H365; lia). unfold is_leap.
    assert ((y + 1) mod 4 = 0) as ->.
    { symmetry. apply (Z.mod_unique_pos _ _ (era * 100 + c * 25 + q + 1)); unfold y; lia. }
    simpl. destruct (decide (q = 24)) as [Hq24|Hq24].
    - assert (Hc3 : c = 3) by (unfold doy, r2 in *; lia). assert ((y + 1) mod 400 = 0) as ->; [|by rewrite orb_true_r].
      symmetry. apply (Z.mod_unique_pos _ _ (era + 1)); unfold y; lia.
    - assert ((y + 1) mod 100 = q * 4 + 4) as ->.
      { symmetry. apply (Z.mod_unique_pos _ _ (era * 4 + c)); unfold y; lia. }
      rewrite (proj2 (Z.eqb_neq _ _)) by lia. done. }
  assert (Hdd : (153 * mp + 2) / 5 + d - 1 = doy) by (unfold d; lia).
  assert (Hdoyb : 0 <= doy <= 365) by (unfold doy; lia).
  set (m := if mp <? 10 then mp + 3 else mp - 9).
  assert (Hm : (mp, m) ∈ [(0, 3); (1, 4); (2, 5); (3, 6); (4, 7); (5, 8); (6, 9); (7, 10); (8, 11); (9, 12);
    (10, 1); (11, 2)]).
  { assert (mp = 0 ∨ mp = 1 ∨ mp = 2 ∨ mp = 3 ∨ mp = 4 ∨ mp = 5 ∨ mp = 6 ∨ mp = 7 ∨ mp = 8 ∨
      mp = 9 ∨ mp = 10 ∨ mp = 11) as Hc' by lia. clear - Hc'.
    destruct Hc' as [->|[->|[->|[->|[->|[->|[->|[->|[->|[->|[->| ->]]]]]]]]]]]; by vm_compute; set_solver. }
  clearbody mp d doy y m. clear -Hm Hdoy Hd Hleap Hdd Hdoyb. unfold days_from_civil, days_in_month.
  repeat (apply elem_of_cons in Hm as [Hm|Hm]; [injection Hm as -> ->|]); [..|by apply elem_of_nil in Hm];
    simpl in Hd |- *; try replace (y + 1 - 1) with y by lia;
    try (split_and!; Z.to_euclidean_division_equations; lia).
  split_and!; [Z.to_euclidean_division_equations; lia|lia..|].
  destruct (decide (doy = 365)) as [H365|]; [rewrite Hleap by done; lia|].
  destruct (is_leap (y + 1)); lia.
Qed.

Lemma civil_range y m d :
  1 <= m <= 12 → 1 <= d <= days_in_month y m → MIN_DAYS <= days_from_civil y m d <= MAX_DAYS → 1 <= y <= 9999.
Proof.
  intros Hm Hd. pose proof (days_in_month_bounds y m). change MIN_DAYS with (-719162). change MAX_DAYS with 2932896.
  unfold days_from_civil. set (y' := if m <=? 2 then y - 1 else y).
  set (k := (153 * (if m <=? 2 then m + 9 else m - 3) + 2) / 5).
  assert (Hk : (m <= 2 ∧ y' = y - 1 ∧ 306 <= k <= 337) ∨ (3 <= m ∧ y' = y ∧ 0 <= k <= 275)).
  { unfold k, y'. destruct (m <=? 2) eqn:Hm2; zbool; [left|right]; split_and!; Z.to_euclidean_division_equations; lia. }
  intros H1. clearbody y' k.
  assert (0 <= y' <= 9999) by (Z.to_euclidean_division_equations; lia).
  Z.to_euclidean_division_equations; lia.
Qed.

(** An instant is its datetime's, between the years 1 and 9999. *)
Lemma utc_of_instant t :
  MIN_DAYS * DAY <= t < (MAX_DAYS + 1) * DAY → valid_utc (utc_of t) = true ∧ instant (utc_of t) = t.
Proof.
  intros Ht. unfold utc_of. pose proof (civil_days (t / DAY)) as Hc.
  destruct (civil_from_days (t / DAY)) as [[y m] d]. destruct Hc as (Hn & Hm & Hd).
  assert (Hs : 0 <= t mod DAY < DAY) by (apply Z.mod_pos_bound; done).
  assert (Hy : 1 <= y <= 9999).
  { apply (civil_range y m d); [done|done|]. rewrite Hn. split; [apply Z.div_le_lower_bound; unfold DAY in *; lia|].
    apply Z.lt_succ_r, Z.div_lt_upper_bound; unfold DAY in *; lia. }
  pose proof (Z.div_mod t DAY ltac:(done)) as Hdm. set (s := t mod DAY) in *. clearbody s.
  unfold valid_utc, instant, valid_date. simpl. rewrite Hn.
  assert (Hb : 0 <= s / 3600000000 <= 23 ∧ 0 <= s / 60000000 mod 60 <= 59 ∧ 0 <= s / 1000000 mod 60 <= 59 ∧
    0 <= s mod 1000000 <= 999999 ∧
    ((s / 3600000000 * 60 + s / 60000000 mod 60) * 60 + s / 1000000 mod 60) * 1000000 + s mod 1000000 = s).
  { clear -Hs. unfold DAY in Hs. Z.to_euclidean_division_equations. lia. }
  split; [|lia]. rewrite !andb_true_iff, !Z.leb_le. lia.
Qed.

Example utc_of_emitted :
  isoformat (utc_of (1789475696 * 1000000 + 789)) = "2026-09-15T12:34:56.000789+00:00".
Proof. by vm_compute. Qed.
