(* ===== verification/Base64.v ===== *)
(** [base64.urlsafe_b64encode] and [urlsafe_b64decode], as the cursors of the order
    listing use them (src/app/api/v1/orders.py).  A byte is a number below 256. *)

From Stdlib Require Import Ascii String.
From S2P Require Import Prelude.

#[local] Open Scope string_scope.
#[local] Open Scope list_scope.
#[local] Open Scope Z_scope.

(** ** The alphabet *)

Definition ALPHABET : list ascii :=
  list_ascii_of_string "ABCDEFGHIJKLMNOPQRSTUVWXYZabcdefghijklmnopqrstuvwxyz0123456789-_".

Definition sextet_char (v : Z) : ascii := nth (Z.to_nat v) ALPHABET "="%char.

(** The table of [binascii]: [urlsafe_b64decode] puts [+] and [/] for [-] and [_],
    and leaves them where they are already. *)
Definition char_sextet (c : ascii) : option Z :=
  let n := Z.of_nat (nat_of_ascii c) in
  if (65 <=? n) && (n <=? 90) then Some (n - 65)
  else if (97 <=? n) && (n <=? 122) then Some (n - 71)
  else if (48 <=? n) && (n <=? 57) then Some (n + 4)
  else if (n =? 43) || (n =? 45) then Some 62
  else if (n =? 47) || (n =? 95) then Some 63
  else None.

Definition PAD : ascii := "="%char.

(** ** Encoding *)

Fixpoint b64encode (l : list Z) : list ascii :=
  match l with
  | a :: b :: c :: l' =>
      sextet_char (a / 4) :: sextet_char (a mod 4 * 16 + b / 16) ::
      sextet_char (b mod 16 * 4 + c / 64) :: sextet_char (c mod 64) :: b64encode l'
  | [a; b] => [sextet_char (a / 4); sextet_char (a mod 4 * 16 + b / 16); sextet_char (b mod 16 * 4); PAD]
  | [a] => [sextet_char (a / 4); sextet_char (a mod 4 * 16); PAD; PAD]
  | [] => []
  end.

(** ** Decoding *)

(** [binascii.a2b_base64], which skips what is not of the alphabet: the position in
    the group of four, the bits left over, the pads seen in a row. *)
Fixpoint a2b (quad_pos : nat) (left pads : Z) (l : list ascii) : option (list Z) :=
  match l with
  | [] => if (quad_pos =? 0)%nat then Some [] else None
  | ch :: l' =>
      if Ascii.eqb ch PAD then
        if (2 <=? quad_pos)%nat then
          if 4 <=? Z.of_nat quad_pos + (pads + 1) then Some [] else a2b quad_pos left (pads + 1) l'
        else a2b quad_pos left pads l'
      else
        match char_sextet ch with
        | None => a2b quad_pos left pads l'
        | Some v =>
            match quad_pos with
            | 0%nat => a2b 1 v 0 l'
            | 1%nat => cons (left * 4 + v / 16) <$> a2b 2 (v mod 16) 0 l'
            | 2%nat => cons (left * 16 + v / 4) <$> a2b 3 (v mod 4) 0 l'
            | _ => cons (left * 64 + v) <$> a2b 0 0 0 l'
            end
        end
  end.

Definition b64decode (l : list ascii) : option (list Z) := a2b 0 0 0 l.

(** ** Text *)

Definition text_bytes (s : string) : list Z := Z.of_nat ∘ nat_of_ascii <$> list_ascii_of_string s.

(** [bytes.decode()], for the ASCII text a cursor is made of; anything else is
    refused. *)
Definition bytes_text (l : list Z) : option string :=
  if forallb (λ b, b <? 128) l then Some (string_of_list_ascii (ascii_of_nat ∘ Z.to_nat <$> l)) else None.

Definition urlsafe_b64encode (s : string) : string := string_of_list_ascii (b64encode (text_bytes s)).
Definition urlsafe_b64decode (s : string) : option string :=
  l ← b64decode (list_ascii_of_string s); bytes_text l.

Example b64_vectors :
  urlsafe_b64encode "f" = "Zg==" ∧ urlsafe_b64encode "fo" = "Zm8=" ∧ urlsafe_b64encode "foobar" = "Zm9vYmFy" ∧
  urlsafe_b64decode "Zm8=" = Some "fo" ∧ urlsafe_b64decode "Z m!9v" = Some "foo" ∧ urlsafe_b64decode "Zm9" = None ∧
  urlsafe_b64decode "Zg" = None ∧ urlsafe_b64decode "Z===" = None.
Proof. by vm_compute. Qed.

(** ** The round trip *)

Lemma sextet_roundtrip v : 0 <= v < 64 → char_sextet (sextet_char v) = Some v ∧ Ascii.eqb (sextet_char v) PAD = false.
Proof.
  intros Hv.
  assert (H : forallb (λ v, bool_decide (char_sextet (sextet_char v) = Some v) && negb (Ascii.eqb (sextet_char v) PAD))
    (seqZ 0 64) = true) by by vm_compute.
  rewrite forallb_forall in H. specialize (H v). rewrite <-list_elem_of_In, elem_of_seqZ in H.
  specialize (H Hv). apply andb_true_iff in H as [H1%bool_decide_eq_true H2%negb_true_iff]. done.
Qed.

Lemma a2b_sextet q left pads v l : 0 <= v < 64 →
  a2b q left pads (sextet_char v :: l) =
    match q with
    | 0%nat => a2b 1 v 0 l
    | 1%nat => cons (left * 4 + v / 16) <$> a2b 2 (v mod 16) 0 l
    | 2%nat => cons (left * 16 + v / 4) <$> a2b 3 (v mod 4) 0 l
    | _ => cons (left * 64 + v) <$> a2b 0 0 0 l
    end.
Proof. intros Hv. destruct (sextet_roundtrip v Hv) as [H1 H2]. cbn [a2b]. by rewrite H2, H1. Qed.

Ltac sextets := Z.to_euclidean_division_equations; lia.

(** Decoding gives back the bytes. *)
Lemma b64decode_encode l : Forall (λ b, 0 <= b < 256) l → b64decode (b64encode l) = Some l.
Proof.
  unfold b64decode. remember (List.length l) as n eqn:Hn. revert l Hn.
  induction (lt_wf n) as [n _ IH]. intros l -> Hl.
  destruct l as [|a [|b [|c l]]]; [done| | |]; cbn [b64encode];
    repeat match goal with H : Forall _ (_ :: _) |- _ => apply Forall_cons in H as [? ?] end;
    rewrite !a2b_sextet by sextets.
  - simpl. do 2 f_equal. sextets.
  - simpl. do 2 f_equal; [sextets|]. f_equal. sextets.
  - rewrite (IH (List.length l)) by (simpl; done || lia). simpl. f_equal. f_equal; [sextets|].
    f_equal; [sextets|]. f_equal. sextets.
Qed.

Lemma text_bytes_range s : Forall (λ b, 0 <= b < 256) (text_bytes s).
Proof.
  unfold text_bytes. apply Forall_fmap, Forall_true. intros c. simpl. pose proof (nat_ascii_bounded c). lia.
Qed.

Definition is_ascii (s : string) : bool := forallb (λ b, b <? 128) (text_bytes s).

Lemma bytes_text_bytes s : is_ascii s = true → bytes_text (text_bytes s) = Some s.
Proof.
  intros Hs. unfold bytes_text. unfold is_ascii in Hs. rewrite Hs.
  f_equal. rewrite <-(string_of_list_ascii_of_string s) at 2. f_equal. unfold text_bytes.
  rewrite <-list_fmap_compose. rewrite <-(list_fmap_id (list_ascii_of_string s)) at 2.
  apply list_fmap_ext. intros _ c _. unfold compose. rewrite Nat2Z.id. apply ascii_nat_embedding.
Qed.

(** A cursor's text survives. *)
Theorem urlsafe_roundtrip s : is_ascii s = true → urlsafe_b64decode (urlsafe_b64encode s) = Some s.
Proof.
  intros Hs. unfold urlsafe_b64decode, urlsafe_b64encode. rewrite list_ascii_of_string_of_list_ascii.
  rewrite b64decode_encode by apply text_bytes_range. simpl. by apply bytes_text_bytes.
Qed.
