(* ===== verification/AuditLog.v ===== *)
(** The audit table's monthly partitions (src/app/models/audit_log.py) and the
    two jobs of src/app/worker.py that create them ahead of time and drop them
    past the retention window.  Instants are microseconds since the epoch. *)

From Stdlib Require Import Ascii String.
From S2P Require Import Prelude Text Keys RateLimit Calendar.

#[local] Open Scope string_scope.
#[local] Open Scope list_scope.
#[local] Open Scope Z_scope.

(** ** Partitions *)

Definition DEFAULT_PARTITION : string := "audit_logs_default".

Definition partition_name (ym : Z * Z) : string :=
  "audit_logs_" +:+ pad 4 ym.1 +:+ "_" +:+ pad 2 ym.2.

(** An audit row; [J] is a JSON value. *)
Record AuditRow (J : Type) : Type := mk_audit_row {
  al_event_type : string;
  al_actor : option Z;
  al_ip : option string;
  al_target_type : option string;
  al_target_id : option string;
  al_payload : J;
  al_success : bool;
  al_error_code : option string;
  al_created : Z;
}.
Arguments mk_audit_row {J}.
Arguments al_event_type {J}. Arguments al_actor {J}. Arguments al_ip {J}.
Arguments al_target_type {J}. Arguments al_target_id {J}. Arguments al_payload {J}.
Arguments al_success {J}. Arguments al_error_code {J}. Arguments al_created {J}.

Section table.
Context {J : Type}.

(** The partitions with their half-open bounds, and each row with the partition
    it was routed to. *)
Record AuditTable : Type := mk_audit_table {
  at_parts : gmap string (Z * Z);
  at_rows : list (string * AuditRow J);
}.

Definition within (b : Z * Z) (t : Z) : bool := (b.1 <=? t) && (t <? b.2).
Definition overlap (a b : Z * Z) : bool := (a.1 <? b.2) && (b.1 <? a.2).

(** Where PostgreSQL puts a row. *)
Definition route (t : AuditTable) (created : Z) : string :=
  match list_find (λ p, within p.2 created = true) (map_to_list (at_parts t)) with
  | Some (_, (name, _)) => name
  | None => DEFAULT_PARTITION
  end.

Definition insert_row (row : AuditRow J) (t : AuditTable) : AuditTable :=
  mk_audit_table (at_parts t) (at_rows t ++ [(route t (al_created row), row)]).

(** [CREATE TABLE IF NOT EXISTS name PARTITION OF audit_logs FOR VALUES FROM lo TO
    hi]; None: refused. *)
Definition create_partition (name : string) (b : Z * Z) (t : AuditTable) : option AuditTable :=
  if is_some (at_parts t !! name) then Some t
  else if negb (b.1 <? b.2) then None
  else if existsb (λ p, overlap b p.2) (map_to_list (at_parts t)) then None
  else if existsb (λ r, bool_decide (r.1 = DEFAULT_PARTITION) && within b (al_created r.2)) (at_rows t)
  then None
  else Some (mk_audit_table (<[name := b]> (at_parts t)) (at_rows t)).

(** [DROP TABLE name] *)
Definition drop_partition (name : string) (t : AuditTable) : AuditTable :=
  mk_audit_table (delete name (at_parts t)) (filter (λ r, r.1 ≠ name) (at_rows t)).

(** [DELETE FROM audit_logs_default WHERE created_at < cutoff] *)
Definition delete_default (cutoff : Z) (t : AuditTable) : AuditTable :=
  mk_audit_table (at_parts t)
    (filter (λ r, ¬ (r.1 = DEFAULT_PARTITION ∧ al_created r.2 < cutoff)) (at_rows t)).

(** ** Creating partitions ahead of time *)

Definition AUDIT_PARTITION_LOOKAHEAD_MONTHS : nat := 3.

(** [_month_range] *)
Definition month_range (ym : Z * Z) : string * string :=
  let nm := next_month ym.1 ym.2 in
  (date_iso ym.1 ym.2 1, date_iso nm.1 nm.2 1).

(** [_add_months] *)
Definition add_months (anchor : Z * Z) (offset : Z) : Z * Z :=
  let n := anchor.2 - 1 + offset in
  (anchor.1 + n / 12, n mod 12 + 1).

(** The bounds as PostgreSQL reads the two literals. *)
Definition bounds_of_text (s : string * string) : option (Z * Z) :=
  match fromisoformat s.1, fromisoformat s.2 with
  | Some lo, Some hi => Some (lo, hi)
  | _, _ => None
  end.

(** [refused]: the statements that fail for any other reason; each is a
    transaction of its own. *)
Context (refused : string → bool).

Definition ensure_month (ym : Z * Z) (t : AuditTable) : AuditTable :=
  if refused (partition_name ym) then t
  else
    match bounds_of_text (month_range ym) with
    | Some b => default t (create_partition (partition_name ym) b t)
    | None => t
    end.

Definition ensure_loop (today : Z * Z) (offsets : list nat) (t : AuditTable) : AuditTable :=
  foldl (λ t k, ensure_month (add_months today (Z.of_nat k)) t) t offsets.

(** [ensure_audit_log_partitions]; [today] is the year and month of the clock. *)
Definition ensure_audit_log_partitions (today : Z * Z) (t : AuditTable) : AuditTable :=
  ensure_loop today (seq 0 AUDIT_PARTITION_LOOKAHEAD_MONTHS) t.

(** ** Dropping old partitions *)

Fixpoint until_quote (l : list ascii) : option (list ascii) :=
  match l with
  | [] => None
  | c :: l' => if Ascii.eqb c "'" then Some [] else (λ r, c :: r) <$> until_quote l'
  end.

(** [_partition_upper_bound] *)
Definition partition_upper_bound (bounds : string) : option Z :=
  let marker := "TO (" in
  match String.index 0 marker bounds with
  | None => None
  | Some start =>
      match strip (list_ascii_of_string (String.substring (start + 4) (String.length bounds) bounds)) with
      | [] => None
      | c :: inner =>
          if negb (Ascii.eqb c "'") then None
          else
            match until_quote inner with
            | None => None
            | Some text => fromisoformat (string_of_list_ascii text)
            end
      end
  end.

(** [pg_get_expr(relpartbound)]. *)
Context (pg_get_expr : Z * Z → string).

Fixpoint drop_loop (cutoff : Z) (rows : list (string * string)) (t : AuditTable) : AuditTable :=
  match rows with
  | [] => t
  | (name, bounds) :: rows' =>
      match partition_upper_bound bounds with
      | None => drop_loop cutoff rows' t
      | Some upper =>
          if cutoff <? upper then drop_loop cutoff rows' t
          else drop_loop cutoff rows' (if refused name then t else drop_partition name t)
      end
  end.

(** [purge_old_audit_logs] *)
Definition purge_old_audit_logs (retention_days now : Z) (t : AuditTable) : AuditTable :=
  let cutoff := now - retention_days * DAY in
  let rows := (λ p : string * (Z * Z), (p.1, pg_get_expr p.2)) <$> map_to_list (at_parts t) in
  let t := drop_loop cutoff rows t in
  if refused DEFAULT_PARTITION then t else delete_default cutoff t.
End table.
Arguments AuditTable : clear implicits.

Example upper_bound_of_month :
  partition_upper_bound "FOR VALUES FROM ('2026-09-01 00:00:00+00') TO ('2026-10-01 00:00:00+00')" =
    Some (month_start 2026 10).
Proof. by vm_compute. Qed.
Example upper_bound_of_default : partition_upper_bound "DEFAULT" = None.
Proof. by vm_compute. Qed.
Example upper_bound_of_maxvalue :
  partition_upper_bound "FOR VALUES FROM ('2026-09-01 00:00:00+00') TO (MAXVALUE)" = None.
Proof. by vm_compute. Qed.
Example month_range_december : month_range (2026, 12) = ("2026-12-01", "2027-01-01").
Proof. by vm_compute. Qed.
Example add_months_over_new_year : add_months (2026, 11) 2 = (2027, 1).
Proof. by vm_compute. Qed.

(** ** Months are consecutive *)

Definition good_month (ym : Z * Z) : Prop := 1 <= ym.1 <= 9998 ∧ 1 <= ym.2 <= 12.

(** Months numbered in order. *)
Definition month_index (ym : Z * Z) : Z := 12 * ym.1 + ym.2 - 1.

Lemma month_length y m : 1 <= m <= 12 →
  month_start (next_month y m).1 (next_month y m).2 = month_start y m + days_in_month y m * DAY.
Proof.
  intros Hm. unfold month_start. rewrite <-Z.mul_add_distr_r. f_equal.
  unfold next_month, days_from_civil, days_in_month, is_leap.
  assert (m = 1 ∨ m = 2 ∨ m = 3 ∨ m = 4 ∨ m = 5 ∨ m = 6 ∨ m = 7 ∨ m = 8 ∨ m = 9 ∨ m = 10 ∨ m = 11 ∨ m = 12)
    as Hc by lia.
  destruct Hc as [->|[->|[->|[->|[->|[->|[->|[->|[->|[->|[->| ->]]]]]]]]]]]; simpl;
    try replace (y + 1 - 1) with y by lia; try (Z.to_euclidean_division_equations; lia).
  destruct (y mod 4 =? 0) eqn:H4, (y mod 100 =? 0) eqn:H100, (y mod 400 =? 0) eqn:H400; simpl;
    zbool; Z.to_euclidean_division_equations; lia.
Qed.

Lemma next_month_index y m : 1 <= m <= 12 →
  month_index (next_month y m) = month_index (y, m) + 1 ∧ 1 <= (next_month y m).2 <= 12.
Proof. intros Hm. unfold next_month, month_index. destruct (m =? 12) eqn:H; simpl; zbool; lia. Qed.

Lemma month_index_inj a b :
  1 <= a.2 <= 12 → 1 <= b.2 <= 12 → month_index a = month_index b → a = b.
Proof. destruct a as [y m], b as [y' m']. unfold month_index. simpl. intros. f_equal; lia. Qed.

Lemma add_months_index ym k :
  1 <= ym.2 <= 12 → month_index (add_months ym k) = month_index ym + k ∧ 1 <= (add_months ym k).2 <= 12.
Proof.
  intros Hm. unfold add_months, month_index. simpl.
  pose proof (Z.div_mod (ym.2 - 1 + k) 12 ltac:(lia)). pose proof (Z.mod_pos_bound (ym.2 - 1 + k) 12 ltac:(lia)).
  lia.
Qed.

Lemma next_is_add y m : 1 <= m <= 12 → next_month y m = add_months (y, m) 1.
Proof.
  intros Hm. destruct (next_month_index y m Hm) as [H1 ?].
  destruct (add_months_index (y, m) 1) as [H2 ?]; [done|].
  apply month_index_inj; [done|done|lia].
Qed.

(** A later month begins after an earlier one ends. *)
Lemma month_order a b :
  1 <= a.2 <= 12 → 1 <= b.2 <= 12 → month_index a < month_index b →
  (month_bounds a).2 <= (month_bounds b).1.
Proof.
  intros Ha Hb Hlt.
  assert (Hk : ∀ k : nat, ∀ c, 1 <= c.2 <= 12 → month_index c = month_index a + 1 + Z.of_nat k →
    (month_bounds a).2 <= (month_bounds c).1).
  { induction k as [|k IH]; intros c Hc Hi.
    - assert (c = next_month a.1 a.2) as ->; [|done].
      destruct (next_month_index a.1 a.2 Ha) as [Hn ?]. rewrite <-surjective_pairing in Hn.
      apply month_index_inj; [done|done|lia].
    - destruct (add_months_index c (-1) Hc) as [Hp Hpm]. remember (add_months c (-1)) as p eqn:Hpd; clear Hpd.
      specialize (IH p Hpm ltac:(lia)). etrans; [exact IH|].
      assert (c = next_month p.1 p.2) as ->.
      { destruct (next_month_index p.1 p.2 Hpm) as [Hn ?]. rewrite <-surjective_pairing in Hn.
        apply month_index_inj; [done|done|lia]. }
      unfold month_bounds. cbn [fst snd]. rewrite month_length by done.
      pose proof (days_in_month_bounds p.1 p.2). unfold DAY. lia. }
  apply (Hk (Z.to_nat (month_index b - month_index a - 1))); [done|lia].
Qed.

Lemma month_nonempty ym : 1 <= ym.2 <= 12 → (month_bounds ym).1 < (month_bounds ym).2 <= (month_bounds ym).1 + 31 * DAY.
Proof.
  intros Hm. unfold month_bounds. cbn [fst snd]. rewrite month_length by done.
  pose proof (days_in_month_bounds ym.1 ym.2). unfold DAY. lia.
Qed.

Lemma months_disjoint a b :
  1 <= a.2 <= 12 → 1 <= b.2 <= 12 → a ≠ b → overlap (month_bounds a) (month_bounds b) = false.
Proof.
  intros Ha Hb Hne. unfold overlap. apply andb_false_iff.
  destruct (Z.lt_trichotomy (month_index a) (month_index b)) as [Hlt|[Heq|Hgt]].
  - right. apply Z.ltb_ge. by apply month_order.
  - exfalso. by apply Hne, month_index_inj.
  - left. apply Z.ltb_ge. by apply month_order.
Qed.

(** ** Text round trips *)

Lemma bounds_of_month ym :
  good_month ym → bounds_of_text (month_range ym) = Some (month_bounds ym).
Proof.
  intros [Hy Hm]. unfold bounds_of_text, month_range. cbn [fst snd].
  assert (1 <= (next_month ym.1 ym.2).1 <= 9999 ∧ 1 <= (next_month ym.1 ym.2).2 <= 12) as [? ?].
  { unfold next_month. destruct (ym.2 =? 12) eqn:H; simpl; zbool; lia. }
  by rewrite !fromisoformat_month by lia.
Qed.

Lemma partition_name_inj a b :
  good_month a → good_month b → partition_name a = partition_name b → a = b.
Proof.
  intros [Ha Ha'] [Hb Hb'] H. destruct a as [y m], b as [y' m']. simpl in *.
  unfold partition_name in H. simpl (fst _) in H. simpl (snd _) in H.
  apply (f_equal list_ascii_of_string) in H. rewrite !list_ascii_app in H.
  apply app_inv_head in H.
  apply (f_equal (digits 4 0)) in H as Hd. rewrite !digits_pad0 in Hd by lia.
  assert (Hs : ∀ (x z : Z) (l l' : list ascii), Some (x, l) = Some (z, l') → x = z ∧ l = l')
    by (intros; by simplify_eq).
  apply Hs in Hd as [-> Hm]. apply app_inv_head in Hm. f_equal.
  apply (f_equal (digits 2 0)) in Hm.
  rewrite <-(app_nil_r (list_ascii_of_string (pad 2 m))), <-(app_nil_r (list_ascii_of_string (pad 2 m'))) in Hm.
  rewrite !digits_pad0 in Hm by lia. by apply Hs in Hm as [-> _].
Qed.

(** ** The next months are always ready *)

Section audit_table.
Context {J : Type}.
Implicit Types t : AuditTable J.

(** Every partition is a month under its name. *)
Definition monthly t : Prop := ∀ name b, at_parts t !! name = Some b →
  ∃ ym, good_month ym ∧ name = partition_name ym ∧ b = month_bounds ym.

(** Rows the DEFAULT partition took for a month. *)
Definition strays t (b : Z * Z) : Prop :=
  ∃ r, r ∈ at_rows t ∧ r.1 = DEFAULT_PARTITION ∧ within b (al_created r.2) = true.

Lemma create_month ym t :
  good_month ym → monthly t → ¬ strays t (month_bounds ym) →
  create_partition (partition_name ym) (month_bounds ym) t =
    Some (mk_audit_table (<[partition_name ym := month_bounds ym]> (at_parts t)) (at_rows t)).
Proof.
  intros Hg Hm Hs. unfold create_partition. pose proof Hg as [_ Hmo].
  destruct (at_parts t !! partition_name ym) as [b|] eqn:Hb; cbn [is_some].
  { destruct (Hm _ _ Hb) as (ym' & Hg' & Hn & ->). apply partition_name_inj in Hn as ->; [|done..].
    f_equal. destruct t. simpl in *. by rewrite insert_id. }
  destruct (month_nonempty ym Hmo) as [Hlt _]. apply Z.ltb_lt in Hlt as ->. cbn [negb].
  destruct (existsb _ (map_to_list (at_parts t))) eqn:He.
  { apply existsb_exists in He as ([name b] & Hin & Ho). exfalso.
    apply list_elem_of_In, elem_of_map_to_list in Hin. simpl in Ho.
    destruct (Hm _ _ Hin) as (ym' & [? ?] & -> & ->). rewrite months_disjoint in Ho; [done|done|done|].
    intros ->. congruence. }
  destruct (existsb _ (at_rows t)) eqn:Hr; [|done].
  exfalso. apply Hs. apply existsb_exists in Hr as (r & Hin & Hr).
  apply andb_true_iff in Hr as [Hd Hw]. apply bool_decide_eq_true in Hd. exists r.
  split_and!; [by apply list_elem_of_In|done|done].
Qed.

Lemma create_rows name b t t' :
  create_partition name b t = Some t' →
  at_rows t' = at_rows t ∧ (t' = t ∨ at_parts t !! name = None ∧ at_parts t' = <[name := b]> (at_parts t)).
Proof.
  unfold create_partition. destruct (at_parts t !! name) eqn:Hn; simpl; [intros [= <-]; auto|].
  repeat case_match; intros; simplify_eq; auto.
Qed.

Section ensure.
Context (refused : string → bool).

Lemma ensure_month_frame ym t :
  good_month ym → monthly t →
  let t' := ensure_month refused ym t in
  at_rows t' = at_rows t ∧ monthly t' ∧ at_parts t ⊆ at_parts t'.
Proof.
  intros Hg Hm. cbn zeta. unfold ensure_month. destruct (refused _); [done|].
  rewrite bounds_of_month by done. destruct (create_partition _ _ t) as [t'|] eqn:Hc; simpl; [|done].
  apply create_rows in Hc as [-> [->|[Hn Hp]]]; [done|]. split; [done|]. rewrite Hp. split.
  - intros name b Hb. rewrite Hp in Hb. apply lookup_insert_Some in Hb as [[<- <-]|[_ Hb]]; [|by apply Hm].
    by exists ym.
  - by apply insert_subseteq.
Qed.

Lemma ensure_loop_cases today ks t :
  (∀ k, k ∈ ks → good_month (add_months today (Z.of_nat k))) → monthly t →
  let t' := ensure_loop refused today ks t in
  at_rows t' = at_rows t ∧ monthly t' ∧ at_parts t ⊆ at_parts t' ∧
  ∀ k, k ∈ ks → let ym := add_months today (Z.of_nat k) in
    refused (partition_name ym) = false → ¬ strays t (month_bounds ym) →
    at_parts t' !! partition_name ym = Some (month_bounds ym).
Proof.
  unfold ensure_loop. revert t. induction ks as [|k ks IH]; intros t Hg Hm; simpl.
  { split_and!; try done. intros k Hk. by apply elem_of_nil in Hk. }
  assert (Hgk : good_month (add_months today (Z.of_nat k))) by (apply Hg; left).
  destruct (ensure_month_frame _ t Hgk Hm) as (Hr1 & Hm1 & Hs1).
  set (t1 := ensure_month refused (add_months today (Z.of_nat k)) t) in *.
  destruct (IH t1) as (Hr2 & Hm2 & Hs2 & Hk2); [intros; apply Hg; by right|done|].
  split_and!; [congruence|done|by etrans|].
  intros j Hj Href Hst.
  assert (Hst1 : ¬ strays t1 (month_bounds (add_months today (Z.of_nat j))))
    by (intros (r & Hr & H); apply Hst; exists r; by rewrite <-Hr1).
  apply elem_of_cons in Hj as [->|Hj]; [|by apply Hk2].
  eapply lookup_weaken; [|exact Hs2]. unfold t1, ensure_month. rewrite Href, bounds_of_month by done.
  rewrite create_month by done. simpl. apply lookup_insert_eq.
Qed.

Lemma route_in t x name b :
  at_parts t !! name = Some b → within b x = true →
  ∃ name' b', route t x = name' ∧ at_parts t !! name' = Some b' ∧ within b' x = true.
Proof.
  intros Hn Hb. unfold route. destruct (list_find _ _) as [[i [n c]]|] eqn:Hf.
  - apply list_find_Some in Hf as (Hl & Hw & _). exists n, c. split_and!; [done| |done].
    apply elem_of_map_to_list. by eapply list_elem_of_lookup_2.
  - apply list_find_None in Hf. rewrite Forall_forall in Hf.
    destruct (Hf (name, b)); [by apply elem_of_map_to_list|done].
Qed.

Lemma default_not_month ym : DEFAULT_PARTITION ≠ partition_name ym.
Proof.
  unfold partition_name, DEFAULT_PARTITION. simpl. intros H. injection H as H _.
  assert (Hf : is_digit "d" = true); [|done].
  rewrite H. apply digit_char_digit, Z.mod_pos_bound. lia.
Qed.

(** Events land in a month's partition.  The job that runs ahead of time never
    touches a row, keeps every partition, and each of its months is independent:
    whatever else fails, the current month and the two after it get their
    partition unless that month's own statement is refused or the DEFAULT
    partition already took one of its rows.  With the three in place they leave
    no gap: an event of now or of any instant up to their end goes to the one
    month that contains it, not to DEFAULT. *)
Theorem months_ahead_are_ready today t :
  good_month today → good_month (add_months today 2) → monthly t →
  let t' := ensure_audit_log_partitions refused today t in
  at_rows t' = at_rows t ∧ monthly t' ∧ at_parts t ⊆ at_parts t' ∧
  (∀ k, 0 <= k <= 2 → let ym := add_months today k in
     refused (partition_name ym) = false → ¬ strays t (month_bounds ym) →
     at_parts t' !! partition_name ym = Some (month_bounds ym)) ∧
  ((∀ k, 0 <= k <= 2 → refused (partition_name (add_months today k)) = false ∧
                       ¬ strays t (month_bounds (add_months today k))) →
   ∀ x, (month_bounds today).1 <= x < (month_bounds (add_months today 2)).2 →
     ∃ ym, route t' x = partition_name ym ∧ within (month_bounds ym) x = true).
Proof.
  intros Hg Hg2 Hm. cbn zeta. unfold ensure_audit_log_partitions.
  assert (Hgood : ∀ k, 0 <= k <= 2 → good_month (add_months today k)).
  { intros k Hk. destruct Hg as [Hy Hmo], Hg2 as [Hy2 _].
    destruct (add_months_index today k Hmo) as [Hi ?], (add_months_index today 2 Hmo) as [Hi2 ?].
    unfold month_index in *. split; lia. }
  destruct (ensure_loop_cases today (seq 0 AUDIT_PARTITION_LOOKAHEAD_MONTHS) t) as (Hr & Hm' & Hs & Hk).
  { intros k Hk%elem_of_seq. unfold AUDIT_PARTITION_LOOKAHEAD_MONTHS in Hk. apply Hgood. lia. }
  { done. }
  set (t' := ensure_loop _ _ _ t) in *.
  assert (Hready : ∀ k, 0 <= k <= 2 → refused (partition_name (add_months today k)) = false →
    ¬ strays t (month_bounds (add_months today k)) →
    at_parts t' !! partition_name (add_months today k) = Some (month_bounds (add_months today k))).
  { intros k Hk0 Href Hst. specialize (Hk (Z.to_nat k)). rewrite Z2Nat.id in Hk by lia.
    apply Hk; [|done|done]. apply elem_of_seq. unfold AUDIT_PARTITION_LOOKAHEAD_MONTHS. lia. }
  split_and!; [done|done|done|by intros k ?; apply Hready|].
  intros Hall x Hx.
  assert (Hnext : ∀ k, (month_bounds (add_months today k)).2 = (month_bounds (add_months today (k + 1))).1).
  { intros k. destruct Hg as [_ Hmo]. destruct (add_months_index today k Hmo) as [Hi ?].
    destruct (add_months_index today (k + 1) Hmo) as [Hi1 ?].
    assert (add_months today (k + 1) = next_month (add_months today k).1 (add_months today k).2) as ->; [|done].
    destruct (next_month_index (add_months today k).1 (add_months today k).2) as [Hn ?]; [done|].
    rewrite <-surjective_pairing in Hn. apply month_index_inj; [done|done|lia]. }
  assert (Hin : ∃ k, 0 <= k <= 2 ∧ within (month_bounds (add_months today k)) x = true).
  { assert (Hz : add_months today 0 = today).
    { destruct Hg as [_ Hmo]. destruct (add_months_index today 0 Hmo). apply month_index_inj; [done|done|lia]. }
    pose proof (Hnext 0) as H0. pose proof (Hnext 1) as H1. rewrite Hz in H0. change (0 + 1) with 1 in H0. change (1 + 1) with 2 in H1.
    unfold within. destruct (Z.lt_ge_cases x (month_bounds today).2) as [H|H].
    { exists 0. rewrite Hz. split; [lia|]. apply andb_true_iff. rewrite Z.leb_le, Z.ltb_lt. lia. }
    destruct (Z.lt_ge_cases x (month_bounds (add_months today 1)).2) as [H'|H'].
    { exists 1. split; [lia|]. apply andb_true_iff. rewrite Z.leb_le, Z.ltb_lt. lia. }
    exists 2. split; [lia|]. apply andb_true_iff. rewrite Z.leb_le, Z.ltb_lt. lia. }
  destruct Hin as (k & Hk0 & Hw). destruct (Hall k Hk0) as [Href Hst].
  destruct (route_in t' x _ _ (Hready k Hk0 Href Hst) Hw) as (name & b & -> & Hn & Hb).
  destruct (Hm' _ _ Hn) as (ym & _ & -> & ->). by exists ym.
Qed.
End ensure.
End audit_table.

(** ** Retention *)

Section purge.
Context {J : Type} (refused : string → bool) (pg_get_expr : Z * Z → string).
Implicit Types t : AuditTable J.

(** Each row lies in its partition's bounds, or in DEFAULT. *)
Definition table_ok t : Prop :=
  at_parts t !! DEFAULT_PARTITION = None ∧
  ∀ r, r ∈ at_rows t → r.1 = DEFAULT_PARTITION ∨
    ∃ b, at_parts t !! r.1 = Some b ∧ within b (al_created r.2) = true.

(** The rows still inside the retention window. *)
Definition recent (cutoff : Z) t : list (string * AuditRow J) :=
  filter (λ r, cutoff <= al_created r.2) (at_rows t).

Lemma drop_loop_cases cutoff ps t :
  (∀ b, partition_upper_bound (pg_get_expr b) = None ∨ partition_upper_bound (pg_get_expr b) = Some b.2) →
  NoDup ps.*1 → (∀ p, p ∈ ps → at_parts t !! p.1 = Some p.2) → table_ok t →
  let t' := drop_loop refused cutoff ((λ p : string * (Z * Z), (p.1, pg_get_expr p.2)) <$> ps) t in
  recent cutoff t' = recent cutoff t ∧ table_ok t' ∧ at_parts t' ⊆ at_parts t ∧
  (∀ r, r ∈ at_rows t' → r ∈ at_rows t) ∧
  (∀ p, p ∈ ps → refused p.1 = false → is_Some (partition_upper_bound (pg_get_expr p.2)) →
     p.2.2 <= cutoff → at_parts t' !! p.1 = None).
Proof.
  intros Hpg Hnd. revert t. induction ps as [|[name b] ps IH]; intros t Hps Hok; simpl.
  { split_and!; try done. intros p Hp. by apply elem_of_nil in Hp. }
  simpl in Hnd. apply NoDup_cons in Hnd as [Hname Hnd].
  assert (Hrest : ∀ p, p ∈ ps → p.1 ≠ name).
  { intros p Hp <-. by apply Hname, list_elem_of_fmap_2. }
  assert (Hb : at_parts t !! name = Some b) by (apply (Hps (name, b)); left).
  assert (Hskip : ∀ upper, partition_upper_bound (pg_get_expr b) = upper →
    (refused name = true ∨ upper = None ∨ cutoff < b.2) →
    let t' := drop_loop refused cutoff ((λ p : string * (Z * Z), (p.1, pg_get_expr p.2)) <$> ps) t in
    recent cutoff t' = recent cutoff t ∧ table_ok t' ∧ at_parts t' ⊆ at_parts t ∧
    (∀ r, r ∈ at_rows t' → r ∈ at_rows t) ∧
    (∀ p, p ∈ (name, b) :: ps → refused p.1 = false → is_Some (partition_upper_bound (pg_get_expr p.2)) →
       p.2.2 <= cutoff → at_parts t' !! p.1 = None)).
  { intros upper Hu Hno. destruct (IH Hnd t) as (H1 & H2 & H3 & H4 & H5); [intros; apply Hps; by right|done|].
    split_and!; [done..|].
    intros p [->|Hp]%elem_of_cons Href Hs Hle; [|by apply H5]. simpl in *. exfalso.
    rewrite Hu in Hs. destruct Hno as [?|[->|?]]; [congruence|by destruct Hs|lia]. }
  destruct (partition_upper_bound (pg_get_expr b)) as [upper|] eqn:Hu; [|apply (Hskip None); auto].
  destruct (Hpg b) as [Hpb|Hpb]; [congruence|]. assert (upper = b.2) as -> by congruence.
  destruct (cutoff <? b.2) eqn:Hc; [apply (Hskip (Some b.2)); zbool; auto|]. apply Z.ltb_ge in Hc.
  destruct (refused name) eqn:Href; [apply (Hskip (Some b.2)); auto|]. clear Hskip.
  set (t1 := drop_partition name t).
  destruct Hok as [Hdef Hrows].
  assert (Hok1 : table_ok t1).
  { split; [simpl; destruct (decide (name = DEFAULT_PARTITION)) as [->|];
      [by rewrite lookup_delete_eq|by rewrite lookup_delete_ne]|].
    simpl. intros r [Hn Hr]%list_elem_of_filter. destruct (Hrows r Hr) as [|(c & Hc1 & ?)]; [by left|].
    right. exists c. by rewrite lookup_delete_ne. }
  destruct (IH Hnd t1) as (H1 & H2 & H3 & H4 & H5).
  { intros p Hp. simpl. rewrite lookup_delete_ne; [apply Hps; by right|]. intros Heq. by apply (Hrest p). }
  { done. }
  split_and!; [|done| | |].
  - etrans; [exact H1|]. unfold recent, t1. simpl. apply filter_keeps. intros r Hr Hrec Hn.
    destruct (Hrows r Hr) as [Hd|(c & Hc1 & Hw)]; [congruence|].
    assert (c = b) as -> by congruence. unfold within in Hw. zlia.
  - etrans; [exact H3|]. apply delete_subseteq.
  - intros r Hr. apply H4 in Hr. by apply list_elem_of_filter in Hr as [_ ?].
  - intros p [->|Hp]%elem_of_cons Hrf Hs Hle; [|by apply H5]. simpl.
    apply eq_None_not_Some. intros [c Hl].
    pose proof (lookup_weaken _ _ _ _ Hl H3) as Hl'. simpl in Hl'. by rewrite lookup_delete_eq in Hl'.
Qed.

(** The bound PostgreSQL reports for a partition is readable and past the cutoff. *)
Definition expired (cutoff : Z) (b : Z * Z) : bool :=
  match partition_upper_bound (pg_get_expr b) with Some upper => upper <=? cutoff | None => false end.

(** The rows of one partition. *)
Definition rows_in (name : string) t : list (string * AuditRow J) := filter (λ r, r.1 = name) (at_rows t).

Lemma drop_partition_other name other t :
  other ≠ name → at_parts (drop_partition name t) !! other = at_parts t !! other ∧
    rows_in other (drop_partition name t) = rows_in other t.
Proof.
  intros Hne. simpl. split; [by apply lookup_delete_ne|]. apply filter_keeps. intros r _ -> Heq. by apply Hne.
Qed.

Lemma drop_loop_other cutoff rows name t :
  (name ∉ rows.*1) → at_parts (drop_loop refused cutoff rows t) !! name = at_parts t !! name ∧
    rows_in name (drop_loop refused cutoff rows t) = rows_in name t.
Proof.
  revert t. induction rows as [|[n bounds] rows IH]; intros t Hn; simpl; [done|].
  apply not_elem_of_cons in Hn as [Hne Hn].
  destruct (partition_upper_bound bounds) as [upper|]; [|by apply IH]. destruct (cutoff <? upper); [by apply IH|].
  destruct (IH (if refused n then t else drop_partition n t) Hn) as [-> ->]. destruct (refused n); [done|].
  by apply drop_partition_other.
Qed.

(** The fate of each partition the loop visits. *)
Lemma drop_loop_fate cutoff ps t name b :
  NoDup ps.*1 → (name, b) ∈ ps → at_parts t !! name = Some b →
  let t' := drop_loop refused cutoff ((λ p : string * (Z * Z), (p.1, pg_get_expr p.2)) <$> ps) t in
  if expired cutoff b && negb (refused name) then at_parts t' !! name = None
  else at_parts t' !! name = Some b ∧ rows_in name t' = rows_in name t.
Proof.
  intros Hnd. revert t. induction ps as [|[n c] ps IH]; intros t Hin Hb; [by apply elem_of_nil in Hin|].
  simpl in Hnd. apply NoDup_cons in Hnd as [Hn Hnd]. cbn zeta. simpl.
  assert (Hfst : ((λ p : string * (Z * Z), (p.1, pg_get_expr p.2)) <$> ps).*1 = ps.*1).
  { rewrite <-list_fmap_compose. by apply list_fmap_ext. }
  apply elem_of_cons in Hin as [[= <- <-]|Hin].
  - change (name ∉ ps.*1) in Hn. rewrite <-Hfst in Hn. unfold expired. destruct (partition_upper_bound (pg_get_expr b)) as [upper|].
    2:{ destruct (drop_loop_other cutoff _ name t Hn) as [H1 H2]. by split; [etrans; [exact H1|]|exact H2]. }
    rewrite Z.leb_antisym. destruct (cutoff <? upper); simpl.
    { destruct (drop_loop_other cutoff _ name t Hn) as [H1 H2]. by split; [etrans; [exact H1|]|exact H2]. }
    pose proof (drop_loop_other cutoff _ name (if refused name then t else drop_partition name t) Hn) as [H1 H2].
    destruct (refused name); simpl; [by split; [etrans; [exact H1|]|exact H2]|]. etrans; [exact H1|]. apply lookup_delete_eq.
  - assert (Hne : name ≠ n) by (intros ->; apply Hn; by apply (list_elem_of_fmap_2 fst) in Hin).
    destruct (partition_upper_bound (pg_get_expr c)) as [upper|]; [|by apply IH].
    destruct (cutoff <? upper); [by apply IH|].
    destruct (refused n); [by apply IH|]. destruct (drop_partition_other n name t Hne) as [Hp <-].
    apply IH; [done|done|by rewrite Hp].
Qed.

(** C34 (retention: nothing too early, nothing a month too late).  Whatever
    statements fail, the purge keeps every row inside the retention window, once
    each and in its partition, and invents none.  A partition goes exactly when the
    bound PostgreSQL reports for it is readable and past the cutoff and its DROP does
    not fail; every other one - the month across the cutoff, one whose bound cannot be
    read - stays with all of its rows.  When moreover every partition is one month
    under that month's name (none was made by hand with another range), every bound
    is readable and no statement fails, no row is left that is older than the window
    by 31 days or more. *)
Theorem purge_respects_retention retention_days now t :
  (∀ b, partition_upper_bound (pg_get_expr b) = None ∨ partition_upper_bound (pg_get_expr b) = Some b.2) →
  table_ok t →
  let cutoff := now - retention_days * DAY in
  let t' := purge_old_audit_logs refused pg_get_expr retention_days now t in
  recent cutoff t' = recent cutoff t ∧ (∀ r, r ∈ at_rows t' → r ∈ at_rows t) ∧ table_ok t' ∧
  at_parts t' ⊆ at_parts t ∧
  (∀ name b, at_parts t !! name = Some b →
     if expired cutoff b && negb (refused name) then at_parts t' !! name = None
     else at_parts t' !! name = Some b ∧ rows_in name t' = rows_in name t) ∧
  (monthly t → (∀ name, refused name = false) →
   (∀ name b, at_parts t !! name = Some b → is_Some (partition_upper_bound (pg_get_expr b))) →
   ∀ r, r ∈ at_rows t' → cutoff - 31 * DAY < al_created r.2).
Proof.
  intros Hpg Hok. cbn zeta. unfold purge_old_audit_logs. set (cutoff := now - retention_days * DAY).
  destruct (drop_loop_cases cutoff (map_to_list (at_parts t)) t) as (H1 & H2 & H3 & H4 & H5);
    [done|apply NoDup_fst_map_to_list|intros [n b] Hp; by apply elem_of_map_to_list|done|].
  set (t1 := drop_loop _ _ _ t) in *.
  assert (Hsub : ∀ r, r ∈ at_rows (delete_default cutoff t1) → r ∈ at_rows t1)
    by (intros r Hr; by apply list_elem_of_filter in Hr as [_ ?]).
  split_and!.
  - destruct (refused DEFAULT_PARTITION); [done|]. rewrite <-H1. unfold recent. simpl.
    apply filter_keeps. intros r _ Hrec [_ ?]. lia.
  - intros r Hr. apply H4. destruct (refused DEFAULT_PARTITION); auto.
  - destruct (refused DEFAULT_PARTITION); [done|]. destruct H2 as [Hd Hr]. split; [exact Hd|]. auto.
  - by destruct (refused DEFAULT_PARTITION).
  - intros name b Hb. pose proof (drop_loop_fate cutoff (map_to_list (at_parts t)) t name b
      (NoDup_fst_map_to_list _) (proj2 (elem_of_map_to_list _ _ _) Hb) Hb) as Hfate. cbn zeta in Hfate. fold t1 in Hfate.
    destruct (refused DEFAULT_PARTITION); [done|]. destruct (_ && _); [done|]. destruct Hfate as [Hp <-]. split; [done|].
    apply filter_keeps. intros r _ Hr [Hdef _]. destruct Hok as [Hno _]. congruence.
  - intros Hm Hnone Hread r Hr. rewrite Hnone in Hr.
    apply list_elem_of_filter in Hr as [Hnot Hr].
    destruct H2 as [_ Hrows]. destruct (Hrows r Hr) as [Hd|(b & Hb & Hw)].
    + destruct (Z.lt_ge_cases (al_created r.2) cutoff); [exfalso; by apply Hnot|unfold DAY; lia].
    + pose proof (lookup_weaken _ _ _ _ Hb H3) as Hb0.
      destruct (Z.lt_ge_cases cutoff b.2) as [Hlt|Hle].
      2:{ assert (at_parts t1 !! r.1 = None); [|congruence].
          apply (H5 (r.1, b)); [by apply elem_of_map_to_list|apply Hnone|by eapply Hread|done]. }
      destruct (Hm _ _ Hb0) as (ym & [_ Hmo] & _ & ->). pose proof (month_nonempty ym Hmo).
      unfold within in Hw. apply andb_true_iff in Hw as [Hlo _]. apply Z.leb_le in Hlo. lia.
Qed.
End purge.

(** ** At concrete inputs *)

Definition sept : Z * Z := (2026, 9).

(** PostgreSQL's text for the one partition of the table below. *)
Definition sept_expr (b : Z * Z) : string :=
  if bool_decide (b = month_bounds sept)
  then "FOR VALUES FROM ('2026-09-01 00:00:00+00') TO ('2026-10-01 00:00:00+00')" else "DEFAULT".
Definition demo_row (t : Z) : AuditRow string :=
  mk_audit_row "event.updated" None None None None "{}" true None t.
Definition demo_table : AuditTable string :=
  mk_audit_table {["audit_logs_2026_09" := month_bounds sept]}
    [("audit_logs_2026_09", demo_row (month_start 2026 9)); ("audit_logs_default", demo_row (month_start 2027 1))].

Lemma purge_respects_retention_witness :
  let t := purge_old_audit_logs (λ _, false) sept_expr 90 (month_start 2027 1) demo_table in
  recent (month_start 2027 1 - 90 * DAY) t = [("audit_logs_default", demo_row (month_start 2027 1))] ∧
  at_parts t = ∅.
Proof.
  split; [|by vm_compute].
  destruct (purge_respects_retention (λ _, false) sept_expr 90 (month_start 2027 1) demo_table)
    as [H _].
  - intros b. unfold sept_expr. case_bool_decide as Hb; [right; subst; by vm_compute|left; by vm_compute].
  - split; [done|]. intros r Hr. unfold demo_table in Hr. cbn [at_rows] in Hr.
    apply elem_of_cons in Hr as [->|Hr]; [right; exists (month_bounds sept); split; by vm_compute|].
    apply list_elem_of_singleton in Hr as ->. by left.
  - etrans; [exact H|by vm_compute].
Defined.
