(* ===== verification/AuditTrail.v ===== *)
(** The audit trail: what the endpoints append to the stream
    (src/app/services/audit.py), and the consumer of src/app/worker.py that moves it
    into the partitioned table, with its recovery of stuck entries and its dead
    letters.  The Redis clock of the stream is in milliseconds, an event's own
    time in microseconds. *)

From Stdlib Require Import Ascii String.
From S2P Require Import Prelude Text Exceptions Keys Redis Streams RateLimit Calendar AuditLog.

#[local] Open Scope string_scope.
#[local] Open Scope list_scope.
#[local] Open Scope Z_scope.

Definition AUDIT_STREAM_MAX_LEN : Z := 100000.
Definition AUDIT_DEAD_LETTER_MAX_LEN : Z := 10000.
Definition AUDIT_BATCH : nat := 1000.
Definition AUDIT_MAX_BATCHES : nat := 50.
Definition AUDIT_CONSUMER_NAME : string := "worker".

Section audit.
Context {J : Type} (dumps : J → string) (loads : string → option J) (empty_object : J).

(** What an endpoint reports. *)
Record AuditEvent : Type := mk_audit_event {
  ae_event_type : string;
  ae_actor_user_id : option Z;
  ae_actor_ip : option string;
  ae_target_type : option string;
  ae_target_id : option string;
  ae_payload : option J;
  ae_success : bool;
  ae_error_code : option string;
}.

(** The fields of [emit_event]; [dumps] is [json.dumps(..., default=str)]. *)
Definition event_fields (e : AuditEvent) (created : UtcTime) : fields :=
  list_to_map [
    ("event_type", ae_event_type e);
    ("actor_user_id", match ae_actor_user_id e with Some n => z_str n | None => "" end);
    ("actor_ip", default "" (ae_actor_ip e));
    ("target_type", default "" (ae_target_type e));
    ("target_id", default "" (ae_target_id e));
    ("payload", dumps (default empty_object (ae_payload e)));
    ("success", if ae_success e then "1" else "0");
    ("error_code", default "" (ae_error_code e));
    ("created_at", isoformat created)].

(** [emit_event] *)
Definition emit_event (excess now : Z) (e : AuditEvent) (created : UtcTime) (s : Stream) : Stream :=
  xadd_capped excess AUDIT_STREAM_MAX_LEN now (event_fields e created) s.

(** [_audit_row]; [db_now] is the server default of a missing [created_at]. *)
Definition audit_row (db_now : Z) (f : fields) : result exn (AuditRow J) :=
  let? event_type := match f !! "event_type" with Some s => Ok s | None => Err KeyError end in
  let? actor := match optional_field f "actor_user_id" with
                | Some s => let? n := int_str s in Ok (Some n)
                | None => Ok None
                end in
  let? payload := match optional_field f "payload" with
                  | Some s => match loads s with Some j => Ok j | None => Err ValueError end
                  | None => Ok empty_object
                  end in
  let? created := match optional_field f "created_at" with
                  | Some s => match fromisoformat s with Some t => Ok t | None => Err ValueError end
                  | None => Ok db_now
                  end in
  Ok (mk_audit_row event_type actor (optional_field f "actor_ip") (optional_field f "target_type")
        (optional_field f "target_id") payload (bool_decide (f !! "success" = Some "1"))
        (optional_field f "error_code") created).

(** ** The consumer *)

Record AuditSys : Type := mk_audit_sys {
  as_now : Z;                  (* the Redis clock *)
  as_stream : Stream;          (* audit:events *)
  as_dead : Stream;            (* audit:events:dead *)
  as_users : gset Z;
  as_table : AuditTable J;
}.

Definition set_audit_stream (s : Stream) (a : AuditSys) : AuditSys :=
  mk_audit_sys (as_now a) s (as_dead a) (as_users a) (as_table a).
Definition set_audit_dead (s : Stream) (a : AuditSys) : AuditSys :=
  mk_audit_sys (as_now a) (as_stream a) s (as_users a) (as_table a).
Definition set_audit_table (t : AuditTable J) (a : AuditSys) : AuditSys :=
  mk_audit_sys (as_now a) (as_stream a) (as_dead a) (as_users a) t.

(** The lengths and the foreign key of [audit_logs]. *)
Definition fits (n : nat) (s : option string) : bool :=
  match s with Some s => Nat.leb (String.length s) n | None => true end.
Definition row_fits (users : gset Z) (r : AuditRow J) : bool :=
  fits 64 (Some (al_event_type r)) && fits 45 (al_ip r) && fits 32 (al_target_type r) &&
  fits 64 (al_target_id r) && fits 64 (al_error_code r) &&
  match al_actor r with Some u => bool_decide (u ∈ users) | None => true end.

(** [up]: whether the database takes the transaction that writes these entries. *)
Context (up : list sid → bool) (db_now : Z).

Definition readable (f : fields) : bool := is_ok (audit_row db_now f).

(** The entries that can be turned into rows, with their rows. *)
Definition prepare (entries : list (sid * fields)) : list (sid * AuditRow J) :=
  omap (λ e, match audit_row db_now e.2 with Ok r => Some (e.1, r) | Err _ => None end) entries.

Definition insert_rows (rows : list (AuditRow J)) (t : AuditTable J) : AuditTable J :=
  foldl (λ t r, insert_row r t) t rows.

(** The second pass: one transaction per entry. *)
Fixpoint write_each (users : gset Z) (prepared : list (sid * AuditRow J)) (t : AuditTable J)
    : list sid * AuditTable J :=
  match prepared with
  | [] => ([], t)
  | (i, r) :: rest =>
      if row_fits users r && up [i] then
        let '(acked, t') := write_each users rest (insert_row r t) in (i :: acked, t')
      else write_each users rest t
  end.

(** [_write_audit_rows]: the ids to acknowledge, the entries no retry can save. *)
Definition write_audit_rows (entries : list (sid * fields)) (a : AuditSys)
    : (list sid * list (sid * fields)) * AuditSys :=
  let prepared := prepare entries in
  let unwritable := filter (λ e, readable e.2 = false) entries in
  match prepared with
  | [] => (([], unwritable), a)
  | _ =>
      if forallb (λ p, row_fits (as_users a) p.2) prepared && up prepared.*1
      then ((prepared.*1, unwritable), set_audit_table (insert_rows prepared.*2 (as_table a)) a)
      else
        let '(acked, t) := write_each (as_users a) prepared (as_table a) in
        ((acked, unwritable), set_audit_table t a)
  end.

(** [excess]: how far an approximate trim goes. *)
Context (excess : Z).

(** [_dead_letter_audit] *)
Definition dead_letter_audit (e : sid * fields) (reason : string) (a : AuditSys) : AuditSys :=
  let dead := xadd_capped excess AUDIT_DEAD_LETTER_MAX_LEN (as_now a)
    (<["_original_id" := sid_str e.1]> (<["_dead_reason" := reason]> e.2)) (as_dead a) in
  set_audit_stream (xack e.1 (as_stream a)) (set_audit_dead dead a).

(** Writing a list of entries, then the dead letters, then [XACK]. *)
Definition settle (entries : list (sid * fields)) (a : AuditSys) : list sid * AuditSys :=
  let '((acked, unwritable), a) := write_audit_rows entries a in
  let a := foldl (λ a e, dead_letter_audit e "malformed" a) a unwritable in
  (acked, set_audit_stream (foldl (λ s i, xack i s) (as_stream a) acked) a).

(** The claims of a recovery: an entry past its deliveries is given up. *)
Fixpoint claim_pending (min_idle max_deliveries : Z) (l : list (sid * pending)) (a : AuditSys)
    : list (sid * fields) * AuditSys :=
  match l with
  | [] => ([], a)
  | p :: l' =>
      let '(claimed, s) := xclaim (as_now a) min_idle AUDIT_CONSUMER_NAME p.1 (as_stream a) in
      let a := set_audit_stream s a in
      match claimed with
      | None => claim_pending min_idle max_deliveries l' a
      | Some f =>
          if max_deliveries <=? p_count p.2
          then claim_pending min_idle max_deliveries l'
                 (dead_letter_audit (p.1, f) (z_str (p_count p.2) +:+ " deliveries exhausted") a)
          else
            let '(claimable, a) := claim_pending min_idle max_deliveries l' a in
            ((p.1, f) :: claimable, a)
      end
  end.

(** [_reclaim_audit_entries] *)
Definition reclaim_audit_entries (min_idle max_deliveries : Z) (a : AuditSys) : Z * AuditSys :=
  let pending := xpending (as_now a) min_idle 500 (as_stream a) in
  let '(claimable, a) := claim_pending min_idle max_deliveries pending a in
  match claimable with
  | [] => (0, a)
  | _ => let '(acked, a) := settle claimable a in (Z.of_nat (List.length acked), a)
  end.

(** [_consume_audit_batch] *)
Definition consume_audit_batch (a : AuditSys) : nat * AuditSys :=
  let '(entries, s) := xreadgroup (as_now a) AUDIT_CONSUMER_NAME AUDIT_BATCH (as_stream a) in
  let a := set_audit_stream s a in
  match entries with
  | [] => (O, a)
  | _ => let '(_, a) := settle entries a in (List.length entries, a)
  end.

(** [_audit_lag]: the entries the group has not read. *)
Definition audit_lag (s : Stream) : Z :=
  Z.of_nat (List.length (filter (λ e, sid_ltb (s_cursor s) e.1 = true) (s_entries s))).

Inductive AuditAlert : Type := Capped (drained : Z) | LagHigh (lag : Z).

(** The loop of [consume_audit_events]: until a short batch, at most [n] batches;
    true when the bound was met. *)
Fixpoint drain (n : nat) (a : AuditSys) : (nat * bool) * AuditSys :=
  match n with
  | O => ((O, true), a)
  | S n =>
      let '(got, a) := consume_audit_batch a in
      if Nat.ltb got AUDIT_BATCH then ((got, false), a)
      else let '((rest, capped), a) := drain n a in (((got + rest)%nat, capped), a)
  end.

(** [consume_audit_events]; the result is what it alerts about. *)
Definition consume_audit_events (min_idle max_deliveries lag_warn : Z) (a : AuditSys)
    : list AuditAlert * AuditSys :=
  let '(_, a) := reclaim_audit_entries min_idle max_deliveries a in
  let '((drained, capped), a) := drain AUDIT_MAX_BATCHES a in
  let lag := audit_lag (as_stream a) in
  ((if (capped : bool) then [Capped (Z.of_nat drained)] else []) ++
   (if lag_warn <? lag then [LagHigh lag] else []), a).
End audit.

(** ** What is emitted is what is written *)

Section events.
Context {J : Type} (dumps : J → string) (loads : string → option J) (empty_object : J).

(** The empty string stands for None. *)
Definition nonempty (o : option string) : option string :=
  if bool_decide (o = Some "") then None else o.

Lemma optional_default f name o :
  f !! name = Some (default "" o) → optional_field f name = nonempty o.
Proof.
  unfold optional_field, nonempty. intros ->. destruct o as [s|]; cbn [default from_option id]; [|done].
  repeat case_bool_decide; congruence.
Qed.

(** The trail says what happened.  An event the endpoint emits is read back by
    the consumer as the row that says the same: type, actor, address, target,
    outcome, payload and the instant it happened, to the microsecond - whatever
    the clock of the database says when it is written. *)
Theorem audit_event_roundtrip e created db_now :
  loads (dumps (default empty_object (ae_payload e))) = Some (default empty_object (ae_payload e)) →
  dumps (default empty_object (ae_payload e)) ≠ "" →
  valid_utc created = true →
  audit_row loads empty_object db_now (event_fields dumps empty_object e created) =
    Ok (mk_audit_row (ae_event_type e) (ae_actor_user_id e) (nonempty (ae_actor_ip e))
          (nonempty (ae_target_type e)) (nonempty (ae_target_id e))
          (default empty_object (ae_payload e)) (ae_success e) (nonempty (ae_error_code e))
          (instant created)).
Proof.
  intros Hl Hd Hv. set (f := event_fields dumps empty_object e created).
  assert (Ht : f !! "event_type" = Some (ae_event_type e)) by done.
  assert (Ha : optional_field f "actor_user_id" = z_str <$> ae_actor_user_id e).
  { unfold optional_field. change (f !! "actor_user_id") with
      (Some (match ae_actor_user_id e with Some n => z_str n | None => "" end)).
    cbv beta iota. destruct (ae_actor_user_id e) as [n|]; [|done]. case_bool_decide as H; [|done].
    exfalso. pose proof (z_parse_str n) as Hp. by rewrite H in Hp. }
  assert (Hp : optional_field f "payload" = Some (dumps (default empty_object (ae_payload e)))).
  { unfold optional_field. change (f !! "payload") with (Some (dumps (default empty_object (ae_payload e)))).
    cbv beta iota. by case_bool_decide. }
  assert (Hc : optional_field f "created_at" = Some (isoformat created)).
  { unfold optional_field. change (f !! "created_at") with (Some (isoformat created)).
    cbv beta iota. case_bool_decide as H; [|done]. exfalso.
    pose proof (fromisoformat_isoformat created Hv) as H'. by rewrite H in H'. }
  assert (Hs : bool_decide (f !! "success" = Some "1") = ae_success e).
  { change (f !! "success") with (Some (if ae_success e then "1" else "0")). by destruct (ae_success e). }
  unfold audit_row. rewrite Ht, Ha, Hp, Hc, Hs, Hl, (fromisoformat_isoformat _ Hv).
  rewrite (optional_default f "actor_ip" (ae_actor_ip e)) by done.
  rewrite (optional_default f "target_type" (ae_target_type e)) by done.
  rewrite (optional_default f "target_id" (ae_target_id e)) by done.
  rewrite (optional_default f "error_code" (ae_error_code e)) by done.
  destruct (ae_actor_user_id e) as [n|]; simpl; [|done]. unfold int_str. by rewrite z_parse_str.
Qed.
End events.

(** ** Every event is accounted for *)

Section accounting.
Context {J : Type} (loads : string → option J) (empty_object : J).
Context (up : list sid → bool) (db_now excess : Z).
Implicit Types a : AuditSys (J := J).

(* the operations with their parameters *)
#[local] Abbreviation row_of := (audit_row loads empty_object db_now).
#[local] Abbreviation write := (write_audit_rows loads empty_object up db_now).
#[local] Abbreviation dead_letter := (dead_letter_audit excess).
#[local] Abbreviation settling := (settle loads empty_object up db_now excess).

Definition dead_fields (e : sid * fields) (why : string) : fields :=
  <["_original_id" := sid_str e.1]> (<["_dead_reason" := why]> e.2).

(** The entry's row is in the table. *)
Definition on_record a (e : sid * fields) : Prop :=
  ∃ r part, row_of e.2 = Ok r ∧ (part, r) ∈ at_rows (as_table a).

(** What a run may do: [gone] is what it gave to the dead letters, of which the
    capped stream keeps the newest. *)
Record progress a a' (gone : list (sid * fields)) : Prop := {
  pg_entries : s_entries (as_stream a') = s_entries (as_stream a);
  pg_users : as_users a' = as_users a;
  pg_dead : ∃ trimmed, s_entries (as_dead a) ++ gone = trimmed ++ s_entries (as_dead a');
  pg_rows : ∃ l, at_rows (as_table a') = at_rows (as_table a) ++ l ∧
    ∀ x, x ∈ l → ∃ e, e ∈ s_entries (as_stream a) ∧ row_of e.2 = Ok x.2;
  pg_open : ∀ e, open_entry (as_stream a) e →
    open_entry (as_stream a') e ∨ on_record a' e ∨ ∃ i why, (i, dead_fields e why) ∈ gone;
}.

Lemma progress_refl a : progress a a [].
Proof.
  split; [done|done|by exists []; rewrite app_nil_r| |by left].
  exists []. split; [by rewrite app_nil_r|]. intros x Hx. by apply elem_of_nil in Hx.
Qed.

Lemma on_record_grows a a' gone e : progress a a' gone → on_record a e → on_record a' e.
Proof.
  intros Hp (r & part & Hr & Hin). exists r, part. split; [done|].
  destruct (pg_rows _ _ _ Hp) as (l & -> & _). apply elem_of_app. by left.
Qed.

Lemma progress_trans a b c g1 g2 : progress a b g1 → progress b c g2 → progress a c (g1 ++ g2).
Proof.
  intros H1 H2. split.
  - by rewrite (pg_entries _ _ _ H2), (pg_entries _ _ _ H1).
  - by rewrite (pg_users _ _ _ H2), (pg_users _ _ _ H1).
  - destruct (pg_dead _ _ _ H1) as [t1 Ht1], (pg_dead _ _ _ H2) as [t2 Ht2]. exists (t1 ++ t2).
    by rewrite app_assoc, Ht1, <-!app_assoc, Ht2.
  - destruct (pg_rows _ _ _ H1) as (l1 & Hl1 & Hx1), (pg_rows _ _ _ H2) as (l2 & Hl2 & Hx2).
    exists (l1 ++ l2). split; [by rewrite Hl2, Hl1, app_assoc|].
    intros x [Hx|Hx]%elem_of_app; [by apply Hx1|]. rewrite <-(pg_entries _ _ _ H1). by apply Hx2.
  - intros e He. destruct (pg_open _ _ _ H1 e He) as [Ho|[Hr|(i & why & Hg)]].
    + destruct (pg_open _ _ _ H2 e Ho) as [?|[?|(i & why & Hg)]]; [by left|by right; left|].
      right. right. exists i, why. apply elem_of_app. by right.
    + right. left. by eapply on_record_grows.
    + right. right. exists i, why. apply elem_of_app. by left.
Qed.

(** A step that only touches the group, and closes nothing. *)
Lemma progress_stream a s :
  s_entries s = s_entries (as_stream a) → (∀ e, open_entry (as_stream a) e → open_entry s e) →
  progress a (set_audit_stream s a) [].
Proof.
  intros He Ho. split; [done|done|by exists []; rewrite app_nil_r| |by left; apply Ho].
  exists []. split; [by rewrite app_nil_r|]. intros x Hx. by apply elem_of_nil in Hx.
Qed.

(** *** Writing *)

Lemma elem_of_prepare entries i r :
  (i, r) ∈ prepare loads empty_object db_now entries ↔ ∃ f, (i, f) ∈ entries ∧ row_of f = Ok r.
Proof.
  unfold prepare. rewrite list_elem_of_omap. split.
  - intros ([j f] & Hin & H). simpl in H. destruct (row_of f) eqn:Hf; simplify_eq. by exists f.
  - intros (f & Hin & Hf). exists (i, f). split; [done|]. simpl. by rewrite Hf.
Qed.

Lemma insert_rows_app rows (t : AuditTable J) :
  ∃ l, at_rows (insert_rows rows t) = at_rows t ++ l ∧ l.*2 = rows.
Proof.
  revert t. induction rows as [|r rows IH]; intros t; simpl; [exists []; by rewrite app_nil_r|].
  destruct (IH (insert_row r t)) as (l & Hl & Hs). exists ((route t (al_created r), r) :: l). split; [|csimpl; by rewrite Hs].
  change (insert_rows (r :: rows) t) with (insert_rows rows (insert_row r t)).
  rewrite Hl. simpl. by rewrite <-app_assoc.
Qed.

Lemma write_each_cases users prepared (t : AuditTable J) :
  let '(acked, t') := write_each up users prepared t in
  ∃ l, at_rows t' = at_rows t ++ l ∧ (∀ x, x ∈ l → ∃ i, (i, x.2) ∈ prepared) ∧
    ∀ i, i ∈ acked → ∃ r, (i, r) ∈ prepared ∧ r ∈ l.*2.
Proof.
  revert t. induction prepared as [|[i r] rest IH]; intros t; simpl.
  { exists []. split_and!; [by rewrite app_nil_r|by intros x ?%elem_of_nil..]. }
  destruct (row_fits users r && up [i]).
  - specialize (IH (insert_row r t)). destruct (write_each up users rest _) as [acked t'].
    destruct IH as (l & Hl & Hin & Hack). exists ((route t (al_created r), r) :: l). split_and!.
    + rewrite Hl. simpl. by rewrite <-app_assoc.
    + intros x [->|Hx]%elem_of_cons; [exists i; left|]. destruct (Hin x Hx) as [j ?]. exists j. by right.
    + intros j [->|Hj]%elem_of_cons; [exists r; split; left|].
      destruct (Hack j Hj) as (r' & ? & ?). exists r'. split; by right.
  - specialize (IH t). destruct (write_each up users rest t) as [acked t'].
    destruct IH as (l & Hl & Hin & Hack). exists l. split_and!; [done| |].
    + intros x Hx. destruct (Hin x Hx) as [j ?]. exists j. by right.
    + intros j Hj. destruct (Hack j Hj) as (r' & ? & ?). exists r'. split; [by right|done].
Qed.

Lemma write_cases entries a :
  (∀ e, e ∈ entries → e ∈ s_entries (as_stream a)) →
  let '((acked, unwritable), a') := write entries a in
  progress a a' [] ∧ as_stream a' = as_stream a ∧
  (∀ i, i ∈ acked → ∃ f, (i, f) ∈ entries ∧ on_record a' (i, f)) ∧
  (∀ e, e ∈ unwritable ↔ e ∈ entries ∧ ∃ ex, row_of e.2 = Err ex).
Proof.
  intros Hsub.
  assert (Hun : ∀ e, e ∈ filter (λ e : sid * fields, readable loads empty_object db_now e.2 = false) entries ↔
    e ∈ entries ∧ ∃ ex, row_of e.2 = Err ex).
  { intros e. rewrite list_elem_of_filter. unfold readable.
    destruct (row_of e.2) as [r|ex]; simpl;
      [split; [by intros []|by intros [_ [??]]]|split; intros []; eauto]. }
  assert (Hgen : ∀ t' l, at_rows t' = at_rows (as_table a) ++ l →
    (∀ x, x ∈ l → ∃ i, (i, x.2) ∈ prepare loads empty_object db_now entries) →
    progress a (set_audit_table t' a) []).
  { intros t' l Hl Hin. split; [done|done|by exists []; rewrite app_nil_r| |by left].
    exists l. split; [done|]. intros x Hx. destruct (Hin x Hx) as [i Hi].
    apply elem_of_prepare in Hi as (f & Hf & Hr). exists (i, f). by split; [apply Hsub|]. }
  assert (Hrec : ∀ t' l i r, at_rows t' = at_rows (as_table a) ++ l →
    (i, r) ∈ prepare loads empty_object db_now entries → r ∈ l.*2 →
    ∃ f, (i, f) ∈ entries ∧ on_record (set_audit_table t' a) (i, f)).
  { intros t' l i r Hl Hi Hr. apply elem_of_prepare in Hi as (f & Hf & Hrow). exists f. split; [done|].
    apply list_elem_of_fmap in Hr as ([part r'] & -> & Hin). exists r', part. split; [done|].
    simpl. rewrite Hl. apply elem_of_app. by right. }
  unfold write_audit_rows. destruct (prepare loads empty_object db_now entries) as [|p prepared] eqn:Hprep.
  { split_and!; [apply progress_refl|done|by intros i ?%elem_of_nil|done]. }
  rewrite <-Hprep in *. destruct (forallb _ _ && _).
  - destruct (insert_rows_app (prepare loads empty_object db_now entries).*2 (as_table a)) as (l & Hl & Hs).
    split_and!; [apply (Hgen _ l Hl)|done| |done].
    + intros x Hx. apply (list_elem_of_fmap_2 snd) in Hx. rewrite Hs in Hx.
      apply list_elem_of_fmap in Hx as ([i r] & -> & Hin). by exists i.
    + intros i Hi. apply list_elem_of_fmap in Hi as ([j r] & -> & Hin).
      apply (Hrec _ l j r Hl Hin). rewrite Hs. by apply (list_elem_of_fmap_2 snd) in Hin.
  - pose proof (write_each_cases (as_users a) (prepare loads empty_object db_now entries) (as_table a)) as Hw.
    destruct (write_each _ _ _ _) as [acked t']. destruct Hw as (l & Hl & Hin & Hack).
    split_and!; [by apply (Hgen _ l)|done| |done].
    intros i Hi. destruct (Hack i Hi) as (r & Hp & Hr). by apply (Hrec _ l i r).
Qed.

(** *** Dead letters and acknowledgements *)

Lemma dead_letter_progress e why a :
  NoDup (s_entries (as_stream a)).*1 → e ∈ s_entries (as_stream a) →
  ∃ i, progress a (dead_letter e why a) [(i, dead_fields e why)].
Proof.
  intros Hnd He. exists (next_sid (as_now a) (as_dead a)). split.
  - done.
  - done.
  - unfold dead_letter_audit, xadd_capped. simpl. fold (dead_fields e why).
    match goal with |- context [drop ?n ?l] => exists (take n l); by rewrite take_drop end.
  - exists []. split; [by rewrite app_nil_r|]. by intros x ?%elem_of_nil.
  - intros x Hx. destruct (decide (x.1 = e.1)) as [Heq|Hne].
    + right. right. assert (x = e) as -> by (eapply nodup_fst_unique; [done|by destruct Hx|done|done]).
      exists (next_sid (as_now a) (as_dead a)), why. left.
    + left. by apply xack_open.
Qed.

Lemma dead_letters_progress l why a :
  NoDup (s_entries (as_stream a)).*1 → (∀ e, e ∈ l → e ∈ s_entries (as_stream a)) →
  ∃ gone, progress a (foldl (λ a e, dead_letter e why a) a l) gone ∧ length gone = length l ∧
    ∀ e, e ∈ l → ∃ i, (i, dead_fields e why) ∈ gone.
Proof.
  revert a. induction l as [|e l IH]; intros a Hnd Hl; simpl.
  { exists []. split_and!; [apply progress_refl|done|by intros e ?%elem_of_nil]. }
  destruct (dead_letter_progress e why a) as [i Hi]; [done|apply Hl; left|].
  destruct (IH (dead_letter e why a)) as (gone & Hg & Hlen & Hin).
  { by rewrite (pg_entries _ _ _ Hi). }
  { intros x Hx. rewrite (pg_entries _ _ _ Hi). apply Hl. by right. }
  exists ([(i, dead_fields e why)] ++ gone). split_and!; [by eapply progress_trans|simpl; lia|].
  intros x [->|Hx]%elem_of_cons; [exists i; left|].
  destruct (Hin x Hx) as [j ?]. exists j. by right.
Qed.

Lemma acks_progress acked a :
  NoDup (s_entries (as_stream a)).*1 →
  (∀ i, i ∈ acked → ∃ f, (i, f) ∈ s_entries (as_stream a) ∧ on_record a (i, f)) →
  progress a (set_audit_stream (foldl (λ s i, xack i s) (as_stream a) acked) a) [].
Proof.
  intros Hnd Hack.
  assert (Hs : s_entries (foldl (λ s i, xack i s) (as_stream a) acked) = s_entries (as_stream a)).
  { clear. generalize (as_stream a). induction acked as [|i l IH]; intros s; [done|]. simpl. by rewrite IH. }
  split; [done|done|by exists []; rewrite app_nil_r|exists []; split; [by rewrite app_nil_r|by intros x ?%elem_of_nil]|].
  intros e He. destruct (decide (e.1 ∈ acked)) as [Hin|Hin].
  - right. left. destruct (Hack _ Hin) as (f & Hf & Hr).
    assert (e = (e.1, f)) as Heq by (eapply nodup_fst_unique; [done|by destruct He|done|done]).
    rewrite Heq. exact Hr.
  - left. clear Hack Hs. revert He. simpl. generalize (as_stream a).
    induction acked as [|i l IH]; intros s He; [done|]. apply not_elem_of_cons in Hin as [? ?]. simpl.
    apply IH; [done|]. by apply xack_open.
Qed.

Lemma settle_progress entries a :
  NoDup (s_entries (as_stream a)).*1 → (∀ e, e ∈ entries → e ∈ s_entries (as_stream a)) →
  ∃ gone, progress a (settling entries a).2 gone ∧
    ∀ e, e ∈ entries → (∃ ex, row_of e.2 = Err ex) → ∃ i, (i, dead_fields e "malformed") ∈ gone.
Proof.
  intros Hnd Hin. unfold settle. pose proof (write_cases entries a Hin) as Hw.
  destruct (write entries a) as [[acked unwritable] a1]. destruct Hw as (Hp1 & Hs1 & Hack & Hun).
  destruct (dead_letters_progress unwritable "malformed" a1) as (gone & Hp2 & _ & Hg).
  { by rewrite Hs1. }
  { intros e He. rewrite Hs1. apply Hin. by apply Hun. }
  set (a2 := foldl _ a1 unwritable) in *.
  assert (Hent : s_entries (as_stream a2) = s_entries (as_stream a))
    by (by rewrite (pg_entries _ _ _ Hp2), Hs1).
  exists gone. split.
  - replace gone with (([] ++ gone) ++ []) by (by rewrite app_nil_r).
    eapply progress_trans; [by eapply progress_trans|]. simpl. apply acks_progress; [by rewrite Hent|].
    intros i Hi. destruct (Hack i Hi) as (f & Hf & Hr). exists f. rewrite Hent.
    split; [by apply Hin|by eapply on_record_grows].
  - intros e He Hex. apply Hg. by apply Hun.
Qed.

(** *** The jobs *)

#[local] Abbreviation claiming := (claim_pending excess).
#[local] Abbreviation batch := (consume_audit_batch loads empty_object up db_now excess).
#[local] Abbreviation draining := (drain loads empty_object up db_now excess).

Lemma claim_progress min_idle maxd l a :
  NoDup (s_entries (as_stream a)).*1 →
  let '(claimable, a') := claiming min_idle maxd l a in
  (∃ gone, progress a a' gone) ∧ (∀ e, e ∈ claimable → e ∈ s_entries (as_stream a)).
Proof.
  revert a. induction l as [|p l IH]; intros a Hnd; simpl.
  { split; [exists []; apply progress_refl|by intros e ?%elem_of_nil]. }
  pose proof (xclaim_open (as_now a) min_idle AUDIT_CONSUMER_NAME p.1 (as_stream a)) as Hx.
  destruct (xclaim _ _ _ _ _) as [claimed s]. destruct Hx as (Hs & Ho & Hf).
  set (a1 := set_audit_stream s a).
  assert (H1 : progress a a1 []) by (by apply progress_stream).
  assert (Hnd1 : NoDup (s_entries (as_stream a1)).*1) by (simpl; by rewrite Hs).
  destruct claimed as [f|].
  - destruct (maxd <=? p_count p.2).
    + destruct (dead_letter_progress (p.1, f) (z_str (p_count p.2) +:+ " deliveries exhausted") a1)
        as [i H2]; [done|simpl; rewrite Hs; by apply Hf|].
      specialize (IH (dead_letter (p.1, f) (z_str (p_count p.2) +:+ " deliveries exhausted") a1)).
      destruct (claiming min_idle maxd l _) as [claimable a'].
      destruct IH as [[gone H3] Hc]; [by rewrite (pg_entries _ _ _ H2)|].
      split; [eexists; eapply progress_trans; [exact H1|by eapply progress_trans]|].
      intros e He. specialize (Hc e He). rewrite (pg_entries _ _ _ H2) in Hc. simpl in Hc. by rewrite <-Hs.
    + specialize (IH a1 Hnd1). destruct (claiming min_idle maxd l a1) as [claimable a'].
      destruct IH as [[gone H3] Hc]. split; [eexists; by eapply progress_trans|].
      intros e [->|He]%elem_of_cons; [by apply Hf|]. rewrite <-Hs. by apply Hc.
  - specialize (IH a1 Hnd1). destruct (claiming min_idle maxd l a1) as [claimable a'].
    destruct IH as [[gone H3] Hc]. split; [eexists; by eapply progress_trans|].
    intros e He. rewrite <-Hs. by apply Hc.
Qed.

Lemma reclaim_progress min_idle maxd a :
  NoDup (s_entries (as_stream a)).*1 →
  ∃ gone, progress a (reclaim_audit_entries loads empty_object up db_now excess min_idle maxd a).2 gone.
Proof.
  intros Hnd. unfold reclaim_audit_entries.
  pose proof (claim_progress min_idle maxd (xpending (as_now a) min_idle 500 (as_stream a)) a Hnd) as Hc.
  destruct (claiming _ _ _ _) as [claimable a1]. destruct Hc as [[g1 H1] Hin].
  destruct claimable as [|e claimable]; [by exists g1|].
  destruct (settle_progress (e :: claimable) a1) as (g2 & H2 & _).
  { by rewrite (pg_entries _ _ _ H1). }
  { intros x Hx. rewrite (pg_entries _ _ _ H1). by apply Hin. }
  destruct (settling (e :: claimable) a1) as [acked a2]. eexists. by eapply progress_trans.
Qed.

Lemma batch_progress a :
  StronglySorted id_before (s_entries (as_stream a)) →
  let '(got, a') := batch a in
  (∃ gone, progress a a' gone) ∧
  ((got < AUDIT_BATCH)%nat → ∀ e, e ∈ s_entries (as_stream a') → sid_ltb (s_cursor (as_stream a')) e.1 = false).
Proof.
  intros Hs. unfold consume_audit_batch.
  pose proof (xreadgroup_open (as_now a) AUDIT_CONSUMER_NAME AUDIT_BATCH (as_stream a) Hs) as Hx.
  pose proof (xreadgroup_short (as_now a) AUDIT_CONSUMER_NAME AUDIT_BATCH (as_stream a) Hs) as Hsh.
  destruct (xreadgroup _ _ _ _) as [entries s]. destruct Hx as (Hent & Hin & Ho).
  set (a1 := set_audit_stream s a).
  assert (H1 : progress a a1 []) by (by apply progress_stream).
  destruct entries as [|e entries]; [split; [by exists []|done]|].
  destruct (settle_progress (e :: entries) a1) as (g & H2 & _).
  { simpl. rewrite Hent. by apply sorted_ids. }
  { intros x Hx. simpl. rewrite Hent. by apply Hin. }
  assert (Hcur : s_cursor (as_stream (settling (e :: entries) a1).2) = s_cursor s).
  { unfold settle. pose proof (write_cases (e :: entries) a1) as Hw.
    destruct (write (e :: entries) a1) as [[acked unwritable] a2].
    destruct Hw as (_ & Hs2 & _); [intros x Hx; simpl; rewrite Hent; by apply Hin|].
    change (s_cursor s) with (s_cursor (as_stream a1)). rewrite <-Hs2. clear.
    assert (Hd : s_cursor (as_stream (foldl (λ a e, dead_letter e "malformed" a) a2 unwritable)) =
      s_cursor (as_stream a2)).
    { revert a2. induction unwritable as [|u l IH]; intros a2; [done|]. simpl. by rewrite IH. }
    simpl. rewrite <-Hd. generalize (as_stream (foldl (λ a e, dead_letter e "malformed" a) a2 unwritable)).
    induction acked as [|i l IH]; intros s; [done|]. simpl. by rewrite IH. }
  destruct (settling (e :: entries) a1) as [acked a2] eqn:Hset. split.
  - eexists. by eapply progress_trans.
  - intros Hl x Hx. simpl in Hcur. rewrite Hcur. apply Hsh; [done|].
    pose proof (pg_entries _ _ _ H2) as He2. simpl in He2. by rewrite <-He2.
Qed.

Lemma drain_progress n a :
  StronglySorted id_before (s_entries (as_stream a)) →
  let '((drained, capped), a') := draining n a in
  (∃ gone, progress a a' gone) ∧
  (capped = false → ∀ e, e ∈ s_entries (as_stream a') → sid_ltb (s_cursor (as_stream a')) e.1 = false).
Proof.
  revert a. induction n as [|n IH]; intros a Hs; simpl; [split; [exists []; apply progress_refl|done]|].
  pose proof (batch_progress a Hs) as Hb. destruct (batch a) as [got a1]. destruct Hb as [[g1 H1] Hshort].
  destruct (Nat.ltb got AUDIT_BATCH) eqn:Hg; [split; [by exists g1|intros _; apply Hshort; by apply Nat.ltb_lt]|].
  specialize (IH a1). rewrite (pg_entries _ _ _ H1) in IH. specialize (IH Hs).
  destruct (draining n a1) as [[rest capped] a2]. destruct IH as [[g2 H2] Hc].
  split; [|done]. eexists. by eapply progress_trans.
Qed.

(** C35 (no audit event disappears).  One run of the consumer, whatever the database
    refuses, and whatever is malformed: an event nobody had handled yet is
    afterwards still pending or unread, or its row is in the table, or it was
    copied, with its id and a reason, to the dead letters, of which the capped
    stream keeps the newest; the stream itself is left to its own trimming.  The
    table keeps its rows and gains only rows of events of the stream.  A run that
    does not report its cap has read everything. *)
Theorem audit_events_accounted_for min_idle maxd lag_warn a :
  StronglySorted id_before (s_entries (as_stream a)) →
  let '(alerts, a') := consume_audit_events loads empty_object up db_now excess min_idle maxd lag_warn a in
  ∃ gone,
    s_entries (as_stream a') = s_entries (as_stream a) ∧
    (∃ trimmed, s_entries (as_dead a) ++ gone = trimmed ++ s_entries (as_dead a')) ∧
    (∃ l, at_rows (as_table a') = at_rows (as_table a) ++ l ∧
       ∀ x, x ∈ l → ∃ e, e ∈ s_entries (as_stream a) ∧ row_of e.2 = Ok x.2) ∧
    (∀ e, open_entry (as_stream a) e →
       open_entry (as_stream a') e ∨ on_record a' e ∨ ∃ i why, (i, dead_fields e why) ∈ gone) ∧
    ((∀ n, Capped n ∉ alerts) → audit_lag (as_stream a') = 0).
Proof.
  intros Hs. unfold consume_audit_events.
  destruct (reclaim_progress min_idle maxd a) as [g1 H1]; [by apply sorted_ids|].
  destruct (reclaim_audit_entries _ _ _ _ _ _ _ a) as [n a1]. simpl in H1.
  pose proof (drain_progress AUDIT_MAX_BATCHES a1) as Hd. rewrite (pg_entries _ _ _ H1) in Hd.
  specialize (Hd Hs). destruct (draining AUDIT_MAX_BATCHES a1) as [[drained capped] a2].
  destruct Hd as [[g2 H2] Hc]. pose proof (progress_trans _ _ _ _ _ H1 H2) as H.
  exists (g1 ++ g2). split_and!; [apply H|apply H|apply H|apply H|].
  intros Hno. destruct capped.
  - exfalso. apply (Hno (Z.of_nat drained)), elem_of_app. left. by apply list_elem_of_singleton.
  - unfold audit_lag. rewrite filter_none; [done|]. intros e He. by rewrite (Hc eq_refl e He).
Qed.

(** A malformed event is given up at once.  Despite the comment at its end, one
    batch dead-letters an event that cannot be read, on its first delivery,
    instead of leaving it pending for the recovery. *)
Theorem malformed_is_dead_lettered_at_once a e :
  StronglySorted id_before (s_entries (as_stream a)) →
  let '(entries, s) := xreadgroup (as_now a) AUDIT_CONSUMER_NAME AUDIT_BATCH (as_stream a) in
  e ∈ entries → (∃ ex, row_of e.2 = Err ex) →
  ∃ gone i, progress (set_audit_stream s a) (batch a).2 gone ∧ (i, dead_fields e "malformed") ∈ gone.
Proof.
  intros Hs. unfold consume_audit_batch.
  pose proof (xreadgroup_open (as_now a) AUDIT_CONSUMER_NAME AUDIT_BATCH (as_stream a) Hs) as Hx.
  destruct (xreadgroup _ _ _ _) as [entries s]. destruct Hx as (Hent & Hin & Ho). intros He Hex.
  destruct (settle_progress entries (set_audit_stream s a)) as (g & H2 & Hg).
  { simpl. rewrite Hent. by apply sorted_ids. }
  { intros x Hx. simpl. rewrite Hent. by apply Hin. }
  destruct (Hg e He Hex) as [i Hi]. exists g, i. split; [|done].
  destruct entries as [|e0 entries]; [by apply elem_of_nil in He|].
  by destruct (settling _ _).
Qed.
End accounting.

(** ** At concrete inputs *)

Definition demo_event : AuditEvent (J := string) :=
  mk_audit_event "event.updated" (Some 5) (Some "10.0.0.1") (Some "event") (Some "7") (Some "{}") true None.
Definition demo_time : UtcTime := mk_utc 2026 9 15 12 34 56 789.

(** A good event, and one whose actor is not a number. *)
Definition demo_audit : AuditSys (J := string) :=
  let f := event_fields id "{}" demo_event demo_time in
  mk_audit_sys 10 (mk_stream [((1, 0), f); ((2, 0), <["actor_user_id" := "x"]> f)] (2, 0) (0, 0) ∅)
    empty_stream {[5]} (mk_audit_table ∅ []).

Lemma audit_events_accounted_for_witness :
  let '(alerts, a') := consume_audit_events Some "{}" (λ _, true) 0 0 60000 5 10000 demo_audit in
  alerts = [] ∧ audit_lag (as_stream a') = 0 ∧ s_entries (as_stream a') = s_entries (as_stream demo_audit).
Proof.
  assert (Hs : StronglySorted id_before (s_entries (as_stream demo_audit))) by (repeat constructor).
  pose proof (audit_events_accounted_for Some "{}" (λ _, true) 0 0 60000 5 10000 demo_audit Hs) as H.
  destruct (consume_audit_events _ _ _ _ _ _ _ _ _) as [alerts a'] eqn:Hrun.
  assert (alerts = []) as ->.
  { apply (f_equal fst) in Hrun. vm_compute in Hrun. by rewrite <-Hrun. }
  destruct H as (gone & He & _ & _ & _ & Hl). split_and!; [done| |done].
  apply Hl. by intros n ?%elem_of_nil.
Defined.
