(* ===== verification/Auth.v ===== *)
(** Accounts and sessions: login with its two rate limits, rotation and reuse
    detection of refresh tokens, logout, the purge, access tokens and the address a
    request is counted under, registration and erasure (src/app/api/v1/auth.py,
    users.py, api/deps.py, crud/refresh_token.py, crud/user.py, core/security.py,
    services/erasure.py).  Argon2 and jwt are parameters; the random values of a
    request are its arguments; instants are milliseconds. *)

From Stdlib Require Import Ascii String.
From S2P Require Import Prelude Text Exceptions Config Keys Sha256 RateLimit Calendar.

#[local] Open Scope string_scope.
#[local] Open Scope list_scope.
#[local] Open Scope Z_scope.

(** ** The tables *)

Record User : Type := mk_user {
  us_id : Z;
  us_username : string;
  us_hashed_password : string;
  us_is_active : bool;
  us_is_admin : bool;
}.

Record RefreshToken : Type := mk_refresh_token {
  rt_id : Z;
  rt_family_id : Z;
  rt_parent_id : option Z;
  rt_user_id : Z;
  rt_token_hash : string;
  rt_expires_at : Z;
  rt_absolute_expires_at : Z;
  rt_used_at : option Z;
  rt_revoked_at : option Z;
}.

Record AuthDb : Type := mk_auth_db {
  au_users : gmap Z User;
  au_next_user : Z;
  au_tokens : gmap Z RefreshToken;
  au_next_token : Z;
  au_buyer_info : gset Z;         (* the users with a row in buyer_info *)
}.

Definition set_users (v : gmap Z User) (n : Z) (d : AuthDb) : AuthDb :=
  mk_auth_db v n (au_tokens d) (au_next_token d) (au_buyer_info d).
Definition set_tokens (v : gmap Z RefreshToken) (n : Z) (d : AuthDb) : AuthDb :=
  mk_auth_db (au_users d) (au_next_user d) v n (au_buyer_info d).
Definition set_buyer_info (v : gset Z) (d : AuthDb) : AuthDb :=
  mk_auth_db (au_users d) (au_next_user d) (au_tokens d) (au_next_token d) v.

(** What is sent to the audit stream: type, actor and outcome. *)
Record TrailEvent : Type := mk_trail { te_type : string; te_actor : option Z; te_success : bool }.

Record AuthSys : Type := mk_auth_sys {
  sy_db : AuthDb;
  sy_limits : Limits;
  sy_trail : list TrailEvent;
}.

Definition on_auth_db {A} (m : M AuthDb exn A) : M AuthSys exn A := λ s,
  let '(x, d) := m (sy_db s) in (x, mk_auth_sys d (sy_limits s) (sy_trail s)).
Definition on_limits {A} (m : M Limits exn A) : M AuthSys exn A := λ s,
  let '(x, l) := m (sy_limits s) in (x, mk_auth_sys (sy_db s) l (sy_trail s)).
Definition emit (e : TrailEvent) : M AuthSys exn unit :=
  modify (λ s, mk_auth_sys (sy_db s) (sy_limits s) (sy_trail s ++ [e])).

(** ** Refresh tokens *)

(** [hash_refresh_token] *)
Definition hash_refresh_token (token : string) : string := hexdigest (sha256 token).

Definition token_by_hash (d : AuthDb) (h : string) : option RefreshToken :=
  match list_find (λ p : Z * RefreshToken, rt_token_hash p.2 = h) (map_to_list (au_tokens d)) with
  | Some (_, (_, t)) => Some t
  | None => None
  end.

(** [get_refresh_token_for_update] *)
Definition get_refresh_token_for_update (plaintext : string) (d : AuthDb) : option RefreshToken :=
  token_by_hash d (hash_refresh_token plaintext).

(** [issue_refresh_token]; [family] and [plaintext] are the random values. *)
Definition issue_refresh_token (now user_id sliding absolute : Z) (parent : option RefreshToken)
    (family : Z) (plaintext : string) : M AuthDb exn RefreshToken := λ d,
  let '(family_id, absolute_expires_at, parent_id) :=
    match parent with
    | None => (family, now + absolute, None)
    | Some p => (rt_family_id p, rt_absolute_expires_at p, Some (rt_id p))
    end in
  let sliding_expire_at := Z.min (now + sliding) absolute_expires_at in
  let i := au_next_token d in
  let row := mk_refresh_token i family_id parent_id user_id (hash_refresh_token plaintext)
    sliding_expire_at absolute_expires_at None None in
  let d1 := set_tokens (au_tokens d) (i + 1) d in
  if is_some (token_by_hash d (rt_token_hash row)) then (Err (IntegrityError "token_hash"), d1)
  else if negb (is_some (au_users d !! user_id)) then (Err (IntegrityError "fk_refresh_tokens_user_id"), d1)
  else (Ok row, set_tokens (<[i := row]> (au_tokens d)) (i + 1) d).

Definition with_used (t : option Z) (r : RefreshToken) : RefreshToken :=
  mk_refresh_token (rt_id r) (rt_family_id r) (rt_parent_id r) (rt_user_id r) (rt_token_hash r)
    (rt_expires_at r) (rt_absolute_expires_at r) t (rt_revoked_at r).
Definition with_revoked (t : option Z) (r : RefreshToken) : RefreshToken :=
  mk_refresh_token (rt_id r) (rt_family_id r) (rt_parent_id r) (rt_user_id r) (rt_token_hash r)
    (rt_expires_at r) (rt_absolute_expires_at r) (rt_used_at r) t.

(** [mark_token_used] *)
Definition mark_token_used (now : Z) (t : RefreshToken) : M AuthDb exn unit :=
  match rt_used_at t with
  | Some _ => ret tt
  | None => modify (λ d, set_tokens (<[rt_id t := with_used (Some now) t]> (au_tokens d)) (au_next_token d) d)
  end.

(** [UPDATE refresh_tokens SET revoked_at = now WHERE p AND revoked_at IS NULL]. *)
Definition revoke_where (p : RefreshToken → bool) (now : Z) (d : AuthDb) : AuthDb :=
  set_tokens ((λ r, if p r && negb (is_some (rt_revoked_at r)) then with_revoked (Some now) r else r)
                <$> au_tokens d) (au_next_token d) d.

(** [revoke_family], [revoke_all_for_user] *)
Definition revoke_family (now family : Z) : M AuthDb exn unit :=
  modify (revoke_where (λ r, rt_family_id r =? family) now).
Definition revoke_all_for_user (now user_id : Z) : M AuthDb exn unit :=
  modify (revoke_where (λ r, rt_user_id r =? user_id) now).

Definition REVOKED_KEPT_MS : Z := 30 * 86400000.

(** What [purge_expired] deletes. *)
Definition purged (now : Z) (r : RefreshToken) : bool :=
  (rt_absolute_expires_at r <? now) ||
  match rt_revoked_at r with Some t => t <? now - REVOKED_KEPT_MS | None => false end.

(** [purge_expired]: the foreign key on the parent is checked at the end of the
    statement. *)
Definition purge_expired (now : Z) : M AuthDb exn Z := λ d,
  let kept := filter (λ p, purged now p.2 = false) (au_tokens d) in
  if forallb (λ p : Z * RefreshToken,
        match rt_parent_id p.2 with Some i => is_some (kept !! i) | None => true end) (map_to_list kept)
  then (Ok (Z.of_nat (size (au_tokens d) - size kept)), set_tokens kept (au_next_token d) d)
  else (Err (IntegrityError "refresh_tokens_parent_id_fkey"), d).

(** ** Requests *)

Record Request : Type := mk_request {
  rq_peer : option string;              (* request.client.host *)
  rq_forwarded : option string;         (* X-Forwarded-For *)
  rq_refresh_cookie : option string;
  rq_csrf_cookie : option string;
  rq_csrf_header : option string;
}.

(** The non-empty hops of a header, stripped. *)
Definition hops (forwarded : string) : list (list ascii) :=
  filter (λ h, h ≠ []) (strip <$> split_comma (list_ascii_of_string forwarded)).

(** [client_ip] *)
Definition client_ip (s : Settings) (rq : Request) : string :=
  let direct := default "unknown" (rq_peer rq) in
  if 0 <? TRUSTED_PROXY_COUNT s then
    match rq_forwarded rq with
    | None => direct
    | Some forwarded =>
        match hops forwarded with
        | [] => direct
        | l => match l !! Z.to_nat (Z.max 0 (Z.of_nat (List.length l) - TRUSTED_PROXY_COUNT s)) with
               | Some h => string_of_list_ascii h
               | None => direct
               end
        end
    end
  else direct.

(** [enforce_ip_rate_limit] *)
Definition enforce_ip_rate_limit (s : Settings) (now : Z) (rq : Request) (bucket rate : string)
    : M AuthSys exn unit :=
  on_limits (enforce s now (join bucket (client_ip s rq)) rate).

(** [_login_failure_key] *)
Definition login_failure_key (username : string) : string :=
  "login_fail:" +:+ string_of_list_ascii (take 64 (lower <$> strip (list_ascii_of_string username))).

Definition user_by_name (d : AuthDb) (username : string) : option User :=
  match list_find (λ p : Z * User, us_username p.2 = username) (map_to_list (au_users d)) with
  | Some (_, (_, u)) => Some u
  | None => None
  end.

(** What a successful login or refresh answers: the subject of the access token and
    when it expires, and the new refresh cookie with its life in seconds. *)
Record Tokens : Type := mk_tokens {
  tk_sub : string; tk_exp : Z; tk_refresh : string; tk_csrf : string; tk_max_age : Z;
}.

Definition sliding_ms (s : Settings) : Z := REFRESH_TOKEN_SLIDING_DAYS s * 86400000.
Definition absolute_ms (s : Settings) : Z := REFRESH_TOKEN_ABSOLUTE_EXPIRE_DAYS s * 86400000.
Definition grace_ms (s : Settings) : Z := REFRESH_TOKEN_REUSE_GRACE_SECONDS s * 1000.

(** The claims of [create_access_token]. *)
Definition access_exp (s : Settings) (now : Z) : Z := now + ACCESS_TOKEN_EXPIRE_MINUTES s * 60000.

Definition unauthorized (detail : string) : exn := HTTPException 401 detail.

(** A transaction: what it wrote goes with its failure. *)
Definition committed {A} (m : M AuthDb exn A) : M AuthDb exn A := λ d,
  match m d with (Ok a, d') => (Ok a, d') | (Err e, _) => (Err e, d) end.

Section endpoints.
(** [verify_password] is Argon2 in the native module; [None] is the ValueError it
    raises when the stored text is not a hash. *)
Context (s : Settings) (verify_password : string → string → option bool).

(** [login_for_access_token] *)
Definition login (now : Z) (rq : Request) (username password : string) (family : Z)
    (plaintext csrf : string) : M AuthSys exn Tokens :=
  enforce_ip_rate_limit s now rq "login" (LOGIN_RATE_LIMIT s) ;;;
  let failure_key := login_failure_key username in
  let! p := gets (λ a, peek now failure_key (sy_limits a)) in
  if RATE_LIMIT_ENABLED s && (LOGIN_FAILURE_LIMIT s <=? p.1) then
    emit (mk_trail "auth.login_blocked" None false) ;;;
    raise (Domain (RateLimited (Some (if p.2 =? 0 then LOGIN_FAILURE_WINDOW_SECONDS s else p.2))))
  else
    let! user := gets (λ a, user_by_name (sy_db a) username) in
    match user with
    | Some u =>
        match verify_password password (us_hashed_password u) with
        | None => raise ValueError
        | Some password_valid =>
            if password_valid && us_is_active u then
              modify (λ a, mk_auth_sys (sy_db a) (clear failure_key (sy_limits a)) (sy_trail a)) ;;;
              on_auth_db (committed (issue_refresh_token now (us_id u) (sliding_ms s) (absolute_ms s) None
                                       family plaintext)) ;;;
              emit (mk_trail "auth.login_success" (Some (us_id u)) true) ;;;
              ret (mk_tokens (z_str (us_id u)) (access_exp s now) plaintext csrf (sliding_ms s / 1000))
            else
              on_limits (λ l, (Ok tt, (hit_lua now failure_key (LOGIN_FAILURE_WINDOW_SECONDS s) l).2)) ;;;
              emit (mk_trail "auth.login_failure" None false) ;;;
              raise (unauthorized "Incorrect username or password")
        end
    | None =>
        on_limits (λ l, (Ok tt, (hit_lua now failure_key (LOGIN_FAILURE_WINDOW_SECONDS s) l).2)) ;;;
        emit (mk_trail "auth.login_failure" None false) ;;;
        raise (unauthorized "Incorrect username or password")
    end.

(** The double-submit check: the cookie, when all three are there and agree. *)
Definition csrf_checked (rq : Request) : option string :=
  match rq_refresh_cookie rq, rq_csrf_cookie rq, rq_csrf_header rq with
  | Some t, Some c, Some h =>
      if bool_decide (t = "") || bool_decide (c = "") || bool_decide (h = "") || negb (bool_decide (c = h))
      then None else Some t
  | _, _, _ => None
  end.

(** The transaction of [refresh_access_token]: the new token, or None when a reuse
    past the grace period revoked the family instead. *)
Definition refresh_tx (now : Z) (refresh_plain plaintext : string) : M AuthDb exn (option RefreshToken) :=
  let! found := gets (get_refresh_token_for_update refresh_plain) in
  match found with
  | None => raise (unauthorized "Invalid credentials")
  | Some token =>
      if is_some (rt_revoked_at token) then raise (unauthorized "Invalid credentials")
      else if (rt_expires_at token <? now) || (rt_absolute_expires_at token <? now)
      then raise (unauthorized "Invalid credentials")
      else
        let issue :=
          let! t := issue_refresh_token now (rt_user_id token) (sliding_ms s) (absolute_ms s)
                      (Some token) 0 plaintext in
          ret (Some t) in
        match rt_used_at token with
        | Some used =>
            if grace_ms s <? now - used then revoke_family now (rt_family_id token) ;;; ret None
            else issue
        | None => mark_token_used now token ;;; issue
        end
  end.

(** [refresh_access_token] *)
Definition refresh (now : Z) (rq : Request) (plaintext csrf : string) : M AuthSys exn Tokens :=
  enforce_ip_rate_limit s now rq "refresh" (REFRESH_RATE_LIMIT s) ;;;
  match csrf_checked rq with
  | None => raise (unauthorized "Invalid credentials")
  | Some refresh_plain =>
      let! issued := on_auth_db (committed (refresh_tx now refresh_plain plaintext)) in
      match issued with
      | None => raise (unauthorized "Invalid credentials")
      | Some t =>
          ret (mk_tokens (z_str (rt_user_id t)) (access_exp s now) plaintext csrf (sliding_ms s / 1000))
      end
  end.

(** [logout] *)
Definition logout (now : Z) (rq : Request) : M AuthSys exn unit :=
  match csrf_checked rq with
  | None => raise (unauthorized "Invalid credentials")
  | Some refresh_plain =>
      let! found := gets (λ a, get_refresh_token_for_update refresh_plain (sy_db a)) in
      match found with
      | Some t => on_auth_db (revoke_family now (rt_family_id t))
      | None => ret tt
      end
  end.

(** [logout_all] *)
Definition logout_all (now : Z) (current_user : User) : M AuthSys exn unit :=
  on_auth_db (revoke_all_for_user now (us_id current_user)).

(** ** Who a request is *)

(** The claims of a decoded access token; None when jwt or the schema refuse it. *)
Context (decode : Z → string → option string).

Definition is_numeric (t : string) : bool :=
  negb (bool_decide (t = "")) && forallb is_digit (list_ascii_of_string t).

(** [_load_user_from_token] *)
Definition load_user_from_token (now : Z) (token : string) (d : AuthDb) : result exn User :=
  let refused := Err (unauthorized "Could not validate credentials") in
  if bool_decide (token = "") then refused
  else
    match decode now token with
    | None => refused
    | Some sub =>
        if negb (is_numeric sub) then refused
        else match z_parse sub with
             | None => refused
             | Some i => match au_users d !! i with Some u => Ok u | None => refused end
             end
    end.

(** [get_current_active_user], [get_current_admin] *)
Definition current_user (now : Z) (token : string) (d : AuthDb) : result exn User :=
  let? u := load_user_from_token now token d in
  if us_is_active u then Ok u else Err (HTTPException 403 "Inactive user").
Definition current_admin (now : Z) (token : string) (d : AuthDb) : result exn User :=
  let? u := current_user now token d in
  if us_is_admin u then Ok u else Err (HTTPException 403 "Admin only").

(** [get_stream_user]: the header wins over the query parameter. *)
Definition get_stream_user (now : Z) (header query : option string) (d : AuthDb) : result exn User :=
  current_user now (match header with
                    | Some h => if bool_decide (h = "") then default "" query else h
                    | None => default "" query
                    end) d.

(** ** Accounts *)

(** [Username] and [Password]: what [UserCreate] makes of the body, or its refusal. *)
Definition username_char (c : ascii) : bool :=
  let n := nat_of_ascii c in
  ((48 <=? n) && (n <=? 57) || (65 <=? n) && (n <=? 90) || (97 <=? n) && (n <=? 122) || (n =? 95))%nat.
Definition username_ok (l : list ascii) : bool :=
  ((3 <=? List.length l) && (List.length l <=? 64))%nat && forallb username_char l.
Definition user_create (username password : string) : option (string * string) :=
  let name := strip (list_ascii_of_string username) in
  let n := String.length password in
  if username_ok name && ((8 <=? n) && (n <=? 128))%nat then Some (string_of_list_ascii name, password) else None.

(** [create_user]; [hash_password] is Argon2 on the thread pool. *)
Context (hash_password : string → string).

Definition create_user (username password : string) : M AuthDb exn User := λ d,
  let i := au_next_user d in
  let u := mk_user i username (hash_password password) true false in
  if is_some (user_by_name d username) then (Err (IntegrityError "ix_users_username"), set_users (au_users d) (i + 1) d)
  else (Ok u, set_users (<[i := u]> (au_users d)) (i + 1) d).

(** [register_user] *)
Definition register_user (now : Z) (rq : Request) (username password : string) : M AuthSys exn User :=
  enforce_ip_rate_limit s now rq "register" (REGISTER_RATE_LIMIT s) ;;;
  try_catch (on_auth_db (create_user username password)) (λ e, match e with
    | IntegrityError _ => raise (HTTPException 409 "Username already registered")
    | _ => raise e
    end).

(** [ANONYMISED_USERNAME], [_UNUSABLE_PASSWORD] *)
Definition anonymised_username (user_id : Z) : string := "erased-user-" +:+ z_str user_id.
Definition UNUSABLE_PASSWORD : string := "!erased".

(** [is_erased] *)
Definition is_erased (u : User) : bool := bool_decide (us_username u = anonymised_username (us_id u)).

(** [erase_user] *)
Definition erase_user (u : User) : M AuthDb exn User := λ d,
  let d := set_tokens (filter (λ p, rt_user_id p.2 ≠ us_id u) (au_tokens d)) (au_next_token d) d in
  let d := set_buyer_info (au_buyer_info d ∖ {[us_id u]}) d in
  match au_users d !! us_id u with
  | None => (Err StaleDataError, d)      (* the refresh of a row that is gone *)
  | Some row =>
      let row := mk_user (us_id u) (anonymised_username (us_id u)) UNUSABLE_PASSWORD false (us_is_admin row) in
      if match user_by_name d (us_username row) with Some x => negb (us_id x =? us_id u) | None => false end
      then (Err (IntegrityError "ix_users_username"), d)
      else (Ok row, set_users (<[us_id u := row]> (au_users d)) (au_next_user d) d)
  end.

(** [erase_user_endpoint], by an administrator. *)
Definition erase_user_endpoint (admin : User) (user_id : Z) : M AuthSys exn User :=
  let! found := gets (λ a, au_users (sy_db a) !! user_id) in
  match found with
  | None => raise (HTTPException 404 "User not found")
  | Some u =>
      if is_erased u then ret u
      else
        let! u' := on_auth_db (committed (erase_user u)) in
        emit (mk_trail "user.erased" (Some (us_id admin)) true) ;;;
        ret u'
  end.
End endpoints.

(** ** Rotation *)

(** Ids are keys, hashes are unique, and a token agrees with its parent on
    everything but its own life. *)
Record sessions_ok (d : AuthDb) : Prop := {
  sk_ids : ∀ i t, au_tokens d !! i = Some t → rt_id t = i ∧ i < au_next_token d;
  sk_hashes : ∀ i j a b, au_tokens d !! i = Some a → au_tokens d !! j = Some b →
    rt_token_hash a = rt_token_hash b → i = j;
  sk_expiry : ∀ i t, au_tokens d !! i = Some t → rt_expires_at t <= rt_absolute_expires_at t;
  sk_parent : ∀ i t p, au_tokens d !! i = Some t → rt_parent_id t = Some p →
    ∃ tp, au_tokens d !! p = Some tp ∧ rt_family_id tp = rt_family_id t ∧
      rt_user_id tp = rt_user_id t ∧ rt_absolute_expires_at tp = rt_absolute_expires_at t ∧
      rt_revoked_at tp = rt_revoked_at t;
}.

Lemma token_by_hash_some d h t :
  token_by_hash d h = Some t → ∃ i, au_tokens d !! i = Some t ∧ rt_token_hash t = h.
Proof.
  unfold token_by_hash. destruct (list_find _ _) as [[n [i x]]|] eqn:Hf; [|done]. intros [= <-].
  apply list_find_Some in Hf as (Hl & Hh & _). exists i. split; [|done].
  apply elem_of_map_to_list. by eapply list_elem_of_lookup_2.
Qed.

Lemma token_by_hash_none d h i t : token_by_hash d h = None → au_tokens d !! i = Some t → rt_token_hash t ≠ h.
Proof.
  unfold token_by_hash. destruct (list_find _ _) as [[n [j x]]|] eqn:Hf; [done|]. intros _ Hi.
  apply list_find_None in Hf. rewrite Forall_forall in Hf.
  apply (Hf (i, t)). by apply elem_of_map_to_list.
Qed.

Lemma token_by_hash_eq d i t :
  sessions_ok d → au_tokens d !! i = Some t → token_by_hash d (rt_token_hash t) = Some t.
Proof.
  intros Hok Hi. destruct (token_by_hash d (rt_token_hash t)) as [x|] eqn:Hx.
  - apply token_by_hash_some in Hx as (j & Hj & Hh). pose proof (sk_hashes _ Hok _ _ _ _ Hj Hi Hh). congruence.
  - by destruct (token_by_hash_none _ _ _ _ Hx Hi).
Qed.

(** The row a rotation or a login adds. *)
Definition issued (now user_id sliding absolute : Z) (parent : option RefreshToken) (family : Z)
    (plaintext : string) (i : Z) : RefreshToken :=
  match parent with
  | None => mk_refresh_token i family None user_id (hash_refresh_token plaintext)
              (Z.min (now + sliding) (now + absolute)) (now + absolute) None None
  | Some p => mk_refresh_token i (rt_family_id p) (Some (rt_id p)) user_id (hash_refresh_token plaintext)
                (Z.min (now + sliding) (rt_absolute_expires_at p)) (rt_absolute_expires_at p) None None
  end.

Lemma issue_cases now u sl ab parent fam plain d :
  match issue_refresh_token now u sl ab parent fam plain d with
  | (Ok t, d') => t = issued now u sl ab parent fam plain (au_next_token d) ∧
      is_Some (au_users d !! u) ∧ token_by_hash d (hash_refresh_token plain) = None ∧
      d' = set_tokens (<[au_next_token d := t]> (au_tokens d)) (au_next_token d + 1) d
  | (Err e, d') => (∃ c, e = IntegrityError c) ∧ d' = set_tokens (au_tokens d) (au_next_token d + 1) d
  end.
Proof.
  unfold issue_refresh_token, issued. destruct parent as [p|]; simpl;
    (destruct (token_by_hash d _) eqn:Hh; simpl; [by eauto|];
     destruct (au_users d !! u) eqn:Hu; simpl; [by eauto 10|by eauto]).
Qed.

Lemma issue_ok now u sl ab fam plain d :
  is_Some (au_users d !! u) → (∀ i t, au_tokens d !! i = Some t → rt_token_hash t ≠ hash_refresh_token plain) →
  committed (issue_refresh_token now u sl ab None fam plain) d =
    (Ok (issued now u sl ab None fam plain (au_next_token d)),
     set_tokens (<[au_next_token d := issued now u sl ab None fam plain (au_next_token d)]> (au_tokens d))
       (au_next_token d + 1) d).
Proof.
  intros [row Hu] Hh. unfold committed, issue_refresh_token. simpl.
  destruct (token_by_hash d _) as [x|] eqn:Hx; [|by rewrite Hu].
  destruct (token_by_hash_some _ _ _ Hx) as (i & Hi & Heq). by destruct (Hh _ _ Hi).
Qed.

(** The presented token after a rotation: used, and since when it first was. *)
Definition rotated (now : Z) (t : RefreshToken) : RefreshToken :=
  with_used (Some (default now (rt_used_at t))) t.

(** What a rotation does, case by case. *)
Record rotation (s : Settings) (now : Z) (plain : string) (d : AuthDb) (old new : RefreshToken)
    (d' : AuthDb) : Prop := {
  ro_old : au_tokens d !! rt_id old = Some old;
  ro_live : rt_revoked_at old = None ∧ now <= rt_expires_at old ∧ now <= rt_absolute_expires_at old;
  ro_grace : ∀ used, rt_used_at old = Some used → now - used <= grace_ms s;
  ro_fresh : ∀ i x, au_tokens d !! i = Some x → rt_token_hash x ≠ hash_refresh_token plain;
  ro_new : new = issued now (rt_user_id old) (sliding_ms s) (absolute_ms s) (Some old) 0 plain (au_next_token d);
  ro_db : d' = set_tokens (<[au_next_token d := new]> (<[rt_id old := rotated now old]> (au_tokens d)))
                 (au_next_token d + 1) d;
}.

Lemma with_used_id t u : rt_used_at t = Some u → with_used (Some u) t = t.
Proof. destruct t; simpl. by intros ->. Qed.

Lemma refresh_tx_cases s now rp plain d :
  sessions_ok d →
  match committed (refresh_tx s now rp plain) d with
  | (Ok (Some t), d') => ∃ old, get_refresh_token_for_update rp d = Some old ∧ rotation s now plain d old t d'
  | (Ok None, d') => ∃ old used, get_refresh_token_for_update rp d = Some old ∧
      au_tokens d !! rt_id old = Some old ∧ rt_used_at old = Some used ∧ grace_ms s < now - used ∧
      d' = revoke_where (λ r, rt_family_id r =? rt_family_id old) now d
  | (Err _, d') => d' = d
  end.
Proof.
  intros Hok. unfold committed, refresh_tx, bind at 1, gets at 1.
  destruct (get_refresh_token_for_update rp d) as [old|] eqn:Hold; [|done].
  assert (Hrow : au_tokens d !! rt_id old = Some old).
  { apply token_by_hash_some in Hold as (i & Hi & _). by destruct (sk_ids _ Hok _ _ Hi) as [-> _]. }
  destruct (rt_revoked_at old) eqn:Hrev; [done|]. simpl.
  destruct ((rt_expires_at old <? now) || (rt_absolute_expires_at old <? now)) eqn:Hexp; [done|].
  apply orb_false_iff in Hexp as [He1%Z.ltb_ge He2%Z.ltb_ge].
  assert (Hfinish : ∀ d1, au_users d1 = au_users d → au_next_token d1 = au_next_token d →
    au_next_user d1 = au_next_user d → au_buyer_info d1 = au_buyer_info d →
    au_tokens d1 = <[rt_id old := rotated now old]> (au_tokens d) →
    (∀ used, rt_used_at old = Some used → now - used <= grace_ms s) →
    match (let! t := issue_refresh_token now (rt_user_id old) (sliding_ms s) (absolute_ms s) (Some old) 0 plain
           in ret (Some t)) d1 with
    | (Ok (Some t), d') => rotation s now plain d old t d'
    | (Ok None, _) => False
    | (Err _, _) => True
    end).
  { intros d1 Hu Hn Hnu Hb Ht Hg.
    pose proof (issue_cases now (rt_user_id old) (sliding_ms s) (absolute_ms s) (Some old) 0 plain d1) as Hi.
    unfold bind. destruct (issue_refresh_token _ _ _ _ _ _ _ d1) as [[t|e] d']; [|done].
    destruct Hi as (-> & _ & Hh & ->). simpl. split; [done|done|done| |by rewrite Hn|].
    - intros i x Hi. destruct (decide (i = rt_id old)) as [->|Hne].
      + rewrite Hrow in Hi. injection Hi as <-.
        apply (token_by_hash_none _ _ (rt_id old) (rotated now old) Hh). rewrite Ht. apply lookup_insert_eq.
      + apply (token_by_hash_none _ _ i x Hh). by rewrite Ht, lookup_insert_ne.
    - unfold set_tokens. by rewrite Hu, Hn, Hnu, Hb, Ht. }
  destruct (rt_used_at old) as [used|] eqn:Hused.
  - destruct (grace_ms s <? now - used) eqn:Hg.
    + unfold bind, revoke_family, modify, ret. exists old, used. split_and!; [done..|zlia|done].
    + specialize (Hfinish d eq_refl eq_refl eq_refl eq_refl).
      assert (Hr : rotated now old = old) by (unfold rotated; rewrite Hused; by apply with_used_id).
      rewrite Hr, insert_id in Hfinish by done. specialize (Hfinish eq_refl ltac:(intros ? [= <-]; zlia)).
      destruct ((let! t := _ in ret (Some t)) d) as [[[t|]|e] d']; [by exists old|done|done].
  - unfold bind at 1, mark_token_used. rewrite Hused. unfold modify at 1.
    specialize (Hfinish (set_tokens (<[rt_id old := with_used (Some now) old]> (au_tokens d)) (au_next_token d) d)
      eq_refl eq_refl eq_refl eq_refl).
    unfold rotated in Hfinish. rewrite Hused in Hfinish. specialize (Hfinish eq_refl ltac:(done)).
    destruct ((let! t := _ in ret (Some t)) _) as [[[t|]|e] d']; [by exists old|done|done].
Qed.

(** ** Histories of a session store *)

(** Every transaction that changes the tables, each one complete: a refresh, a
    logout, a purge or an erasure holds its rows from its first statement to its
    commit.  A login is two instants: it reads the account and then, Argon2 later,
    inserts its token without looking again; [v] holds the accounts whose login got
    past the check.  [taken]: the family ids no later login draws again. *)
Inductive auth_step (s : Settings) (taken v : gset Z) : AuthDb → AuthDb → Prop :=
  | as_issue now u f plain d : (f ∉ taken) → u ∈ v →
      auth_step s taken v d (committed (issue_refresh_token now u (sliding_ms s) (absolute_ms s) None f plain) d).2
  | as_refresh now rp plain d : auth_step s taken v d (committed (refresh_tx s now rp plain) d).2
  | as_logout now f d : auth_step s taken v d (revoke_family now f d).2
  | as_logout_all now u d : auth_step s taken v d (revoke_all_for_user now u d).2
  | as_purge now d : auth_step s taken v d (purge_expired now d).2
  | as_register hash raw name pw d : user_create raw pw = Some (name, pw) →
      auth_step s taken v d (create_user hash name pw d).2
  | as_erase u d : auth_step s taken v d (committed (erase_user u) d).2.

(** A history: the accounts whose login has read an active row, and the tables. *)
Inductive history_step (s : Settings) (taken : gset Z) : gset Z * AuthDb → gset Z * AuthDb → Prop :=
  | hs_login u row v d : au_users d !! u = Some row → us_is_active row = true →
      history_step s taken (v, d) ({[u]} ∪ v, d)
  | hs_store v d d' : auth_step s taken v d d' → history_step s taken (v, d) (v, d').

(** Adding a token under the next id. *)
Lemma insert_token_ok d t :
  sessions_ok d → rt_id t = au_next_token d → rt_expires_at t <= rt_absolute_expires_at t →
  (∀ i x, au_tokens d !! i = Some x → rt_token_hash x ≠ rt_token_hash t) →
  (∀ p, rt_parent_id t = Some p → ∃ tp, au_tokens d !! p = Some tp ∧ rt_family_id tp = rt_family_id t ∧
     rt_user_id tp = rt_user_id t ∧ rt_absolute_expires_at tp = rt_absolute_expires_at t ∧
     rt_revoked_at tp = rt_revoked_at t) →
  sessions_ok (set_tokens (<[au_next_token d := t]> (au_tokens d)) (au_next_token d + 1) d).
Proof.
  intros Hok Hid He Hh Hp. split; simpl.
  - intros i x Hi. apply lookup_insert_Some in Hi as [[<- <-]|[_ Hi]]; [lia|].
    destruct (sk_ids _ Hok _ _ Hi). lia.
  - intros i j a b Ha Hb Heq. apply lookup_insert_Some in Ha as [[<- <-]|[_ Ha]], Hb as [[<- <-]|[_ Hb]].
    + done.
    + by destruct (Hh _ _ Hb).
    + by destruct (Hh _ _ Ha).
    + by eapply (sk_hashes _ Hok).
  - intros i x Hi. apply lookup_insert_Some in Hi as [[_ <-]|[_ Hi]]; [done|by eapply (sk_expiry _ Hok)].
  - intros i x p Hi Hx.
    assert (Hfind : ∃ tp, au_tokens d !! p = Some tp ∧ rt_family_id tp = rt_family_id x ∧
      rt_user_id tp = rt_user_id x ∧ rt_absolute_expires_at tp = rt_absolute_expires_at x ∧
      rt_revoked_at tp = rt_revoked_at x).
    { apply lookup_insert_Some in Hi as [[_ <-]|[_ Hi]]; [by apply Hp|by eapply (sk_parent _ Hok)]. }
    destruct Hfind as (tp & Htp & H). exists tp. split; [|done].
    rewrite lookup_insert_ne; [done|]. destruct (sk_ids _ Hok _ _ Htp). lia.
Qed.

(** Changing every token by a function that only touches its own life. *)
Lemma map_tokens_ok d (f : RefreshToken → RefreshToken) n :
  sessions_ok d → au_next_token d <= n →
  (∀ t, rt_id (f t) = rt_id t ∧ rt_token_hash (f t) = rt_token_hash t ∧
        rt_expires_at (f t) = rt_expires_at t ∧ rt_absolute_expires_at (f t) = rt_absolute_expires_at t ∧
        rt_parent_id (f t) = rt_parent_id t ∧ rt_family_id (f t) = rt_family_id t ∧
        rt_user_id (f t) = rt_user_id t) →
  (∀ t tp, rt_family_id tp = rt_family_id t → rt_user_id tp = rt_user_id t →
     rt_revoked_at tp = rt_revoked_at t → rt_revoked_at (f tp) = rt_revoked_at (f t)) →
  sessions_ok (set_tokens (f <$> au_tokens d) n d).
Proof.
  intros Hok Hn Hf Hr. split; simpl.
  - intros i x Hi. apply lookup_fmap_Some in Hi as (t & <- & Hi). destruct (Hf t) as (-> & _).
    destruct (sk_ids _ Hok _ _ Hi). lia.
  - intros i j a b Ha Hb Heq. apply lookup_fmap_Some in Ha as (ta & <- & Ha), Hb as (tb & <- & Hb).
    destruct (Hf ta) as (_ & Hha & _), (Hf tb) as (_ & Hhb & _). rewrite Hha, Hhb in Heq.
    by eapply (sk_hashes _ Hok).
  - intros i x Hi. apply lookup_fmap_Some in Hi as (t & <- & Hi). destruct (Hf t) as (_ & _ & -> & -> & _).
    by eapply (sk_expiry _ Hok).
  - intros i x p Hi Hx. apply lookup_fmap_Some in Hi as (t & <- & Hi).
    destruct (Hf t) as (_ & _ & _ & Ha & Hp & Hfam & Hu). rewrite Hp in Hx.
    destruct (sk_parent _ Hok _ _ _ Hi Hx) as (tp & Htp & E1 & E2 & E3 & E4). exists (f tp).
    destruct (Hf tp) as (_ & _ & _ & Ha' & _ & Hfam' & Hu').
    split_and!; [by rewrite lookup_fmap, Htp|congruence|congruence|congruence|by apply Hr].
Qed.

Lemma revoke_ok d now p :
  sessions_ok d →
  (∀ t tp, rt_family_id tp = rt_family_id t → rt_user_id tp = rt_user_id t → p tp = p t) →
  sessions_ok (revoke_where p now d).
Proof.
  intros Hok Hp. apply map_tokens_ok; [done|lia| |].
  - intros t. by destruct (p t && negb (is_some (rt_revoked_at t))).
  - intros t tp Hf Hu Hr. cbn beta. rewrite (Hp _ _ Hf Hu), Hr. by destruct (p t && _).
Qed.

(** Keeping a part that is closed under parents. *)
Lemma filter_tokens_ok d (P : Z * RefreshToken → Prop) `{∀ p, Decision (P p)} :
  sessions_ok d →
  (∀ i j t tp, rt_family_id tp = rt_family_id t → rt_user_id tp = rt_user_id t →
     rt_absolute_expires_at tp = rt_absolute_expires_at t → rt_revoked_at tp = rt_revoked_at t →
     P (i, t) → P (j, tp)) →
  sessions_ok (set_tokens (filter P (au_tokens d)) (au_next_token d) d).
Proof.
  intros Hok HP. split; simpl.
  - intros i x [Hi _]%map_lookup_filter_Some. by apply (sk_ids _ Hok).
  - intros i j a b [Ha _]%map_lookup_filter_Some [Hb _]%map_lookup_filter_Some. by apply (sk_hashes _ Hok).
  - intros i x [Hi _]%map_lookup_filter_Some. by eapply (sk_expiry _ Hok).
  - intros i x p [Hi Hx]%map_lookup_filter_Some Hpar.
    destruct (sk_parent _ Hok _ _ _ Hi Hpar) as (tp & Htp & E1 & E2 & E3 & E4). exists tp.
    split_and!; [|done..]. apply map_lookup_filter_Some. split; [done|]. simpl in *. by eapply HP.
Qed.

Lemma purged_same now t tp :
  rt_absolute_expires_at tp = rt_absolute_expires_at t → rt_revoked_at tp = rt_revoked_at t →
  purged now tp = purged now t.
Proof. unfold purged. by intros -> ->. Qed.

Lemma purge_cases now d :
  sessions_ok d →
  purge_expired now d =
    (Ok (Z.of_nat (size (au_tokens d) - size (filter (λ p, purged now p.2 = false) (au_tokens d)))),
     set_tokens (filter (λ p, purged now p.2 = false) (au_tokens d)) (au_next_token d) d).
Proof.
  intros Hok. unfold purge_expired.
  assert (forallb (λ p : Z * RefreshToken,
    match rt_parent_id p.2 with
    | Some i => is_some (filter (λ p, purged now p.2 = false) (au_tokens d) !! i)
    | None => true
    end) (map_to_list (filter (λ p, purged now p.2 = false) (au_tokens d))) = true) as ->; [|done].
  apply forallb_forall. intros [i t] Hin. apply list_elem_of_In, elem_of_map_to_list in Hin. simpl.
  destruct (rt_parent_id t) as [p|] eqn:Hp; [|done].
  apply map_lookup_filter_Some in Hin as [Hi Hx]. simpl in Hx.
  destruct (sk_parent _ Hok _ _ _ Hi Hp) as (tp & Htp & _ & _ & E3 & E4).
  assert (filter (λ p, purged now p.2 = false) (au_tokens d) !! p = Some tp) as ->; [|done].
  apply map_lookup_filter_Some. split; [done|]. simpl. by rewrite (purged_same _ _ _ E3 E4).
Qed.

Lemma rotated_ok d now old :
  sessions_ok d → au_tokens d !! rt_id old = Some old →
  sessions_ok (set_tokens (<[rt_id old := rotated now old]> (au_tokens d)) (au_next_token d) d).
Proof.
  intros Hok Hold.
  replace (<[rt_id old := rotated now old]> (au_tokens d)) with
    ((λ t, if rt_id t =? rt_id old then rotated now t else t) <$> au_tokens d).
  - apply map_tokens_ok; [done|lia| |].
    + intros t. by destruct (rt_id t =? rt_id old).
    + intros t tp _ _ Hr. cbn beta. by destruct (rt_id tp =? rt_id old), (rt_id t =? rt_id old).
  - apply map_eq. intros i. rewrite lookup_fmap. destruct (decide (i = rt_id old)) as [->|Hne].
    + by rewrite Hold, lookup_insert_eq; simpl; rewrite Z.eqb_refl.
    + rewrite lookup_insert_ne by done. destruct (au_tokens d !! i) as [t|] eqn:Hi; [|done]. simpl.
      destruct (sk_ids _ Hok _ _ Hi) as [-> _]. by rewrite (proj2 (Z.eqb_neq _ _) Hne).
Qed.

Lemma rotation_ok s now plain d old new d' :
  sessions_ok d → rotation s now plain d old new d' → sessions_ok d'.
Proof.
  intros Hok [Hold (Hr & _ & _) _ Hfresh -> ->]. pose proof (rotated_ok d now old Hok Hold) as Hok1.
  apply (insert_token_ok _ (issued now (rt_user_id old) (sliding_ms s) (absolute_ms s) (Some old) 0 plain
    (au_next_token d))) in Hok1; [exact Hok1|done|simpl; lia| |].
  - simpl. intros i x Hi. apply lookup_insert_Some in Hi as [[_ <-]|[_ Hi]]; [|by eapply Hfresh].
    simpl. by apply (Hfresh (rt_id old)).
  - simpl. intros p [= <-]. exists (rotated now old). by rewrite lookup_insert_eq.
Qed.

Lemma committed_issue_ok now u sl ab f plain d :
  sessions_ok d → sessions_ok (committed (issue_refresh_token now u sl ab None f plain) d).2.
Proof.
  intros Hok. unfold committed. pose proof (issue_cases now u sl ab None f plain d) as Hi.
  destruct (issue_refresh_token _ _ _ _ _ _ _ d) as [[t|e] d']; [|done].
  destruct Hi as (-> & _ & Hh & ->). apply insert_token_ok; [done|done|simpl; lia| |done].
  intros i x Hx. by eapply token_by_hash_none.
Qed.

Lemma same_tokens_ok d d' :
  au_tokens d' = au_tokens d → au_next_token d' = au_next_token d → sessions_ok d → sessions_ok d'.
Proof. intros Ht Hn [H1 H2 H3 H4]. split; rewrite ?Ht, ?Hn; done. Qed.

Lemma auth_step_ok s taken v d d' : auth_step s taken v d d' → sessions_ok d → sessions_ok d'.
Proof.
  destruct 1 as [now u f plain d _ _|now rp plain d|now f d|now u d|now d|hash raw name pw d _|u d]; intros Hok.
  - by apply committed_issue_ok.
  - pose proof (refresh_tx_cases s now rp plain d Hok) as H.
    destruct (committed _ d) as [[[t|]|e] d']; simpl.
    + destruct H as (old & _ & H). by eapply rotation_ok.
    + destruct H as (old & used & _ & _ & _ & _ & ->). apply revoke_ok; [done|]. by intros t tp ->.
    + by subst.
  - apply revoke_ok; [done|]. by intros t tp ->.
  - apply revoke_ok; [done|]. by intros t tp _ ->.
  - rewrite purge_cases by done. simpl. apply (filter_tokens_ok d (λ p, purged now p.2 = false)); [done|]. simpl.
    intros i j t tp _ _ Ha Hr. by rewrite (purged_same _ _ _ Ha Hr).
  - apply (same_tokens_ok d); [|..|done]; unfold create_user; by destruct (is_some _).
  - unfold committed, erase_user. simpl. destruct (au_users d !! us_id u); simpl; [|done].
    destruct (match user_by_name _ _ with Some _ => _ | None => _ end); [done|].
    apply (same_tokens_ok (set_tokens (filter (λ p, rt_user_id p.2 ≠ us_id u) (au_tokens d)) (au_next_token d) d));
      [done..|].
    apply (filter_tokens_ok d (λ p, rt_user_id p.2 ≠ us_id u)); [done|]. simpl. by intros i j t tp _ ->.
Qed.

(** ** What ends a session *)

(** Every token of the family is revoked. *)
Definition dead (family : Z) (d : AuthDb) : Prop :=
  ∀ i t, au_tokens d !! i = Some t → rt_family_id t = family → is_Some (rt_revoked_at t).

(** Every token of the family has this cap. *)
Definition capped (family cap : Z) (d : AuthDb) : Prop :=
  ∀ i t, au_tokens d !! i = Some t → rt_family_id t = family → rt_absolute_expires_at t = cap.

(** A property of single tokens that holds of all of a family: what has to be
    checked for it to outlive every step. *)
Section family.
Context (s : Settings) (fam : Z) (Q : RefreshToken → Prop).
Definition all_of_family (d : AuthDb) : Prop :=
  ∀ i t, au_tokens d !! i = Some t → rt_family_id t = fam → Q t.
Hypothesis Q_revoked : ∀ t now, Q t → rt_revoked_at t = None → Q (with_revoked (Some now) t).
Hypothesis Q_rotated : ∀ t now, Q t → Q (rotated now t).
Hypothesis Q_child : ∀ t now plain i, Q t → rt_revoked_at t = None →
  Q (issued now (rt_user_id t) (sliding_ms s) (absolute_ms s) (Some t) 0 plain i).

Lemma family_revoked d now p : all_of_family d → all_of_family (revoke_where p now d).
Proof using Q_revoked.
  intros H i t Hi Hf. apply lookup_fmap_Some in Hi as (x & Hx & Hi).
  destruct (p x && negb (is_some (rt_revoked_at x))) eqn:Hp; subst t; [|by eapply H].
  apply andb_true_iff in Hp as [_ Hr]. apply Q_revoked; [by apply (H i)|by destruct (rt_revoked_at x)].
Qed.

Lemma family_subset d d' : au_tokens d' ⊆ au_tokens d → all_of_family d → all_of_family d'.
Proof using Type. intros Hsub H i t Hi Hf. eapply H; [|done]. by eapply lookup_weaken. Qed.

Lemma family_rotation now plain d old new d' :
  all_of_family d → rotation s now plain d old new d' → all_of_family d'.
Proof using Q_rotated Q_child.
  intros H [Hold (Hr & _) _ _ -> ->] i t Hi Hf. simpl in Hi.
  apply lookup_insert_Some in Hi as [[_ <-]|[_ Hi]].
  - apply Q_child; [by apply (H (rt_id old))|done].
  - apply lookup_insert_Some in Hi as [[_ <-]|[_ Hi]]; [|by apply (H i)].
    apply Q_rotated. by apply (H (rt_id old)).
Qed.

Lemma family_step v d d' : sessions_ok d → auth_step s {[fam]} v d d' → all_of_family d → all_of_family d'.
Proof using Q_revoked Q_rotated Q_child.
  intros Hok Hst H. destruct Hst as [now u f plain d Hne _|now rp plain d|now f d|now u d|now d|hash raw name pw d _|u d].
  - unfold committed. pose proof (issue_cases now u (sliding_ms s) (absolute_ms s) None f plain d) as Hi.
    destruct (issue_refresh_token _ _ _ _ _ _ _ d) as [[t|e] d']; [|done].
    destruct Hi as (-> & _ & _ & ->). intros i t Hi Hf. simpl in Hi.
    apply lookup_insert_Some in Hi as [[_ <-]|[_ Hi]]; [set_solver|by apply (H i)].
  - pose proof (refresh_tx_cases s now rp plain d Hok) as Hc.
    destruct (committed _ d) as [[[t|]|e] d']; simpl.
    + destruct Hc as (old & _ & Hc). by eapply family_rotation.
    + destruct Hc as (old & used & _ & _ & _ & _ & ->). by apply family_revoked.
    + by subst.
  - by apply family_revoked.
  - by apply family_revoked.
  - rewrite purge_cases by done. simpl. eapply family_subset; [|done]. apply map_filter_subseteq.
  - unfold create_user. by destruct (is_some _).
  - unfold committed, erase_user. simpl. destruct (au_users d !! us_id u); simpl; [|done].
    destruct (match user_by_name _ _ with Some _ => _ | None => _ end); [done|].
    eapply family_subset; [|done]. apply map_filter_subseteq.
Qed.

Lemma family_history h h' :
  rtc (history_step s {[fam]}) h h' → sessions_ok h.2 → all_of_family h.2 → sessions_ok h'.2 ∧ all_of_family h'.2.
Proof using Q_revoked Q_rotated Q_child.
  induction 1 as [|h h1 h' Hst _ IH]; [done|]. intros Hok H. destruct Hst as [|v d d' Hst]; [by apply IH|].
  apply IH; [by eapply auth_step_ok|by eapply family_step].
Qed.
End family.

Lemma dead_history s fam h h' :
  rtc (history_step s {[fam]}) h h' → sessions_ok h.2 → dead fam h.2 → sessions_ok h'.2 ∧ dead fam h'.2.
Proof.
  intros Hr Hok Hd. apply (family_history s fam (λ t, is_Some (rt_revoked_at t))) in Hr; [done| |done| |done|done].
  - intros t now _ _. by exists now.
  - intros t now plain i [x Hx] Hn. congruence.
Qed.

Lemma capped_history s fam cap h h' :
  rtc (history_step s {[fam]}) h h' → sessions_ok h.2 → capped fam cap h.2 → sessions_ok h'.2 ∧ capped fam cap h'.2.
Proof. intros Hr Hok Hd. by apply (family_history s fam (λ t, rt_absolute_expires_at t = cap)) in Hr. Qed.

Lemma dead_revoked fam now d : dead fam (revoke_where (λ r, rt_family_id r =? fam) now d).
Proof.
  intros i t Hi Hf. apply lookup_fmap_Some in Hi as (x & <- & Hi).
  destruct ((rt_family_id x =? fam) && negb (is_some (rt_revoked_at x))) eqn:Hp; [by exists now|].
  destruct (rt_revoked_at x) eqn:Hr; [by exists z|]. rewrite andb_true_r in Hp. rewrite Hf, Z.eqb_refl in Hp. done.
Qed.

Lemma refresh_dead s fam now rp plain d t :
  dead fam d → get_refresh_token_for_update rp d = Some t → rt_family_id t = fam →
  refresh_tx s now rp plain d = (Err (unauthorized "Invalid credentials"), d).
Proof.
  intros Hd Ht Hf. unfold refresh_tx, bind at 1, gets at 1. rewrite Ht.
  destruct (token_by_hash_some _ _ _ Ht) as (i & Hi & _). by destruct (Hd i t Hi Hf) as [x ->].
Qed.

(** The limiter only touches its own counters. *)
Lemma limited_db s now rq bucket rate sy :
  ∃ r l, enforce_ip_rate_limit s now rq bucket rate sy = (r, mk_auth_sys (sy_db sy) l (sy_trail sy)).
Proof.
  unfold enforce_ip_rate_limit, on_limits. destruct (enforce _ _ _ _ (sy_limits sy)) as [r l]. eauto.
Qed.

(** C22 (a replayed refresh token ends the whole session for good).  A request that
    passes the rate limit and the CSRF check and presents a token neither revoked nor
    expired, more than the grace period after that token was first used, is answered
    401 and revokes the token's family, the newest token included.  In every history of
    complete transactions that begins after that one - the INSERTs of logins, those in
    flight included, as long as none draws the same random family id; refreshes,
    logouts, purges, registrations, erasures - no token of the family is accepted
    again, and the attempt changes nothing.  (A token that has expired as well is
    answered the same and revokes nothing; a rotation of the family that is in flight
    during the revocation is not such a history: its token survives, see
    [racing_rotation_survives_revocation].) *)
Theorem reuse_kills_the_session s sy now rq rp plain csrf old used :
  sessions_ok (sy_db sy) → csrf_checked rq = Some rp →
  (enforce_ip_rate_limit s now rq "refresh" (REFRESH_RATE_LIMIT s) sy).1 = Ok tt →
  get_refresh_token_for_update rp (sy_db sy) = Some old →
  rt_revoked_at old = None → now <= rt_expires_at old →
  rt_used_at old = Some used → grace_ms s < now - used →
  let '(out, sy1) := refresh s now rq plain csrf sy in
  out = Err (unauthorized "Invalid credentials") ∧ dead (rt_family_id old) (sy_db sy1) ∧
  ∀ v v2 d2, rtc (history_step s {[rt_family_id old]}) (v, sy_db sy1) (v2, d2) →
  ∀ now' rp' plain' t, get_refresh_token_for_update rp' d2 = Some t → rt_family_id t = rt_family_id old →
    committed (refresh_tx s now' rp' plain') d2 = (Err (unauthorized "Invalid credentials"), d2).
Proof.
  intros Hok Hcsrf Hrate Hold Hrev Hexp Hused Hgrace.
  assert (Hrow : au_tokens (sy_db sy) !! rt_id old = Some old).
  { destruct (token_by_hash_some _ _ _ Hold) as (i & Hi & _). by destruct (sk_ids _ Hok _ _ Hi) as [-> _]. }
  pose proof (sk_expiry _ Hok _ _ Hrow) as Hcap.
  assert (Htx : committed (refresh_tx s now rp plain) (sy_db sy) =
    (Ok None, revoke_where (λ r, rt_family_id r =? rt_family_id old) now (sy_db sy))).
  { unfold committed, refresh_tx, bind at 1, gets at 1. rewrite Hold, Hrev. simpl.
    rewrite (proj2 (Z.ltb_ge _ _) Hexp), (proj2 (Z.ltb_ge (rt_absolute_expires_at old) now)) by lia. simpl.
    rewrite Hused. by rewrite (proj2 (Z.ltb_lt _ _) Hgrace). }
  destruct (limited_db s now rq "refresh" (REFRESH_RATE_LIMIT s) sy) as (r & l & Hlim). rewrite Hlim in Hrate.
  simpl in Hrate. subst r. unfold refresh. rewrite (bind_ok _ _ _ _ _ Hlim), Hcsrf.
  unfold bind, on_auth_db. simpl. rewrite Htx. simpl.
  split; [done|]. pose proof (dead_revoked (rt_family_id old) now (sy_db sy)) as Hdead. split; [done|].
  intros v v2 d2 Hr now' rp' plain' t Ht Hf.
  destruct (dead_history _ _ _ _ Hr) as [_ Hd2]; [|done|].
  - apply revoke_ok; [done|]. by intros x tp ->.
  - unfold committed. by rewrite (refresh_dead s _ now' rp' plain' d2 t Hd2 Ht Hf).
Qed.

(** The token of a replay that has also expired is refused before the reuse check:
    nothing is revoked, and the rest of its family lives on. *)
Lemma expired_replay_revokes_nothing s now rp plain d old :
  get_refresh_token_for_update rp d = Some old → rt_expires_at old < now →
  committed (refresh_tx s now rp plain) d = (Err (unauthorized "Invalid credentials"), d).
Proof.
  intros Hold Hexp. unfold committed, refresh_tx, bind at 1, gets at 1. rewrite Hold.
  destruct (is_some _); [done|]. by rewrite (proj2 (Z.ltb_lt _ _) Hexp).
Qed.

(** A live, unused token is exchanged: the new token takes over its family, its user
    and its cap, and the old one is marked. *)
Theorem live_token_rotates s now rp plain d old :
  sessions_ok d → get_refresh_token_for_update rp d = Some old →
  rt_revoked_at old = None → rt_used_at old = None → now <= rt_expires_at old →
  is_Some (au_users d !! rt_user_id old) →
  (∀ i t, au_tokens d !! i = Some t → rt_token_hash t ≠ hash_refresh_token plain) →
  ∃ new d', committed (refresh_tx s now rp plain) d = (Ok (Some new), d') ∧
    rotation s now plain d old new d' ∧ get_refresh_token_for_update plain d' = Some new.
Proof.
  intros Hok Hold Hrev Hused Hexp [w Hu] Hfresh.
  assert (Hrow : au_tokens d !! rt_id old = Some old).
  { destruct (token_by_hash_some _ _ _ Hold) as (i & Hi & _). by destruct (sk_ids _ Hok _ _ Hi) as [-> _]. }
  pose proof (sk_expiry _ Hok _ _ Hrow) as Hcap.
  pose proof (refresh_tx_cases s now rp plain d Hok) as Hc.
  destruct (committed (refresh_tx s now rp plain) d) as [[[new|]|e] d'] eqn:Htx.
  - destruct Hc as (old' & Hold' & Hrot). rewrite Hold in Hold'. injection Hold' as <-.
    exists new, d'. split_and!; [done|done|]. pose proof (rotation_ok _ _ _ _ _ _ _ Hok Hrot) as Hok'.
    assert (Hh : rt_token_hash new = hash_refresh_token plain) by (by rewrite (ro_new _ _ _ _ _ _ _ Hrot)).
    unfold get_refresh_token_for_update. rewrite <-Hh. apply (token_by_hash_eq _ (au_next_token d)); [done|].
    rewrite (ro_db _ _ _ _ _ _ _ Hrot). apply lookup_insert_eq.
  - destruct Hc as (old' & used & Hold' & _ & Hu' & _). congruence.
  - exfalso. unfold committed, refresh_tx, bind at 1, gets at 1 in Htx. rewrite Hold, Hrev in Htx. simpl in Htx.
    rewrite (proj2 (Z.ltb_ge _ _) Hexp), (proj2 (Z.ltb_ge (rt_absolute_expires_at old) now)), Hused in Htx by lia.
    simpl in Htx. unfold bind at 1, mark_token_used in Htx. rewrite Hused in Htx. unfold modify, bind in Htx.
    unfold issue_refresh_token in Htx. simpl in Htx.
    destruct (token_by_hash _ (hash_refresh_token plain)) as [x|] eqn:Hx; simpl in Htx; [|by rewrite Hu in Htx].
    destruct (token_by_hash_some _ _ _ Hx) as (i & Hi & Hh). simpl in Hi.
    apply lookup_insert_Some in Hi as [[_ <-]|[_ Hi]]; [by apply (Hfresh _ _ Hrow)|by apply (Hfresh i x)].
Qed.

(** No session outlives its cap.  The tokens of a session all carry the cap set
    at login - the login instant plus the absolute lifetime - and expire by then,
    however often the session is refreshed and whatever else happens to the store;
    after that instant no refresh of the session succeeds. *)
Theorem session_never_outlives_absolute s t0 u fam plain d d1 tok v v2 d2 :
  sessions_ok d → (∀ i t, au_tokens d !! i = Some t → rt_family_id t ≠ fam) →
  committed (issue_refresh_token t0 u (sliding_ms s) (absolute_ms s) None fam plain) d = (Ok tok, d1) →
  rtc (history_step s {[fam]}) (v, d1) (v2, d2) →
  (∀ i t, au_tokens d2 !! i = Some t → rt_family_id t = fam →
     rt_absolute_expires_at t = t0 + absolute_ms s ∧ rt_expires_at t <= t0 + absolute_ms s) ∧
  (∀ now rp plain' t d3, committed (refresh_tx s now rp plain') d2 = (Ok (Some t), d3) →
     rt_family_id t = fam → now <= t0 + absolute_ms s ∧ rt_expires_at t <= t0 + absolute_ms s).
Proof.
  intros Hok Hnew Hi Hr. pose proof (committed_issue_ok t0 u (sliding_ms s) (absolute_ms s) fam plain d Hok) as Hok1.
  rewrite Hi in Hok1. simpl in Hok1.
  destruct (capped_history s fam (t0 + absolute_ms s) _ _ Hr Hok1) as [Hok2 Hcap].
  { unfold committed in Hi. pose proof (issue_cases t0 u (sliding_ms s) (absolute_ms s) None fam plain d) as Hc.
    destruct (issue_refresh_token _ _ _ _ _ _ _ d) as [[t|e] d']; [|done]. injection Hi as <- <-.
    destruct Hc as (-> & _ & _ & ->). intros i x Hx Hf. simpl in Hx.
    apply lookup_insert_Some in Hx as [[_ <-]|[_ Hx]]; [done|]. by destruct (Hnew _ _ Hx). }
  split.
  - intros i t Ht Hf. pose proof (Hcap i t Ht Hf) as Ha. pose proof (sk_expiry _ Hok2 _ _ Ht). lia.
  - intros now rp plain' t d3 Htx Hf. pose proof (refresh_tx_cases s now rp plain' d2 Hok2) as Hc.
    rewrite Htx in Hc. destruct Hc as (old & _ & [Hold (_ & _ & Hlive) _ _ -> _]). simpl in Hf |- *.
    rewrite <-(Hcap _ _ Hold Hf). lia.
Qed.

(** What [refresh] answers 401 for before it looks at a replay. *)
Definition refused (now : Z) (rp : string) (d : AuthDb) : bool :=
  match get_refresh_token_for_update rp d with
  | None => true
  | Some t => is_some (rt_revoked_at t) || (rt_expires_at t <? now) || (rt_absolute_expires_at t <? now)
  end.

Lemma refused_spec s now rp plain d :
  (committed (refresh_tx s now rp plain) d).1 = Err (unauthorized "Invalid credentials") ↔ refused now rp d = true.
Proof.
  unfold refused, committed, refresh_tx, bind at 1, gets at 1.
  destruct (get_refresh_token_for_update rp d) as [old|]; [|done].
  destruct (rt_revoked_at old); [done|]. simpl. destruct (_ || _); [done|].
  assert (Hissue : ∀ d1, (match (let! t := issue_refresh_token now (rt_user_id old) (sliding_ms s) (absolute_ms s)
      (Some old) 0 plain in ret (Some t)) d1 with (Ok a, d') => (Ok a, d') | (Err e, _) => (Err e, d) end).1 ≠
    Err (unauthorized "Invalid credentials")).
  { intros d1. unfold bind. pose proof (issue_cases now (rt_user_id old) (sliding_ms s) (absolute_ms s) (Some old) 0 plain d1) as Hi.
    destruct (issue_refresh_token _ _ _ _ _ _ _ d1) as [[t|e] d']; [done|]. by destruct Hi as [[c ->] _]. }
  split; [|done]. intros H. exfalso. destruct (rt_used_at old) eqn:Hu.
  - destruct (grace_ms s <? now - z); [discriminate H|exact (Hissue _ H)].
  - unfold bind at 1, mark_token_used in H. rewrite Hu in H. exact (Hissue _ H).
Qed.

Lemma refused_purge now now' rp d d' :
  sessions_ok d → sessions_ok d' → now <= now' →
  (∀ i t, au_tokens d' !! i = Some t ↔ au_tokens d !! i = Some t ∧ purged now t = false) →
  refused now' rp d = refused now' rp d'.
Proof.
  intros Hok Hok' Hle Hd. unfold refused. destruct (get_refresh_token_for_update rp d') as [t|] eqn:Ht.
  - destruct (token_by_hash_some _ _ _ Ht) as (i & [Hi _]%Hd & Hh).
    unfold get_refresh_token_for_update. by rewrite <-Hh, (token_by_hash_eq _ i t Hok Hi).
  - destruct (get_refresh_token_for_update rp d) as [t|] eqn:Hx; [|done].
    destruct (token_by_hash_some _ _ _ Hx) as (i & Hi & Hh). destruct (purged now t) eqn:Hp.
    + unfold purged in Hp. destruct (rt_revoked_at t); [done|]. rewrite orb_false_r in Hp. apply Z.ltb_lt in Hp.
      rewrite (proj2 (Z.ltb_lt (rt_absolute_expires_at t) now')) by lia. by rewrite orb_true_r.
    + by destruct (token_by_hash_none _ _ i t Ht (proj2 (Hd i t) (conj Hi Hp))).
Qed.

(** The purge always goes through and ends no session.  On any store the
    endpoints can build, deleting the dead rows never trips over the reference of a
    token to its parent; the rows that stay are exactly the ones not past their cap
    and not revoked more than thirty days ago; and a token it deletes was refused
    already, so no refresh is answered differently. *)
Theorem purge_ends_no_session s now d :
  sessions_ok d →
  let '(out, d') := purge_expired now d in
  is_ok out = true ∧ sessions_ok d' ∧
  (∀ i t, au_tokens d' !! i = Some t ↔ au_tokens d !! i = Some t ∧ purged now t = false) ∧
  (∀ now' rp plain, now <= now' →
     (committed (refresh_tx s now' rp plain) d).1 = Err (unauthorized "Invalid credentials") ↔
     (committed (refresh_tx s now' rp plain) d').1 = Err (unauthorized "Invalid credentials")).
Proof.
  intros Hok. rewrite purge_cases by done. split; [done|].
  assert (Hok' : sessions_ok (set_tokens (filter (λ p, purged now p.2 = false) (au_tokens d)) (au_next_token d) d)).
  { pose proof (auth_step_ok s ∅ ∅ d _ (as_purge s ∅ ∅ now d) Hok) as H. by rewrite purge_cases in H. }
  assert (Hd : ∀ i t, filter (λ p, purged now p.2 = false) (au_tokens d) !! i = Some t ↔
    au_tokens d !! i = Some t ∧ purged now t = false) by (intros i t; by rewrite map_lookup_filter_Some).
  split_and!; [done|done|]. intros now' rp plain Hle. rewrite !refused_spec.
  by rewrite (refused_purge now now' rp d _ Hok Hok' Hle Hd).
Qed.

(** ** Guessing a password *)

Lemma hit_live now key window m n e :
  m !! key = Some (n, Some e) → 1 <= n → now < e →
  (hit_lua now key window m).2 = <[key := (n + 1, Some e)]> m.
Proof.
  intros Hm Hn He. unfold hit_lua, counter at 1. rewrite Hm. simpl. rewrite (proj2 (Z.ltb_lt _ _) He).
  by rewrite (proj2 (Z.eqb_neq (n + 1) 1)) by lia.
Qed.

Lemma hit_fresh now key window m :
  counter now key m = None → 0 < window →
  (hit_lua now key window m).2 = <[key := (1, Some (now + window * 1000))]> m.
Proof.
  intros Hm Hw. unfold hit_lua. rewrite Hm. simpl. unfold expire. rewrite counter_insert. simpl.
  rewrite (proj2 (Z.leb_gt window 0)) by lia. by rewrite insert_insert_eq.
Qed.

Lemma hit_other now key k window m : k ≠ key → (hit_lua now key window m).2 !! k = m !! k.
Proof.
  intros Hk. unfold hit_lua. destruct (match counter now key m with Some _ => _ | None => _ end) as [n e]. simpl.
  destruct (n =? 1); [|by rewrite lookup_insert_ne]. unfold expire.
  destruct (counter _ _ _) as [[n' e']|]; [|by rewrite lookup_insert_ne].
  destruct (window <=? 0); [by rewrite lookup_delete_ne, lookup_insert_ne|by rewrite !lookup_insert_ne].
Qed.

Lemma parse_rate_error spec e : parse_rate spec = Err e → e = ValueError.
Proof. unfold parse_rate. intros H. case_hyp H; congruence. Qed.

(** An attempt to log in. *)
Record Attempt : Type := mk_attempt {
  at_now : Z; at_request : Request; at_username : string; at_password : string;
  at_family : Z; at_plain : string; at_csrf : string;
}.

Definition guessed {A} (out : result exn A) : bool :=
  match out with Err (HTTPException c _) => c =? 401 | _ => false end.
Definition limited {A} (out : result exn A) : bool :=
  match out with Err (Domain (RateLimited _)) => true | _ => false end.

Section guessing.
Context (s : Settings) (verify_password : string → string → option bool).
Local Abbreviation W := (LOGIN_FAILURE_WINDOW_SECONDS s).
Local Abbreviation limit := (LOGIN_FAILURE_LIMIT s).

Definition attempt (a : Attempt) : M AuthSys exn Tokens :=
  login s verify_password (at_now a) (at_request a) (at_username a) (at_password a) (at_family a)
    (at_plain a) (at_csrf a).

Fixpoint attempts (l : list Attempt) (sy : AuthSys) : list (result exn Tokens) * AuthSys :=
  match l with
  | [] => ([], sy)
  | a :: l' =>
      let '(out, sy) := attempt a sy in
      let '(outs, sy) := attempts l' sy in
      (out :: outs, sy)
  end.

(** Whether the password and the account are good. *)
Definition accepted (d : AuthDb) (a : Attempt) : bool :=
  match user_by_name d (at_username a) with
  | Some u => default false (verify_password (at_password a) (us_hashed_password u)) && us_is_active u
  | None => false
  end.

(** Whether the stored hash of the account, when there is one, can be checked. *)
Definition checkable (d : AuthDb) (a : Attempt) : bool :=
  match user_by_name d (at_username a) with
  | Some u => is_some (verify_password (at_password a) (us_hashed_password u))
  | None => true
  end.

(** The per-address limit: another key than any account's, and no 401. *)
Lemma limited_other now rq sy username :
  ∃ r l, enforce_ip_rate_limit s now rq "login" (LOGIN_RATE_LIMIT s) sy =
    (r, mk_auth_sys (sy_db sy) l (sy_trail sy)) ∧
    l !! login_failure_key username = sy_limits sy !! login_failure_key username ∧
    (r = Ok tt ∨ ∃ e, r = Err e ∧ (e = ValueError ∧ is_ok (parse_rate (LOGIN_RATE_LIMIT s)) = false ∨ ∃ x, e = Domain (RateLimited x))).
Proof.
  unfold enforce_ip_rate_limit, on_limits, enforce. rewrite bind_lift.
  destruct (parse_rate _) as [[n w]|e] eqn:Hp; [|apply parse_rate_error in Hp as ->; eauto 12].
  unfold enforce_rate_limit. destruct (RATE_LIMIT_ENABLED s); simpl; [|by eauto 10].
  pose proof (hit_other now (join "login" (client_ip s rq)) (login_failure_key username) w (sy_limits sy) ltac:(done)) as Ho.
  destruct (hit_lua _ _ _ _) as [[c t] m]. simpl in Ho. destruct (n <? c); eauto 10.
Qed.

(** One attempt that is not accepted: turned away with the account's counter as it
    was, or a guess that is counted. *)
Lemma attempt_cases a sy :
  accepted (sy_db sy) a = false →
  let key := login_failure_key (at_username a) in
  let '(out, sy') := attempt a sy in
  is_ok out = false ∧ sy_db sy' = sy_db sy ∧
  (guessed out = false ∧ sy_limits sy' !! key = sy_limits sy !! key ∧
     (limited out = true ∨ out = Err ValueError) ∨
   guessed out = true ∧ RATE_LIMIT_ENABLED s && (limit <=? (peek (at_now a) key (sy_limits sy)).1) = false ∧
     ∃ l, l !! key = sy_limits sy !! key ∧ sy_limits sy' = (hit_lua (at_now a) key W l).2).
Proof.
  intros Ha. cbv zeta. unfold attempt, login.
  destruct (limited_other (at_now a) (at_request a) sy (at_username a)) as (r & l & Hlim & Hl & Hr).
  destruct Hr as [->|(e & -> & He)].
  - rewrite (bind_ok _ _ _ _ _ Hlim). unfold bind at 1, gets at 1. cbn [sy_limits sy_db].
    assert (Hpk : peek (at_now a) (login_failure_key (at_username a)) l =
      peek (at_now a) (login_failure_key (at_username a)) (sy_limits sy)).
    { unfold peek, ttl, counter. by rewrite Hl. }
    rewrite Hpk.
    destruct (RATE_LIMIT_ENABLED s && _) eqn:Hb; [split_and!; [done..|]; left; by split_and!; [| |left]|].
    unfold accepted in Ha. unfold bind at 1, gets at 1. cbn [sy_limits sy_db].
    destruct (user_by_name (sy_db sy) (at_username a)) as [u|];
      [destruct (verify_password _ _) as [valid|]; simpl in Ha; [rewrite Ha|]|];
      try (split_and!; [done..|]; right; split_and!; [done..|]; by eauto).
    split_and!; [done..|]. left. by split_and!; [| |right].
  - rewrite (bind_err _ _ _ _ _ Hlim). split_and!; [done..|]. left.
    destruct He as [[-> _]|[x ->]]; split_and!; [done|done|by right|done|done|by left].
Qed.

(** What the account's counter allows from here on, within its life. *)
Lemma attempts_live key n e l sy :
  RATE_LIMIT_ENABLED s = true → sy_limits sy !! key = Some (n, Some e) → 1 <= n →
  Forall (λ a, login_failure_key (at_username a) = key ∧ at_now a < e ∧ accepted (sy_db sy) a = false) l →
  let '(outs, sy') := attempts l sy in
  let guesses := Z.of_nat (List.length (filter (λ o, guessed o = true) outs)) in
  Forall (λ o, is_ok o = false) outs ∧ sy_db sy' = sy_db sy ∧ guesses <= Z.max 0 (limit - n) ∧
  sy_limits sy' !! key = Some (n + guesses, Some e).
Proof.
  intros Hs. revert n sy. induction l as [|a l IH]; intros n sy Hk Hn Hl; simpl.
  { split_and!; [done|done|lia|by rewrite Z.add_0_r]. }
  apply Forall_cons in Hl as [(Hkey & Ht & Hacc) Hl].
  pose proof (attempt_cases a sy Hacc) as Hc. destruct (attempt a sy) as [out sy1].
  rewrite Hkey in Hc. destruct Hc as (Hno & Hdb & Hc). rewrite <-Hdb in Hl.
  destruct Hc as [(Hg & Hk1 & _)|(Hg & Hb & m & Hm & Hk1)].
  - specialize (IH n sy1). destruct (attempts l sy1) as [outs sy'].
    destruct IH as (H1 & H2 & H3 & H4); [by rewrite Hk1|done|done|].
    rewrite filter_cons_False by (by rewrite Hg). split_and!; [by constructor|congruence|done|done].
  - rewrite Hk in Hm. pose proof (hit_live (at_now a) key W m n e Hm Hn Ht) as Hh. rewrite <-Hk1 in Hh.
    specialize (IH (n + 1) sy1). destruct (attempts l sy1) as [outs sy'].
    destruct IH as (H1 & H2 & H3 & H4); [by rewrite Hh, lookup_insert_eq|lia|done|].
    rewrite filter_cons_True, length_cons by done. cbv zeta in H3, H4 |- *.
    rewrite Hs in Hb. simpl in Hb. unfold peek, counter in Hb. rewrite Hk in Hb. simpl in Hb.
    rewrite (proj2 (Z.ltb_lt _ _) Ht) in Hb. simpl in Hb. apply Z.leb_gt in Hb.
    split_and!; [by constructor|congruence|lia|]. rewrite H4. do 2 f_equal. lia.
Qed.

(** At the limit the password no longer counts. *)
Lemma attempt_locked a sy :
  RATE_LIMIT_ENABLED s = true → is_ok (parse_rate (LOGIN_RATE_LIMIT s)) = true →
  limit <= (peek (at_now a) (login_failure_key (at_username a)) (sy_limits sy)).1 →
  let '(out, sy') := attempt a sy in limited out = true ∧ sy_db sy' = sy_db sy.
Proof.
  intros Hs Hp Hpk. unfold attempt, login.
  destruct (limited_other (at_now a) (at_request a) sy (at_username a)) as (r & l & Hlim & Hl & Hr).
  destruct Hr as [->|(e & -> & He)].
  - rewrite (bind_ok _ _ _ _ _ Hlim). unfold bind at 1, gets at 1. cbn [sy_limits sy_db].
    assert ((peek (at_now a) (login_failure_key (at_username a)) l).1 =
      (peek (at_now a) (login_failure_key (at_username a)) (sy_limits sy)).1) as -> by (unfold peek, counter; by rewrite Hl).
    by rewrite Hs, (proj2 (Z.leb_le _ _) Hpk).
  - rewrite (bind_err _ _ _ _ _ Hlim). destruct He as [[_ Hp']|[x ->]]; [congruence|done].
Qed.

Lemma counter_later t0 t key m : counter t0 key m = None → t0 <= t → counter t key m = None.
Proof.
  unfold counter. destruct (m !! key) as [[n [e|]]|]; simpl; [|done|done].
  destruct (t0 <? e) eqn:H; [done|]. intros _ Ht. by rewrite (proj2 (Z.ltb_ge t e)) by zlia.
Qed.

(** What the account's counter allows in a whole window. *)
Lemma attempts_window key t0 l sy :
  RATE_LIMIT_ENABLED s = true → 0 < W → 0 <= limit → counter t0 key (sy_limits sy) = None →
  Forall (λ a, login_failure_key (at_username a) = key ∧ t0 <= at_now a < t0 + W * 1000 ∧
               accepted (sy_db sy) a = false) l →
  let '(outs, sy') := attempts l sy in
  let guesses := Z.of_nat (List.length (filter (λ o, guessed o = true) outs)) in
  Forall (λ o, is_ok o = false) outs ∧ sy_db sy' = sy_db sy ∧ guesses <= limit ∧
  ∀ t, t0 <= t < t0 + W * 1000 → (peek t key (sy_limits sy')).1 = guesses.
Proof.
  intros Hs HW Hlim. revert sy. induction l as [|a l IH]; intros sy Hk Hl; simpl.
  { split_and!; [done|done|lia|]. intros t Ht. unfold peek. rewrite (counter_later t0 t); [done|done|lia]. }
  apply Forall_cons in Hl as [(Hkey & Ht & Hacc) Hl].
  pose proof (attempt_cases a sy Hacc) as Hc. destruct (attempt a sy) as [out sy1].
  rewrite Hkey in Hc. destruct Hc as (Hno & Hdb & Hc). rewrite <-Hdb in Hl.
  destruct Hc as [(Hg & Hk1 & _)|(Hg & Hb & m & Hm & Hk1)].
  - specialize (IH sy1). destruct (attempts l sy1) as [outs sy'].
    destruct IH as (H1 & H2 & H3 & H4); [unfold counter; by rewrite Hk1|done|].
    rewrite filter_cons_False by (by rewrite Hg). split_and!; [by constructor|congruence|done|done].
  - assert (Hpk : counter (at_now a) key (sy_limits sy) = None) by (apply (counter_later t0); [done|lia]).
    assert (Hk' : counter (at_now a) key m = None) by (unfold counter; by rewrite Hm).
    rewrite Hs in Hb. unfold peek in Hb. rewrite Hpk in Hb. simpl in Hb. apply Z.leb_gt in Hb.
    rewrite (hit_fresh _ _ _ _ Hk' HW) in Hk1.
    pose proof (attempts_live key 1 (at_now a + W * 1000) l sy1 Hs) as Hlive.
    destruct (attempts l sy1) as [outs sy'].
    destruct Hlive as (H1 & H2 & H3 & H4); [by rewrite Hk1, lookup_insert_eq|done| |].
    { eapply Forall_impl; [exact Hl|]. simpl. intros b (? & ? & ?). split_and!; [done|lia|done]. }
    rewrite filter_cons_True, length_cons by done. split_and!; [by constructor|congruence|lia|].
    intros t Ht'. unfold peek, counter. rewrite H4. simpl. rewrite (proj2 (Z.ltb_lt _ _)) by lia. simpl. lia.
Qed.

(** An account's password can be guessed at most [LOGIN_FAILURE_LIMIT] times a
    window.  From any instant where the account has no failures on record, however
    many wrong attempts arrive one after another within the window, from whatever
    addresses and in whatever capitalisation, at most the limit of them get as far as
    the password; the database does not change; and once the limit is reached every
    further attempt of the window, the right password included, is answered 429. *)
Theorem at_most_limit_guesses key t0 l sy :
  RATE_LIMIT_ENABLED s = true → 0 < W → 0 <= limit → is_ok (parse_rate (LOGIN_RATE_LIMIT s)) = true →
  counter t0 key (sy_limits sy) = None →
  Forall (λ a, login_failure_key (at_username a) = key ∧ t0 <= at_now a < t0 + W * 1000 ∧
               accepted (sy_db sy) a = false) l →
  let '(outs, sy') := attempts l sy in
  let guesses := Z.of_nat (List.length (filter (λ o, guessed o = true) outs)) in
  guesses <= limit ∧ Forall (λ o, is_ok o = false) outs ∧ sy_db sy' = sy_db sy ∧
  (guesses = limit → ∀ a, login_failure_key (at_username a) = key → t0 <= at_now a < t0 + W * 1000 →
     let '(out, sy2) := attempt a sy' in limited out = true ∧ sy_db sy2 = sy_db sy).
Proof.
  intros Hs HW Hlim Hp Hc Hl. pose proof (attempts_window key t0 l sy Hs HW Hlim Hc Hl) as H.
  destruct (attempts l sy) as [outs sy']. destruct H as (H1 & H2 & H3 & H4). split_and!; [done..|].
  intros Hg a Hk Ht. pose proof (attempt_locked a sy' Hs Hp) as Ha. rewrite Hk, H4 in Ha by done.
  destruct (attempt a sy') as [out sy2]. rewrite <-H2. apply Ha. by rewrite Hg.
Qed.

(** A refused login says nothing about the account.  On two systems with the same
    counters, whatever their users - no such account, a wrong password or an inactive
    one - a login that is not accepted gets the same answer, leaves the same counters
    and the same trail, as long as the hash of the account can be checked. *)
Theorem refused_logins_look_alike a sy1 sy2 :
  sy_limits sy1 = sy_limits sy2 → sy_trail sy1 = sy_trail sy2 →
  accepted (sy_db sy1) a = false → accepted (sy_db sy2) a = false →
  checkable (sy_db sy1) a = true → checkable (sy_db sy2) a = true →
  (attempt a sy1).1 = (attempt a sy2).1 ∧ sy_limits (attempt a sy1).2 = sy_limits (attempt a sy2).2 ∧
  sy_trail (attempt a sy1).2 = sy_trail (attempt a sy2).2.
Proof.
  destruct sy1 as [d1 m tr], sy2 as [d2 m2 tr2]. simpl. intros <- <- H1 H2 C1 C2. unfold attempt, login.
  unfold enforce_ip_rate_limit, on_limits, bind. simpl.
  destruct (enforce _ _ _ _ m) as [[[]|e] l]; [|done]. unfold gets. simpl.
  destruct (RATE_LIMIT_ENABLED s && _); [done|]. cbn [sy_db] in *. unfold accepted in H1, H2. unfold checkable in C1, C2.
  destruct (user_by_name d1 _) as [u1|], (user_by_name d2 _) as [u2|]; cbn [at_username at_password] in *;
    repeat match goal with
    | H : is_some ?x = true |- _ => destruct x; [clear H|done]
    end; simpl in *; rewrite ?H1, ?H2; by split_and!.
Qed.

(** A login under the name of an account whose stored text is no hash - what erasing
    leaves - is a server error, not a 401, and is not counted against the account:
    its failures never add up to the limit. *)
Theorem unparsable_hash_is_a_server_error a sy u :
  user_by_name (sy_db sy) (at_username a) = Some u →
  verify_password (at_password a) (us_hashed_password u) = None →
  let key := login_failure_key (at_username a) in
  let '(out, sy') := attempt a sy in
  guessed out = false ∧ sy_limits sy' !! key = sy_limits sy !! key ∧ sy_db sy' = sy_db sy ∧
  (limited out = true ∨ out = Err ValueError).
Proof.
  intros Hu Hv key. assert (Ha : accepted (sy_db sy) a = false) by (unfold accepted; by rewrite Hu, Hv).
  pose proof (attempt_cases a sy Ha) as H. fold key in H.
  assert (Hg : guessed (attempt a sy).1 = false).
  { unfold attempt, login.
    destruct (limited_other (at_now a) (at_request a) sy (at_username a)) as (r & l & Hlim & _ & Hr).
    destruct Hr as [->|(e & -> & He)].
    - rewrite (bind_ok _ _ _ _ _ Hlim). unfold bind at 1, gets at 1. cbn [sy_limits sy_db].
      destruct (RATE_LIMIT_ENABLED s && _); [done|]. unfold bind at 1, gets at 1. cbn [sy_db]. by rewrite Hu, Hv.
    - rewrite (bind_err _ _ _ _ _ Hlim). by destruct He as [[-> _]|[x ->]]. }
  destruct (attempt a sy) as [out sy']. simpl in Hg. destruct H as (_ & Hdb & [(? & ? & ?)|(Ht & _)]); [|congruence].
  by split_and!.
Qed.
End guessing.

(** ** Accounts *)

(** Ids are keys, names are unique, and a name is either one the registration accepts
    or the anonymous name of its own row. *)
Record accounts_ok (d : AuthDb) : Prop := {
  ak_ids : ∀ i u, au_users d !! i = Some u → us_id u = i ∧ i < au_next_user d;
  ak_unique : ∀ i j u v, au_users d !! i = Some u → au_users d !! j = Some v → us_username u = us_username v → i = j;
  ak_names : ∀ i u, au_users d !! i = Some u →
    username_ok (list_ascii_of_string (us_username u)) = true ∨ us_username u = anonymised_username i;
}.

Lemma user_by_name_some d name u :
  user_by_name d name = Some u → ∃ i, au_users d !! i = Some u ∧ us_username u = name.
Proof.
  unfold user_by_name. destruct (list_find _ _) as [[n [i x]]|] eqn:Hf; [|done]. intros [= <-].
  apply list_find_Some in Hf as (Hl & Hh & _). exists i. split; [|done].
  apply elem_of_map_to_list. by eapply list_elem_of_lookup_2.
Qed.

Lemma user_by_name_none d name i u : user_by_name d name = None → au_users d !! i = Some u → us_username u ≠ name.
Proof.
  unfold user_by_name. destruct (list_find _ _) as [[n [j x]]|] eqn:Hf; [done|]. intros _ Hi.
  apply list_find_None in Hf. rewrite Forall_forall in Hf. apply (Hf (i, u)). by apply elem_of_map_to_list.
Qed.

Lemma anonymised_not_ok i : username_ok (list_ascii_of_string (anonymised_username i)) = false.
Proof.
  unfold username_ok, anonymised_username. apply andb_false_iff. right. by destruct (z_str i).
Qed.

Lemma anonymised_inj : Inj (=) (=) anonymised_username.
Proof. intros i j H. unfold anonymised_username in H. simplify_eq/=. by apply (inj z_str). Qed.

Lemma create_user_accounts hash name pw d :
  accounts_ok d → username_ok (list_ascii_of_string name) = true → accounts_ok (create_user hash name pw d).2.
Proof.
  intros [H1 H2 H3] Hn. unfold create_user. destruct (user_by_name d name) eqn:Hx; simpl.
  - split; [|done|done]. intros i x Hi. simpl in *. destruct (H1 _ _ Hi). lia.
  - pose proof (λ i u, user_by_name_none d name i u Hx) as Hfresh. split; simpl.
    + intros i x [[<- <-]|[_ Hi]]%lookup_insert_Some; [simpl; lia|]. destruct (H1 _ _ Hi). lia.
    + intros i j a b [[<- <-]|[_ Hi]]%lookup_insert_Some [[<- <-]|[_ Hj]]%lookup_insert_Some Heq; simpl in *.
      * done.
      * by destruct (Hfresh j b).
      * by destruct (Hfresh i a).
      * by eapply H2.
    + intros i x [[<- <-]|[_ Hi]]%lookup_insert_Some; [by left|by apply H3].
Qed.

(** Erasing never meets another row under the anonymous name. *)
Lemma erase_cases u row d :
  accounts_ok d → au_users d !! us_id u = Some row →
  erase_user u d =
    (Ok (mk_user (us_id u) (anonymised_username (us_id u)) UNUSABLE_PASSWORD false (us_is_admin row)),
     mk_auth_db (<[us_id u := mk_user (us_id u) (anonymised_username (us_id u)) UNUSABLE_PASSWORD false
                                (us_is_admin row)]> (au_users d)) (au_next_user d)
       (filter (λ p, rt_user_id p.2 ≠ us_id u) (au_tokens d)) (au_next_token d)
       (au_buyer_info d ∖ {[us_id u]})).
Proof.
  intros [H1 H2 H3] Hrow. unfold erase_user. simpl. rewrite Hrow. simpl.
  destruct (user_by_name _ _) as [x|] eqn:Hx; [|done].
  destruct (user_by_name_some _ _ _ Hx) as (j & Hj & Hname). simpl in Hj.
  assert (j = us_id u) as ->.
  { destruct (H3 _ _ Hj) as [Hok|Han]; [by rewrite Hname, anonymised_not_ok in Hok|].
    apply anonymised_inj. congruence. }
  destruct (H1 _ _ Hj) as [-> _]. by rewrite Z.eqb_refl.
Qed.

Lemma erase_accounts u row d :
  accounts_ok d → au_users d !! us_id u = Some row → accounts_ok (erase_user u d).2.
Proof.
  intros Hok Hrow. rewrite (erase_cases u row d Hok Hrow). destruct Hok as [H1 H2 H3]. split; simpl.
  - intros i x [[<- <-]|[_ Hi]]%lookup_insert_Some; [|by apply H1]. destruct (H1 _ _ Hrow). by split.
  - intros i j a b [[<- <-]|[Hni Hi]]%lookup_insert_Some [[<- <-]|[Hnj Hj]]%lookup_insert_Some Heq; simpl in *.
    + done.
    + destruct (H3 _ _ Hj) as [Hok|Han]; [by rewrite <-Heq, anonymised_not_ok in Hok|].
      apply anonymised_inj. congruence.
    + destruct (H3 _ _ Hi) as [Hok|Han]; [by rewrite Heq, anonymised_not_ok in Hok|].
      apply anonymised_inj. congruence.
    + by eapply H2.
  - intros i x [[<- <-]|[_ Hi]]%lookup_insert_Some; [by right|by apply H3].
Qed.

Lemma user_create_ok raw pw name pw' :
  user_create raw pw = Some (name, pw') → username_ok (list_ascii_of_string name) = true.
Proof.
  unfold user_create. destruct (username_ok _) eqn:H; simpl; [|done].
  destruct (_ && _)%nat; [|done]. intros [= <- _]. by rewrite list_ascii_of_string_of_list_ascii.
Qed.

Lemma issue_users now u sl ab p f plain d :
  let d' := (issue_refresh_token now u sl ab p f plain d).2 in
  au_users d' = au_users d ∧ au_next_user d' = au_next_user d.
Proof.
  pose proof (issue_cases now u sl ab p f plain d) as H.
  destruct (issue_refresh_token _ _ _ _ _ _ _ d) as [[t|e] d']; [destruct H as (_ & _ & _ & ->)|destruct H as [_ ->]];
    done.
Qed.

Lemma same_accounts_ok d d' :
  au_users d' = au_users d → au_next_user d' = au_next_user d → accounts_ok d → accounts_ok d'.
Proof. intros Hu Hn [H1 H2 H3]. split; rewrite ?Hu, ?Hn; done. Qed.

Lemma refresh_users s now rp plain d :
  sessions_ok d →
  let d' := (committed (refresh_tx s now rp plain) d).2 in
  au_users d' = au_users d ∧ au_next_user d' = au_next_user d.
Proof.
  intros Hok. cbv zeta. pose proof (refresh_tx_cases s now rp plain d Hok) as H.
  destruct (committed _ d) as [[[t|]|e] d'].
  - destruct H as (old & _ & [_ _ _ _ _ ->]). done.
  - by destruct H as (old & used & _ & _ & _ & _ & ->).
  - by subst.
Qed.

Lemma committed_users now u sl ab p f plain d :
  let d' := (committed (issue_refresh_token now u sl ab p f plain) d).2 in
  au_users d' = au_users d ∧ au_next_user d' = au_next_user d.
Proof.
  pose proof (issue_users now u sl ab p f plain d) as H. unfold committed.
  by destruct (issue_refresh_token _ _ _ _ _ _ _ d) as [[t|e] d'].
Qed.

Lemma accounts_step s taken v d d' : auth_step s taken v d d' → sessions_ok d → accounts_ok d → accounts_ok d'.
Proof.
  intros Hst Hs Hok. destruct Hst as [now u f plain d _ _|now rp plain d|now f d|now u d|now d|hash raw name pw d Hn|u d].
  - destruct (committed_users now u (sliding_ms s) (absolute_ms s) None f plain d). by apply (same_accounts_ok d).
  - destruct (refresh_users s now rp plain d Hs). by apply (same_accounts_ok d).
  - by apply (same_accounts_ok d).
  - by apply (same_accounts_ok d).
  - rewrite purge_cases by done. by apply (same_accounts_ok d).
  - apply create_user_accounts; [done|by eapply user_create_ok].
  - unfold committed. destruct (au_users d !! us_id u) as [row|] eqn:Hrow.
    + pose proof (erase_accounts u row d Hok Hrow) as H. by rewrite (erase_cases u row d Hok Hrow) in H |- *.
    + unfold erase_user. simpl. by rewrite Hrow.
Qed.

(** An account that has been erased. *)
Record shut (i : Z) (row : User) (d : AuthDb) : Prop := {
  sh_row : au_users d !! i = Some row;
  sh_tokens : ∀ j t, au_tokens d !! j = Some t → rt_user_id t ≠ i;
}.
Definition erased_row (i : Z) (admin : bool) : User :=
  mk_user i (anonymised_username i) UNUSABLE_PASSWORD false admin.

Lemma shut_step s taken v i b d d' :
  auth_step s taken v d d' → (i ∉ v) → sessions_ok d → accounts_ok d → shut i (erased_row i b) d → shut i (erased_row i b) d'.
Proof.
  intros Hst Hv Hs Hok [Hrow Htok].
  destruct Hst as [now u f plain d _ Hu|now rp plain d|now f d|now u d|now d|hash raw name pw d Hn|u d].
  - split; [by rewrite (proj1 (committed_users now u (sliding_ms s) (absolute_ms s) None f plain d))|].
    unfold committed. pose proof (issue_cases now u (sliding_ms s) (absolute_ms s) None f plain d) as Hi.
    destruct (issue_refresh_token _ _ _ _ _ _ _ d) as [[t|e] d']; [|done].
    destruct Hi as (-> & _ & _ & ->). simpl. intros j t [[_ <-]|[_ Hj]]%lookup_insert_Some; [|by eapply Htok].
    simpl. by intros ->.
  - split; [by rewrite (proj1 (refresh_users s now rp plain d Hs))|].
    pose proof (refresh_tx_cases s now rp plain d Hs) as Hc. destruct (committed _ d) as [[[t|]|e] d']; simpl.
    + destruct Hc as (old & _ & [Hold _ _ _ -> ->]). simpl.
      intros j t [[_ <-]|[_ [[_ <-]|[_ Hj]]%lookup_insert_Some]]%lookup_insert_Some; simpl;
        by eapply Htok.
    + destruct Hc as (old & used & _ & _ & _ & _ & ->). intros j t (x & <- & Hj)%lookup_fmap_Some.
      destruct (_ && _); exact (Htok j x Hj).
    + by subst.
  - split; [done|]. intros j t (x & <- & Hj)%lookup_fmap_Some. destruct (_ && _); exact (Htok j x Hj).
  - split; [done|]. intros j t (x & <- & Hj)%lookup_fmap_Some. destruct (_ && _); exact (Htok j x Hj).
  - rewrite purge_cases by done. split; [done|]. simpl. intros j t [Hj _]%map_lookup_filter_Some. by eapply Htok.
  - destruct (ak_ids _ Hok _ _ Hrow) as [_ Hlt]. unfold create_user. destruct (is_some _); split; simpl; try done.
    rewrite lookup_insert_ne by lia. done.
  - unfold committed. destruct (au_users d !! us_id u) as [r|] eqn:Hr.
    + rewrite (erase_cases u r d Hok Hr). split; simpl.
      * destruct (decide (us_id u = i)) as [Heq|Hne]; [|by rewrite lookup_insert_ne].
        rewrite Heq in Hr |- *. assert (r = erased_row i b) as -> by congruence. by rewrite lookup_insert_eq.
      * intros j t [Hj _]%map_lookup_filter_Some. by eapply Htok.
    + unfold erase_user. simpl. by rewrite Hr.
Qed.

(** A login that begins after the erasure reads an inactive row. *)
Lemma shut_history s taken i b h h' :
  rtc (history_step s taken) h h' → (i ∉ h.1) → sessions_ok h.2 → accounts_ok h.2 → shut i (erased_row i b) h.2 →
  sessions_ok h'.2 ∧ accounts_ok h'.2 ∧ shut i (erased_row i b) h'.2.
Proof.
  induction 1 as [|h h1 h' Hst _ IH]; [done|]. intros Hv Hs Ha Hsh.
  destruct Hst as [u row v d Hu Hact|v d d' Hst]; simpl in *.
  - apply IH; [|done..]. intros [->%elem_of_singleton|?]%elem_of_union; [|done].
    rewrite (sh_row _ _ _ Hsh) in Hu. by injection Hu as <-.
  - apply IH; [done|by eapply auth_step_ok|by eapply accounts_step|by eapply shut_step].
Qed.

(** What an erasure leaves. *)
Lemma erase_endpoint_cases admin i u sy :
  sessions_ok (sy_db sy) → accounts_ok (sy_db sy) →
  au_users (sy_db sy) !! i = Some u → is_erased u = false →
  ∃ d1 tr, erase_user_endpoint admin i sy = (Ok (erased_row i (us_is_admin u)), mk_auth_sys d1 (sy_limits sy) tr) ∧
    sessions_ok d1 ∧ accounts_ok d1 ∧ shut i (erased_row i (us_is_admin u)) d1 ∧ (i ∉ au_buyer_info d1) ∧
    au_tokens d1 ⊆ au_tokens (sy_db sy).
Proof.
  intros Hs Ha Hu Her. destruct (ak_ids _ Ha _ _ Hu) as [Hid _].
  unfold erase_user_endpoint, bind at 1, gets at 1. rewrite Hu, Her. unfold bind at 1, on_auth_db, committed.
  rewrite <-Hid in Hu. pose proof (auth_step_ok (default_settings "") ∅ ∅ _ _ (as_erase (default_settings "") ∅ ∅ u (sy_db sy)) Hs) as Hs1.
  pose proof (erase_accounts u u (sy_db sy) Ha Hu) as Ha1. unfold committed in Hs1.
  rewrite (erase_cases u u (sy_db sy) Ha Hu) in Hs1, Ha1 |- *. rewrite Hid in *. simpl in *.
  do 2 eexists. split; [done|]. split_and!; [done|done| |simpl; set_solver|simpl; apply map_filter_subseteq].
  split; simpl; [by rewrite lookup_insert_eq|]. by intros j t [_ Hj]%map_lookup_filter_Some.
Qed.

Lemma shut_no_access i row d decode now token x :
  accounts_ok d → au_users d !! i = Some row → us_is_active row = false → current_user decode now token d = Ok x → us_id x ≠ i.
Proof.
  intros Ha Hrow Hin Hx Hxi. unfold current_user, load_user_from_token in Hx.
  destruct (bool_decide _); [done|]. destruct (decode now token) as [sub|]; [|done]. destruct (is_numeric sub); [|done].
  simpl in Hx. destruct (z_parse sub) as [j|]; [|done]. destruct (au_users d !! j) as [y|] eqn:Hj; [|done].
  simpl in Hx. destruct (us_is_active y) eqn:Hact; [|done]. injection Hx as <-.
  destruct (ak_ids _ Ha _ _ Hj) as [Hjx _]. rewrite <-Hjx, Hxi, Hrow in Hj. congruence.
Qed.

(** C23 (erasing an account goes through, and shuts it for good).  On any store that
    registrations built, erasing an account that is not yet erased succeeds - no other
    account can hold the anonymous name -, removes its buyer information and its
    sessions and puts the anonymous, inactive row in its place.  When no login of the
    account has passed its check and not yet inserted its token at that moment, then
    after any further history of complete transactions - logins whose check and
    INSERT lie apart, refreshes, logouts, purges, registrations, erasures - no password
    logs into it, no refresh token yields a session of it, no access token
    authenticates as it, and erasing it again is answered with the same row and
    changes nothing.  (The condition is needed: [login_in_flight_survives_erasure].) *)
Theorem erased_account_is_shut s verify decode admin i u sy :
  sessions_ok (sy_db sy) → accounts_ok (sy_db sy) →
  au_users (sy_db sy) !! i = Some u → is_erased u = false →
  let '(out, sy1) := erase_user_endpoint admin i sy in
  out = Ok (erased_row i (us_is_admin u)) ∧ (i ∉ au_buyer_info (sy_db sy1)) ∧
  ∀ v v2 d2, (i ∉ v) → rtc (history_step s ∅) (v, sy_db sy1) (v2, d2) →
    (∀ a x, user_by_name d2 (at_username a) = Some x → us_id x = i → accepted verify d2 a = false) ∧
    (∀ now rp plain t d3, committed (refresh_tx s now rp plain) d2 = (Ok (Some t), d3) → rt_user_id t ≠ i) ∧
    (∀ now token x, current_user decode now token d2 = Ok x → us_id x ≠ i) ∧
    (∀ admin' l tr, erase_user_endpoint admin' i (mk_auth_sys d2 l tr) =
       (Ok (erased_row i (us_is_admin u)), mk_auth_sys d2 l tr)).
Proof.
  intros Hs Ha Hu Her.
  destruct (erase_endpoint_cases admin i u sy Hs Ha Hu Her) as (d1 & tr & -> & Hs1 & Ha1 & Hsh1 & Hb & _).
  split_and!; [done|done|]. intros v v2 d2 Hv Hr.
  destruct (shut_history s ∅ i (us_is_admin u) _ _ Hr Hv Hs1 Ha1 Hsh1) as (Hs2 & Ha2 & Hsh). simpl in Hs2, Ha2, Hsh.
  split_and!.
  - intros a x Hx Hxi. unfold accepted. rewrite Hx. destruct (user_by_name_some _ _ _ Hx) as (j & Hj & _).
    destruct (ak_ids _ Ha2 _ _ Hj) as [Hjx _]. rewrite <-Hjx, Hxi, (sh_row _ _ _ Hsh) in Hj. injection Hj as <-.
    apply andb_false_r.
  - intros now rp plain t d3 Htx. pose proof (refresh_tx_cases s now rp plain d2 Hs2) as Hc. rewrite Htx in Hc.
    destruct Hc as (old & _ & [Hold _ _ _ -> _]). exact (sh_tokens _ _ _ Hsh _ _ Hold).
  - intros now token x. by apply (shut_no_access i _ d2 decode now token x Ha2 (sh_row _ _ _ Hsh)).
  - intros admin' l tr'. unfold erase_user_endpoint, bind, gets. simpl. rewrite (sh_row _ _ _ Hsh).
    unfold is_erased, erased_row. simpl. by rewrite bool_decide_true.
Qed.

(** A login of the account is between its check and its INSERT while the account is
    erased.  The INSERT is not checked again, so the erased account is left with a
    live session: its refresh token is exchanged for the next one, for as long as the
    session's cap allows, because a refresh never looks at the account.  Only the
    access tokens handed out with it are refused. *)
Theorem login_in_flight_survives_erasure s admin i u sy now f plain now' plain' :
  sessions_ok (sy_db sy) → accounts_ok (sy_db sy) →
  au_users (sy_db sy) !! i = Some u → is_erased u = false →
  (∀ j t, au_tokens (sy_db sy) !! j = Some t →
     rt_token_hash t ≠ hash_refresh_token plain ∧ rt_token_hash t ≠ hash_refresh_token plain') →
  hash_refresh_token plain ≠ hash_refresh_token plain' →
  now' <= now + sliding_ms s → now' <= now + absolute_ms s →
  ∃ t d1 new d2,
    committed (issue_refresh_token now i (sliding_ms s) (absolute_ms s) None f plain)
      (sy_db (erase_user_endpoint admin i sy).2) = (Ok t, d1) ∧
    au_users d1 !! i = Some (erased_row i (us_is_admin u)) ∧
    committed (refresh_tx s now' plain plain') d1 = (Ok (Some new), d2) ∧ rt_user_id new = i ∧
    (∀ decode tm token x, current_user decode tm token d1 = Ok x → us_id x ≠ i).
Proof.
  intros Hs Ha Hu Her Hh Hne Hsl Hab.
  destruct (erase_endpoint_cases admin i u sy Hs Ha Hu Her) as (d1 & tr & -> & Hs1 & Ha1 & Hsh & _ & Hsub). simpl.
  pose proof (committed_issue_ok now i (sliding_ms s) (absolute_ms s) f plain d1 Hs1) as Hs2.
  pose proof (issue_ok now i (sliding_ms s) (absolute_ms s) f plain d1 ltac:(eexists; apply Hsh)
    ltac:(intros j t Hj; by apply (Hh j t), (lookup_weaken _ _ _ _ Hj))) as Hi. rewrite Hi in Hs2 |- *.
  set (t := issued _ _ _ _ _ _ _ _) in *. set (d2 := set_tokens _ _ d1) in *. simpl in Hs2.
  destruct (live_token_rotates s now' plain plain' d2 t Hs2) as (new & d3 & Htx & Hrot & _).
  - unfold get_refresh_token_for_update. replace (hash_refresh_token plain) with (rt_token_hash t) by done.
    apply (token_by_hash_eq _ (au_next_token d1)); [done|]. apply lookup_insert_eq.
  - done.
  - done.
  - simpl. lia.
  - simpl. eexists. apply Hsh.
  - simpl. intros j x [[_ <-]|[_ Hj]]%lookup_insert_Some; [done|]. by apply (Hh j x), (lookup_weaken _ _ _ _ Hj).
  - exists t, d2, new, d3. split_and!; [done|apply Hsh|done|by rewrite (ro_new _ _ _ _ _ _ _ Hrot)|].
    intros decode tm token x. apply (shut_no_access i (erased_row i (us_is_admin u)) d2); [|apply Hsh|done].
    by apply (same_accounts_ok d1).
Qed.

(** ** The address a request is counted under *)

Lemma list_ascii_comma a b :
  list_ascii_of_string (a +:+ "," +:+ b) = list_ascii_of_string a ++ ","%char :: list_ascii_of_string b.
Proof. induction a as [|c a IH]; [done|]. simpl. by f_equal. Qed.

(** The hops a client writes into the header itself do not count: behind as many
    proxies as declared, each of which appends the address it saw, the request is
    counted under what the outermost of them saw. *)
Theorem client_ip_ignores_forged_hops s rq forged proxies h l :
  0 < TRUSTED_PROXY_COUNT s → hops proxies = h :: l → Z.of_nat (List.length (h :: l)) = TRUSTED_PROXY_COUNT s →
  rq_forwarded rq = Some (forged +:+ "," +:+ proxies) →
  client_ip s rq = string_of_list_ascii h.
Proof.
  intros Hn Hh Hl Hrq. unfold client_ip. rewrite Hrq, (proj2 (Z.ltb_lt _ _) Hn).
  assert (hops (forged +:+ "," +:+ proxies) = hops forged ++ h :: l) as ->.
  { rewrite <-Hh. unfold hops. rewrite <-filter_app, <-fmap_app, <-split_comma_app.
    by rewrite list_ascii_comma. }
  destruct (hops forged ++ h :: l) as [|x r] eqn:Happ; [by destruct (hops forged)|]. rewrite <-Happ.
  rewrite length_app, Nat2Z.inj_add, Hl.
  replace (Z.to_nat (Z.max 0 (_ + _ - _))) with (List.length (hops forged)) by lia.
  rewrite lookup_app_r by lia. by rewrite Nat.sub_diag.
Qed.

(** ** A replay that races a rotation *)

(** The UPDATE of [revoke_family] with the rows its snapshot holds: a row that
    another transaction commits while the statement waits for a lock is not among
    them. *)
Definition revoke_family_seen (seen : gset Z) (now family : Z) : M AuthDb exn unit :=
  modify (revoke_where (λ r, (rt_family_id r =? family) && bool_decide (rt_id r ∈ seen)) now).

Lemma revoke_hash_some now p d plain t :
  sessions_ok d → get_refresh_token_for_update plain d = Some t → p t = false →
  get_refresh_token_for_update plain (revoke_where p now d) = Some t.
Proof.
  intros Hok Ht Hp. destruct (token_by_hash_some _ _ _ Ht) as (i & Hi & Hh).
  unfold get_refresh_token_for_update. destruct (token_by_hash (revoke_where p now d) _) as [x|] eqn:Hx.
  - destruct (token_by_hash_some _ _ _ Hx) as (j & (y & <- & Hj)%lookup_fmap_Some & Hhx).
    assert (rt_token_hash y = rt_token_hash t) as Heq by (rewrite Hh, <-Hhx; by destruct (_ && _)).
    pose proof (sk_hashes _ Hok _ _ _ _ Hj Hi Heq) as ->. rewrite Hi in Hj. injection Hj as <-. by rewrite Hp.
  - exfalso. apply (token_by_hash_none _ _ i t Hx); [|done]. unfold revoke_where. simpl.
    by rewrite lookup_fmap, Hi; simpl; rewrite Hp.
Qed.

(** A replay is detected while the holder of the newest token rotates it: the UPDATE
    waits for that token's row and does not see the one the rotation inserts, so the
    session outlives its revocation - the token it handed out is accepted. *)
Theorem racing_rotation_survives_revocation s now rp plain d old new d1 family :
  sessions_ok d → committed (refresh_tx s now rp plain) d = (Ok (Some new), d1) →
  get_refresh_token_for_update rp d = Some old → family = rt_family_id old →
  0 <= sliding_ms s →
  let d2 := (revoke_family_seen (dom (au_tokens d)) now family d1).2 in
  (∀ i t, au_tokens d !! i = Some t → rt_family_id t = family →
     ∃ t', au_tokens d2 !! i = Some t' ∧ is_Some (rt_revoked_at t')) ∧
  get_refresh_token_for_update plain d2 = Some new ∧ rt_family_id new = family ∧ refused now plain d2 = false.
Proof.
  intros Hok Htx Hold -> Hsl. cbv zeta. pose proof (refresh_tx_cases s now rp plain d Hok) as Hc.
  rewrite Htx in Hc. destruct Hc as (old' & Hold' & Hrot). rewrite Hold in Hold'. injection Hold' as <-.
  pose proof (rotation_ok _ _ _ _ _ _ _ Hok Hrot) as Hok1. destruct Hrot as [Hrow (_ & _ & Hcap) _ _ Hnew Hd1].
  assert (Hid : rt_id new = au_next_token d) by (by rewrite Hnew).
  assert (Hget : get_refresh_token_for_update plain (revoke_family_seen (dom (au_tokens d)) now (rt_family_id old) d1).2 = Some new).
  { apply revoke_hash_some; [done| |].
    - unfold get_refresh_token_for_update. replace (hash_refresh_token plain) with (rt_token_hash new) by (by rewrite Hnew).
      apply (token_by_hash_eq _ (au_next_token d)); [done|]. rewrite Hd1. apply lookup_insert_eq.
    - apply andb_false_iff. right. apply bool_decide_false. intros [t Ht]%elem_of_dom. rewrite Hid in Ht.
      destruct (sk_ids _ Hok _ _ Ht). lia. }
  split_and!; [|done|by rewrite Hnew|].
  - intros i t Hi Hf. destruct (sk_ids _ Hok _ _ Hi) as [Hti Hlt]. rewrite Hd1. simpl.
    assert (∃ t', <[au_next_token d := new]> (<[rt_id old := rotated now old]> (au_tokens d)) !! i = Some t' ∧
      rt_family_id t' = rt_family_id old ∧ rt_id t' = i) as (t' & Ht' & Hf' & Hi').
    { rewrite lookup_insert_ne by lia. destruct (decide (i = rt_id old)) as [->|Hne].
      - rewrite lookup_insert_eq. eauto.
      - rewrite lookup_insert_ne by done. eauto. }
    rewrite lookup_fmap, Ht'. simpl. rewrite Hf', Z.eqb_refl, Hi', bool_decide_true by (apply elem_of_dom; eauto). simpl.
    destruct (rt_revoked_at t') eqn:Hr; simpl; eexists; (split; [done|]); rewrite ?Hr; simpl; eauto.
  - unfold refused. rewrite Hget, Hnew. simpl. rewrite !orb_false_iff, !Z.ltb_ge. lia.
Qed.

(** ** The properties at work *)

Definition demo_settings : Settings := default_settings "s".
Definition demo_user : User := mk_user 1 "alice" "argon2" true false.
Definition auth_demo_db : AuthDb := mk_auth_db {[1 := demo_user]} 2 ∅ 1 {[1]}.
Definition demo_login : AuthDb :=
  (committed (issue_refresh_token 0 1 (sliding_ms demo_settings) (absolute_ms demo_settings) None 5 "p0") auth_demo_db).2.
Definition demo_rotated : AuthDb := (committed (refresh_tx demo_settings 1000 "p0" "p1") demo_login).2.
Definition auth_demo (d : AuthDb) : AuthSys := mk_auth_sys d ∅ [].
Definition demo_request (token : string) : Request :=
  mk_request (Some "10.0.0.1") None (Some token) (Some "c") (Some "c").
Definition demo_token (plain : string) (d : AuthDb) : RefreshToken :=
  default (mk_refresh_token 0 0 None 0 "" 0 0 None None) (get_refresh_token_for_update plain d).

Lemma auth_demo_ok : sessions_ok auth_demo_db.
Proof. by split. Qed.
Lemma demo_login_ok : sessions_ok demo_login.
Proof. apply committed_issue_ok, auth_demo_ok. Qed.
Lemma demo_rotated_ok : sessions_ok demo_rotated.
Proof. eapply (auth_step_ok _ ∅ ∅); [apply as_refresh|apply demo_login_ok]. Qed.
Lemma demo_accounts_ok : accounts_ok auth_demo_db.
Proof.
  split; simpl.
  - intros i u [<- <-]%lookup_singleton_Some. by split.
  - intros i j a b [<- _]%lookup_singleton_Some [<- _]%lookup_singleton_Some. done.
  - intros i u [<- <-]%lookup_singleton_Some. by left.
Qed.

Lemma reuse_kills_the_session_witness :
  let '(out, sy1) := refresh demo_settings 20000 (demo_request "p0") "p2" "c2" (auth_demo demo_rotated) in
  out = Err (unauthorized "Invalid credentials") ∧ dead 5 (sy_db sy1).
Proof.
  pose proof (reuse_kills_the_session demo_settings (auth_demo demo_rotated) 20000 (demo_request "p0") "p0" "p2" "c2"
    (demo_token "p0" demo_rotated) 1000 demo_rotated_ok ltac:(by vm_compute) ltac:(by vm_compute)
    ltac:(by vm_compute) ltac:(by vm_compute) ltac:(by vm_compute) ltac:(by vm_compute) ltac:(by vm_compute)) as H.
  destruct (refresh _ _ _ _ _ _) as [out sy1]. destruct H as (H1 & H2 & _). by split.
Defined.

Lemma refused_logins_look_alike_witness :
  let a := mk_attempt 7 (mk_request (Some "10.0.0.1") None None None None) "alice" "wrong" 9 "p" "c" in
  (attempt demo_settings (λ _ _, Some false) a (auth_demo auth_demo_db)).1 =
  (attempt demo_settings (λ _ _, Some false) a (auth_demo (mk_auth_db ∅ 2 ∅ 1 ∅))).1.
Proof. by apply refused_logins_look_alike; vm_compute. Defined.

(** Thirty logins under the name an erasure leaves, each from its own address, with a
    check that takes only texts beginning as Argon2's hashes do: thirty server
    errors, and no failure on record. *)
Definition phc_verify (password hash : string) : option bool :=
  match hash with
  | String "$"%char _ => Some (bool_decide (hash = "$argon2id$" +:+ password))
  | _ => None
  end.

Example erased_name_is_never_locked :
  let sy := (erase_user_endpoint (mk_user 9 "root" "h" true true) 1 (auth_demo auth_demo_db)).2 in
  let login_from n := mk_attempt 7 (mk_request (Some (z_str n)) None None None None) "erased-user-1" "x" 9 "p" "c" in
  let '(outs, sy') := attempts demo_settings phc_verify (login_from <$> zrange 0 30) sy in
  forallb (λ o, match o with Err ValueError => true | _ => false end) outs = true ∧
  sy_limits sy' !! login_failure_key "erased-user-1" = None.
Proof. by vm_compute. Qed.

Lemma erased_account_is_shut_witness :
  (erase_user_endpoint (mk_user 9 "root" "h" true true) 1 (auth_demo auth_demo_db)).1 = Ok (erased_row 1 false) ∧
  1 ∉ au_buyer_info (sy_db (erase_user_endpoint (mk_user 9 "root" "h" true true) 1 (auth_demo auth_demo_db)).2).
Proof.
  pose proof (erased_account_is_shut demo_settings phc_verify (λ _ _, None) (mk_user 9 "root" "h" true true) 1
    demo_user (auth_demo auth_demo_db) auth_demo_ok demo_accounts_ok ltac:(done) ltac:(by vm_compute)) as H.
  destruct (erase_user_endpoint _ _ _) as [out sy1]. destruct H as (H1 & H2 & _). by split.
Defined.

(** The race of a replay against a rotation, on one session. *)
Example racing_rotation_survives_revocation_demo :
  let d1 := (committed (refresh_tx demo_settings 20000 "p1" "p2") demo_rotated).2 in
  let d2 := (revoke_family_seen (dom (au_tokens demo_rotated)) 20000 5 d1).2 in
  refused 20001 "p0" d2 = true ∧ refused 20001 "p1" d2 = true ∧ refused 20001 "p2" d2 = false.
Proof. by vm_compute. Qed.
