(* ===== verification/World.v ===== *)
(** The two stores the services write, side by side: the committed database and
    Redis.  A transaction either commits or leaves the tables as they were (the
    id sequences keep what they handed out); a Redis command stays done. *)

From S2P Require Import Prelude Exceptions Redis DB.

#[local] Open Scope Z_scope.

Record World : Type := mk_world { w_db : DB; w_redis : Redis }.

(** What a ROLLBACK leaves: the tables of before, the sequences of after. *)
Definition rollback (before after : DB) : DB :=
  set_next_order (d_next_order after) (set_outbox (d_outbox before) (d_next_outbox after) before).

(** [async with AsyncSessionLocal() as db: ... await db.commit()] *)
Definition transaction {A} (m : M DB exn A) : M World exn A := λ w,
  match m (w_db w) with
  | (Ok a, d) => (Ok a, mk_world d (w_redis w))
  | (Err e, d) => (Err e, mk_world (rollback (w_db w) d) (w_redis w))
  end.

(** What can happen to the connection in one transaction: it holds, it is lost at
    the first INSERT (which the server ran or did not), at the COMMIT (which was
    applied or was not), or while a refused row is looked up again. *)
Inductive db_fault : Type :=
  | DbUp
  | LostAtInsert (ran : bool)
  | LostAtCommit (applied : bool)
  | LostAtLookup.
#[global] Instance db_fault_eq_dec : EqDecision db_fault.
Proof. solve_decision. Defined.

(** A first statement whose connection may go. *)
Definition first_statement {A} (x : db_fault) (m : M DB exn A) : M DB exn A := λ d,
  match x with
  | LostAtInsert ran => (Err OperationalError, if ran then (m d).2 else d)
  | _ => m d
  end.

(** A transaction whose COMMIT may not be answered. *)
Definition faulty_transaction {A} (x : db_fault) (m : M DB exn A) : M World exn A := λ w,
  match m (w_db w) with
  | (Ok a, d) =>
      match x with
      | LostAtCommit true => (Err OperationalError, mk_world d (w_redis w))
      | LostAtCommit false => (Err OperationalError, mk_world (rollback (w_db w) d) (w_redis w))
      | _ => (Ok a, mk_world d (w_redis w))
      end
  | (Err e, d) => (Err e, mk_world (rollback (w_db w) d) (w_redis w))
  end.

(** A lookup in a fresh transaction. *)
Definition faulty_lookup {A} (x : db_fault) (m : M DB exn A) : M World exn A :=
  match x with LostAtLookup => raise OperationalError | _ => transaction m end.

Definition in_redis {A} (m : M Redis exn A) : M World exn A := λ w,
  let '(x, r) := m (w_redis w) in (x, mk_world (w_db w) r).

(** What can happen to one reservation in Redis: it is answered, the connection is
    lost before anything was done, or everything was done and the answer lost. *)
Inductive redis_link : Type := LinkUp | LostBefore | LostAfter.
#[global] Instance redis_link_eq_dec : EqDecision redis_link.
Proof. solve_decision. Defined.

Definition over_link {A} (x : redis_link) (m : M Redis exn A) : M Redis exn A := λ r,
  match x with
  | LinkUp => m r
  | LostBefore => (Err RedisConnectionError, r)
  | LostAfter => (Err RedisConnectionError, (m r).2)
  end.

Lemma transaction_redis {A} (m : M DB exn A) w : w_redis (transaction m w).2 = w_redis w.
Proof. unfold transaction. by destruct (m (w_db w)) as [[a|e] d]. Qed.

Lemma in_redis_db {A} (m : M Redis exn A) w : w_db (in_redis m w).2 = w_db w.
Proof. unfold in_redis. by destruct (m (w_redis w)) as [x r]. Qed.

(** The tables, the sequences aside. *)
Record same_tables (d d' : DB) : Prop := {
  st_orders : d_orders d' = d_orders d;
  st_holds : d_holds d' = d_holds d;
  st_outbox : d_outbox d' = d_outbox d;
  st_events : d_events d' = d_events d;
  st_prices : d_prices d' = d_prices d;
  st_stripe : d_stripe d' = d_stripe d;
}.

#[global] Instance same_tables_refl : Reflexive same_tables.
Proof. by intros d. Qed.
#[global] Instance same_tables_trans : Transitive same_tables.
Proof. intros ??? [] []. split; congruence. Qed.

Lemma rollback_tables d d' : same_tables d (rollback d d').
Proof. done. Qed.

Lemma rollback_self d : rollback d d = d.
Proof. by destruct d. Qed.

(** A rolled back transaction keeps the constraints: ids only grow. *)
Lemma rollback_ok d d' :
  db_ok d → d_next_order d <= d_next_order d' → d_next_outbox d <= d_next_outbox d' →
  db_ok (rollback d d').
Proof.
  intros [H1 H2 H3 H4 H5 H6] Ho Hb. split; simpl; try done.
  - intros i Hi. specialize (H2 i Hi). lia.
  - intros i Hi. specialize (H6 i Hi). lia.
Qed.

(** A computation on the database that keeps its constraints and its sequences
    growing. *)
Definition db_step (d d' : DB) : Prop :=
  d_next_order d <= d_next_order d' ∧ d_next_outbox d <= d_next_outbox d'.

Definition safe {A} (m : M DB exn A) : Prop :=
  ∀ d, db_ok d → db_ok (m d).2 ∧ db_step d (m d).2.

Lemma safe_ret {A} (a : A) : safe (ret a).
Proof. intros d Hd. split; [done|]. unfold db_step; simpl; lia. Qed.
Lemma safe_raise {A} e : safe (raise (A:=A) e).
Proof. intros d Hd. split; [done|]. unfold db_step; simpl; lia. Qed.
Lemma safe_gets {A} (f : DB → A) : safe (gets f).
Proof. intros d Hd. split; [done|]. unfold db_step; simpl; lia. Qed.
Lemma safe_lift {A} (r : result exn A) : safe (lift r).
Proof. intros d Hd. split; [done|]. unfold db_step; simpl; lia. Qed.
Lemma safe_bind {A B} (m : M DB exn A) (f : A → M DB exn B) :
  safe m → (∀ a, safe (f a)) → safe (bind m f).
Proof.
  intros Hm Hf d Hd. unfold bind. destruct (Hm d Hd) as [H1 H2].
  destruct (m d) as [[a|e] d1]; simpl in *; [|done].
  destruct (Hf a d1 H1) as [H3 H4]. split; [done|]. unfold db_step in *; lia.
Qed.

#[export] Hint Resolve safe_ret safe_raise safe_gets safe_lift safe_bind : prog.

Lemma transaction_safe {A} (m : M DB exn A) w :
  safe m → db_ok (w_db w) → db_ok (w_db (transaction m w).2).
Proof.
  intros Hm Hw. unfold transaction. destruct (Hm _ Hw) as [H1 [H2 H3]].
  destruct (m (w_db w)) as [[a|e] d]; simpl in *; [done|by apply rollback_ok].
Qed.

Lemma safe_first_statement {A} x (m : M DB exn A) : safe m → safe (first_statement x m).
Proof.
  intros Hm d Hd. unfold first_statement. destruct x as [|[]| |]; try by apply Hm.
  split; [done|split; simpl; lia].
Qed.
#[export] Hint Resolve safe_first_statement : prog.

Lemma faulty_transaction_safe {A} x (m : M DB exn A) w :
  safe m → db_ok (w_db w) → db_ok (w_db (faulty_transaction x m w).2).
Proof.
  intros Hm Hw. unfold faulty_transaction. destruct (Hm _ Hw) as [H1 [H2 H3]].
  destruct (m (w_db w)) as [[a|e] d]; simpl in *; [|by apply rollback_ok].
  destruct x as [| |[]|]; simpl; try done. by apply rollback_ok.
Qed.

(** ** The inserts keep the constraints *)

Lemma safe_insert_outbox ty i now : safe (insert_outbox ty i now).
Proof.
  intros d [H1 H2 H3 H4 H5 H6]. unfold insert_outbox. simpl.
  split; [|split; simpl; lia]. split; simpl; try done.
  intros j [e Hj]. apply lookup_insert_Some in Hj as [[<- _]|[_ Hj]]; [lia|].
  assert (j < d_next_outbox d) by eauto. lia.
Qed.

Lemma order_violation_id o i :
  order_violation (mk_order i (o_user o) (o_event o) (o_zone o) (o_quantity o) (o_total o)
    (o_status o) (o_idem o) (o_payment o) (o_created o) (o_paid_at o) (o_confirmed_at o)
    (o_expired_at o) (o_cancelled_at o)) = order_violation o.
Proof. done. Qed.

Lemma order_reference_idem d o i x :
  order_reference_violation d o = None → d_orders d !! i = Some x → o_idem x ≠ o_idem o.
Proof.
  unfold order_reference_violation. intros H Hi. case_hyp H; try done.
  all: match goal with
       | He : existsb _ _ = false |- _ =>
           pose proof (existsb_map_false (λ x, bool_decide (o_idem x = o_idem o)) _ _ _ He Hi) as Hf
       end; by apply bool_decide_eq_false in Hf.
Qed.

(** The row the INSERT wrote is fresh and respects every constraint. *)
Lemma safe_insert_order (o : Z → Order) : (∀ i, o_id (o i) = i) → safe (insert_order o).
Proof.
  intros Hid d [H1 H2 H3 H4 H5 H6]. unfold insert_order.
  destruct (negb _); [by split; [|split; simpl; lia]|].
  set (i := d_next_order d). rewrite Hid.
  assert (Hfresh : d_orders d !! i = None).
  { apply eq_None_not_Some. intros Hs. specialize (H2 i Hs). lia. }
  destruct (opt_or _ _) as [c|] eqn:Hv; simpl.
  { split; [|split; simpl; lia]. split; simpl; try done. intros j Hj. specialize (H2 j Hj). lia. }
  apply opt_or_none in Hv as [Hv Hr].
  split; [|split; simpl; lia]. split; simpl; try done.
  - intros j x Hj. apply lookup_insert_Some in Hj as [[<- <-]|[_ Hj]]; [by rewrite Hid|eauto].
  - intros j Hj. destruct (decide (j = i)) as [->|Hne]; [lia|].
    rewrite lookup_insert_ne in Hj by done. specialize (H2 j Hj). lia.
  - intros a b x y Ha Hb Hxy.
    apply lookup_insert_Some in Ha as [[<- <-]|[Hai Ha]];
      apply lookup_insert_Some in Hb as [[<- <-]|[Hbi Hb]]; [done| | |eauto].
    + by destruct (order_reference_idem _ _ _ _ Hr Hb).
    + by destruct (order_reference_idem _ _ _ _ Hr Ha).
  - intros j h Hj. destruct (H4 j h Hj) as (? & ? & ? & x & Hx & ?). split_and!; [done..|].
    exists x. split; [|done]. rewrite lookup_insert_ne; [done|]. intros <-. congruence.
Qed.

Lemma safe_insert_hold h : safe (insert_hold h).
Proof.
  intros d [H1 H2 H3 H4 H5 H6]. unfold insert_hold.
  destruct (negb (hold_fits h)); [done|].
  destruct (hold_violation d h) as [c|] eqn:Hv; simpl; [done|].
  destruct (negb (last_pos_fits h)); [done|].
  unfold hold_violation in Hv.
  destruct (d_orders d !! hd_order h) as [o|] eqn:Ho; [|by case_hyp Hv].
  destruct (hold_matches_order h o) eqn:Hm; [|done]. simpl in Hv.
  destruct (0 <? hd_len h) eqn:Hl; [|done]. destruct (0 <=? hd_start h) eqn:Hs; [|done].
  simpl in Hv. destruct (bool_decide (is_Some (d_holds d !! hd_order h))) eqn:Hu; [done|].
  destruct (existsb _ _) eqn:He; [done|]. clear Hv. zbool.
  apply bool_decide_eq_false, eq_None_not_Some in Hu.
  assert (Hno : ∀ j x, d_holds d !! j = Some x → holds_overlap h x = false)
    by (intros j x; by apply (existsb_map_false (holds_overlap h))).
  split; [|split; simpl; lia]. split; simpl; try done.
  - intros i x Hi. apply lookup_insert_Some in Hi as [[<- <-]|[_ Hi]]; [|by apply H4].
    split_and!; [done..|]. by exists o.
  - intros a b x y Ha Hb Hxy.
    apply lookup_insert_Some in Ha as [[<- <-]|[Hai Ha]];
      apply lookup_insert_Some in Hb as [[<- <-]|[Hbi Hb]]; [done|by eapply Hno| |eauto].
    rewrite holds_overlap_sym. by eapply Hno.
Qed.

#[export] Hint Resolve safe_insert_outbox safe_insert_hold : prog.
