(* ===== verification/Pricing.v ===== *)
(** The event metadata the request path works from (src/app/services/event_cache.py:
    what is cached and its codec) and the prices computed from it
    (src/app/services/pricing.py).  Times are milliseconds; [isoformat] and
    [fromisoformat] are the identity on them. *)

From S2P Require Import Prelude Exceptions Keys DB.

#[local] Open Scope Z_scope.

(** ** Event metadata *)

Record EventMeta : Type := mk_meta {
  m_event_id : Z;
  m_status : EventStatus;
  m_sale_starts_at : Z;
  m_sale_ends_at : Z;
  m_price_cents : option Z;
  m_venue_id : option Z;
  m_zone_prices : gmap Z Z;
  m_queue_opens_at : option Z;
  m_queue_closes_at : option Z;
}.

(** The rows of [select(EventZonePrice…).join(Zone…).where(…)]. *)
Definition zone_price_rows (d : DB) (event_id venue_id : Z) : list (Z * Z) :=
  omap (λ '((e, z), p),
    match d_zones d !! z with
    | Some zn => if (e =? event_id) && (zn_venue zn =? venue_id) then Some (z, p) else None
    | None => None
    end) (map_to_list (d_prices d)).

Definition dict_add {V} (m : gmap Z V) (kv : Z * V) : gmap Z V := <[kv.1 := kv.2]> m.
Definition dict_of {V} (rows : list (Z * V)) : gmap Z V := foldl dict_add ∅ rows.

Definition load_zone_prices (d : DB) (event_id : Z) (venue_id : option Z) : gmap Z Z :=
  match venue_id with
  | None => ∅
  | Some v => dict_of (zone_price_rows d event_id v)
  end.

(** What [_load_and_fill] returns. *)
Definition meta_of (ev : Event) (zone_prices : gmap Z Z) : EventMeta :=
  mk_meta (ev_id ev) (ev_status ev) (ev_sale_starts ev) (ev_sale_ends ev) (ev_price ev)
    (ev_venue ev) zone_prices (ev_queue_opens ev) (ev_queue_closes ev).

Definition load_event_meta (d : DB) (event_id : Z) : option EventMeta :=
  match d_events d !! event_id with
  | None => None
  | Some ev => Some (meta_of ev (load_zone_prices d event_id (ev_venue ev)))
  end.

(** ** The cached form *)

(** The JSON object: its members in the order [_encode] writes them; a JSON
    object's keys are strings, and the two queue members and [zone_prices] may
    be missing from an entry an older release wrote. *)
Record CachedMeta : Type := mk_cached {
  c_status : string;
  c_sale_starts_at : Z;
  c_sale_ends_at : Z;
  c_price_cents : option Z;
  c_venue_id : option Z;
  c_zone_prices : option (list (string * Z));
  c_queue_opens_at : option Z;
  c_queue_closes_at : option Z;
}.

Definition event_status_str (s : EventStatus) : string :=
  match s with DRAFT => "draft" | PUBLISHED => "published" | EV_CANCELLED => "cancelled" end.

(** [EventStatus(s)] *)
Definition event_status_of (s : string) : result exn EventStatus :=
  if bool_decide (s = "draft") then Ok DRAFT
  else if bool_decide (s = "published") then Ok PUBLISHED
  else if bool_decide (s = "cancelled") then Ok EV_CANCELLED
  else Err ValueError.

Definition encode (ev : Event) (zone_prices : gmap Z Z) : CachedMeta :=
  mk_cached (event_status_str (ev_status ev)) (ev_sale_starts ev) (ev_sale_ends ev)
    (ev_price ev) (ev_venue ev)
    (Some ((λ kv, (z_str kv.1, kv.2)) <$> map_to_list zone_prices))
    (ev_queue_opens ev) (ev_queue_closes ev).

(** [{int(k): v for k, v in items}] *)
Fixpoint int_keys (items : list (string * Z)) (acc : gmap Z Z) : result exn (gmap Z Z) :=
  match items with
  | [] => Ok acc
  | (k, v) :: items' =>
      match z_parse k with
      | Some i => int_keys items' (<[i := v]> acc)
      | None => Err ValueError
      end
  end.

Definition decode (event_id : Z) (c : CachedMeta) : result exn EventMeta :=
  let? st := event_status_of (c_status c) in
  let? prices := int_keys (default [] (c_zone_prices c)) ∅ in
  Ok (mk_meta event_id st (c_sale_starts_at c) (c_sale_ends_at c) (c_price_cents c)
        (c_venue_id c) prices (c_queue_opens_at c) (c_queue_closes_at c)).

(** ** Prices *)

Definition unit_price (event_id : Z) (venue_id : option Z) (zone_prices : gmap Z Z)
    (fallback_price_cents zone_id : option Z) : result exn Z :=
  match venue_id with
  | None =>
      match zone_id with
      | Some z => Err (Domain (ZoneNotForEvent event_id z "event has no seat map"))
      | None =>
          match fallback_price_cents with
          | None => Err RuntimeError
          | Some p => Ok p
          end
      end
  | Some _ =>
      match zone_id with
      | None => Err (Domain (ZoneRequired event_id))
      | Some z =>
          match zone_prices !! z with
          | None => Err (Domain (ZoneNotForEvent event_id z "unknown zone or unpriced"))
          | Some p => Ok p
          end
      end
  end.

Definition order_total (event_id : Z) (venue_id : option Z) (zone_prices : gmap Z Z)
    (fallback_price_cents zone_id : option Z) (quantity : Z) : result exn Z :=
  if quantity <? 1 then Err ValueError
  else let? p := unit_price event_id venue_id zone_prices fallback_price_cents zone_id in
       Ok (quantity * p).

Definition price_for (meta : EventMeta) (zone_id : option Z) : result exn Z :=
  unit_price (m_event_id meta) (m_venue_id meta) (m_zone_prices meta) (m_price_cents meta) zone_id.

Definition total_for (meta : EventMeta) (zone_id : option Z) (quantity : Z) : result exn Z :=
  order_total (m_event_id meta) (m_venue_id meta) (m_zone_prices meta) (m_price_cents meta)
    zone_id quantity.

(** ** Lemmas *)

(** A dict built from rows with distinct keys holds exactly the rows. *)
Lemma dict_of_lookup {V} (rows : list (Z * V)) (m : gmap Z V) z v :
  NoDup rows.*1 → (∀ k, k ∈ rows.*1 → m !! k = None) →
  foldl dict_add m rows !! z = Some v ↔ (z, v) ∈ rows ∨ m !! z = Some v.
Proof.
  revert m. induction rows as [|[k w] rows IH]; intros m Hnd Hm; simpl.
  { rewrite elem_of_nil. tauto. }
  apply NoDup_cons in Hnd as [Hk Hnd]. rewrite IH; unfold dict_add; simpl; [|done|].
  - rewrite elem_of_cons, lookup_insert_Some.
    assert (m !! k = None) as Hmk by (apply Hm; left).
    split.
    + intros [H|[[-> ->]|[_ H]]]; auto.
    + intros [[H|H]|H]; [simplify_eq; auto|auto|]. right. right. split; [congruence|done].
  - intros j Hj. rewrite lookup_insert_ne by (intros ->; done). apply Hm. by right.
Qed.

Lemma zone_price_rows_spec d e v z p :
  (z, p) ∈ zone_price_rows d e v ↔
  d_prices d !! (e, z) = Some p ∧ ∃ zn, d_zones d !! z = Some zn ∧ zn_venue zn = v.
Proof.
  unfold zone_price_rows. rewrite list_elem_of_omap. split.
  - intros ([[e' z'] p'] & Hin & H). apply elem_of_map_to_list in Hin.
    destruct (d_zones d !! z') as [zn|] eqn:Hz; [|done]. case_hyp H; [|done].
    zbool. destruct Heqb as [<- <-]. simplify_eq. eauto.
  - intros (Hp & zn & Hz & <-). exists ((e, z), p).
    split; [by apply elem_of_map_to_list|]. by rewrite Hz, !Z.eqb_refl.
Qed.

Lemma zone_price_rows_nodup d e v : NoDup (zone_price_rows d e v).*1.
Proof.
  unfold zone_price_rows.
  assert (Hnd : NoDup (map_to_list (d_prices d)).*1) by apply NoDup_fst_map_to_list.
  induction (map_to_list (d_prices d)) as [|[[e' z] p] l IH]; [constructor|].
  simpl in Hnd. apply NoDup_cons in Hnd as [Hk Hnd]. specialize (IH Hnd).
  simpl. destruct (d_zones d !! z) as [zn|]; [|done].
  destruct ((e' =? e) && (zn_venue zn =? v)) eqn:Hc; [|done].
  simpl. constructor; [|done]. zbool. destruct Hc as [-> _].
  intros ([z1 p1] & Heq & Hin)%list_elem_of_fmap. simpl in Heq. subst z1.
  apply list_elem_of_omap in Hin as ([[e2 z2] p2] & Hin & H).
  simpl in H. destruct (d_zones d !! z2) as [z0|]; [|done].
  destruct ((e2 =? e) && (zn_venue z0 =? v)) eqn:Hc2; [|done].
  apply andb_true_iff in Hc2; rewrite Z.eqb_eq in Hc2. destruct Hc2 as [-> _]. simplify_eq.
  apply Hk, list_elem_of_fmap. eexists; split; [|exact Hin]; done.
Qed.

Lemma load_zone_prices_lookup d e v z p :
  load_zone_prices d e (Some v) !! z = Some p ↔
  d_prices d !! (e, z) = Some p ∧ ∃ zn, d_zones d !! z = Some zn ∧ zn_venue zn = v.
Proof.
  unfold load_zone_prices, dict_of. rewrite dict_of_lookup, zone_price_rows_spec.
  - rewrite lookup_empty. split; [by intros [?|?]|by left].
  - apply zone_price_rows_nodup.
  - intros; apply lookup_empty.
Qed.

Lemma event_status_of_str s : event_status_of (event_status_str s) = Ok s.
Proof. by destruct s. Qed.

Lemma int_keys_str (rows : list (Z * Z)) acc :
  int_keys ((λ kv, (z_str kv.1, kv.2)) <$> rows) acc =
  Ok (foldl dict_add acc rows).
Proof.
  revert acc. induction rows as [|[k v] rows IH]; intros acc; simpl; [done|].
  rewrite z_parse_str. apply IH.
Qed.

Lemma dict_of_map_to_list (m : gmap Z Z) : dict_of (map_to_list m) = m.
Proof.
  apply map_eq. intros z. apply option_eq. intros v.
  unfold dict_of. rewrite dict_of_lookup, elem_of_map_to_list, lookup_empty.
  - split; [by intros [?|?]|by left].
  - apply NoDup_fst_map_to_list.
  - intros; apply lookup_empty.
Qed.

(** The cached metadata is the event's.  Decoding what was encoded gives back
    the event's status, sale window, queue window, price source and every zone
    price under its integer key: a cache hit prices an order as a miss does. *)
Theorem event_meta_cache_roundtrip ev zone_prices :
  decode (ev_id ev) (encode ev zone_prices) = Ok (meta_of ev zone_prices).
Proof.
  unfold decode, encode. cbn [c_status c_zone_prices default].
  rewrite event_status_of_str. cbn [result_bind]. unfold default, id. rewrite int_keys_str.
  pose proof (dict_of_map_to_list zone_prices) as H. unfold dict_of in H. by rewrite H.
Qed.

(** Zone prices are a whitelist.  For metadata read from the database, an
    order is priced exactly when its quantity is positive and either the event
    has no seat map, the order names no zone and the event has its own price, or
    the event has a seat map and the order names a zone of that very venue with a
    price for that very event; the total is the quantity times that price. *)
Theorem order_total_whitelist d event_id ev zone quantity total :
  d_events d !! event_id = Some ev → ev_id ev = event_id →
  (∃ meta, load_event_meta d event_id = Some meta ∧
           total_for meta zone quantity = Ok total) ↔
  1 <= quantity ∧
  match ev_venue ev with
  | None => zone = None ∧ ∃ p, ev_price ev = Some p ∧ total = quantity * p
  | Some v => ∃ z p zn, zone = Some z ∧ d_prices d !! (event_id, z) = Some p ∧
                d_zones d !! z = Some zn ∧ zn_venue zn = v ∧ total = quantity * p
  end.
Proof.
  intros Hev Hid. unfold load_event_meta. rewrite Hev.
  transitivity (total_for (meta_of ev (load_zone_prices d event_id (ev_venue ev))) zone quantity
                = Ok total).
  { split; [by intros (meta & H & ?); injection H as <-|eauto]. }
  unfold total_for, order_total, meta_of. simpl.
  destruct (quantity <? 1) eqn:Hq; zbool; [split; [done|lia]|].
  unfold unit_price. destruct (ev_venue ev) as [v|] eqn:Hv.
  - destruct zone as [z|]; cbn [result_bind]; [|split; [done|by intros (_ & ? & ? & ? & ? & _)]].
    destruct (load_zone_prices d event_id (Some v) !! z) as [p|] eqn:Hp.
    + cbn [result_bind]. apply load_zone_prices_lookup in Hp as (Hp & zn & Hz & Hzv).
      split; [intros H; injection H as <-; split; [lia|]; eauto 10|].
      intros (_ & z' & p' & zn' & Hz' & Hp' & _ & _ & ->). by simplify_eq.
    + split; [done|]. intros (_ & z' & p & zn & ? & Hpr & Hz & Hzv & ->). simplify_eq.
      assert (load_zone_prices d (ev_id ev) (Some (zn_venue zn)) !! z' = Some p) as Hs
        by (apply load_zone_prices_lookup; eauto).
      congruence.
  - destruct zone as [z|]; [split; [done|by intros (_ & ? & _)]|].
    destruct (ev_price ev) as [p|]; cbn [result_bind];
      [|split; [done|by intros (_ & _ & ? & ? & _)]].
    split; [intros H; injection H as <-; split; [lia|]; eauto|].
    intros (_ & _ & p' & Hp' & ->). by simplify_eq.
Qed.

Definition priced_event : Event :=
  mk_event 7 (Some 1) 0 0 1000 9000 None None 10 None PUBLISHED 1.
Definition priced_db : DB :=
  mk_db ∅ {[7 := priced_event]} {[3 := mk_zone 3 1 "A" 0 1; 4 := mk_zone 4 2 "B" 0 1]} ∅ ∅
    {[(7, 3) := 500; (7, 4) := 900; (8, 3) := 10]} ∅ 1 ∅ ∅ 1 ∅.
