(* ===== verification/EventCache.v ===== *)
(** The refill of the event metadata cache between processes
    (src/app/services/event_cache.py): one leader per process tries a lock in Redis,
    the one that gets it reads the database and fills the cache, the others poll the
    cache and, when that takes too long, read for themselves.  Every Redis command,
    every read and every sleep is a step of its own, in any interleaving; instants
    are milliseconds of one clock. *)

From S2P Require Import Prelude Exceptions Keys DB Pricing.

#[local] Open Scope Z_scope.

Definition TTL_SECONDS : Z := 60.
Definition LOCK_TTL_MS : Z := 3000.
Definition LOCK_POLL_MS : Z := 20.
Definition LOCK_WAIT_MS : Z := LOCK_TTL_MS.

Section refill.
(** The event, the committed database as it is at each instant, and what a read of
    it may raise. *)
Context (event_id : Z) (db_at : Z → DB) (may_raise : exn → Prop).
(** How long a leader takes from its read to its SET, at most. *)
Context (write_delay : Z).

(** Where a leader is in [_load_coordinated].  [taken]: when it got the lock;
    [read_at], [at_]: when it read the row, when it learned what it returns. *)
Inductive pc : Type :=
  | Lock (deadline : Z)
  | Look (taken : Z)
  | Read (taken : option Z)
  | Prices (taken : option Z) (read_at : Z) (ev : Event)
  | Fill (taken : option Z) (read_at : Z) (ev : Event) (prices : gmap Z Z)
  | Release (taken : Z) (r : result exn (option EventMeta)) (at_ : Z)
  | Peek (deadline : Z)
  | Sleep (until deadline : Z)
  | Finished (r : result exn (option EventMeta)) (at_ : Z).

(** A leader's token is its number. *)
Record Refill : Type := mk_refill {
  rf_now : Z;
  rf_cache : option (CachedMeta * Z);      (* value and expiry *)
  rf_lock : option (nat * Z);              (* token and expiry *)
  rf_leaders : gmap nat pc;
}.

Definition live {A} (now : Z) (k : option (A * Z)) : option A :=
  match k with Some (a, e) => if now <? e then Some a else None | None => None end.

(** A cache hit: [_decode]. *)
Definition hit (c : CachedMeta) : result exn (option EventMeta) :=
  match decode event_id c with Ok m => Ok (Some m) | Err e => Err e end.

(** What follows the read or the SET: the [finally] of the lock holder, or the end. *)
Definition return_ (taken : option Z) (r : result exn (option EventMeta)) (now : Z) : pc :=
  match taken with Some a => Release a r now | None => Finished r now end.

(** [_load_coordinated], [_load_and_fill] and [_release_lock], one command at a time;
    [None]: the leader is asleep or has finished. *)
Definition load_step (i : nat) (p : pc) (s : Refill) : option (pc * Refill) :=
  let now := rf_now s in
  match p with
  | Lock deadline =>
      match live now (rf_lock s) with
      | None => Some (Look now, mk_refill now (rf_cache s) (Some (i, now + LOCK_TTL_MS)) (rf_leaders s))
      | Some _ => Some (Peek deadline, s)
      end
  | Look taken =>
      match live now (rf_cache s) with
      | Some c => Some (Release taken (hit c) now, s)
      | None => Some (Read (Some taken), s)
      end
  | Read taken =>
      match d_events (db_at now) !! event_id with
      | None => Some (return_ taken (Ok None) now, s)
      | Some ev => Some (Prices taken now ev, s)
      end
  | Prices taken read_at ev =>
      Some (Fill taken read_at ev (load_zone_prices (db_at now) event_id (ev_venue ev)), s)
  | Fill taken _ ev prices =>
      Some (return_ taken (Ok (Some (meta_of ev prices))) now,
            mk_refill now (Some (encode ev prices, now + TTL_SECONDS * 1000)) (rf_lock s) (rf_leaders s))
  | Release taken r at_ =>
      let lock := match live now (rf_lock s) with
                  | Some token => if (token =? i)%nat then None else rf_lock s
                  | None => rf_lock s
                  end in
      Some (Finished r at_, mk_refill now (rf_cache s) lock (rf_leaders s))
  | Peek deadline =>
      match live now (rf_cache s) with
      | Some c => Some (Finished (hit c) now, s)
      | None => if deadline <=? now then Some (Read None, s) else Some (Sleep (now + LOCK_POLL_MS) deadline, s)
      end
  | Sleep until deadline => if until <=? now then Some (Lock deadline, s) else None
  | Finished _ _ => None
  end.

(** The two queries of [_load_and_fill]. *)
Definition reading (p : pc) : option (option Z) :=
  match p with Read taken | Prices taken _ _ => Some taken | _ => None end.
(** Since when a leader holds a row it has not written to the cache yet. *)
Definition row_read_at (p : pc) : option Z :=
  match p with Prices _ u _ | Fill _ u _ _ => Some u | _ => None end.

Definition with_leader (i : nat) (p : pc) (s : Refill) : Refill :=
  mk_refill (rf_now s) (rf_cache s) (rf_lock s) (<[i := p]> (rf_leaders s)).

(** Whose step it is: a leader's, or the environment's. *)
Inductive event_step : option nat → Refill → Refill → Prop :=
  | es_start i s : rf_leaders s !! i = None →
      event_step None s (with_leader i (Lock (rf_now s + LOCK_WAIT_MS)) s)
  | es_load i p p' s s' : rf_leaders s !! i = Some p → load_step i p s = Some (p', s') →
      event_step (Some i) s (with_leader i p' s')
  | es_raise i p taken e s : rf_leaders s !! i = Some p → reading p = Some taken → may_raise e →
      event_step (Some i) s (with_leader i (return_ taken (Err e) (rf_now s)) s)
  | es_invalidate s : event_step None s (mk_refill (rf_now s) None (rf_lock s) (rf_leaders s))
  | es_tick t s : rf_now s <= t →
      (∀ i p u, rf_leaders s !! i = Some p → row_read_at p = Some u → t <= u + write_delay) →
      event_step None s (mk_refill t (rf_cache s) (rf_lock s) (rf_leaders s)).

(** The steps so far, with how many of them were leader [i]'s. *)
Inductive runs (i : nat) : nat → Refill → Refill → Prop :=
  | runs_refl s : runs i 0 s s
  | runs_own n s s1 s2 : runs i n s s1 → event_step (Some i) s1 s2 → runs i (S n) s s2
  | runs_other n w s s1 s2 : runs i n s s1 → event_step w s1 s2 → w ≠ Some i → runs i n s s2.

Definition start (now : Z) : Refill := mk_refill now None None ∅.

(** ** The lock *)

(** When a leader between the lock and its release got it. *)
Definition taken_at (p : pc) : option Z :=
  match p with
  | Look a | Release a _ _ => Some a
  | Read (Some a) | Prices (Some a) _ _ | Fill (Some a) _ _ _ => Some a
  | _ => None
  end.

(** A holder within its time has the lock in its name. *)
Definition lock_ok (s : Refill) : Prop :=
  ∀ i p a, rf_leaders s !! i = Some p → taken_at p = Some a →
  a <= rf_now s ∧ (rf_now s < a + LOCK_TTL_MS → rf_lock s = Some (i, a + LOCK_TTL_MS)).

Lemma live_some {A} now (k : option (A * Z)) x : live now k = Some x ↔ ∃ e, k = Some (x, e) ∧ now < e.
Proof.
  unfold live. destruct k as [[y e]|]; [|split; [done|by intros (? & ? & _)]].
  destruct (now <? e) eqn:H; zbool; split.
  - intros [= <-]. eauto.
  - by intros (? & [= -> ->] & _).
  - done.
  - intros (? & [= -> ->] & ?). lia.
Qed.

Lemma live_none {A} now (k : option (A * Z)) : live now k = None ↔ ∀ x e, k = Some (x, e) → e <= now.
Proof.
  unfold live. destruct k as [[y f]|]; [|split; [done|done]].
  destruct (now <? f) eqn:H; zbool; split.
  - done.
  - intros Hk. specialize (Hk y f eq_refl). lia.
  - intros _ x e [= -> ->]. lia.
  - done.
Qed.

Lemma taken_return taken r now : taken_at (return_ taken r now) = taken.
Proof. by destruct taken. Qed.

(** One leader's step: what becomes of its own hold and of the lock. *)
Lemma load_step_lock i p s p' s' :
  load_step i p s = Some (p', s') →
  rf_now s' = rf_now s ∧ rf_leaders s' = rf_leaders s ∧
  ((taken_at p' = taken_at p ∧ rf_lock s' = rf_lock s) ∨
   (taken_at p = None ∧ live (rf_now s) (rf_lock s) = None ∧ taken_at p' = Some (rf_now s) ∧
    rf_lock s' = Some (i, rf_now s + LOCK_TTL_MS)) ∨
   (is_Some (taken_at p) ∧ taken_at p' = None ∧
    (rf_lock s' = rf_lock s ∨ live (rf_now s) (rf_lock s) = Some i ∧ rf_lock s' = None))).
Proof.
  unfold load_step. intros H. destruct p; simpl in H.
  - destruct (live (rf_now s) (rf_lock s)) eqn:Hl; simplify_eq; simpl; split_and!; try done; [by left|].
    right. left. by split_and!.
  - destruct (live (rf_now s) (rf_cache s)); simplify_eq; simpl; split_and!; try done; by left.
  - destruct (d_events (db_at (rf_now s)) !! event_id); simplify_eq; split_and!; try done; left;
      rewrite ?taken_return; by destruct taken.
  - simplify_eq. split_and!; try done. left. by destruct taken.
  - simplify_eq. split_and!; try done. left. simpl. rewrite taken_return. by destruct taken.
  - simplify_eq. simpl. split_and!; try done. right. right. split_and!; [by eexists|done|].
    destruct (live (rf_now s) (rf_lock s)) as [token|]; [|by left].
    destruct (token =? i)%nat eqn:Ht; [|by left]. apply Nat.eqb_eq in Ht as ->. by right.
  - destruct (live (rf_now s) (rf_cache s)); simplify_eq; [split_and!; try done; by left|].
    destruct (deadline <=? rf_now s); simplify_eq; split_and!; try done; by left.
  - destruct (until <=? rf_now s); simplify_eq; split_and!; try done; by left.
  - done.
Qed.

Lemma lock_ok_step w s s' : event_step w s s' → lock_ok s → lock_ok s'.
Proof.
  intros Hst Hok. destruct Hst as [i s Hi|i p p' s s' Hp Hl|i p taken e s Hp Hr _|s|t s Ht _].
  - intros j q a Hj Ha. simpl in *. apply lookup_insert_Some in Hj as [[<- <-]|[_ Hj]]; [done|by apply (Hok j q a)].
  - destruct (load_step_lock _ _ _ _ _ Hl) as (Hnow & Hls & Hcase).
    intros j q a Hj Ha. simpl in Hj |- *. rewrite Hnow. rewrite Hls in Hj.
    apply lookup_insert_Some in Hj as [[<- <-]|[Hne Hj]].
    + destruct Hcase as [[Ht Hk]|[(_ & _ & Ht & Hk)|(_ & Ht & _)]]; [|split; [|intros _]; simplify_eq; [lia|congruence]|congruence].
      rewrite Hk. apply (Hok i p); congruence.
    + destruct (Hok j q a Hj Ha) as [Hle Hlock]. split; [done|]. intros Hlt. specialize (Hlock Hlt).
      destruct Hcase as [[_ Hk]|[(_ & Hdead & _)|(_ & _ & [Hk|[Hlive Hk]])]]; [congruence| |congruence|].
      * rewrite Hlock in Hdead. apply live_none with (x := j) (e := a + LOCK_TTL_MS) in Hdead; [lia|done].
      * rewrite Hlock in Hlive. apply live_some in Hlive as (? & [= -> _] & _). done.
  - intros j q a Hj Ha. simpl in *. apply lookup_insert_Some in Hj as [[<- <-]|[_ Hj]]; [|by apply (Hok j q a)].
    rewrite taken_return in Ha. subst taken. apply (Hok i p); [done|]. by destruct p; simplify_eq/=.
  - exact Hok.
  - intros j q a Hj Ha. simpl in *. destruct (Hok j q a Hj Ha) as [Hle Hlock]. split; [lia|].
    intros Hlt. apply Hlock. lia.
Qed.

(** ** What is returned *)

(** The event was read at some instant of the window, its prices there too and not
    before it. *)
Definition snapshot (lo hi : Z) (m : option EventMeta) : Prop :=
  (m = None ∧ ∃ u, lo <= u <= hi ∧ d_events (db_at u) !! event_id = None) ∨
  (∃ u u' ev, lo <= u ∧ u <= u' <= hi ∧ d_events (db_at u) !! event_id = Some ev ∧
     m = Some (meta_of ev (load_zone_prices (db_at u') event_id (ev_venue ev)))).

Definition WINDOW : Z := TTL_SECONDS * 1000 + write_delay.

Definition answer_ok (r : result exn (option EventMeta)) (t : Z) : Prop :=
  match r with Ok m => snapshot (t - WINDOW) t m | Err e => may_raise e end.

Definition pc_ok (now : Z) (p : pc) : Prop :=
  match p with
  | Prices _ u ev => u <= now <= u + write_delay ∧ d_events (db_at u) !! event_id = Some ev
  | Fill _ u ev prices => now <= u + write_delay ∧ ∃ u', u <= u' <= now ∧
      d_events (db_at u) !! event_id = Some ev ∧ prices = load_zone_prices (db_at u') event_id (ev_venue ev)
  | Release _ r t | Finished r t => t <= now ∧ answer_ok r t
  | Sleep until _ => until <= now + LOCK_POLL_MS
  | _ => True
  end.

Definition cache_ok (s : Refill) : Prop :=
  ∀ c e, rf_cache s = Some (c, e) → ∃ m, hit c = Ok (Some m) ∧ e - TTL_SECONDS * 1000 <= rf_now s ∧
    snapshot (e - WINDOW) (e - TTL_SECONDS * 1000) (Some m).

Record refill_ok (s : Refill) : Prop := {
  ro_cache : cache_ok s;
  ro_pcs : ∀ i p, rf_leaders s !! i = Some p → pc_ok (rf_now s) p;
  ro_lock : lock_ok s;
}.

Lemma start_ok now : refill_ok (start now).
Proof. split; [by intros c e|by intros i p|by intros i p a]. Qed.

Lemma snapshot_wider lo hi lo' hi' m : snapshot lo hi m → lo' <= lo → hi <= hi' → snapshot lo' hi' m.
Proof.
  intros [(-> & u & Hu & Hn)|(u & u' & ev & H1 & H2 & H3 & ->)] Hl Hh.
  - left. split; [done|]. exists u. split; [lia|done].
  - right. exists u, u', ev. split_and!; [lia|lia|lia|done|done].
Qed.

(** The rows carry their id, and a write takes some time. *)
Hypothesis rows_have_ids : ∀ t ev, d_events (db_at t) !! event_id = Some ev → ev_id ev = event_id.
Hypothesis delay_nonneg : 0 <= write_delay.

Lemma cache_hit_live s c : cache_ok s → live (rf_now s) (rf_cache s) = Some c →
  ∃ m, hit c = Ok (Some m) ∧ snapshot (rf_now s - WINDOW) (rf_now s) (Some m).
Proof using Type.
  intros Hok (e & Hc & He)%live_some. destruct (Hok c e Hc) as (m & Hm & Hle & Hs). exists m. split; [done|].
  eapply snapshot_wider; [exact Hs|lia|lia].
Qed.

Lemma return_ok taken r now : answer_ok r now → pc_ok now (return_ taken r now).
Proof using Type. destruct taken; simpl; split; [lia|done|lia|done]. Qed.

Lemma hit_encode t ev prices : d_events (db_at t) !! event_id = Some ev →
  hit (encode ev prices) = Ok (Some (meta_of ev prices)).
Proof using rows_have_ids.
  intros Hev. unfold hit. rewrite <-(rows_have_ids _ _ Hev). by rewrite event_meta_cache_roundtrip.
Qed.

Lemma pc_later now now' p : pc_ok now p → now <= now' →
  (∀ u, row_read_at p = Some u → now' <= u + write_delay) → pc_ok now' p.
Proof using Type.
  intros Hp Hle Hu. destruct p; simpl in *; try done.
  - specialize (Hu _ eq_refl). split; [lia|tauto].
  - specialize (Hu _ eq_refl). destruct Hp as (_ & u' & H1 & H2). split; [lia|]. exists u'. split; [lia|done].
  - split; [lia|tauto].
  - lia.
  - split; [lia|tauto].
Qed.

Lemma load_step_fresh i p s p' s' :
  refill_ok s → pc_ok (rf_now s) p → load_step i p s = Some (p', s') →
  pc_ok (rf_now s) p' ∧ cache_ok s'.
Proof using rows_have_ids delay_nonneg.
  intros Hok Hp Hst. pose proof (ro_cache _ Hok) as Hc. destruct p; simpl in Hst.
  - destruct (live _ _); injection Hst as <- <-; by split.
  - destruct (live (rf_now s) (rf_cache s)) as [c|] eqn:Hl; injection Hst as <- <-; [|by split].
    destruct (cache_hit_live _ _ Hc Hl) as (m & -> & Hm). split; [|done]. simpl. split; [lia|done].
  - destruct (d_events (db_at (rf_now s)) !! event_id) as [ev|] eqn:Hev; injection Hst as <- <-.
    + split; [|done]. simpl. split; [lia|done].
    + split; [|done]. apply return_ok. left. split; [done|]. exists (rf_now s). unfold WINDOW, TTL_SECONDS. split; [lia|done].
  - destruct Hp as [Hu Hev]. injection Hst as <- <-. split; [|done]. simpl. split; [lia|]. exists (rf_now s). split; [lia|done].
  - destruct Hp as (Hu & u' & Hu' & Hev & ->). injection Hst as <- <-. split.
    + apply return_ok. right. exists read_at, u', ev. unfold WINDOW, TTL_SECONDS. split_and!; [lia|lia|lia|done|done].
    + intros c e [= <- <-]. simpl. eexists. split; [by eapply hit_encode|]. split; [lia|].
      right. exists read_at, u', ev. unfold WINDOW. split_and!; [lia|lia|lia|done|done].
  - injection Hst as <- <-. split; [done|]. simpl. exact Hc.
  - destruct (live (rf_now s) (rf_cache s)) as [c|] eqn:Hl; [injection Hst as <- <-|].
    + destruct (cache_hit_live _ _ Hc Hl) as (m & -> & Hm). split; [|done]. simpl. split; [lia|done].
    + destruct (deadline <=? rf_now s); injection Hst as <- <-; split; try done. simpl. lia.
  - destruct (until <=? rf_now s); [injection Hst as <- <-|done]. by split.
  - done.
Qed.

Lemma with_leader_some i p s j q :
  rf_leaders (with_leader i p s) !! j = Some q → (i = j ∧ p = q) ∨ rf_leaders s !! j = Some q.
Proof using Type. simpl. intros [?|[_ ?]]%lookup_insert_Some; auto. Qed.

Lemma event_step_ok w s s' : event_step w s s' → refill_ok s → refill_ok s'.
Proof using rows_have_ids delay_nonneg.
  intros Hst Hok. split; [| |by eapply lock_ok_step, ro_lock].
  - destruct Hst as [i s Hi|i p p' s s' Hp Hl|i p taken e s Hp Hr _|s|t s Ht _].
    + apply Hok.
    + intros c e He. destruct (load_step_lock _ _ _ _ _ Hl) as [Hnow _].
      destruct (load_step_fresh i p s p' s' Hok (ro_pcs _ Hok _ _ Hp) Hl) as [_ Hc]. apply (Hc c e He).
    + apply Hok.
    + by intros c e.
    + intros c e He. destruct (ro_cache _ Hok c e He) as (m & Hm & Hle & Hs). exists m. simpl. split_and!; [done|lia|done].
  - destruct Hst as [i s Hi|i p p' s s' Hp Hl|i p taken e s Hp Hr He|s|t s Ht Hu].
    + intros j q Hj%with_leader_some; destruct Hj as [[<- <-]|Hj]; [done|by apply (ro_pcs _ Hok j)].
    + destruct (load_step_lock _ _ _ _ _ Hl) as (Hnow & Hls & _). simpl rf_now. rewrite Hnow.
      intros j q Hj%with_leader_some; destruct Hj as [[<- <-]|Hj]; [|rewrite Hls in Hj; by apply (ro_pcs _ Hok j)].
      by apply (load_step_fresh i p s p' s' Hok (ro_pcs _ Hok _ _ Hp) Hl).
    + intros j q Hj%with_leader_some; destruct Hj as [[<- <-]|Hj]; [by apply return_ok|by apply (ro_pcs _ Hok j)].
    + apply Hok.
    + intros j q Hj. simpl in *. apply (pc_later (rf_now s)); [by apply (ro_pcs _ Hok j)|done|].
      intros u Hq. by apply (Hu j q).
Qed.

Lemma runs_ok i n s s' : runs i n s s' → refill_ok s → refill_ok s'.
Proof using rows_have_ids delay_nonneg.
  induction 1 as [s|n s s1 s2 _ IH Hst|n w s s1 s2 _ IH Hst _]; intros Hok; [done|..];
    (eapply event_step_ok; [exact Hst|by apply IH]).
Qed.

(** ** Every leader ends *)

(** How often a leader can still go to sleep before its deadline. *)
Definition polls (deadline now : Z) : Z := Z.max 0 ((deadline - now + 19) / 20).

(** Steps a leader can still take. *)
Definition budget (now : Z) (p : pc) : Z :=
  match p with
  | Sleep until deadline => 3 * polls deadline until + 9
  | Lock deadline => 3 * polls deadline now + 8
  | Peek deadline => 3 * polls deadline now + 7
  | Look _ => 6
  | Read _ => 5
  | Prices _ _ _ => 4
  | Fill _ _ _ _ => 3
  | Release _ _ _ => 1
  | Finished _ _ => 0
  end.

Lemma polls_nonneg deadline now : 0 <= polls deadline now.
Proof using Type. unfold polls. lia. Qed.

Lemma polls_later deadline now now' : now <= now' → polls deadline now' <= polls deadline now.
Proof using Type.
  intros H. unfold polls. assert ((deadline - now' + 19) / 20 <= (deadline - now + 19) / 20); [|lia].
  apply Z.div_le_mono; lia.
Qed.

Lemma polls_sleep deadline now : now < deadline → polls deadline (now + LOCK_POLL_MS) = polls deadline now - 1.
Proof using Type. intros H. unfold polls, LOCK_POLL_MS. Z.to_euclidean_division_equations. lia. Qed.

Lemma budget_nonneg now p : 0 <= budget now p.
Proof using Type.
  destruct p as [deadline| | | | | |deadline|until deadline|]; simpl; try lia.
  - pose proof (polls_nonneg deadline now). lia.
  - pose proof (polls_nonneg deadline now). lia.
  - pose proof (polls_nonneg deadline until). lia.
Qed.

Lemma budget_later now now' p : now <= now' → budget now' p <= budget now p.
Proof using Type.
  intros H. destruct p as [deadline| | | | | |deadline|until deadline|]; simpl; try lia;
    pose proof (polls_later deadline now now' H); lia.
Qed.

Lemma budget_return now taken r t : budget now (return_ taken r t) <= 1.
Proof using Type. by destruct taken. Qed.

Lemma load_step_budget i p s p' s' : load_step i p s = Some (p', s') → budget (rf_now s) p' < budget (rf_now s) p.
Proof using Type.
  intros H. destruct p as [deadline|taken|taken|taken u ev|taken u ev pr|taken r t|deadline|until deadline|r t];
    simpl in H.
  - pose proof (polls_nonneg deadline (rf_now s)).
    destruct (live _ _); injection H as <- <-; simpl; lia.
  - destruct (live _ _); injection H as <- <-; simpl; lia.
  - destruct (d_events _ !! _); injection H as <- <-; simpl; [lia|].
    pose proof (budget_return (rf_now s) taken (Ok None) (rf_now s)). lia.
  - injection H as <- <-. simpl. lia.
  - injection H as <- <-. simpl. pose proof (budget_return (rf_now s) taken (Ok (Some (meta_of ev pr))) (rf_now s)). lia.
  - injection H as <- <-. simpl. lia.
  - pose proof (polls_nonneg deadline (rf_now s)).
    destruct (live _ _); [injection H as <- <-; simpl; lia|].
    destruct (deadline <=? rf_now s) eqn:Hd; injection H as <- <-; [simpl; lia|]. apply Z.leb_gt in Hd.
    cbn [budget]. rewrite polls_sleep by done. lia.
  - destruct (until <=? rf_now s) eqn:Hu; [|done]. injection H as <- <-. apply Z.leb_le in Hu. cbn [budget].
    pose proof (polls_later deadline until (rf_now s) Hu). lia.
  - done.
Qed.

Lemma reading_budget now p taken : reading p = Some taken → 2 <= budget now p.
Proof using Type. destruct p; simpl; [done|done|lia|lia|done..]. Qed.

Lemma runs_budget i n s s' p :
  runs i n s s' → rf_leaders s !! i = Some p →
  ∃ p', rf_leaders s' !! i = Some p' ∧ Z.of_nat n + budget (rf_now s') p' <= budget (rf_now s) p.
Proof using Type.
  induction 1 as [s|n s s1 s2 _ IH Hst|n w s s1 s2 _ IH Hst Hw]; intros Hp.
  - exists p. split; [done|lia].
  - destruct (IH Hp) as (p1 & Hp1 & Hb). inversion Hst as [|? q q' ? s'' Hq Hl|? q taken e ? Hq Hr He| |]; subst.
    + exists q'. split; [apply lookup_insert_eq|]. destruct (load_step_lock _ _ _ _ _ Hl) as [Hnow _]. simpl.
      rewrite Hnow. rewrite Hp1 in Hq. injection Hq as <-. pose proof (load_step_budget _ _ _ _ _ Hl). lia.
    + eexists. split; [apply lookup_insert_eq|]. rewrite Hp1 in Hq. injection Hq as <-. simpl.
      pose proof (reading_budget (rf_now s1) p1 taken Hr). pose proof (budget_return (rf_now s1) taken (Err e) (rf_now s1)). lia.
  - destruct (IH Hp) as (p1 & Hp1 & Hb). inversion Hst as [j ? Hj|j q q' ? s'' Hq Hl|j q taken e ? Hq Hr He|?|t ? Ht Hu]; subst; simpl.
    + exists p1. split; [|done]. rewrite lookup_insert_ne; [done|]. intros ->. congruence.
    + destruct (load_step_lock _ _ _ _ _ Hl) as (Hnow & Hls & _). exists p1. rewrite Hls, Hnow. split; [|done].
      rewrite lookup_insert_ne; [done|]. congruence.
    + exists p1. split; [|done]. rewrite lookup_insert_ne; [done|]. congruence.
    + by exists p1.
    + exists p1. split; [done|]. pose proof (budget_later (rf_now s1) t p1 Ht). lia.
Qed.

(** A leader can move, at once or when its nap is over. *)
Lemma leader_moves i p s :
  pc_ok (rf_now s) p →
  (∃ r t, p = Finished r t) ∨ (∃ p' s', load_step i p s = Some (p', s')) ∨
  (∃ until deadline, p = Sleep until deadline ∧ until <= rf_now s + LOCK_POLL_MS ∧
     ∀ s', until <= rf_now s' → load_step i p s' = Some (Lock deadline, s')).
Proof using Type.
  intros Hp. destruct p as [deadline|taken|taken|taken u ev|taken u ev pr|taken r t|deadline|until deadline|r t]; simpl.
  - right. left. destruct (live _ _); eauto.
  - right. left. destruct (live _ _); eauto.
  - right. left. destruct (d_events _ !! _); eauto.
  - eauto 10.
  - eauto 10.
  - eauto 10.
  - right. left. destruct (live _ _); [eauto|]. destruct (_ <=? _); eauto.
  - right. right. exists until, deadline. simpl in Hp. split_and!; [done|done|].
    intros s' Hs'. by rewrite (proj2 (Z.leb_le _ _) Hs').
  - left. eauto.
Qed.

(** A state the processes can reach from an empty cache. *)
Definition reachable (s : Refill) : Prop := ∃ now j k, runs j k (start now) s.

Lemma reachable_ok s : reachable s → refill_ok s.
Proof using rows_have_ids delay_nonneg. intros (now & j & k & Hr). by eapply runs_ok, start_ok. Qed.

(** A miss is always answered, and within bounds.  A leader that starts on a miss
    takes at most 458 steps, whatever the other processes do and however often the
    cache is invalidated; until it has its answer it can always move, asleep for at
    most 20 ms at a time; and its answer is an exception only if a query of the
    database raised it - a lock it never gets costs a read of its own, no error. *)
Theorem refill_terminates i n s s' :
  reachable s → rf_leaders s !! i = None →
  runs i n (with_leader i (Lock (rf_now s + LOCK_WAIT_MS)) s) s' →
  (n <= 458)%nat ∧ ∃ p, rf_leaders s' !! i = Some p ∧
    (n = 458%nat → ∃ r t, p = Finished r t) ∧
    (∀ e t, p = Finished (Err e) t → may_raise e) ∧
    ((∃ r t, p = Finished r t) ∨ (∃ p' s2, load_step i p s' = Some (p', s2)) ∨
     (∃ until deadline, p = Sleep until deadline ∧ until <= rf_now s' + LOCK_POLL_MS ∧
        ∀ s2, until <= rf_now s2 → load_step i p s2 = Some (Lock deadline, s2))).
Proof using rows_have_ids delay_nonneg.
  intros Hreach Hi Hr.
  pose proof (event_step_ok _ _ _ (es_start i s Hi) (reachable_ok s Hreach)) as Hok1.
  pose proof (runs_ok _ _ _ _ Hr Hok1) as Hok'.
  destruct (runs_budget _ _ _ _ (Lock (rf_now s + LOCK_WAIT_MS)) Hr) as (p & Hp & Hb); [apply lookup_insert_eq|].
  assert (H0 : budget (rf_now (with_leader i (Lock (rf_now s + LOCK_WAIT_MS)) s)) (Lock (rf_now s + LOCK_WAIT_MS)) = 458).
  { simpl. unfold polls, LOCK_WAIT_MS, LOCK_TTL_MS. replace (rf_now s + 3000 - rf_now s + 19) with 3019 by lia. done. }
  pose proof (ro_pcs _ Hok' i p Hp) as Hpc. pose proof (budget_nonneg (rf_now s') p).
  split; [lia|]. exists p. split_and!; [done| |by intros e t ->; destruct Hpc|by apply leader_moves].
  intros ->. assert (Hz : budget (rf_now s') p = 0) by lia.
  destruct p as [deadline| | | | | |deadline|until deadline|r t]; cbn [budget] in Hz; unfold polls in Hz;
    try lia; eauto.
Qed.

(** C30 (what a request works from was true a moment ago, and one process at a time
    reads for all).  Whatever the processes, the invalidations and the edits of the
    event: every hit decodes, and a hit or a finished refill gives the metadata of an
    event row, and of prices read right after it, that were committed within the
    last sixty seconds and one read-to-write delay; two leaders that both took the
    lock less than three seconds ago are one and the same; and a release deletes the
    lock of nobody else. *)
Theorem cached_meta_is_recent s :
  reachable s →
  (∀ c, live (rf_now s) (rf_cache s) = Some c →
     ∃ m, hit c = Ok (Some m) ∧ snapshot (rf_now s - WINDOW) (rf_now s) (Some m)) ∧
  (∀ i m t, rf_leaders s !! i = Some (Finished (Ok m) t) → t <= rf_now s ∧ snapshot (t - WINDOW) t m) ∧
  (∀ i j p q a b, rf_leaders s !! i = Some p → rf_leaders s !! j = Some q →
     taken_at p = Some a → taken_at q = Some b →
     rf_now s < a + LOCK_TTL_MS → rf_now s < b + LOCK_TTL_MS → i = j) ∧
  (∀ i j a r t p' s', load_step i (Release a r t) s = Some (p', s') →
     live (rf_now s) (rf_lock s) = Some j → j ≠ i → rf_lock s' = rf_lock s).
Proof using rows_have_ids delay_nonneg.
  intros Hreach. pose proof (reachable_ok s Hreach) as Hok. split_and!.
  - intros c Hc. by apply cache_hit_live; [apply ro_cache|].
  - intros i m t Hi. exact (ro_pcs _ Hok i _ Hi).
  - intros i j p q a b Hp Hq Ha Hb Hla Hlb.
    destruct (ro_lock _ Hok i p a Hp Ha) as [_ H1], (ro_lock _ Hok j q b Hq Hb) as [_ H2].
    specialize (H1 Hla). specialize (H2 Hlb). congruence.
  - intros i j a r t p' s' Hst Hj Hne. simpl in Hst. rewrite Hj in Hst.
    rewrite (proj2 (Nat.eqb_neq _ _) Hne) in Hst. by injection Hst as _ <-.
Qed.

(** One step of leader [i], as far as it can go. *)
Definition advance (i : nat) (s : Refill) : Refill :=
  match rf_leaders s !! i with
  | Some p => match load_step i p s with Some (p', s') => with_leader i p' s' | None => s end
  | None => s
  end.

Lemma advance_runs i j n s0 s : runs j n s0 s → i ≠ j → runs j n s0 (advance i s).
Proof.
  intros Hr Hij. unfold advance. destruct (rf_leaders s !! i) as [p|] eqn:Hp; [|done].
  destruct (load_step i p s) as [[p' s']|] eqn:Hl; [|done].
  eapply runs_other; [exact Hr|by eapply es_load|]. congruence.
Qed.

Lemma advance_own i n s0 s : runs i n s0 s → is_some (rf_leaders s !! i ≫= λ p, load_step i p s) = true →
  runs i (S n) s0 (advance i s).
Proof.
  intros Hr H. unfold advance. destruct (rf_leaders s !! i) as [p|] eqn:Hp; [|done]. simpl in H.
  destruct (load_step i p s) as [[p' s']|] eqn:Hl; [|done]. eapply runs_own; [exact Hr|by eapply es_load].
Qed.

Definition begin (i : nat) (s : Refill) : Refill := with_leader i (Lock (rf_now s + LOCK_WAIT_MS)) s.
Definition tick (t : Z) (s : Refill) : Refill := mk_refill t (rf_cache s) (rf_lock s) (rf_leaders s).
Definition invalidate (s : Refill) : Refill := mk_refill (rf_now s) None (rf_lock s) (rf_leaders s).

Lemma begin_runs i j n s0 s : runs j n s0 s → rf_leaders s !! i = None → runs j n s0 (begin i s).
Proof. intros Hr Hi. eapply runs_other; [exact Hr|by apply es_start|done]. Qed.
Lemma invalidate_runs j n s0 s : runs j n s0 s → runs j n s0 (invalidate s).
Proof. intros Hr. eapply runs_other; [exact Hr|apply es_invalidate|done]. Qed.
Lemma tick_runs t j n s0 s : runs j n s0 s → rf_now s <= t →
  forallb (λ p : nat * pc, match row_read_at p.2 with Some u => t <=? u + write_delay | None => true end)
    (map_to_list (rf_leaders s)) = true →
  runs j n s0 (tick t s).
Proof.
  intros Hr Ht Hall. eapply runs_other; [exact Hr|apply es_tick; [done|]|done]. intros i p u Hi Hu.
  rewrite forallb_forall in Hall. specialize (Hall (i, p)). simpl in Hall. rewrite Hu in Hall.
  apply Z.leb_le, Hall. by apply list_elem_of_In, elem_of_map_to_list.
Qed.
End refill.

(** ** Two processes miss at once *)

Definition refill_db (t : Z) : DB := priced_db.
Definition two_misses : Refill :=
  Nat.iter 6 (advance 7 refill_db 1) (advance 7 refill_db 2 (advance 7 refill_db 1 (begin 2 (begin 1 (start 100))))).

Lemma refill_db_ids t ev : d_events (refill_db t) !! 7 = Some ev → ev_id ev = 7.
Proof. intros H. vm_compute in H. by injection H as <-. Qed.

Lemma two_misses_reachable : reachable 7 refill_db (λ _, False) 50 two_misses.
Proof.
  exists 100, 0%nat, 0%nat. unfold two_misses. cbn [Nat.iter nat_rect].
  do 8 (apply advance_runs; [|done]). apply begin_runs; [apply begin_runs; [apply runs_refl|]|]; done.
Qed.

Lemma cached_meta_is_recent_witness :
  ∃ c m, live 100 (rf_cache two_misses) = Some c ∧ hit 7 c = Ok (Some m) ∧ m_price_cents m = None ∧
    m_zone_prices m = {[3 := 500]} ∧ snapshot 7 refill_db (100 - 60050) 100 (Some m).
Proof.
  pose proof (cached_meta_is_recent 7 refill_db (λ _, False) 50 refill_db_ids ltac:(done) two_misses two_misses_reachable)
    as (H & _).
  destruct (live 100 (rf_cache two_misses)) as [c|] eqn:Hc; [|by vm_compute in Hc].
  destruct (H c Hc) as (m & Hm & Hs). exists c, m. split_and!; [done|done| | |exact Hs].
  - vm_compute in Hc. injection Hc as <-. vm_compute in Hm. by injection Hm as <-.
  - vm_compute in Hc. injection Hc as <-. vm_compute in Hm. injection Hm as <-. by vm_compute.
Defined.

(** ** An invalidation can be overtaken *)

(** The event's own price is raised at instant 1000. *)
Definition edited_event (price : Z) : Event := mk_event 7 None 0 0 1000 9000 None None 10 (Some price) PUBLISHED 1.
Definition edited_db (t : Z) : DB :=
  mk_db ∅ {[7 := edited_event (if t <? 1000 then 100 else 200)]} ∅ ∅ ∅ ∅ ∅ 1 ∅ ∅ 1 ∅.

(** A leader reads at 990; the edit commits at 1000 and invalidates at 1001, after its
    commit as it should; the leader's SET comes at 1002. *)
Definition overtaken : Refill :=
  advance 7 edited_db 1 (tick 1002 (invalidate (tick 1001
    (Nat.iter 4 (advance 7 edited_db 1) (begin 1 (start 990)))))).

(** A refill under way writes what it read before the edit after the invalidation:
    the old price is sold for another sixty seconds, with no further edit. *)
Theorem invalidation_can_be_overtaken :
  reachable 7 edited_db (λ _, False) 50 overtaken ∧
  (∀ t, 1000 <= t → ev_price <$> d_events (edited_db t) !! 7 = Some (Some 200)) ∧
  ∃ c m, live 61001 (rf_cache overtaken) = Some c ∧ hit 7 c = Ok (Some m) ∧ m_price_cents m = Some 100.
Proof.
  split_and!.
  - exists 990, 0%nat, 0%nat. unfold overtaken. cbn [Nat.iter nat_rect]. apply advance_runs; [|done].
    apply tick_runs; [apply invalidate_runs, tick_runs| |].
    + do 4 (apply advance_runs; [|done]). by apply begin_runs; [apply runs_refl|].
    + by vm_compute.
    + by vm_compute.
    + by vm_compute.
    + by vm_compute.
  - intros t Ht. unfold edited_db. simpl. rewrite lookup_singleton_eq. simpl. by rewrite (proj2 (Z.ltb_ge t 1000)).
  - by vm_compute; do 2 eexists.
Qed.
