(* ===== verification/Orders.v ===== *)
(** The order state machine (src/app/crud/order.py), the side effects each
    transition owes (src/app/services/orders.py) and the request path that turns
    an order into an intent ([submit_order]). *)

From S2P Require Import Prelude Exceptions Config Keys Redis DB World Pricing.
From S2P Require Import Inventory Seating SeatRuns.

#[local] Open Scope Z_scope.

(** ** The state machine *)

(** [_VALID_TRANSITIONS] *)
Definition valid_transitions (s : OrderStatus) : list OrderStatus :=
  match s with
  | PENDING => [PAID; EXPIRED; CANCELLED]
  | PAID => [CONFIRMED]
  | CONFIRMED | EXPIRED | CANCELLED => []
  end.

(** [create_order]; [created_at] is the database's [now()]. *)
Definition create_order (created user_id event_id quantity total_price_cents : Z)
    (idempotency_key : string) (zone_id : option Z) : M DB exn Order :=
  insert_order (λ i, mk_order i user_id event_id zone_id quantity total_price_cents PENDING
                       idempotency_key None created None None None None).

Definition get_order_by_id (order_id : Z) : M DB exn (option Order) :=
  gets (λ d, d_orders d !! order_id).

(** The key is unique: the query finds at most one row. *)
Definition order_by_key (d : DB) (idempotency_key : string) : option Order :=
  snd <$> find (λ '(_, o), bool_decide (o_idem o = idempotency_key)) (map_to_list (d_orders d)).
Definition get_order_by_idempotency_key (idempotency_key : string) : M DB exn (option Order) :=
  gets (λ d, order_by_key d idempotency_key).

(** The [SET status = ..., <timestamp> = now] of a transition; [_STATUS_TIMESTAMP]
    has no entry for PENDING. *)
Definition stamped (s : OrderStatus) (now : Z) (o : Order) : result exn Order :=
  let set paid conf exp canc :=
    Ok (mk_order (o_id o) (o_user o) (o_event o) (o_zone o) (o_quantity o) (o_total o) s
          (o_idem o) (o_payment o) (o_created o) paid conf exp canc) in
  match s with
  | PENDING => Err KeyError
  | PAID => set (Some now) (o_confirmed_at o) (o_expired_at o) (o_cancelled_at o)
  | CONFIRMED => set (o_paid_at o) (Some now) (o_expired_at o) (o_cancelled_at o)
  | EXPIRED => set (o_paid_at o) (o_confirmed_at o) (Some now) (o_cancelled_at o)
  | CANCELLED => set (o_paid_at o) (o_confirmed_at o) (o_expired_at o) (Some now)
  end.

(** [transition_order_status]: [order] is the object the session read earlier, the
    row is whatever is there now.  The result is the returned flag and the object
    afterwards, refreshed from the row when the UPDATE applied. *)
Definition transition_order_status (now : Z) (order : Order) (new_status : OrderStatus)
    : M DB exn (bool * Order) := λ d,
  if bool_decide (new_status ∉ valid_transitions (o_status order)) then
    (Err (Domain (InvalidOrderTransition (o_id order) (status_str (o_status order))
                    (status_str new_status))), d)
  else
    match d_orders d !! o_id order with
    | None => (Ok (false, order), d)
    | Some row =>
        if negb (bool_decide (o_status row = o_status order)) then (Ok (false, order), d)
        else
          match stamped new_status now row with
          | Err e => (Err e, d)
          | Ok row' =>
              match order_violation row' with
              | Some c => (Err (IntegrityError c), d)
              | None => (Ok (true, row'), set_orders (<[o_id order := row']> (d_orders d)) d)
              end
          end
    end.

(** ** Transitions and what they owe *)

Definition mark_paid (now : Z) (order : Order) : M DB exn (bool * Order) :=
  transition_order_status now order PAID.

(** [UPDATE seat_holds SET confirmed_at = now() WHERE order_id = .. AND confirmed_at IS NULL] *)
Definition freeze_hold (order_id tx_now : Z) (d : DB) : DB :=
  match d_holds d !! order_id with
  | Some h =>
      match hd_confirmed_at h with
      | Some _ => d
      | None => set_holds (<[order_id := mk_hold (hd_event h) (hd_zone h) (hd_block h)
                              (hd_order h) (hd_start h) (hd_len h) (Some tx_now)]> (d_holds d)) d
      end
  | None => d
  end.

(** [now] is the process's clock, [tx_now] the database's [now()]. *)
Definition mark_confirmed (now tx_now : Z) (order : Order) : M DB exn (bool * Order) :=
  let! res := transition_order_status now order CONFIRMED in
  if negb res.1 then ret res
  else match o_zone res.2 with
       | None => ret res
       | Some _ => modify (freeze_hold (o_id res.2) tx_now) ;;; ret res
       end.

Definition SEAT_RELEASE : string := "seat.release".

(** [_transition_owing_release] *)
Definition transition_owing_release (now tx_now : Z) (order : Order) (new_status : OrderStatus)
    : M DB exn (bool * Order) :=
  let! res := transition_order_status now order new_status in
  if negb res.1 then ret res
  else insert_outbox SEAT_RELEASE (o_id res.2) tx_now ;;; ret res.

Definition cancel_order (now tx_now : Z) (order : Order) : M DB exn (bool * Order) :=
  transition_owing_release now tx_now order CANCELLED.

Definition expire_order (now tx_now : Z) (order : Order) : M DB exn (bool * Order) :=
  transition_owing_release now tx_now order EXPIRED.

(** ** [release_order_seat] *)

(** The default [ttl_seconds] of [release], [release_seats] and the claims. *)
Definition DEFAULT_TTL_SECONDS : Z := 86400.

Definition order_marker (order_id : Z) : string := join "order" (z_str order_id).

(** The database half: [DELETE] the hold and commit. *)
Definition take_hold (order_id : Z) : M DB exn (option SeatHold) := λ d,
  match d_holds d !! order_id with
  | None => (Ok None, d)
  | Some h => (Ok (Some h), set_holds (delete order_id (d_holds d)) d)
  end.

(** The Redis half for a seated order, once its hold is gone. *)
Definition give_back (order : Order) (zone_id : Z) (h : SeatHold) : M Redis exn bool :=
  release_seats (o_event order) zone_id (o_user order) (hd_block h) (hd_start h) (hd_len h)
    (order_marker (o_id order)) DEFAULT_TTL_SECONDS.

Definition release_order_seat (order : Order) : M World exn bool :=
  match o_zone order with
  | None =>
      in_redis (Inventory.release (o_event order) (o_user order) (o_quantity order)
                  (order_marker (o_id order)) DEFAULT_TTL_SECONDS)
  | Some zone_id =>
      let! hold := transaction (take_hold (o_id order)) in
      match hold with
      | None => ret false
      | Some h => in_redis (give_back order zone_id h)
      end
  end.

(** ** [submit_order] *)

Section submit.
Context (settings : Settings).
(* what happens to the reservation's connection *)
Context (link : redis_link).
(* random choice and the other clients, as in [reserve_seats_and_enqueue] *)
Context (randrange : Z → Z → Z) (others : Z → Redis → Redis).
Context (trace traceparent : string).

(** [event] is what [get_event_meta] returned. *)
Definition submit_order (now : Z) (event : option EventMeta) (user_id event_id quantity : Z)
    (idempotency_key : string) (zone_id : option Z) : M Redis exn ReserveResult :=
  match event with
  | None => raise (Domain (EventNotFound event_id))
  | Some event =>
      if bool_decide (m_status event = EV_CANCELLED) then raise (Domain (EventCancelled event_id))
      else if negb (bool_decide (m_status event = PUBLISHED))
      then raise (Domain (EventNotOnSale event_id))
      else if negb ((m_sale_starts_at event <=? now) && (now <=? m_sale_ends_at event))
      then raise (Domain (EventNotOnSale event_id))
      else
        let! total_price_cents := lift (total_for event zone_id quantity) in
        match m_venue_id event with
        | Some _ =>
            match zone_id with
            | None => raise (Domain (ZoneRequired event_id))
            | Some z =>
                let! reservation := over_link link (reserve_seats_and_enqueue settings randrange
                  others event_id z user_id quantity total_price_cents idempotency_key
                  DEFAULT_TTL_SECONDS TOP_K (MAX_TICKETS_PER_USER_PER_EVENT settings) trace
                  traceparent NORMAL_POLICY) in
                match reservation with
                | None => ret (mk_reserve_result RO_DUP None None None None)
                | Some res => ret (mk_reserve_result RO_OK (Some (sr_stream_id res)) None None None)
                end
            end
        | None =>
            let! result := over_link link (reserve_and_enqueue (mk_reserve_args event_id user_id
              quantity total_price_cents idempotency_key zone_id DEFAULT_TTL_SECONDS
              (MAX_TICKETS_PER_USER_PER_EVENT settings) trace traceparent)) in
            match rr_outcome result with
            | RO_SOLD_OUT =>
                raise (Domain (InsufficientInventory event_id quantity
                                 (default 0 (rr_available result))))
            | RO_OVER_LIMIT =>
                raise (Domain (PurchaseLimitExceeded event_id user_id quantity
                                 (default 0 (rr_held result)) (default 0 (rr_limit result))))
            | _ => ret result
            end
        end
  end.
End submit.

(** ** The state machine keeps its history *)

(** The timestamps an order carries are those of the states it went through. *)
Definition stamps_ok (o : Order) : Prop :=
  match o_status o with
  | PENDING => o_paid_at o = None ∧ o_confirmed_at o = None ∧ o_expired_at o = None ∧
               o_cancelled_at o = None
  | PAID => is_Some (o_paid_at o) ∧ o_confirmed_at o = None ∧ o_expired_at o = None ∧
            o_cancelled_at o = None
  | CONFIRMED => (∃ p c, o_paid_at o = Some p ∧ o_confirmed_at o = Some c ∧ p <= c) ∧
                 o_expired_at o = None ∧ o_cancelled_at o = None
  | EXPIRED => o_paid_at o = None ∧ o_confirmed_at o = None ∧ is_Some (o_expired_at o) ∧
               o_cancelled_at o = None
  | CANCELLED => o_paid_at o = None ∧ o_confirmed_at o = None ∧ o_expired_at o = None ∧
                 is_Some (o_cancelled_at o)
  end.

Definition stamps_inv (d : DB) : Prop := ∀ i o, d_orders d !! i = Some o → stamps_ok o.

(** What no transition changes. *)
Definition same_purchase (o o' : Order) : Prop :=
  o_id o' = o_id o ∧ o_user o' = o_user o ∧ o_event o' = o_event o ∧ o_zone o' = o_zone o ∧
  o_quantity o' = o_quantity o ∧ o_total o' = o_total o ∧ o_idem o' = o_idem o ∧
  o_created o' = o_created o.

#[global] Instance same_purchase_preorder : PreOrder same_purchase.
Proof.
  split; [by intros o|]. intros x y z Hxy Hyz. unfold same_purchase in *.
  destruct_and!. split_and!; congruence.
Qed.

Definition legal (a b : OrderStatus) : Prop := b ∈ valid_transitions a.

(** The state machine has no cycle: a measure every transition decreases. *)
Definition steps_left (s : OrderStatus) : nat :=
  match s with PENDING => 2 | PAID => 1 | CONFIRMED | EXPIRED | CANCELLED => 0 end.

Lemma legal_decreases a b : legal a b → (steps_left b < steps_left a)%nat.
Proof.
  unfold legal. destruct a; simpl; rewrite ?elem_of_cons, ?elem_of_nil;
    intros ?; destruct_or?; subst; simpl; try done; lia.
Qed.

Lemma legal_path_decreases a b : rtc legal a b → (steps_left b <= steps_left a)%nat.
Proof. induction 1 as [|x y z H _ IH]; [lia|]. apply legal_decreases in H. lia. Qed.

Lemma stamped_facts s now o o' :
  stamped s now o = Ok o' → o_status o' = s ∧ same_purchase o o' ∧ o_payment o' = o_payment o.
Proof. destruct s; intros; simplify_eq/=; done. Qed.

Lemma stamped_stamps s now o o' :
  stamps_ok o → legal (o_status o) s → stamped s now o = Ok o' → order_violation o' = None →
  stamps_ok o'.
Proof.
  unfold legal, stamps_ok. intros Ho Hl Hs Hv.
  destruct (o_status o) eqn:Ho'; simpl in Hl; rewrite ?elem_of_cons, ?elem_of_nil in Hl;
    destruct_or?; subst; try done; simplify_eq/=; try (destruct_and!; eauto; done).
  destruct Ho as ([p Hp] & Hc & He & Ha). split; [|done]. exists p, now. split_and!; [done..|].
  unfold order_violation in Hv. simpl in Hv. rewrite Hp, He in Hv.
  destruct (negb (0 <? o_quantity o)); [done|]. destruct (negb (0 <=? o_total o)); [done|].
  simpl in Hv. destruct (now <? p) eqn:?; [done|zlia].
Qed.

(** Every branch of a transition. *)
Record applied (now : Z) (order : Order) (s : OrderStatus) (d : DB) (o' : Order) (d' : DB) : Prop := {
  ap_legal : legal (o_status order) s;
  ap_row : ∃ row, d_orders d !! o_id order = Some row ∧ o_status row = o_status order ∧
                  stamped s now row = Ok o';
  ap_checked : order_violation o' = None;
  ap_db : d' = set_orders (<[o_id order := o']> (d_orders d)) d;
}.

Lemma transition_cases now order s d :
  match transition_order_status now order s d with
  | (Ok (true, o'), d') => applied now order s d o' d'
  | (Ok (false, o'), d') => d' = d ∧ o' = order ∧ legal (o_status order) s ∧
      (∀ row, d_orders d !! o_id order = Some row → o_status row ≠ o_status order)
  | (Err e, d') => d' = d ∧
      (¬ legal (o_status order) s ∧
         e = Domain (InvalidOrderTransition (o_id order) (status_str (o_status order)) (status_str s)) ∨
       ∃ c, e = IntegrityError c)
  end.
Proof.
  unfold transition_order_status. destruct (bool_decide _) eqn:Hl.
  { apply bool_decide_eq_true in Hl. auto. }
  apply bool_decide_eq_false, dec_stable in Hl.
  destruct (d_orders d !! o_id order) as [row|] eqn:Hrow; [|done].
  destruct (negb _) eqn:Hst.
  { split_and!; [done..|]. intros ? [= <-] Heq. by rewrite bool_decide_eq_true_2 in Hst. }
  apply negb_false_iff, bool_decide_eq_true in Hst.
  destruct (stamped s now row) as [row'|e] eqn:Hs.
  - destruct (order_violation row') eqn:Hv; [split; [done|right; eauto]|].
    split; [done|by exists row|done|done].
  - destruct s; try done. exfalso. revert Hl. clear.
    destruct (o_status order); simpl; rewrite ?elem_of_cons, ?elem_of_nil; intros ?;
      by destruct_or?.
Qed.

(** Replacing a row by one of the same purchase keeps the constraints. *)
Lemma update_order_ok d i row row' :
  db_ok d → d_orders d !! i = Some row → same_purchase row row' → order_violation row' = None →
  db_ok (set_orders (<[i := row']> (d_orders d)) d).
Proof.
  intros [H1 H2 H3 H4 H5 H6] Hi (Eid & _ & Eev & Ez & Eq & _ & Eidem & _) Hv.
  destruct (H1 _ _ Hi) as [Hid _].
  split; simpl; try done.
  - intros j x Hj. apply lookup_insert_Some in Hj as [[<- <-]|[_ Hj]]; [split; congruence|eauto].
  - intros j [x Hj]. apply lookup_insert_Some in Hj as [[<- _]|[_ Hj]]; eauto.
  - intros a b x y Ha Hb Hxy.
    apply lookup_insert_Some in Ha as [[<- <-]|[Hai Ha]];
      apply lookup_insert_Some in Hb as [[<- <-]|[Hbi Hb]]; [done| | |eauto].
    + apply (H3 i b row y); congruence.
    + apply (H3 a i x row); congruence.
  - intros j h Hj. destruct (H4 j h Hj) as (? & ? & ? & x & Hx & Hm). split_and!; [done..|].
    destruct (decide (j = i)) as [->|Hne].
    + exists row'. rewrite lookup_insert_eq. split; [done|]. simplify_eq.
      unfold hold_matches_order in *. by rewrite Eev, Ez, Eq.
    + exists x. by rewrite lookup_insert_ne.
Qed.

Lemma applied_ok now order s d o' d' : db_ok d → applied now order s d o' d' → db_ok d'.
Proof.
  intros Hd [_ (row & Hrow & _ & Hs) Hv ->].
  eapply update_order_ok; [done|done|by eapply stamped_facts|done].
Qed.

Lemma safe_transition now order s : safe (transition_order_status now order s).
Proof.
  intros d Hd. pose proof (transition_cases now order s d) as H.
  destruct (transition_order_status now order s d) as [[[[] o']|e] d']; simpl.
  - split; [by eapply applied_ok|]. destruct H as [_ _ _ ->]. split; simpl; lia.
  - destruct H as [-> _]. split; [done|split; lia].
  - destruct H as [-> _]. split; [done|split; lia].
Qed.

Lemma safe_freeze i now : safe (modify (freeze_hold i now)).
Proof.
  intros d [H1 H2 H3 H4 H5 H6]. unfold modify, freeze_hold. simpl.
  destruct (d_holds d !! i) as [h|] eqn:Hh; [|done].
  destruct (hd_confirmed_at h); [done|]. split; [|split; simpl; lia]. split; simpl; try done.
  - intros j x Hj. apply lookup_insert_Some in Hj as [[<- <-]|[_ Hj]]; [|eauto].
    apply (H4 i h Hh).
  - intros a b x y Ha Hb Hab.
    apply lookup_insert_Some in Ha as [[<- <-]|[Hai Ha]];
      apply lookup_insert_Some in Hb as [[<- <-]|[Hbi Hb]]; [done| | |eauto].
    + by apply (H5 i b h y).
    + by apply (H5 a i x h).
Qed.

Lemma safe_take_hold i : safe (take_hold i).
Proof.
  intros d [H1 H2 H3 H4 H5 H6]. unfold take_hold.
  destruct (d_holds d !! i) as [h|] eqn:Hh; simpl; [|done].
  split; [|split; simpl; lia]. split; simpl; try done.
  - intros j x [_ Hj]%lookup_delete_Some. eauto.
  - intros a b x y [_ Ha]%lookup_delete_Some [_ Hb]%lookup_delete_Some. eauto.
Qed.

#[export] Hint Resolve safe_transition safe_freeze safe_take_hold : prog.

Lemma safe_mark_confirmed now tx order : safe (mark_confirmed now tx order).
Proof.
  unfold mark_confirmed. apply safe_bind; [auto with prog|]. intros [[] o]; simpl; [|auto with prog].
  destruct (o_zone o); auto with prog.
Qed.

Lemma safe_owing_release now tx order s : safe (transition_owing_release now tx order s).
Proof.
  unfold transition_owing_release. apply safe_bind; [auto with prog|]. intros [[] o]; simpl;
    auto with prog.
Qed.

#[export] Hint Resolve safe_mark_confirmed safe_owing_release : prog.

(** ** Histories *)

(** Orders come into being PENDING and are only ever moved by transitions, made
    by any process from any object it read at any time. *)
Inductive history_step : DB → DB → Prop :=
  | hs_create created user event quantity total idem zone d :
      history_step d (create_order created user event quantity total idem zone d).2
  | hs_transition now order s d :
      history_step d (transition_order_status now order s d).2.

Definition moved (d d' : DB) : Prop := ∀ i o, d_orders d !! i = Some o →
  ∃ o', d_orders d' !! i = Some o' ∧ rtc legal (o_status o) (o_status o') ∧ same_purchase o o'.

#[global] Instance moved_preorder : PreOrder moved.
Proof.
  split.
  - intros d i o Hi. exists o. split_and!; [done|reflexivity|reflexivity].
  - intros d1 d2 d3 H1 H2 i o Hi.
    destruct (H1 i o Hi) as (o2 & Hi2 & ? & ?). destruct (H2 i o2 Hi2) as (o3 & Hi3 & ? & ?).
    exists o3. split_and!; [done|by etrans|by etrans].
Qed.

Lemma transition_moved now order s d : moved d (transition_order_status now order s d).2.
Proof.
  pose proof (transition_cases now order s d) as H.
  destruct (transition_order_status now order s d) as [[[[] o']|e] d']; simpl;
    [|destruct H as [-> _]; reflexivity..].
  destruct H as [Hl (row & Hrow & Hst & Hs) _ ->]. apply stamped_facts in Hs as (Es & Hp & _).
  intros i o Hi. simpl. destruct (decide (i = o_id order)) as [->|Hne].
  - exists o'. rewrite lookup_insert_eq. simplify_eq. split_and!; [done| |done].
    apply rtc_once. by rewrite Hst.
  - exists o. rewrite lookup_insert_ne by done. split_and!; [done|reflexivity|reflexivity].
Qed.

Lemma insert_order_cases (o : Z → Order) d : (∀ i, o_id (o i) = i) →
  match insert_order o d with
  | (Ok x, d') => x = o (d_next_order d) ∧ order_violation x = None ∧
      order_reference_violation d x = None ∧ order_fits x = true ∧
      d' = set_orders (<[d_next_order d := x]> (d_orders d)) (set_next_order (d_next_order d + 1) d)
  | (Err e, d') =>
      (∃ c, e = IntegrityError c) ∧ d' = set_next_order (d_next_order d + 1) d ∨
      e = DataError ∧ d' = d ∧ order_fits (o (d_next_order d)) = false
  end.
Proof.
  intros Hid. unfold insert_order.
  destruct (negb _) eqn:Hf; [right; by rewrite negb_true_iff in Hf|apply negb_false_iff in Hf].
  destruct (opt_or _ _) as [c|] eqn:Hv; [left; split; [by exists c|done]|].
  apply opt_or_none in Hv as [? ?]. by rewrite Hid.
Qed.

Lemma insert_order_err_keeps (o : Z → Order) d e d' : (∀ i, o_id (o i) = i) →
  insert_order o d = (Err e, d') → d_orders d' = d_orders d.
Proof.
  intros Hid He. pose proof (insert_order_cases o d Hid) as H. rewrite He in H.
  by destruct H as [[_ ->]|(_ & -> & _)].
Qed.

Lemma insert_order_moved o d :
  db_ok d → (∀ i, o_id (o i) = i) → moved d (insert_order o d).2.
Proof.
  intros Hd Hid. pose proof (insert_order_cases o d Hid) as H.
  destruct (insert_order o d) as [[x|e] d'] eqn:Hins; simpl.
  - destruct H as (_ & _ & _ & _ & ->). intros i y Hi. exists y. simpl.
    rewrite lookup_insert_ne; [split_and!; [done|reflexivity|reflexivity]|].
    intros <-. pose proof (ok_order_ids _ Hd _ (ex_intro _ _ Hi)). lia.
  - intros i y Hi. exists y. rewrite (insert_order_err_keeps o d e d' Hid Hins).
    split_and!; [done|reflexivity|reflexivity].
Qed.

Lemma history_step_inv d d' :
  history_step d d' → db_ok d → stamps_inv d → db_ok d' ∧ stamps_inv d' ∧ moved d d'.
Proof.
  intros Hstep Hd Hs. destruct Hstep as [created user event q total idem zone d|now order s d].
  - unfold create_order. split; [by apply safe_insert_order|].
    split; [|by apply insert_order_moved].
    pose proof (insert_order_cases (λ i, mk_order i user event zone q total PENDING idem None
      created None None None None) d ltac:(done)) as H.
    destruct (insert_order _ d) as [[x|e] d'] eqn:Hins; simpl.
    + destruct H as (-> & _ & _ & _ & ->). intros i o Hi. simpl in Hi.
      apply lookup_insert_Some in Hi as [[_ <-]|[_ Hi]]; [done|eauto].
    + apply insert_order_err_keeps in Hins; [|done]. intros i o Hi. rewrite Hins in Hi. eauto.
  - split; [by apply safe_transition|]. split; [|apply transition_moved].
    pose proof (transition_cases now order s d) as H.
    destruct (transition_order_status now order s d) as [[[[] o']|e] d']; simpl;
      [|destruct H as [-> _]; exact Hs..].
    destruct H as [Hl (row & Hrow & Hst & Hr) Hv ->]. intros i o Hi. simpl in Hi.
    apply lookup_insert_Some in Hi as [[_ <-]|[_ Hi]]; [|eauto].
    eapply stamped_stamps; [by eapply Hs|by rewrite Hst|done|done].
Qed.

(** C7 (an order only moves forward).  Whatever processes create orders and move
    them, from whatever stale objects and with whatever clocks: the schema's
    constraints keep holding, every order carries exactly the timestamps of the
    states it went through (a confirmation never before its payment), and an
    order that exists stays, with its buyer, event, zone, quantity, price and
    key, in a state reachable from the one it was in. *)
Theorem order_history_consistent d d' :
  db_ok d → stamps_inv d → rtc history_step d d' →
  db_ok d' ∧ stamps_inv d' ∧ moved d d'.
Proof.
  intros Hd Hs Hr. induction Hr as [d|d1 d2 d3 H12 _ IH]; [split_and!; [done..|reflexivity]|].
  destruct (history_step_inv _ _ H12 Hd Hs) as (Hd2 & Hs2 & Hm).
  destruct (IH Hd2 Hs2) as (? & ? & ?). split_and!; [done..|by etrans].
Qed.

(** A transition that was applied. *)
Definition applied_step (d d' : DB) : Prop :=
  ∃ now order s o', transition_order_status now order s d = (Ok (true, o'), d').

(** The transitions all orders together still have before them. *)
Definition total_steps_left (d : DB) : nat :=
  sum_list_with (λ o, steps_left (o_status o)) (map_to_list (d_orders d)).*2.

Lemma sum_list_with_perm {A} (f : A → nat) l1 l2 :
  l1 ≡ₚ l2 → sum_list_with f l1 = sum_list_with f l2.
Proof. induction 1; simpl; lia. Qed.

Lemma total_steps_insert d i o o' :
  d_orders d !! i = Some o → (steps_left (o_status o') < steps_left (o_status o))%nat →
  (total_steps_left (set_orders (<[i := o']> (d_orders d)) d) < total_steps_left d)%nat.
Proof.
  intros Hi Hlt.
  assert (Hsum : ∀ x, sum_list_with (λ o, steps_left (o_status o))
      (map_to_list (<[i := x]> (d_orders d))).*2 =
    (steps_left (o_status x) + sum_list_with (λ o, steps_left (o_status o))
      (map_to_list (delete i (d_orders d))).*2)%nat).
  { intros x. rewrite <-insert_delete_eq.
    by rewrite (sum_list_with_perm _ _ _ (fmap_Permutation _ _ _
      (map_to_list_insert _ _ _ (lookup_delete_eq _ _)))). }
  pose proof (Hsum o) as Ho. rewrite insert_id in Ho by done.
  unfold total_steps_left. simpl. rewrite Ho, Hsum. lia.
Qed.

Lemma applied_step_decreases d d' :
  applied_step d d' → (total_steps_left d' < total_steps_left d)%nat ∧
    size (d_orders d') = size (d_orders d).
Proof.
  intros (now & order & s & o' & H). pose proof (transition_cases now order s d) as Hc.
  rewrite H in Hc. destruct Hc as [Hl (row & Hrow & Hst & Hs) _ ->].
  apply stamped_facts in Hs as (Es & _). split.
  - apply (total_steps_insert _ _ row); [done|]. rewrite Hst, Es. by apply legal_decreases.
  - simpl. by rewrite map_size_insert_Some.
Qed.

Lemma total_steps_bound d : (total_steps_left d <= 2 * size (d_orders d))%nat.
Proof.
  unfold total_steps_left. rewrite <-length_map_to_list.
  induction (map_to_list (d_orders d)) as [|[i o] l IH]; csimpl; [lia|].
  destruct (o_status o); simpl; lia.
Qed.

(** C8 (the life of an order ends).  However transitions are interleaved, over
    whatever orders and from whatever stale objects, no infinite sequence of
    applied transitions exists, and at most two are ever applied per existing
    order: every sequence reaches a state in which only a new order moves on. *)
Theorem order_lifecycle_terminates :
  well_founded (flip applied_step) ∧
  ∀ n d d', nsteps applied_step n d d' → (n <= 2 * size (d_orders d))%nat.
Proof.
  split.
  - apply (wf_projected lt total_steps_left); [|apply lt_wf].
    intros d' d H. by apply applied_step_decreases.
  - intros n d d' H. pose proof (total_steps_bound d).
    assert (n + total_steps_left d' <= total_steps_left d)%nat; [|lia].
    clear -H. induction H as [|n d1 d2 d3 H12 _ IH]; [lia|].
    apply applied_step_decreases in H12 as [? _]. lia.
Qed.

(** C15 (a race has one winner).  Once a transition was applied from an object, no
    other transition from an object of that status ever applies to the order,
    however many transitions follow: a contender gets [False] and changes
    nothing, so a payment and an expiry never both take effect. *)
Theorem transition_has_one_winner now order s d o' d' d2 now2 order2 s2 :
  transition_order_status now order s d = (Ok (true, o'), d') →
  moved d' d2 →
  o_id order2 = o_id order → o_status order2 = o_status order →
  legal (o_status order2) s2 →
  transition_order_status now2 order2 s2 d2 = (Ok (false, order2), d2).
Proof.
  intros H Hm Hid Hst Hl. pose proof (transition_cases now order s d) as Hc. rewrite H in Hc.
  destruct Hc as [Hl1 (row & Hrow & Hs & Hstamp) _ ->].
  apply stamped_facts in Hstamp as (Es & _).
  destruct (Hm (o_id order) o') as (o2 & Ho2 & Hpath & _); [apply lookup_insert_eq|].
  apply legal_decreases in Hl1. apply legal_path_decreases in Hpath. rewrite Es in Hpath.
  unfold transition_order_status.
  rewrite bool_decide_eq_false_2 by (by intros ?). rewrite Hid, Ho2.
  rewrite bool_decide_eq_false_2; [done|]. intros Heq. rewrite Heq, Hst in Hpath. lia.
Qed.

(** ** What an expiry or a cancellation owes *)

Lemma transaction_ok {A} (m : M DB exn A) w a w' :
  transaction m w = (Ok a, w') → m (w_db w) = (Ok a, w_db w') ∧ w_redis w' = w_redis w.
Proof. unfold transaction. destruct (m (w_db w)) as [[]]; intros; by simplify_eq/=. Qed.

(** The release is owed in the same commit.  An expiry or cancellation that
    commits moves the order's row and adds exactly one due [seat.release] row for
    it, in one transaction; one that lost the race or was refused leaves every
    table as it was, so nobody gives the seats back for somebody else. *)
Theorem release_owed_with_transition now tx_now order s w :
  match transaction (transition_owing_release now tx_now order s) w with
  | (Ok (true, o'), w') =>
      let d := w_db w in
      legal (o_status order) s ∧ o_status o' = s ∧
      (∃ row, d_orders d !! o_id order = Some row ∧ o_status row = o_status order ∧
              stamped s now row = Ok o') ∧
      d_orders (w_db w') = <[o_id order := o']> (d_orders d) ∧
      d_outbox (w_db w') = <[d_next_outbox d :=
        mk_outbox (d_next_outbox d) SEAT_RELEASE (o_id o') 0 tx_now None]> (d_outbox d) ∧
      d_holds (w_db w') = d_holds d ∧ w_redis w' = w_redis w
  | (Ok (false, o'), w') => w' = w ∧ o' = order
  | (Err _, w') => same_tables (w_db w) (w_db w') ∧ w_redis w' = w_redis w
  end.
Proof.
  unfold transaction, transition_owing_release, bind.
  pose proof (transition_cases now order s (w_db w)) as H.
  destruct (transition_order_status now order s (w_db w)) as [[[[] o']|e] d']; simpl.
  - destruct H as [Hl Hrow _ ->]. simpl. split_and!; try done.
    destruct Hrow as (row & _ & _ & Hs). by apply stamped_facts in Hs as (? & _).
  - destruct H as (-> & -> & _). by destruct w.
  - destruct H as [-> _]. done.
Qed.

(** ** Giving an order's seats back *)

Lemma released_exists_live r r2 m ttl :
  r_released r2 !! m = Some (expiry_after r ttl) → r_now r2 < r_now r + ttl * 1000 →
  released_exists r2 m = true.
Proof. intros H Ht. unfold released_exists. rewrite H. unfold live, expiry_after. zlia. Qed.

(** A release that went through has left its marker. *)
Lemma release_marks e u q m ttl r r1 :
  Inventory.release e u q m ttl r = (Ok true, r1) →
  r_released r1 !! m = Some (expiry_after r ttl).
Proof.
  unfold Inventory.release. intros H. destruct (released_exists r m) eqn:He.
  - rewrite release_lua_replay in H by done. done.
  - destruct (release_lua_fresh e u q m ttl r He) as (n & r' & Hl & _ & _ & _ & Hr & _).
    rewrite Hl in H. case_hyp H; simplify_eq; simpl; rewrite Hr; apply lookup_insert_eq.
Qed.

(** Without its hold, releasing a seated order is a no-op. *)
Lemma release_without_hold order z w :
  o_zone order = Some z → d_holds (w_db w) !! o_id order = None →
  release_order_seat order w = (Ok false, w).
Proof.
  intros Hz Hh. unfold release_order_seat. rewrite Hz. unfold bind, transaction, take_hold.
  rewrite Hh. simpl. by destruct w.
Qed.

(** C14 (an order's seats come back at most once).  After a release of the order
    that went through, any later one - the fast path, the relay, a replay, with
    whatever object of the order - does nothing and says [False], as long as
    nobody rewrites the order's marker or hold and the marker is alive. *)
Theorem order_seats_returned_once order order2 w w1 w2 :
  release_order_seat order w = (Ok true, w1) →
  o_id order2 = o_id order → o_zone order2 = o_zone order →
  r_released (w_redis w2) !! order_marker (o_id order) =
    r_released (w_redis w1) !! order_marker (o_id order) →
  r_now (w_redis w2) < r_now (w_redis w) + DEFAULT_TTL_SECONDS * 1000 →
  d_holds (w_db w2) !! o_id order = d_holds (w_db w1) !! o_id order →
  release_order_seat order2 w2 = (Ok false, w2).
Proof.
  intros H Hid Hz Hm Hnow Hh. destruct (o_zone order) as [z|] eqn:Hzone.
  - apply (release_without_hold _ z); [done|]. rewrite Hid, Hh.
    unfold release_order_seat in H. rewrite Hzone in H.
    apply bind_inv_ok in H as (hold & wa & Ht & H). apply transaction_ok in Ht as [Ht _].
    unfold take_hold in Ht. destruct (d_holds (w_db w) !! o_id order) as [h|] eqn:Hhold;
      simplify_eq/=.
    apply (f_equal (w_db ∘ snd)) in H. unfold compose in H. rewrite in_redis_db in H.
    simpl in H. rewrite <-H. destruct wa as [d r]; simpl in *; subst. apply lookup_delete_eq.
  - unfold release_order_seat in *. rewrite Hzone in H. rewrite Hz, Hid.
    unfold in_redis in *. destruct (Inventory.release _ _ _ _ _ (w_redis w)) as [x r] eqn:Hr.
    simplify_eq/=. apply release_marks in Hr. rewrite Hr in Hm.
    unfold Inventory.release. rewrite release_lua_replay; [by destruct w2|].
    by eapply released_exists_live.
Qed.

(** A crash between the two halves is not repaired by a replay.  Once the
    transaction that deletes a seated order's hold has committed and the process
    dies before the Redis script, every later [release_order_seat] for the order
    answers [False] and leaves Redis as it is: the seats and the quota stay taken
    until [rebuild_zone_runs] and [reconcile_inventory]. *)
Theorem half_release_never_repaired order z h w :
  o_zone order = Some z → d_holds (w_db w) !! o_id order = Some h →
  let w1 := (transaction (take_hold (o_id order)) w).2 in
  w_redis w1 = w_redis w ∧ d_holds (w_db w1) !! o_id order = None ∧
  ∀ w2, d_holds (w_db w2) !! o_id order = d_holds (w_db w1) !! o_id order →
        release_order_seat order w2 = (Ok false, w2).
Proof.
  intros Hz Hh w1. assert (Hn : d_holds (w_db w1) !! o_id order = None).
  { unfold w1, transaction, take_hold. rewrite Hh. simpl. apply lookup_delete_eq. }
  split; [apply transaction_redis|]. split; [done|]. intros w2 H2.
  by apply (release_without_hold _ z); [|rewrite H2].
Qed.

(** ** Submitting an order *)

(** The intents in the stream under an idempotency key. *)
Definition intents_of (idem : string) (r : Redis) : list (sid * fields) :=
  filter (λ e, e.2 !! "idempotency_key"%string = Some idem) (s_entries (r_stream r)).

Lemma counter_intent_fields a :
  counter_intent a !! "user_id"%string = Some (z_str (va_user a)) ∧
  counter_intent a !! "event_id"%string = Some (z_str (va_event a)) ∧
  counter_intent a !! "quantity"%string = Some (z_str (va_quantity a)) ∧
  counter_intent a !! "total_price_cents"%string = Some (z_str (va_price a)) ∧
  counter_intent a !! "idempotency_key"%string = Some (va_idem a) ∧
  counter_intent a !! "zone_id"%string =
    Some (match va_zone a with Some z => z_str z | None => EmptyString end) ∧
  counter_intent a !! "block_id"%string = None.
Proof. split_and!; reflexivity. Qed.

Lemma seat_intent_fields a :
  seat_intent a !! "user_id"%string = Some (z_str (ca_user a)) ∧
  seat_intent a !! "event_id"%string = Some (z_str (ca_event a)) ∧
  seat_intent a !! "quantity"%string = Some (z_str (ca_len a)) ∧
  seat_intent a !! "total_price_cents"%string = Some (z_str (ca_price a)) ∧
  seat_intent a !! "idempotency_key"%string = Some (ca_idem a) ∧
  seat_intent a !! "zone_id"%string = Some (z_str (ca_zone a)) ∧
  seat_intent a !! "block_id"%string = Some (z_str (ca_block a)) ∧
  seat_intent a !! "start_pos"%string = Some (z_str (ca_start a)).
Proof. split_and!; reflexivity. Qed.

(** The intent of a purchase: what the worker will read back. *)
Definition intent_for (f : fields) (user event quantity total : Z) (idem : string)
    (zone : option Z) : Prop :=
  f !! "user_id"%string = Some (z_str user) ∧ f !! "event_id"%string = Some (z_str event) ∧
  f !! "quantity"%string = Some (z_str quantity) ∧
  f !! "total_price_cents"%string = Some (z_str total) ∧
  f !! "idempotency_key"%string = Some idem ∧
  f !! "zone_id"%string = Some (match zone with Some z => z_str z | None => EmptyString end) ∧
  (is_Some (f !! "block_id"%string) ↔ is_Some zone).

(** One intent was added under the key, for an event on sale, at the price
    [total_for] computes. *)
Definition enqueued (event : option EventMeta) (now user event_id quantity : Z) (idem : string)
    (zone : option Z) (r : Redis) (i : sid) (r' : Redis) : Prop :=
  ∃ m total f, event = Some m ∧ m_status m = PUBLISHED ∧
    m_sale_starts_at m <= now <= m_sale_ends_at m ∧ total_for m zone quantity = Ok total ∧
    intents_of idem r' = intents_of idem r ++ [(i, f)] ∧
    intent_for f user event_id quantity total idem zone.

(** What a submission may do to the intents under its key. *)
Definition submitted (link : redis_link) (event : option EventMeta)
    (now user event_id quantity : Z) (idem : string) (zone : option Z) (r : Redis)
    (out : result exn ReserveResult * Redis) : Prop :=
  match out with
  | (Err e, r') => intents_of idem r' = intents_of idem r ∨
      link = LostAfter ∧ e = RedisConnectionError ∧
      ∃ i, enqueued event now user event_id quantity idem zone r i r'
  | (Ok res, r') => link = LinkUp ∧
      match rr_outcome res with
      | RO_DUP => intents_of idem r' = intents_of idem r ∧ claim_exists r' idem = true ∧
          ∃ m, event = Some m ∧ m_status m = PUBLISHED ∧
               m_sale_starts_at m <= now <= m_sale_ends_at m
      | RO_OK => ∃ i, rr_stream_id res = Some i ∧
          enqueued event now user event_id quantity idem zone r i r'
      | _ => False
      end
  end.

Lemma intents_of_xadd idem r r1 i f now :
  (i, r_stream r1) = xadd now f (r_stream r) → f !! "idempotency_key"%string = Some idem →
  intents_of idem r1 = intents_of idem r ++ [(i, f)].
Proof.
  unfold xadd, intents_of. intros H Hf. injection H as -> H. rewrite H. simpl.
  rewrite filter_app. f_equal. by rewrite filter_cons_True.
Qed.

Lemma counter_submit a r :
  match reserve_and_enqueue a r with
  | (Err _, _) => False
  | (Ok res, r') =>
      match rr_outcome res with
      | RO_DUP => r' = r ∧ claim_exists r (va_idem a) = true
      | RO_OK => ∃ i, rr_stream_id res = Some i ∧
          intents_of (va_idem a) r' = intents_of (va_idem a) r ++ [(i, counter_intent a)]
      | _ => r' = r
      end
  end.
Proof.
  unfold reserve_and_enqueue. pose proof (reserve_lua_cases a r) as H.
  destruct (reserve_lua a r) as [[|n|h l|i n] r']; simpl; try tauto.
  exists i. split; [done|].
  etrans; [|eapply intents_of_xadd; [apply (ve_stream _ _ _ _ _ H)|apply counter_intent_fields]].
  by destruct (n =? 0).
Qed.

Definition same_intents (idem : string) (r r' : Redis) : Prop :=
  intents_of idem r' = intents_of idem r.

#[global] Instance same_intents_preorder idem : PreOrder (same_intents idem).
Proof. split; [by intros r|]. unfold same_intents. intros r1 r2 r3 H1 H2. by rewrite H2. Qed.

Section submissions.
Context (settings : Settings) (randrange : Z → Z → Z) (others : Z → Redis → Redis).
Context (trace traceparent : string) (now : Z) (event : option EventMeta).
Context (user_id event_id quantity : Z) (idem : string) (zone : option Z).

#[local] Abbreviation submit link := (submit_order settings link randrange others trace traceparent
  now event user_id event_id quantity idem zone).

(** A lost connection lets the refusals that come before the reservation through,
    and changes nothing if nothing was done. *)
Lemma submit_lost_before r : ∃ e, submit LostBefore r = (Err e, r).
Proof.
  unfold submit_order. destruct event as [m|]; [|by eexists].
  destruct (bool_decide _); [by eexists|]. destruct (negb (bool_decide _)); [by eexists|].
  destruct (negb _); [by eexists|]. rewrite bind_lift.
  destruct (total_for m zone quantity); [|by eexists]. destruct (m_venue_id m); [|by eexists].
  destruct zone; by eexists.
Qed.

(** If everything was done, the state is that of an answered submission. *)
Lemma submit_lost_after r :
  ∃ e, submit LostAfter r = (Err e, (submit LinkUp r).2) ∧
       (e = RedisConnectionError ∨ (submit LinkUp r).1 = Err e).
Proof.
  unfold submit_order. destruct event as [m|]; [|eexists; split; [done|by right]].
  destruct (bool_decide _); [eexists; split; [done|by right]|].
  destruct (negb (bool_decide _)); [eexists; split; [done|by right]|].
  destruct (negb _); [eexists; split; [done|by right]|]. rewrite !bind_lift.
  destruct (total_for m zone quantity) as [total|e]; [|eexists; split; [done|by right]].
  destruct (m_venue_id m).
  - destruct zone; [|eexists; split; [done|by right]].
    exists RedisConnectionError. unfold bind, over_link. split; [|by left]. f_equal.
    by destruct (reserve_seats_and_enqueue _ _ _ _ _ _ _ _ _ _ _ _ _ _ _ r) as [[[]|] r'].
  - exists RedisConnectionError. unfold bind, over_link. split; [|by left]. f_equal.
    destruct (reserve_and_enqueue _ r) as [[res|] r']; [|done]. by destruct (rr_outcome res).
Qed.

Hypothesis randrange_range : ∀ k n, 0 < n → 0 <= randrange k n < n.
Hypothesis others_intents : ∀ k r, intents_of idem (others k r) = intents_of idem r.

#[local] Abbreviation result_of link r out :=
  (submitted link event now user_id event_id quantity idem zone r out).

Lemma submit_answered r : result_of LinkUp r (submit LinkUp r).
Proof using randrange_range others_intents.
  unfold submit_order. destruct event as [m|]; [|by left].
  destruct (bool_decide (m_status m = EV_CANCELLED)); [by left|].
  destruct (bool_decide (m_status m = PUBLISHED)) eqn:Hst; [|by left].
  apply bool_decide_eq_true in Hst. cbn [negb].
  destruct ((m_sale_starts_at m <=? now) && _) eqn:Hw; [|by left]. cbn [negb].
  rewrite bind_lift. destruct (total_for m zone quantity) as [total|e] eqn:Ht; [|by left].
  assert (Hwin : m_sale_starts_at m <= now <= m_sale_ends_at m) by zlia.
  destruct (m_venue_id m) as [v|] eqn:Hv.
  - destruct zone as [z|]; [|by left].
    pose proof (loop_outcome settings randrange others event_id z user_id quantity total idem
      DEFAULT_TTL_SECONDS TOP_K (MAX_TICKETS_PER_USER_PER_EVENT settings) trace traceparent
      randrange_range ltac:(done) (same_intents idem) others_intents ltac:(done)) as Hloop.
    unfold over_link, bind at 1, reserve_seats_and_enqueue. unfold bind at 1, is_relaxed, gets.
    match goal with |- context [reserve_loop _ _ _ _ _ _ _ _ _ _ _ _ _ _ ?f ?k ?rel ?eff r] =>
      specialize (Hloop f k rel eff r);
      destruct (reserve_loop _ _ _ _ _ _ _ _ _ _ _ _ _ _ f k rel eff r) as [[[res|]|e] r'] end.
    + destruct Hloop as (a & r1 & i & n & r2 & HR & Hc & <- & <- & <- & <- & _ & <- & <- & -> &
        _ & _ & _ & _ & _ & Hstream).
      apply claim_accepted in Hc. split; [done|]. exists i. split; [done|].
      exists m, (ca_price a), (seat_intent a). split_and!; try done; try lia.
      unfold same_intents in HR. simpl. rewrite <-HR. unfold intents_of at 1. rewrite Hstream.
      by eapply intents_of_xadd; [apply (ce_stream _ _ _ _ _ Hc)|].
    + destruct Hloop as [? ?]. simpl. split_and!; try done. by exists m.
    + left. by destruct Hloop as [? _].
  - assert (zone = None) as Hz.
    { unfold total_for, order_total, unit_price in Ht. rewrite Hv in Ht.
      by destruct (quantity <? 1), zone. }
    rewrite Hz in *. unfold over_link, bind at 1.
    pose proof (counter_submit (mk_reserve_args event_id user_id quantity total idem None
      DEFAULT_TTL_SECONDS (MAX_TICKETS_PER_USER_PER_EVENT settings) trace traceparent) r) as Hc.
    destruct (reserve_and_enqueue _ r) as [[res|e] r']; [|done].
    destruct res as [[] sid av held lim]; simpl in *.
    + destruct Hc as (i & -> & Hi). split; [done|]. exists i. split; [done|].
      eexists m, total, _. split_and!; try done; try lia.
      unfold intent_for. split_and!; try reflexivity. by split; intros [? ?].
    + destruct Hc as [-> ?]. split_and!; try done. by exists m.
    + left. by subst.
    + left. by subst.
Qed.

(** What a submission did, whatever it returned. *)
Lemma submit_order_cases link r : result_of link r (submit link r).
Proof using randrange_range others_intents.
  destruct link; [apply submit_answered| |].
  - destruct (submit_lost_before r) as [e ->]. by left.
  - destruct (submit_lost_after r) as (e & -> & He). pose proof (submit_answered r) as H.
    destruct (submit LinkUp r) as [[res|e'] r']; simpl in *.
    + destruct He as [->|?]; [|done]. destruct H as [_ H].
      destruct (rr_outcome res); try done; [|left; tauto].
      destruct H as (i & _ & Hi). right. eauto.
    + left. by destruct H as [?|(? & _)].
Qed.
End submissions.

(** C20 (a submission enqueues one fully priced intent, or none).  Whatever the
    other clients do meanwhile, short of using the same idempotency key: an
    accepted order is for a published event inside its sale window, and puts
    exactly one intent under its key in the stream, with the buyer, quantity,
    zone and the price [total_for] computed; a duplicate finds the key claimed
    and adds none.  As long as Redis answers, any exception leaves no intent
    behind, and so does every refusal of the domain even if it does not, which is
    what makes handing the admission token back on a [DomainError] safe.  Only
    when the reservation's answer is lost on the way back ([LostAfter]) may an
    exception come with an intent in the stream: then it is Redis's connection
    error, which is no [DomainError], and there is exactly one intent, the one an
    accepted order would have had. *)
Theorem submit_order_one_intent_or_none settings link randrange others trace traceparent now event
    user_id event_id quantity idem zone r :
  (∀ k n, 0 < n → 0 <= randrange k n < n) →
  (∀ k r, intents_of idem (others k r) = intents_of idem r) →
  submitted link event now user_id event_id quantity idem zone r
    (submit_order settings link randrange others trace traceparent now event user_id event_id
       quantity idem zone r).
Proof. intros ??. by apply submit_order_cases. Qed.

(** ** Witnesses *)

Definition demo_order : Order :=
  mk_order 9 5 7 (Some 3) 2 200 PENDING "key" None 0 None None None None.
Definition demo_hold : SeatHold := mk_hold 7 3 1 9 2 2 None.
Definition demo_db : DB :=
  mk_db {[5]} {[7 := priced_event]} {[3 := mk_zone 3 1 "A" 0 1]} {[1 := mk_block 1 3 6 1 1]}
    {[(1, 3) := "4"%string]} {[(7, 3) := 500]} {[9 := demo_order]} 10 {[9 := demo_hold]} ∅ 1 ∅.
Definition demo_world : World := mk_world demo_db empty_redis.
Definition counter_order : Order :=
  mk_order 8 5 7 None 2 200 PENDING "key2" None 0 None None None None.

Lemma demo_db_ok : db_ok demo_db.
Proof.
  split; simpl.
  - intros i o Hi. apply lookup_singleton_Some in Hi as [<- <-]. done.
  - intros i [o Hi]. apply lookup_singleton_Some in Hi as [<- _]. done.
  - intros i j a b Hi Hj. apply lookup_singleton_Some in Hi as [<- _].
    by apply lookup_singleton_Some in Hj as [<- _].
  - intros i h Hi. apply lookup_singleton_Some in Hi as [<- <-]. split_and!; [done..|].
    by exists demo_order.
  - intros i j a b Hi Hj. apply lookup_singleton_Some in Hi as [<- _].
    by apply lookup_singleton_Some in Hj as [<- _].
  - intros i [e Hi]. done.
Qed.

Lemma demo_stamps : stamps_inv demo_db.
Proof. intros i o Hi. simpl in Hi. by apply lookup_singleton_Some in Hi as [_ <-]. Qed.

Lemma order_history_consistent_witness :
  let d := (transition_order_status 50 demo_order PAID demo_db).2 in
  db_ok d ∧ stamps_inv d ∧ moved demo_db d.
Proof.
  cbn zeta. apply order_history_consistent; [apply demo_db_ok|apply demo_stamps|].
  apply rtc_once, hs_transition.
Defined.

Lemma transition_has_one_winner_witness :
  let d := (transition_order_status 50 demo_order PAID demo_db).2 in
  transition_order_status 60 demo_order EXPIRED d = (Ok (false, demo_order), d).
Proof.
  cbn zeta. eapply (transition_has_one_winner 50 demo_order PAID demo_db);
    [vm_compute; reflexivity|reflexivity|done|done|]. unfold legal. simpl. right. by left.
Defined.

Lemma order_seats_returned_once_witness :
  let w1 := (release_order_seat counter_order demo_world).2 in
  release_order_seat counter_order w1 = (Ok false, w1).
Proof.
  cbn zeta. apply (order_seats_returned_once counter_order counter_order demo_world
    (release_order_seat counter_order demo_world).2); [vm_compute; reflexivity|done..].
Defined.

Definition open_meta : EventMeta := mk_meta 7 PUBLISHED 0 1000 (Some 100) None ∅ None None.

(** The answer that was lost: an exception, and the intent is in the stream. *)
Lemma lost_answer_leaves_the_intent :
  let out := submit_order (default_settings "s") LostAfter (λ _ _, 0) (λ _ r, r) "" "" 500
               (Some open_meta) 5 7 2 "key" None (set_available {[7 := 10]} empty_redis) in
  out.1 = Err RedisConnectionError ∧ length (intents_of "key" out.2) = 1%nat ∧
  intents_of "key" (set_available {[7 := 10]} empty_redis) = [].
Proof. by vm_compute. Qed.

Lemma submit_order_one_intent_or_none_witness :
  let out x := submit_order (default_settings "s") x (λ _ _, 0) (λ _ r, r) "" "" 500
                 (Some open_meta) 5 7 2 "key" None (set_available {[7 := 10]} empty_redis) in
  is_ok (out LinkUp).1 = true ∧
  ∀ x, submitted x (Some open_meta) 500 5 7 2 "key" None (set_available {[7 := 10]} empty_redis)
         (out x).
Proof.
  cbn zeta. split; [by vm_compute|]. intros x.
  apply submit_order_one_intent_or_none; [intros; lia|done].
Defined.
