(* ===== verification/Payments.v ===== *)
(** Payments: the deduplication of Stripe events (src/app/crud/stripe_event.py),
    the webhook (src/app/api/v1/webhook.py), the wrapper around the Stripe client
    (src/app/services/stripe_client.py), the sweep of abandoned payments
    (src/app/services/abandoned_payments.py) and the order endpoints that move an
    order (src/app/api/v1/orders.py).

    Stripe itself is a parameter: what a call answers is an argument, what was
    asked of it is a log.  A session reads an order with one statement and moves
    it with a later one; the committed state the read saw is the argument [seen],
    so any number of other transactions may have come between. *)

From S2P Require Import Prelude Exceptions Config Keys Redis DB World Orders.

#[local] Open Scope string_scope.
#[local] Open Scope Z_scope.

(** ** Stripe *)

Inductive PaymentIntentStatus : Type :=
  | Canceled | Processing | Requires_action | Requires_capture | Requires_confirmation
  | Requires_payment_method | Succeeded.
#[global] Instance PaymentIntentStatus_eq_dec : EqDecision PaymentIntentStatus.
Proof. solve_decision. Defined.

Inductive CancellationReason : Type :=
  | Abandoned | Duplicate_charge | Fraudulent | Requested_by_customer.

Inductive stripe_error : Type :=
  | InvalidRequestError (code : string) (carried : option PaymentIntentStatus)
  | OtherStripeError.

Inductive stripe_call : Type :=
  | CreateIntent (amount order_id : Z) (idempotency_key : string)
  | CancelIntent (payment_intent_id : string) (reason : CancellationReason)
  | RetrieveIntent (payment_intent_id : string)
  | CreateRefund (payment_intent_id idempotency_key : string).

(** The answers of the Stripe client's methods. *)
Record StripeApi : Type := mk_stripe {
  create_async : Z → Z → result stripe_error (string * string);
  cancel_async : string → CancellationReason → result stripe_error PaymentIntentStatus;
  retrieve_async : string → result stripe_error PaymentIntentStatus;
  refund_async : string → result stripe_error string;
}.

(** The stores and what was asked of Stripe, oldest first. *)
Record Shop : Type := mk_shop { sh_world : World; sh_calls : list stripe_call }.

Definition on_world {A} (m : M World exn A) : M Shop exn A := λ s,
  let '(x, w) := m (sh_world s) in (x, mk_shop w (sh_calls s)).

Definition ask (c : stripe_call) : M Shop exn unit :=
  modify (λ s, mk_shop (sh_world s) (sh_calls s ++ [c])).

Section stripe.
Context (api : StripeApi).

Definition create_payment_intent (amount order_id : Z)
    : M Shop exn (result stripe_error (string * string)) :=
  ask (CreateIntent amount order_id ("order-" +:+ z_str order_id)) ;;;
  ret (create_async api amount order_id).

Definition create_refund (payment_intent_id : string) : M Shop exn (result stripe_error string) :=
  ask (CreateRefund payment_intent_id ("refund-" +:+ payment_intent_id)) ;;;
  ret (refund_async api payment_intent_id).

(** [cancel_payment_intent]: the status of the intent afterwards. *)
Definition cancel_payment_intent (payment_intent_id : string) (reason : CancellationReason)
    : M Shop exn (result stripe_error PaymentIntentStatus) :=
  ask (CancelIntent payment_intent_id reason) ;;;
  match cancel_async api payment_intent_id reason with
  | Ok status => ret (Ok status)
  | Err (InvalidRequestError code carried) =>
      if negb (bool_decide (code = "payment_intent_unexpected_state"))
      then ret (Err (InvalidRequestError code carried))
      else match carried with
           | Some status => ret (Ok status)
           | None =>
               ask (RetrieveIntent payment_intent_id) ;;;
               ret (retrieve_async api payment_intent_id)
           end
  | Err OtherStripeError => ret (Err OtherStripeError)
  end.
End stripe.

(** ** Deduplication *)

(** [INSERT ... ON CONFLICT DO NOTHING]; [true]: this transaction wrote the row. *)
Definition claim_event (event_id event_type : string) (tx_now : Z) : M DB exn bool := λ d,
  match d_stripe d !! event_id with
  | Some _ => (Ok false, d)
  | None => (Ok true, set_stripe (<[event_id := (event_type, tx_now)]> (d_stripe d)) d)
  end.

Definition cutoff_for (retention_days now : Z) : Z := now - retention_days * 86400000.

Definition purge_events_older_than (cutoff : Z) : M DB exn Z := λ d,
  let kept := filter (λ '(_, (_, received_at)), cutoff <= received_at) (d_stripe d) in
  (Ok (Z.of_nat (size (d_stripe d) - size kept)%nat), set_stripe kept d).

(** ** The webhook *)

Record Intent : Type := mk_intent {
  in_id : string;
  in_metadata_order_id : option string;   (* metadata.order_id, when there *)
  in_amount_received : option Z;
  in_amount : option Z;
}.

Record StripeEvent : Type := mk_stripe_event {
  se_id : string; se_type : string; se_intent : Intent;
}.

(** Why a charge cannot be kept; the code builds a sentence from it. *)
Inductive refund_reason : Type :=
  | AmountMismatch (captured : option Z) (total : Z)
  | OrderIs (status : OrderStatus)
  | LeftPending.

Record RefundNeeded : Type := mk_refund_needed {
  rn_payment_intent_id : string; rn_reason : refund_reason;
}.

(** [_order_id] *)
Definition order_id_of (i : Intent) : option Z :=
  match in_metadata_order_id i with Some s => z_parse s | None => None end.

(** [intent.get("amount_received") or intent.get("amount")] *)
Definition captured (i : Intent) : option Z :=
  match in_amount_received i with
  | Some n => if n =? 0 then in_amount i else Some n
  | None => in_amount i
  end.

(** The clocks a handler reads: the process's at each transition, the database's. *)
Record clocks : Type := mk_clocks { now_paid : Z; now_confirmed : Z; now_expired : Z; now_tx : Z }.

Section webhook.
Context (api : StripeApi).
Context (settings : Settings).
(* [stripe.Webhook.construct_event]; [None]: SignatureVerificationError *)
Context (construct_event : string → string → string → option StripeEvent).
Context (t : clocks).

(** [_handle_payment_succeeded] *)
Definition handle_payment_succeeded (seen : DB) (i : Intent) : M DB exn (option RefundNeeded) :=
  match order_id_of i with
  | None => ret None
  | Some order_id =>
      match d_orders seen !! order_id with
      | None => ret None
      | Some order =>
          if negb (bool_decide (captured i = Some (o_total order)))
          then ret (Some (mk_refund_needed (in_id i) (AmountMismatch (captured i) (o_total order))))
          else if bool_decide (o_status order ∈ [PAID; CONFIRMED]) then ret None
          else if negb (bool_decide (o_status order = PENDING))
          then ret (Some (mk_refund_needed (in_id i) (OrderIs (o_status order))))
          else
            let! paid := mark_paid (now_paid t) order in
            if negb paid.1 then ret (Some (mk_refund_needed (in_id i) LeftPending))
            else mark_confirmed (now_confirmed t) (now_tx t) paid.2 ;;; ret None
      end
  end.

(** [_handle_payment_aborted] *)
Definition handle_payment_aborted (seen : DB) (i : Intent) : M DB exn (option Order) :=
  match order_id_of i with
  | None => ret None
  | Some order_id =>
      match d_orders seen !! order_id with
      | None => ret None
      | Some order =>
          if negb (bool_decide (o_status order = PENDING)) then ret None
          else
            let! res := expire_order (now_expired t) (now_tx t) order in
            if negb res.1 then ret None else ret (Some res.2)
      end
  end.

Inductive decision : Type :=
  | Duplicate
  | Decided (refund : option RefundNeeded) (release : option Order).

(** Everything up to [db.commit()]. *)
Definition webhook_tx (seen : DB) (ev : StripeEvent) : M DB exn decision :=
  let! fresh := claim_event (se_id ev) (se_type ev) (now_tx t) in
  if negb fresh then ret Duplicate
  else if bool_decide (se_type ev = "payment_intent.succeeded") then
    let! refund := handle_payment_succeeded seen (se_intent ev) in ret (Decided refund None)
  else if bool_decide (se_type ev = "payment_intent.payment_failed") then
    ret (Decided None None)      (* logged only: the attempt can be retried *)
  else if bool_decide (se_type ev = "payment_intent.canceled") then
    let! release := handle_payment_aborted seen (se_intent ev) in ret (Decided None release)
  else ret (Decided None None).

(** What follows the commit; both are best effort. *)
Definition webhook_after (refund : option RefundNeeded) (release : option Order) : M Shop exn unit :=
  (match release with
   | Some order => try_catch (on_world (release_order_seat order) ;;; ret tt) (λ _, ret tt)
   | None => ret tt
   end) ;;;
  match refund with
  | Some r => create_refund api (rn_payment_intent_id r) ;;; ret tt
  | None => ret tt
  end.

Definition stripe_webhook (seen : DB) (payload signature : string) : M Shop exn unit :=
  match construct_event payload signature (STRIPE_WEBHOOK_SECRET settings) with
  | None => raise (HTTPException 400 "Invalid signature")
  | Some ev =>
      let! dec := on_world (transaction (webhook_tx seen ev)) in
      match dec with
      | Duplicate => ret tt
      | Decided refund release => webhook_after refund release
      end
  end.
End webhook.

(** ** Abandoned payments *)

Definition ABANDON_BATCH : nat := 200.

Record AbandonedPaymentSweep : Type := mk_sweep {
  sw_expired : Z; sw_awaiting_webhook : Z; sw_in_flight : Z; sw_missing : Z; sw_errors : Z;
  sw_capped : bool;
}.

(** How one order of the sweep ended; [Raced] counts nowhere. *)
Inductive settled : Type :=
  | Expired | AwaitingWebhook | InFlight | Missing | Errored | Raced.

Definition count_settled (s : settled) (w : AbandonedPaymentSweep) : AbandonedPaymentSweep :=
  let '(mk_sweep e a f m r c) := w in
  match s with
  | Expired => mk_sweep (e + 1) a f m r c
  | AwaitingWebhook => mk_sweep e (a + 1) f m r c
  | InFlight => mk_sweep e a (f + 1) m r c
  | Missing => mk_sweep e a f (m + 1) r c
  | Errored => mk_sweep e a f m (r + 1) c
  | Raced => w
  end.

(** The rows of the query: the oldest first, one more than the batch. *)
Definition paying (cutoff : Z) (o : Order) : bool :=
  bool_decide (o_status o = PENDING) && bool_decide (is_Some (o_payment o)) &&
  (o_created o <? cutoff).

Definition older (a b : Order) : bool := o_created a <=? o_created b.

Definition abandoned_rows (d : DB) (cutoff : Z) (batch : nat) : list Order :=
  take (S batch) (isort older (filter (λ o, paying cutoff o = true) (map_to_list (d_orders d)).*2)).

Section sweep.
Context (api : StripeApi) (t : clocks).
(* the committed state in which each order was read again *)
Context (seen : Z → DB).

(** The local transaction: [None] when the order was no longer ours to expire. *)
Definition settle_tx (order_id : Z) : M DB exn (option Order) :=
  match d_orders (seen order_id) !! order_id with
  | None => ret None
  | Some order =>
      if negb (bool_decide (o_status order = PENDING)) then ret None
      else
        let! res := expire_order (now_expired t) (now_tx t) order in
        if negb res.1 then ret None else ret (Some res.2)
  end.

(** [_settle_one] *)
Definition settle_one (order_id : Z) (intent_id : string) : M Shop exn settled :=
  let! status := cancel_payment_intent api intent_id Abandoned in
  match status with
  | Err (InvalidRequestError code _) =>
      if bool_decide (code = "resource_missing") then ret Missing else ret Errored
  | Err OtherStripeError => ret Errored
  | Ok status =>
      if bool_decide (status = Succeeded) then ret AwaitingWebhook
      else if negb (bool_decide (status = Canceled)) then ret InFlight
      else
        let! done := try_catch (let! o := on_world (transaction (settle_tx order_id)) in
                                ret (Some o)) (λ _, ret None) in
        match done with
        | None => ret Errored                  (* rolled back *)
        | Some None => ret Raced
        | Some (Some order) =>
            try_catch (on_world (release_order_seat order) ;;; ret tt) (λ _, ret tt) ;;;
            ret Expired
        end
  end.

Fixpoint settle_all (rows : list Order) (w : AbandonedPaymentSweep)
    : M Shop exn AbandonedPaymentSweep :=
  match rows with
  | [] => ret w
  | o :: rows' =>
      let! s := settle_one (o_id o) (default EmptyString (o_payment o)) in
      settle_all rows' (count_settled s w)
  end.

(** [expire_abandoned_payments]; [gather] runs the orders one after another here,
    each against whatever [seen] state the others have left. *)
Definition expire_abandoned_payments (cutoff : Z) (batch : nat) : M Shop exn AbandonedPaymentSweep :=
  let! s := get in
  let rows := abandoned_rows (w_db (sh_world s)) cutoff batch in
  settle_all (take batch rows) (mk_sweep 0 0 0 0 0 (Nat.ltb batch (length rows))).
End sweep.

(** ** The order endpoints *)

Section endpoints.
Context (api : StripeApi) (settings : Settings) (t : clocks).
Context (seen : DB) (current_user : Z).

(** [get_order_by_id] and the ownership check every endpoint starts with. *)
Definition own_order (order_id : Z) : result exn Order :=
  match d_orders seen !! order_id with
  | None => Err (Domain (OrderNotFound order_id))
  | Some order =>
      if negb (o_user order =? current_user) then Err (Domain (OrderNotFound order_id))
      else Ok order
  end.

(** [await db.refresh(order)]: the status the 409 names. *)
Definition refreshed (order : Order) : M DB exn OrderStatus :=
  gets (λ d, match d_orders d !! o_id order with
             | Some row => o_status row | None => o_status order end).

(** [pay_order], the mock payment. *)
Definition pay_order (order_id : Z) : M World exn unit :=
  if negb (ENABLE_MOCK_PAYMENT settings) then raise (HTTPException 404 "Not Found")
  else transaction (
    let! order := lift (own_order order_id) in
    let! paid := mark_paid (now_paid t) order in
    if negb paid.1 then
      let! st := refreshed order in
      raise (Domain (InvalidOrderTransition order_id (status_str st) "paid"))
    else mark_confirmed (now_confirmed t) (now_tx t) paid.2 ;;; ret tt).

(** The [cancel_order] endpoint and [_void_payment_intent]. *)
Definition void_payment_intent (order : Order) : M Shop exn unit :=
  match o_payment order with
  | None => ret tt
  | Some intent_id =>
      cancel_payment_intent api intent_id Requested_by_customer ;;; ret tt
  end.

Definition cancel_endpoint (order_id : Z) : M Shop exn unit :=
  let! cancelled := on_world (transaction (
    let! order := lift (own_order order_id) in
    let! res := cancel_order (now_expired t) (now_tx t) order in
    if negb res.1 then
      let! st := refreshed order in
      raise (Domain (InvalidOrderTransition order_id (status_str st) "cancelled"))
    else ret res.2)) in
  try_catch (on_world (release_order_seat cancelled) ;;; ret tt) (λ _, ret tt) ;;;
  void_payment_intent cancelled.

(** [order.payment_provider_id = ...]: an UPDATE by primary key alone. *)
Definition set_payment (order_id : Z) (intent_id : string) : M DB exn unit :=
  modify (λ d,
    match d_orders d !! order_id with
    | None => d
    | Some o => set_orders (<[order_id := mk_order (o_id o) (o_user o) (o_event o) (o_zone o)
        (o_quantity o) (o_total o) (o_status o) (o_idem o) (Some intent_id) (o_created o)
        (o_paid_at o) (o_confirmed_at o) (o_expired_at o) (o_cancelled_at o)]> (d_orders d)) d
    end).

(** [create_order_payment_intent] *)
Definition payment_intent_endpoint (order_id : Z) : M Shop exn (string * string) :=
  let! order := lift (own_order order_id) in
  if negb (bool_decide (o_status order = PENDING)) then
    raise (Domain (InvalidOrderTransition order_id (status_str (o_status order)) "paying"))
  else
    let! intent := create_payment_intent api (o_total order) (o_id order) in
    match intent with
    | Err _ => raise StripeError
    | Ok i => on_world (transaction (set_payment order_id i.1)) ;;; ret i
    end.

(** [get_order_status]: what a polling client is told. *)
Inductive poll_state : Type := READY (order : Order) | PROCESSING | FAILED.

Definition get_order_status (idempotency_key : string) : M World exn poll_state := λ w,
  let order := order_by_key seen idempotency_key in
  let missing := (Err (HTTPException 404 "No order for this key"), w) in
  match order with
  | Some o => if o_user o =? current_user then (Ok (READY o), w) else missing
  | None =>
      let claim := claim_state (w_redis w) idempotency_key in
      if bool_decide (claim = Some "PENDING") then (Ok PROCESSING, w)
      else if bool_decide (claim = Some "FAILED") then (Ok FAILED, w)
      else missing
  end.
End endpoints.

(** ** Transitions that must succeed *)

(** With consistent stamps only a clock running backwards is refused. *)
Lemma stamped_valid s now o :
  stamps_ok o → order_violation o = None → legal (o_status o) s →
  (∀ p, s = CONFIRMED → o_paid_at o = Some p → p <= now) →
  ∃ o', stamped s now o = Ok o' ∧ order_violation o' = None.
Proof.
  unfold legal, stamps_ok, order_violation. intros Ho Hv Hl Hp.
  destruct (negb (0 <? o_quantity o)) eqn:Hq; [done|].
  destruct (negb (0 <=? o_total o)) eqn:Ht; [done|].
  destruct (o_status o) eqn:Hs; simpl in Hl; rewrite ?elem_of_cons, ?elem_of_nil in Hl;
    destruct_or?; subst; try done; eexists; (split; [reflexivity|]); simpl; rewrite Hq, Ht; simpl;
    repeat match goal with H : _ ∧ _ |- _ => destruct H end;
    repeat match goal with H : is_Some _ |- _ => destruct H end;
    repeat match goal with H : _ = None |- _ => rewrite ?H; clear H end;
    repeat match goal with H : _ = Some _ |- _ => rewrite H end; simpl; try done.
  destruct (now <? _) eqn:Hlt; [|done]. zbool.
  specialize (Hp _ eq_refl ltac:(eassumption)). lia.
Qed.

Lemma transition_applies now order s d row :
  db_ok d → stamps_inv d → d_orders d !! o_id order = Some row →
  o_status row = o_status order → legal (o_status order) s →
  (∀ p, s = CONFIRMED → o_paid_at row = Some p → p <= now) →
  ∃ o', transition_order_status now order s d = (Ok (true, o'), set_orders (<[o_id order := o']> (d_orders d)) d)
        ∧ applied now order s d o' (set_orders (<[o_id order := o']> (d_orders d)) d).
Proof.
  intros Hd Hs Hrow Hst Hl Hp.
  destruct (stamped_valid s now row) as (o' & Ho' & Hv);
    [by eapply Hs|by eapply (ok_order_checks _ Hd)|by rewrite Hst|done|].
  exists o'. unfold transition_order_status.
  rewrite bool_decide_eq_false_2 by (by intros ?). rewrite Hrow.
  rewrite bool_decide_eq_true_2 by done. simpl. rewrite Ho', Hv.
  split; [done|]. split; [done|by exists row|done|done].
Qed.

(** What a confirmation does to the hold. *)
Definition frozen (o : Order) (tx_now : Z) (d : DB) : DB :=
  match o_zone o with Some _ => freeze_hold (o_id o) tx_now d | None => d end.

Lemma frozen_orders o tx d : d_orders (frozen o tx d) = d_orders d ∧ d_outbox (frozen o tx d) = d_outbox d.
Proof.
  unfold frozen, freeze_hold. destruct (o_zone o); [|done].
  destruct (d_holds d !! _); [|done]. by destruct (hd_confirmed_at _).
Qed.

Lemma mark_confirmed_applied now tx order d o' d' :
  transition_order_status now order CONFIRMED d = (Ok (true, o'), d') →
  mark_confirmed now tx order d = (Ok (true, o'), frozen o' tx d').
Proof.
  intros H. unfold mark_confirmed, bind. rewrite H. simpl. unfold frozen.
  by destruct (o_zone o').
Qed.

(** PENDING, PAID, CONFIRMED in one transaction. *)
Lemma paid_then_confirmed t order d row :
  db_ok d → stamps_inv d → d_orders d !! o_id order = Some row →
  o_status row = PENDING → o_status order = PENDING → now_paid t <= now_confirmed t →
  ∃ o1 d1 o2 d2, mark_paid (now_paid t) order d = (Ok (true, o1), d1) ∧
    mark_confirmed (now_confirmed t) (now_tx t) o1 d1 = (Ok (true, o2), frozen o2 (now_tx t) d2) ∧
    d2 = set_orders (<[o_id order := o2]> (d_orders d)) d ∧ o_status o2 = CONFIRMED ∧
    same_purchase row o2.
Proof.
  intros Hd Hs Hrow Hst Hso Ht. unfold mark_paid.
  destruct (transition_applies (now_paid t) order PAID d row) as (o1 & H1 & Ha1);
    [done|done|done|congruence|rewrite Hso; unfold legal; simpl; left|done|].
  exists o1, (set_orders (<[o_id order := o1]> (d_orders d)) d).
  destruct (ap_row _ _ _ _ _ _ Ha1) as (row' & Hr' & _ & Hstamp).
  assert (row' = row) as -> by congruence.
  pose proof (stamped_facts _ _ _ _ Hstamp) as (Hst1 & Hp1 & _).
  assert (Hid : o_id o1 = o_id order)
    by (destruct Hp1 as [-> _]; by apply (ok_order_checks _ Hd)).
  set (d1 := set_orders _ d) in *.
  assert (Hd1 : db_ok d1) by (by eapply applied_ok).
  assert (Hs1 : stamps_inv d1).
  { pose proof (hs_transition (now_paid t) order PAID d) as Hh. rewrite H1 in Hh.
    by apply history_step_inv in Hh as (_ & ? & _). }
  assert (Hrow1 : d_orders d1 !! o_id o1 = Some o1) by (rewrite Hid; apply lookup_insert_eq).
  assert (Hpaid : o_paid_at o1 = Some (now_paid t)) by (simpl in Hstamp; by simplify_eq/=).
  destruct (transition_applies (now_confirmed t) o1 CONFIRMED d1 o1) as (o2 & H2 & Ha2);
    [done|done|done|done|rewrite Hst1; unfold legal; simpl; left|intros p _ ?; simplify_eq; lia|].
  destruct (ap_row _ _ _ _ _ _ Ha2) as (row2 & Hr2 & _ & Hstamp2).
  assert (row2 = o1) as -> by congruence.
  pose proof (stamped_facts _ _ _ _ Hstamp2) as (Hst2 & Hp2 & _).
  eexists o2, _. split; [done|]. split; [by apply mark_confirmed_applied|].
  split_and!; [|done|by etrans].
  rewrite Hid. unfold d1. simpl. by rewrite insert_insert_eq.
Qed.

(** ** A charge *)

(** The order a charge was kept for: confirmed, with its seats frozen. *)
Definition charge_kept (t : clocks) (i : Intent) (d d' : DB) : Prop :=
  ∃ order_id row o, order_id_of i = Some order_id ∧ d_orders d !! order_id = Some row ∧
    o_status row = PENDING ∧ captured i = Some (o_total row) ∧
    o_status o = CONFIRMED ∧ same_purchase row o ∧
    d' = frozen o (now_tx t) (set_orders (<[order_id := o]> (d_orders d)) d).

(** Why a charge is sent back; [LeftPending] is the lost race. *)
Definition refund_due (seen : DB) (i : Intent) (d : DB) (r : RefundNeeded) : Prop :=
  rn_payment_intent_id r = in_id i ∧
  ∃ order_id o, order_id_of i = Some order_id ∧ d_orders seen !! order_id = Some o ∧
    match rn_reason r with
    | AmountMismatch c n => c = captured i ∧ n = o_total o ∧ c ≠ Some n
    | OrderIs s => s = o_status o ∧ (s = EXPIRED ∨ s = CANCELLED)
    | LeftPending => o_status o = PENDING ∧
        ∃ row, d_orders d !! order_id = Some row ∧ o_status row ≠ PENDING
    end.

(** Nothing to do: no such order, or it is paid for already. *)
Definition nothing_due (seen : DB) (i : Intent) : Prop :=
  ∀ order_id o, order_id_of i = Some order_id → d_orders seen !! order_id = Some o →
    (o_status o = PAID ∨ o_status o = CONFIRMED) ∧ captured i = Some (o_total o).

(** C6 (a charge is kept with a confirmed order or sent back).  When the session
    read the order in any earlier committed state, a succeeded charge either
    confirms its PENDING order, for exactly the order's amount, and freezes the
    order's seats in the same transaction; or is sent back, touching nothing,
    because the amount is wrong, the order is over, or the order left PENDING
    meanwhile; or finds nothing to do.  It never raises, the clock not stepping back
    between its two stamps, and never confirms an order it asks to refund. *)
Theorem charge_kept_or_refunded t seen i d :
  db_ok d → stamps_inv d → db_ok seen → moved seen d → now_paid t <= now_confirmed t →
  match handle_payment_succeeded t seen i d with
  | (Err _, _) => False
  | (Ok (Some r), d') => d' = d ∧ refund_due seen i d r
  | (Ok None, d') => d' = d ∧ nothing_due seen i ∨ charge_kept t i d d'
  end.
Proof.
  intros Hd Hs Hsn Hm Ht. unfold handle_payment_succeeded.
  destruct (order_id_of i) as [oid|] eqn:Hoid; [|left; split; [done|]; intros ?? H; congruence].
  destruct (d_orders seen !! oid) as [order|] eqn:Hseen;
    [|left; split; [done|]; intros ?? H1 H2; congruence].
  destruct (negb _) eqn:Hcap.
  { split; [done|]. split; [done|]. exists oid, order. split_and!; try done.
    apply negb_true_iff, bool_decide_eq_false in Hcap. done. }
  apply negb_false_iff, bool_decide_eq_true in Hcap.
  destruct (bool_decide _) eqn:Hpaid.
  { left. split; [done|]. intros ?? H1 H2. simplify_eq. split; [|done].
    apply bool_decide_eq_true in Hpaid. rewrite !elem_of_cons, elem_of_nil in Hpaid. tauto. }
  apply bool_decide_eq_false in Hpaid. rewrite !elem_of_cons, elem_of_nil in Hpaid.
  destruct (negb _) eqn:Hpend.
  { apply negb_true_iff, bool_decide_eq_false in Hpend. split; [done|]. split; [done|].
    exists oid, order. simpl. split_and!; try done.
    destruct (o_status order); try done; [destruct Hpaid; auto|destruct Hpaid; auto|by left|by right]. }
  apply negb_false_iff, bool_decide_eq_true in Hpend.
  destruct (Hm oid order Hseen) as (row & Hrow & _ & Hsame).
  destruct (ok_order_checks _ Hsn _ _ Hseen) as [Hid _].
  assert (Htot : o_total row = o_total order) by (by destruct Hsame as (_ & _ & _ & _ & _ & ? & _)).
  destruct (decide (o_status row = PENDING)) as [Hr|Hr].
  - destruct (paid_then_confirmed t order d row) as (o1 & d1 & o2 & d2 & H1 & H2 & -> & Hc & Hp);
      [done|done|by rewrite Hid|done|done|done|].
    unfold bind. rewrite H1. cbn [fst snd negb]. rewrite H2. simpl. right.
    exists oid, row, o2. split_and!; try done; [by rewrite Htot|by rewrite Hid].
  - unfold bind, mark_paid, transition_order_status. rewrite Hpend, Hid, Hrow.
    rewrite bool_decide_eq_false_2 by (intros Hno; apply Hno; left).
    rewrite bool_decide_eq_false_2 by done. simpl. split; [done|]. split; [done|].
    exists oid, order. simpl. eauto 10.
Qed.

(** The event table has the event's row. *)
Definition event_claimed (ev : StripeEvent) (d : DB) : Prop :=
  is_Some (d_stripe d !! se_id ev).

(** No handler touches the event table. *)
Section stripe_kept.
Context (st : gmap string (string * Z)).
Definition stripe_is (d : DB) : Prop := d_stripe d = st.

Lemma keeps_transition now order s : keeps stripe_is (transition_order_status now order s).
Proof.
  intros d Hd. unfold transition_order_status. case_goal; simpl; try done; exact Hd.
Qed.
Lemma keeps_freeze i now : keeps stripe_is (modify (E:=exn) (freeze_hold i now)).
Proof. apply keeps_modify. intros d Hd. unfold freeze_hold. case_goal; done. Qed.
Lemma keeps_outbox ty i now : keeps stripe_is (insert_outbox ty i now).
Proof. by intros d Hd. Qed.

#[local] Hint Resolve keeps_transition keeps_freeze keeps_outbox : prog.

Lemma keeps_succeeded t seen i : keeps stripe_is (handle_payment_succeeded t seen i).
Proof.
  unfold handle_payment_succeeded, mark_paid, mark_confirmed. case_goal; auto with prog.
  apply keeps_bind; [auto with prog|]. intros [[] ord]; simpl; [|auto with prog].
  apply keeps_bind; [|auto with prog]. apply keeps_bind; [auto with prog|].
  intros [[] ord2]; simpl; [|auto with prog]. destruct (o_zone ord2); auto with prog.
Qed.

Lemma keeps_aborted t seen i : keeps stripe_is (handle_payment_aborted t seen i).
Proof.
  unfold handle_payment_aborted, expire_order, transition_owing_release. case_goal; auto with prog.
  apply keeps_bind; [|intros [[] ?]; simpl; auto with prog].
  apply keeps_bind; [auto with prog|]. intros [[] ?]; simpl; auto with prog.
Qed.
End stripe_kept.

(** The transaction records the event whenever it succeeds. *)
Lemma webhook_tx_records t seen ev d dec d' :
  webhook_tx t seen ev d = (Ok dec, d') → event_claimed ev d'.
Proof.
  unfold webhook_tx, bind at 1, claim_event, event_claimed.
  destruct (d_stripe d !! se_id ev) as [x|] eqn:He; simpl.
  { unfold ret. intros H. simplify_eq. by eexists. }
  set (st := <[se_id ev := _]> (d_stripe d)). intros H.
  assert (Hst : stripe_is st d').
  { revert H. unfold stripe_is, ret. case_goal; intros H.
    - pose proof (keeps_succeeded st t seen (se_intent ev) (set_stripe st d) eq_refl) as Hk.
      unfold bind, ret in H. destruct (handle_payment_succeeded _ _ _ _) as [[]]; by simplify_eq/=.
    - by simplify_eq/=.
    - pose proof (keeps_aborted st t seen (se_intent ev) (set_stripe st d) eq_refl) as Hk.
      unfold bind, ret in H. destruct (handle_payment_aborted _ _ _ _) as [[]]; by simplify_eq/=.
    - by simplify_eq/=. }
  unfold stripe_is in Hst. rewrite Hst. unfold st. rewrite lookup_insert_eq. by eexists.
Qed.

(** What follows the commit neither fails nor touches the event table. *)
Lemma webhook_after_ok api refund release s :
  ∃ s', webhook_after api refund release s = (Ok tt, s') ∧
        d_stripe (w_db (sh_world s')) = d_stripe (w_db (sh_world s)).
Proof.
  assert (Hrel : ∀ o w, d_stripe (w_db (release_order_seat o w).2) = d_stripe (w_db w)).
  { intros o w. unfold release_order_seat, bind, transaction, take_hold, in_redis, ret.
    destruct (o_zone o); [|by destruct (Inventory.release _ _ _ _ _ _)].
    destruct (d_holds (w_db w) !! o_id o); simpl; [|done].
    by destruct (give_back _ _ _ _). }
  unfold webhook_after, bind, try_catch, on_world, create_refund, ask, modify, ret.
  destruct release as [o|]; simpl; [|by destruct refund; eexists].
  specialize (Hrel o (sh_world s)). destruct (release_order_seat o _) as [[b|e] w]; simpl in *;
    by destruct refund; eexists.
Qed.

(** C19 (an event takes effect at most once, and a failure can be retried).  When
    the webhook fails, no table, no Redis key changed and Stripe was asked
    nothing, so the redelivery is treated as new; when it succeeds the event is
    recorded, and however the state evolves, as long as the record stays, every
    redelivery of the event is a no-op. *)
Theorem webhook_takes_effect_once api settings construct_event t seen payload signature s ev :
  construct_event payload signature (STRIPE_WEBHOOK_SECRET settings) = Some ev →
  match stripe_webhook api settings construct_event t seen payload signature s with
  | (Err _, s') => same_tables (w_db (sh_world s)) (w_db (sh_world s')) ∧
      w_redis (sh_world s') = w_redis (sh_world s) ∧ sh_calls s' = sh_calls s
  | (Ok _, s') => event_claimed ev (w_db (sh_world s')) ∧
      ∀ t2 seen2 payload2 signature2 s2 ev2,
        construct_event payload2 signature2 (STRIPE_WEBHOOK_SECRET settings) = Some ev2 →
        se_id ev2 = se_id ev → event_claimed ev (w_db (sh_world s2)) →
        stripe_webhook api settings construct_event t2 seen2 payload2 signature2 s2 = (Ok tt, s2)
  end.
Proof.
  intros Hev. unfold stripe_webhook at 1. rewrite Hev. unfold bind, on_world, transaction.
  destruct (webhook_tx t seen ev (w_db (sh_world s))) as [[dec|e] d] eqn:Htx; simpl; [|done].
  apply webhook_tx_records in Htx.
  assert (Hagain : ∀ t2 seen2 payload2 signature2 s2 ev2,
    construct_event payload2 signature2 (STRIPE_WEBHOOK_SECRET settings) = Some ev2 →
    se_id ev2 = se_id ev → event_claimed ev (w_db (sh_world s2)) →
    stripe_webhook api settings construct_event t2 seen2 payload2 signature2 s2 = (Ok tt, s2)).
  { intros t2 seen2 p2 sg2 s2 ev2 H2 Hid [x Hx]. unfold stripe_webhook. rewrite H2.
    unfold bind, on_world, transaction, webhook_tx, bind, claim_event. rewrite Hid, Hx. simpl.
    by destruct s2 as [[]]. }
  destruct dec as [|refund release]; simpl; [done|].
  destruct (webhook_after_ok api refund release (mk_shop (mk_world d (w_redis (sh_world s)))
    (sh_calls s))) as (s' & -> & Hs'). simpl in Hs'.
  split; [|done]. unfold event_claimed. by rewrite Hs'.
Qed.

(** ** The second payment timeout *)

Lemma release_keeps_orders o w :
  d_orders (w_db (release_order_seat o w).2) = d_orders (w_db w) ∧
  d_outbox (w_db (release_order_seat o w).2) = d_outbox (w_db w).
Proof.
  unfold release_order_seat, bind, transaction, take_hold, in_redis, ret.
  destruct (o_zone o); [|by destruct (Inventory.release _ _ _ _ _ _)].
  destruct (d_holds (w_db w) !! o_id o); simpl; [|done].
  by destruct (give_back _ _ _ _).
Qed.

Lemma cancel_asks api i reason s :
  ∃ x s', cancel_payment_intent api i reason s = (Ok x, s') ∧ sh_world s' = sh_world s.
Proof.
  unfold cancel_payment_intent, bind, ask, modify, ret. simpl.
  destruct (cancel_async api i reason) as [st|[code c|]]; [by eauto| |by eauto].
  destruct (negb _); [by eauto|]. destruct c; by eauto.
Qed.

(** The order of the row that was expired, and the release it owes. *)
Definition expired_with_debt (order_id : Z) (d d' : DB) : Prop :=
  ∃ row o, d_orders d !! order_id = Some row ∧ o_status row = PENDING ∧ o_status o = EXPIRED ∧
    same_purchase row o ∧ d_orders d' = <[order_id := o]> (d_orders d) ∧
    ∃ n tx, d_outbox d' = <[n := mk_outbox n SEAT_RELEASE order_id 0 tx None]> (d_outbox d).

Lemma expire_transaction now tx order s w :
  match transaction (transition_owing_release now tx order s) w with
  | (Ok (true, o'), w') => ∃ row, d_orders (w_db w) !! o_id order = Some row ∧
      o_status row = o_status order ∧ stamped s now row = Ok o' ∧
      d_orders (w_db w') = <[o_id order := o']> (d_orders (w_db w)) ∧
      d_outbox (w_db w') = <[d_next_outbox (w_db w) :=
        mk_outbox (d_next_outbox (w_db w)) SEAT_RELEASE (o_id o') 0 tx None]> (d_outbox (w_db w))
  | (Ok (false, o'), w') => w' = w
  | (Err _, w') => same_tables (w_db w) (w_db w') ∧ w_redis w' = w_redis w
  end.
Proof.
  unfold transaction, transition_owing_release, bind.
  pose proof (transition_cases now order s (w_db w)) as H.
  destruct (transition_order_status now order s (w_db w)) as [[[[] o']|e] d']; simpl.
  - destruct H as [_ (row & Hr & Hst & Hs) _ ->]. by exists row.
  - destruct H as (-> & _). by destruct w.
  - by destruct H as [-> _].
Qed.

Lemma settle_tx_cases t seen order_id w :
  db_ok (seen order_id) → db_ok (w_db w) →
  match transaction (settle_tx t seen order_id) w with
  | (Ok (Some o), w') => o_id o = order_id ∧ expired_with_debt order_id (w_db w) (w_db w')
  | (Ok None, w') => w' = w
  | (Err _, w') => same_tables (w_db w) (w_db w') ∧ w_redis w' = w_redis w
  end.
Proof.
  intros Hseen Hw. unfold settle_tx.
  destruct (d_orders (seen order_id) !! order_id) as [order|] eqn:Ho; [|by destruct w].
  destruct (negb _) eqn:Hp; [by destruct w|]. apply negb_false_iff, bool_decide_eq_true in Hp.
  destruct (ok_order_checks _ Hseen _ _ Ho) as [Hid _].
  pose proof (expire_transaction (now_expired t) (now_tx t) order EXPIRED w) as H.
  unfold expire_order. revert H. unfold transaction, bind.
  destruct (transition_owing_release _ _ _ _ (w_db w)) as [[[[] o']|e] d'];
    cbn [fst snd negb]; [|by destruct w|done].
  intros (row & Hrow & Hst & Hs & Hor & Hob). apply stamped_facts in Hs as (Hx & Hsame & _).
  destruct (ok_order_checks _ Hw _ _ Hrow) as [Hid' _]. rewrite Hid in *.
  assert (o_id o' = order_id) as Hi' by (destruct Hsame; congruence).
  split; [done|]. exists row, o'. split_and!; try done; [congruence|].
  rewrite Hi' in Hob. eauto.
Qed.

(** Nothing expires locally before Stripe has cancelled it.  Settling an
    abandoned payment never raises; it changes the order only when Stripe, asked
    first, says the intent is canceled, and then exactly expires the PENDING
    order and records the owed release; whatever else Stripe says, and when the
    order was moved meanwhile or the database fails, the tables and Redis stay
    as they are. *)
Theorem settle_expires_only_canceled api t seen order_id intent_id s :
  db_ok (seen order_id) → db_ok (w_db (sh_world s)) →
  match settle_one api t seen order_id intent_id s with
  | (Err _, _) => False
  | (Ok Expired, s') =>
      (cancel_payment_intent api intent_id Abandoned s).1 = Ok (Ok Canceled) ∧
      expired_with_debt order_id (w_db (sh_world s)) (w_db (sh_world s'))
  | (Ok _, s') =>
      same_tables (w_db (sh_world s)) (w_db (sh_world s')) ∧
      w_redis (sh_world s') = w_redis (sh_world s)
  end.
Proof.
  intros Hseen Hw. unfold settle_one, bind at 1.
  destruct (cancel_asks api intent_id Abandoned s) as (status & s1 & Hc & Hs1). rewrite Hc.
  rewrite <-Hs1 in *. destruct status as [st|[code c|]]; simpl; [|by destruct (bool_decide _)|done].
  destruct (bool_decide (st = Succeeded)); [done|].
  destruct (bool_decide (st = Canceled)) eqn:Hst; [|done].
  apply bool_decide_eq_true in Hst as ->. cbn [negb].
  pose proof (settle_tx_cases t seen order_id (sh_world s1) Hseen Hw) as H.
  unfold bind at 1, try_catch at 1, bind at 1, on_world at 1.
  destruct (transaction (settle_tx t seen order_id) (sh_world s1)) as [[[o|]|e] w]; simpl.
  - destruct H as [_ (row & x & Hrow & Hp & He & Hsame & Hor & Hob)].
    destruct (release_keeps_orders o w) as [Ho1 Ho2].
    unfold bind, try_catch, on_world, ret. simpl.
    destruct (release_order_seat o w) as [[b|e] w']; simpl in *;
      (split; [done|]); exists row, x; rewrite Ho1, Ho2; done.
  - by rewrite H.
  - done.
Qed.

(** ** Which payments are abandoned *)

Lemma older_sorted l : StronglySorted (λ a b, older a b = true) (isort older l).
Proof. apply isort_sorted; unfold older; intros *; zlia. Qed.

Lemma sorted_take_drop {A} (R : A → A → Prop) n (l : list A) x y :
  StronglySorted R l → x ∈ take n l → y ∈ drop n l → R x y.
Proof.
  intros Hs. revert n. induction Hs as [|z l Hs IH Hz]; intros [|n] Hx Hy; simpl in *;
    rewrite ?elem_of_nil in *; try done.
  apply elem_of_cons in Hx as [->|Hx]; [|by eapply IH].
  rewrite Forall_forall in Hz. apply Hz.
  rewrite <-(take_drop n l). apply elem_of_app. by right.
Qed.

(** The sweep takes the oldest abandoned payments.  The query yields PENDING
    orders with a payment intent created before the cutoff, one more than the
    batch at most; unless that cap is hit it yields all of them, and when it is,
    those left out are no older than those taken. *)
Theorem abandoned_rows_oldest_first d cutoff batch :
  let rows := abandoned_rows d cutoff batch in
  (∀ o, o ∈ rows → paying cutoff o = true ∧ ∃ i, d_orders d !! i = Some o) ∧
  (length rows <= S batch)%nat ∧
  ((length rows <= batch)%nat →
     ∀ i o, d_orders d !! i = Some o → paying cutoff o = true → o ∈ rows) ∧
  (∀ i o o', o ∈ rows → d_orders d !! i = Some o' → paying cutoff o' = true → o' ∉ rows →
     o_created o <= o_created o').
Proof.
  unfold abandoned_rows. set (all := filter _ _).
  assert (Hall : ∀ o, o ∈ all ↔ paying cutoff o = true ∧ ∃ i, d_orders d !! i = Some o).
  { intros o. unfold all. rewrite list_elem_of_filter, list_elem_of_fmap. split.
    - intros [? ([i x] & -> & Hin)]. split; [done|]. exists i. by apply elem_of_map_to_list in Hin.
    - intros [? [i Hi]]. split; [done|]. exists (i, o). split; [done|].
      by apply elem_of_map_to_list. }
  assert (Hs : ∀ o, o ∈ isort older all ↔ o ∈ all) by (intros; apply elem_of_isort).
  cbn zeta. split_and!.
  - intros o Ho. apply Hall, Hs. rewrite <-(take_drop (S batch) (isort older all)).
    apply elem_of_app. by left.
  - rewrite length_take. lia.
  - intros Hlen i o Hi Hp. rewrite length_take in Hlen.
    rewrite take_ge by lia. apply Hs, Hall. eauto.
  - intros i o o' Ho Hi Hp Hn.
    assert (Hin : o' ∈ isort older all) by (apply Hs, Hall; eauto).
    rewrite <-(take_drop (S batch) (isort older all)) in Hin.
    apply elem_of_app in Hin as [?|Hin]; [done|].
    pose proof (sorted_take_drop _ _ _ _ _ (older_sorted all) Ho Hin) as Ho'. unfold older in Ho'.
    zlia.
Qed.

(** Deduplication is per event, not per charge.  If two events with different
    ids announce the same charge and the second session read the order before the
    first one committed, the first confirms the order and the second asks for the
    charge to be refunded: the lost race is answered without looking at what the
    order became. *)
Theorem kept_charge_refunded_by_second_event t t2 i d d' :
  db_ok d → charge_kept t i d d' →
  handle_payment_succeeded t2 d i d' =
    (Ok (Some (mk_refund_needed (in_id i) LeftPending)), d').
Proof.
  intros Hd (oid & row & o & Hoid & Hrow & Hp & Hcap & Ho & Hsame & ->).
  unfold handle_payment_succeeded. rewrite Hoid, Hrow, Hcap, Hp.
  rewrite bool_decide_eq_true_2 by done.
  change (bool_decide (PENDING ∈ [PAID; CONFIRMED])) with false. cbn [negb].
  change (bool_decide (PENDING = PENDING)) with true. cbn [negb].
  destruct (ok_order_checks _ Hd _ _ Hrow) as [Hid _].
  destruct (frozen_orders o (now_tx t) (set_orders (<[oid := o]> (d_orders d)) d)) as [Hf _].
  unfold bind, mark_paid, transition_order_status. rewrite Hp, Hid, Hf. simpl.
  rewrite lookup_insert_eq. rewrite bool_decide_eq_false_2 by (rewrite Ho; done). done.
Qed.

(** ** Witnesses *)

Definition demo_clocks : clocks := mk_clocks 60 61 70 65.
Definition demo_intent : Intent := mk_intent "pi_1" (Some "9") (Some 200) (Some 200).
Definition demo_event : StripeEvent := mk_stripe_event "evt_1" "payment_intent.succeeded" demo_intent.
Definition demo_api : StripeApi :=
  mk_stripe (λ _ _, Ok ("pi_1", "secret")) (λ _ _, Ok Canceled) (λ _, Ok Canceled) (λ _, Ok "re_1").
Definition demo_shop : Shop := mk_shop demo_world [].

Lemma charge_kept_or_refunded_witness :
  match handle_payment_succeeded demo_clocks demo_db demo_intent demo_db with
  | (Err _, _) => False
  | (Ok (Some r), d') => d' = demo_db ∧ refund_due demo_db demo_intent demo_db r
  | (Ok None, d') => d' = demo_db ∧ nothing_due demo_db demo_intent ∨
                     charge_kept demo_clocks demo_intent demo_db d'
  end ∧
  (o_status <$> d_orders (handle_payment_succeeded demo_clocks demo_db demo_intent demo_db).2 !! 9)
    = Some CONFIRMED.
Proof.
  split; [|by vm_compute].
  apply charge_kept_or_refunded;
    [apply demo_db_ok|apply demo_stamps|apply demo_db_ok|reflexivity|simpl; lia].
Defined.

Lemma webhook_takes_effect_once_witness :
  let web := stripe_webhook demo_api (default_settings "s") (λ _ _ _, Some demo_event) demo_clocks
               demo_db "" "" in
  (web (web demo_shop).2) = (Ok tt, (web demo_shop).2).
Proof.
  cbn zeta.
  pose proof (webhook_takes_effect_once demo_api (default_settings "s") (λ _ _ _, Some demo_event)
    demo_clocks demo_db "" "" demo_shop demo_event eq_refl) as H.
  destruct (stripe_webhook _ _ _ _ _ _ _ demo_shop) as [[u|e] s'] eqn:Hs; [|by vm_compute in Hs].
  destruct H as [Hc Hn]. by apply (Hn demo_clocks demo_db "" "" s' demo_event).
Defined.
