(* ===== verification/Worker.v ===== *)
(** The background worker (src/app/worker.py): the order consumer that turns the
    intents of the stream into rows, its recovery and dead-letter paths, the
    outbox relay that pays the owed seat releases, and the first payment
    timeout.  A job that raises is logged by its wrapper; what it did stays. *)

From S2P Require Import Prelude Exceptions Config Keys Uuid Redis Streams DB World Inventory Seating SeatRuns.
From S2P Require Import Pricing Orders Payments.

#[local] Open Scope string_scope.
#[local] Open Scope Z_scope.

(** ** Persisting an intent *)

(** [UUID(fields["idempotency_key"])] *)
Definition key_field (f : fields) : result exn string :=
  match f !! "idempotency_key" with
  | None => Err KeyError
  | Some s => match uuid_of s with Some u => Ok u | None => Err ValueError end
  end.

(** The transaction of [_persist_intent], up to its commit; [x] is what happens to
    its connection. *)
Definition persist_tx (x : db_fault) (tx_now : Z) (f : fields) (zone_id block_id : option string)
    : M DB exn unit :=
  let! user := lift (int_field f "user_id") in
  let! event := lift (int_field f "event_id") in
  let! zone := lift (match zone_id with
                     | Some z => let? n := int_str z in Ok (Some n)
                     | None => Ok None
                     end) in
  let! quantity := lift (int_field f "quantity") in
  let! total := lift (int_field f "total_price_cents") in
  let! key := lift (key_field f) in
  let! order := first_statement x (create_order tx_now user event quantity total key zone) in
  match block_id with
  | None => ret tt
  | Some b =>
      let! z := lift (match zone_id with Some z => int_str z | None => Err KeyError end) in
      let! block := lift (int_str b) in
      let! start := lift (int_field f "start_pos") in
      insert_hold (mk_hold event z block (o_id order) start quantity None)
  end.

Inductive persisted : Type := POk | PDuplicate | PFailed.
#[global] Instance persisted_eq_dec : EqDecision persisted.
Proof. solve_decision. Defined.

(** [_persist_intent]: only an [IntegrityError] is caught. *)
Definition persist_intent (x : db_fault) (tx_now : Z) (f : fields) : M World exn persisted :=
  let zone_id := optional_field f "zone_id" in
  let block_id := optional_field f "block_id" in
  if negb (eqb (is_some zone_id) (is_some block_id)) then ret PFailed
  else
    try_catch (faulty_transaction x (persist_tx x tx_now f zone_id block_id) ;;; ret POk)
      (λ e, match e with
            | IntegrityError _ =>
                let! key := lift (key_field f) in
                let! existing := faulty_lookup x (get_order_by_idempotency_key key) in
                ret (if is_some existing then PDuplicate else PFailed)
            | _ => raise e
            end).

(** ** The consumer group *)

Definition on_stream (f : Stream → Stream) : M World exn unit :=
  in_redis (modify (λ r, set_stream (f (r_stream r)) r)).

Definition ack_and_remove (i : sid) : M World exn unit := on_stream (ack_entry i).

(** What happens to the connection each entry is persisted over. *)
Definition faults : Type := sid → db_fault.

(** One entry of a batch; every exception is logged and swallowed. *)
Definition consume_entry (x : faults) (tx_now : Z) (e : sid * fields) : M World exn unit :=
  try_catch (
    let! outcome := persist_intent (x e.1) tx_now e.2 in
    if bool_decide (outcome = PFailed) then ret tt else ack_and_remove e.1) (λ _, ret tt).

Fixpoint consume_all (x : faults) (tx_now : Z) (l : list (sid * fields)) : M World exn unit :=
  match l with
  | [] => ret tt
  | e :: l' => consume_entry x tx_now e ;;; consume_all x tx_now l'
  end.

Definition READ_COUNT : nat := 500.

(** [_consume_batch] *)
Definition consume_batch (x : faults) (tx_now : Z) (consumer : string) : M World exn Z := λ w,
  let '(entries, s) := xreadgroup (r_now (w_redis w)) consumer READ_COUNT (r_stream (w_redis w)) in
  let w1 := mk_world (w_db w) (set_stream s (w_redis w)) in
  match entries with
  | [] => (Ok 0, w1)
  | _ => (consume_all x tx_now entries ;;; ret (Z.of_nat (length entries))) w1
  end.

(** ** Dead letters and recovery *)

Definition ORDER_DEAD_LETTER_MAX_LEN : Z := 100000.

(** The dead letter's [XADD ... MAXLEN ~ n]. *)
Definition xadd_dead (excess : Z) (f : fields) (r : Redis) : Redis :=
  set_dead (xadd_capped excess ORDER_DEAD_LETTER_MAX_LEN (r_now r) f (r_dead r)) r.

Definition dead_marker (idem : string) : string := join "dl" idem.

Definition mark_claim_failed (idem : string) : M Redis exn unit :=
  modify (set_claim idem "FAILED" DEFAULT_TTL_SECONDS).

(** What is given back for an intent that never became a row; [false]: it has a
    block but no zone and cannot be given back. *)
Definition dead_letter_refund (f : fields) (idem : string) : M Redis exn bool :=
  match optional_field f "block_id" with
  | Some b =>
      match optional_field f "zone_id" with
      | None => ret false
      | Some z =>
          let! event := lift (int_field f "event_id") in
          let! zone := lift (int_str z) in
          let! user := lift (int_field f "user_id") in
          let! block := lift (int_str b) in
          let! start := lift (int_field f "start_pos") in
          let! quantity := lift (int_field f "quantity") in
          release_seats event zone user block start quantity (dead_marker idem)
            DEFAULT_TTL_SECONDS ;;; ret true
      end
  | None =>
      let! event := lift (int_field f "event_id") in
      let! user := lift (int_field f "user_id") in
      let! quantity := lift (int_field f "quantity") in
      Inventory.release event user quantity (dead_marker idem) DEFAULT_TTL_SECONDS ;;; ret true
  end.

(** [_dead_letter_intent] *)
Definition dead_letter_intent (excess : Z) (i : sid) (f : fields) : M World exn unit :=
  let! idem := lift (match f !! "idempotency_key" with Some s => Ok s | None => Err KeyError end) in
  let! key := lift (key_field f) in
  let! existing := transaction (get_order_by_idempotency_key key) in
  in_redis (modify (xadd_dead excess (<["original_id" := sid_str i]> f))) ;;;
  (if is_some existing then ret true else in_redis (dead_letter_refund f idem)) ;;;
  in_redis (mark_claim_failed idem).

Definition ORDER_CONSUMER_NAME : string := "worker".

(** One pending entry; only the retry swallows exceptions, the dead-letter path
    does not. *)
Definition reclaim_entry (x : faults) (tx_now min_idle max_deliveries excess : Z)
    (p : sid * pending) : M World exn unit := λ w,
  let r := w_redis w in
  let '(claimed, s) := xclaim (r_now r) min_idle ORDER_CONSUMER_NAME p.1 (r_stream r) in
  let w1 := mk_world (w_db w) (set_stream s r) in
  match claimed with
  | None => (Ok tt, w1)
  | Some f =>
      if max_deliveries <=? p_count p.2
      then (dead_letter_intent excess p.1 f ;;; ack_and_remove p.1) w1
      else consume_entry x tx_now (p.1, f) w1
  end.

Fixpoint reclaim_all (x : faults) (tx_now min_idle max_deliveries excess : Z)
    (l : list (sid * pending)) : M World exn unit :=
  match l with
  | [] => ret tt
  | p :: l' =>
      reclaim_entry x tx_now min_idle max_deliveries excess p ;;;
      reclaim_all x tx_now min_idle max_deliveries excess l'
  end.

(** [reclaim_stale_order_intents] *)
Definition reclaim_stale_order_intents (x : faults) (tx_now min_idle max_deliveries excess : Z)
    : M World exn unit := λ w,
  reclaim_all x tx_now min_idle max_deliveries excess
    (xpending (r_now (w_redis w)) min_idle READ_COUNT (r_stream (w_redis w))) w.

(** ** The breaker's dead-letter counter *)

(** [count_new_dead_letters]: the count (never more than [cap + 1]) and the new
    cursor. *)
Definition count_new_dead_letters (cap : nat) (dead : Stream) (cursor : option sid) : Z * sid :=
  let newest := match last (s_entries dead) with Some e => e.1 | None => (0, 0) end in
  match cursor with
  | None => (0, newest)
  | Some c =>
      (Z.of_nat (length (take (S cap)
         (filter (λ e, sid_ltb c e.1 = true ∧ sid_ltb newest e.1 = false) (s_entries dead)))),
       newest)
  end.

(** ** The outbox relay *)

Definition OUTBOX_BATCH : nat := 100.
Definition OUTBOX_MAX_ATTEMPTS : Z := 8.
Definition OUTBOX_BACKOFF_BASE_S : Z := 60.
Definition OUTBOX_BACKOFF_CAP_S : Z := 3600.
Definition OUTBOX_RETENTION_DAYS : Z := 7.

(** [LEAST(base * power(2, attempts), cap)], in seconds. *)
Definition backoff_s (attempts : Z) : Z :=
  Z.min (OUTBOX_BACKOFF_BASE_S * 2 ^ attempts) OUTBOX_BACKOFF_CAP_S.

Definition due (now : Z) (e : OutboxEntry) : bool :=
  bool_decide (ob_processed e = None) && (ob_next_attempt e <=? now) &&
  (ob_attempts e <? OUTBOX_MAX_ATTEMPTS).

Definition leased (now : Z) (e : OutboxEntry) : OutboxEntry :=
  mk_outbox (ob_id e) (ob_type e) (ob_aggregate e) (ob_attempts e + 1)
    (now + backoff_s (ob_attempts e) * 1000) (ob_processed e).

(** The rows the sub-select returns; [locked] are those another relay holds
    ([SKIP LOCKED]). *)
Definition outbox_batch (locked : gset Z) (now : Z) (d : DB) : list OutboxEntry :=
  take OUTBOX_BATCH (isort (λ a b, ob_id a <=? ob_id b)
    (filter (λ e, due now e = true ∧ ob_id e ∉ locked) (map_to_list (d_outbox d)).*2)).

(** [_OUTBOX_CLAIM_SQL], the lease. *)
Definition claim_outbox (locked : gset Z) (now : Z) : M DB exn (list OutboxEntry) := λ d,
  let rows := outbox_batch locked now d in
  (Ok rows, set_outbox (foldr (λ e m, <[ob_id e := leased now e]> m) (d_outbox d) rows)
              (d_next_outbox d) d).

(** [_handle_seat_release] *)
Definition handle_seat_release (aggregate_id : Z) : M World exn unit :=
  let! order := transaction (get_order_by_id aggregate_id) in
  match order with
  | None => ret tt       (* alert only *)
  | Some o => release_order_seat o ;;; ret tt
  end.

Definition outbox_handler (event_type : string) : option (Z → M World exn unit) :=
  if bool_decide (event_type = SEAT_RELEASE) then Some handle_seat_release else None.

Definition mark_processed (id now : Z) : M DB exn unit :=
  modify (λ d, match d_outbox d !! id with
               | None => d
               | Some e => set_outbox (<[id := mk_outbox (ob_id e) (ob_type e) (ob_aggregate e)
                             (ob_attempts e) (ob_next_attempt e) (Some now)]> (d_outbox d))
                             (d_next_outbox d) d
               end).

(** One claimed row: a handler that raised leaves the row to its lease. *)
Definition process_row (now : Z) (e : OutboxEntry) : M World exn unit :=
  match outbox_handler (ob_type e) with
  | None => ret tt
  | Some handler =>
      let! ok := try_catch (handler (ob_aggregate e) ;;; ret true) (λ _, ret false) in
      if (ok : bool) then transaction (mark_processed (ob_id e) now) else ret tt
  end.

Fixpoint process_rows (now : Z) (rows : list OutboxEntry) : M World exn unit :=
  match rows with
  | [] => ret tt
  | e :: rows' => process_row now e ;;; process_rows now rows'
  end.

(** Rows that used up their attempts: what the alert counts. *)
Definition outbox_dead (d : DB) : Z :=
  Z.of_nat (length (filter (λ e, ob_processed e = None ∧ OUTBOX_MAX_ATTEMPTS <= ob_attempts e)
                      (map_to_list (d_outbox d)).*2)).

(** [process_outbox]; the result is the size of the dead pile. *)
Definition process_outbox (locked : gset Z) (now : Z) : M World exn Z :=
  let! rows := transaction (claim_outbox locked now) in
  process_rows now rows ;;;
  transaction (gets outbox_dead).

(** [processed_at < cutoff]: NULL is not. *)
Definition purgeable (cutoff : Z) (e : OutboxEntry) : bool :=
  match ob_processed e with Some p => p <? cutoff | None => false end.

(** [purge_processed_outbox] *)
Definition purge_processed_outbox (now : Z) : M DB exn Z := λ d,
  let cutoff := now - OUTBOX_RETENTION_DAYS * 86400000 in
  let kept := filter (λ x, purgeable cutoff x.2 = false) (d_outbox d) in
  (Ok (Z.of_nat (size (d_outbox d) - size kept)), set_outbox kept (d_next_outbox d) d).

(** ** The first payment timeout *)

(** The query of [expire_pending_orders]: PENDING, old, and no payment begun. *)
Definition overdue (cutoff : Z) (o : Order) : bool :=
  bool_decide (o_status o = PENDING) && (o_created o <? cutoff) &&
  bool_decide (o_payment o = None).

Definition overdue_ids (d : DB) (cutoff : Z) : list Z :=
  o_id <$> filter (λ o, overdue cutoff o = true) (map_to_list (d_orders d)).*2.

Definition expire_tx (t : clocks) (seen : DB) (order_id : Z) : M DB exn (option Order) :=
  match d_orders seen !! order_id with
  | None => ret None
  | Some order =>
      if negb (bool_decide (o_status order = PENDING)) then ret None
      else
        let! res := expire_order (now_expired t) (now_tx t) order in
        if negb res.1 then ret None else ret (Some res.2)
  end.

Definition expire_one (t : clocks) (seen : DB) (order_id : Z) : M World exn unit :=
  let! res := try_catch (transaction (expire_tx t seen order_id)) (λ _, ret None) in
  match res with
  | None => ret tt
  | Some order => try_catch (release_order_seat order ;;; ret tt) (λ _, ret tt)
  end.

Fixpoint expire_all (t : clocks) (seen : Z → DB) (ids : list Z) : M World exn unit :=
  match ids with
  | [] => ret tt
  | i :: ids' => expire_one t (seen i) i ;;; expire_all t seen ids'
  end.

(** [expire_pending_orders]; [seen i] is the state order [i] was read again in. *)
Definition expire_pending_orders (t : clocks) (seen : Z → DB) (timeout_minutes now : Z)
    : M World exn unit := λ w,
  let cutoff := now - timeout_minutes * 60000 in
  expire_all t seen (overdue_ids (w_db w) cutoff) w.

(** ** Persisting *)

(** The order row an intent stands for. *)
Definition intent_row (f : fields) (tx_now : Z) (zone : option Z) (o : Order) : Prop :=
  int_field f "user_id" = Ok (o_user o) ∧ int_field f "event_id" = Ok (o_event o) ∧
  int_field f "quantity" = Ok (o_quantity o) ∧ int_field f "total_price_cents" = Ok (o_total o) ∧
  key_field f = Ok (o_idem o) ∧ o_zone o = zone ∧ o_status o = PENDING ∧ o_payment o = None ∧
  o_created o = tx_now ∧ stamps_ok o.

Definition intent_zone (f : fields) : result exn (option Z) :=
  match optional_field f "zone_id" with
  | Some z => let? n := int_str z in Ok (Some n)
  | None => Ok None
  end.

(** What a persisted intent adds to the tables. *)
Definition intent_written (f : fields) (tx_now : Z) (d d' : DB) : Prop :=
  ∃ o zone, intent_zone f = Ok zone ∧ intent_row f tx_now zone o ∧ order_fits o = true ∧
    o_id o = d_next_order d ∧ d_orders d' = <[o_id o := o]> (d_orders d) ∧
    d_outbox d' = d_outbox d ∧ d_stripe d' = d_stripe d ∧
    match optional_field f "block_id" with
    | None => zone = None ∧ d_holds d' = d_holds d
    | Some b => ∃ z block start, zone = Some z ∧ int_str b = Ok block ∧
        int_field f "start_pos" = Ok start ∧
        let h := mk_hold (o_event o) z block (o_id o) start (o_quantity o) None in
        hold_fits h = true ∧ last_pos_fits h = true ∧ d_holds d' = <[o_id o := h]> (d_holds d)
    end.

Definition bad_field (e : exn) : Prop := e = KeyError ∨ e = ValueError ∨ e = DataError.

(** No database could take the intent: a field is missing, is not a number, or is
    too large for its column. *)
Definition unreadable (f : fields) : Prop := ∀ tx d d', ¬ intent_written f tx d d'.

Lemma int_field_err f n e : int_field f n = Err e → bad_field e.
Proof. unfold int_field, bad_field. case_goal; intros; simplify_eq; auto. Qed.
Lemma int_str_err s e : int_str s = Err e → bad_field e.
Proof. unfold int_str, bad_field. case_goal; intros; simplify_eq; auto. Qed.
Lemma key_field_err f e : key_field f = Err e → bad_field e.
Proof. unfold key_field, bad_field. case_goal; intros; simplify_eq; auto. Qed.

Lemma safe_create created u e q p k z : safe (create_order created u e q p k z).
Proof. by apply safe_insert_order. Qed.
#[export] Hint Resolve safe_create : prog.

Lemma safe_persist x tx f z b : safe (persist_tx x tx f z b).
Proof.
  unfold persist_tx. repeat (apply safe_bind; [auto with prog|intros]).
  destruct b; [|auto with prog]. repeat (apply safe_bind; [auto with prog|intros]). auto with prog.
Qed.

Lemma insert_hold_cases h d :
  match insert_hold h d with
  | (Ok _, d') => hold_violation d h = None ∧ hold_fits h = true ∧ last_pos_fits h = true ∧
      d' = set_holds (<[hd_order h := h]> (d_holds d)) d
  | (Err e, d') => d' = d ∧
      ((∃ c, e = IntegrityError c) ∨ e = DataError ∧ hold_fits h && last_pos_fits h = false)
  end.
Proof.
  unfold insert_hold. destruct (hold_fits h); [|simpl; auto].
  destruct (last_pos_fits h); destruct (hold_violation d h) as [c|]; simpl; eauto.
  destruct (negb (bool_decide (c = TRG_MATCH))); eauto.
Qed.

(** A reader's failure contradicts [intent_written]. *)
Ltac unread :=
  let o := fresh "o" in let zone := fresh "zone" in let Hb := fresh "Hb" in
  intros ? ? ? (o & zone & ? & (? & ? & ? & ? & ? & _) & _ & _ & _ & _ & _ & Hb);
  first [congruence
        |repeat match goal with E : optional_field _ "block_id" = _ |- _ => rewrite E in Hb end;
         destruct Hb as (? & ? & ? & ? & ? & ? & _); congruence].

(** The numbers of an intent, as read. *)
Record reads (f : fields) (user event quantity total : Z) (zone : option Z) : Prop := {
  rd_user : int_field f "user_id" = Ok user;
  rd_event : int_field f "event_id" = Ok event;
  rd_quantity : int_field f "quantity" = Ok quantity;
  rd_total : int_field f "total_price_cents" = Ok total;
  rd_zone : intent_zone f = Ok zone;
}.

(** What no column takes once, it never takes. *)
Lemma too_wide_unreadable f u ev q p zone o :
  reads f u ev q p zone → o_user o = u → o_event o = ev → o_zone o = zone → o_quantity o = q →
  o_total o = p → order_fits o = false → unreadable f.
Proof.
  intros [Hu Hev Hq Hp Hz] <- <- <- <- <- Hf tx d d' (x & z & Hz' & (Hu' & Hev' & Hq' & Hp' & _ & Hxz & _) & Hfx & _).
  assert (order_fits x = order_fits o) as Heq.
  { unfold order_fits. replace (o_user x) with (o_user o) by congruence.
    replace (o_event x) with (o_event o) by congruence. replace (o_zone x) with (o_zone o) by congruence.
    replace (o_quantity x) with (o_quantity o) by congruence.
    by replace (o_total x) with (o_total o) by congruence. }
  congruence.
Qed.

Lemma hold_too_wide_unreadable f u ev q p z b block start h :
  reads f u ev q p (Some z) → optional_field f "block_id" = Some b → int_str b = Ok block →
  int_field f "start_pos" = Ok start → hd_event h = ev → hd_zone h = z → hd_block h = block →
  hd_start h = start → hd_len h = q → hold_fits h && last_pos_fits h = false → unreadable f.
Proof.
  intros [Hu Hev Hq Hp Hz] Hb Hblock Hst He1 He2 He3 He4 He5 Hf tx d d'
    (x & zone & Hz' & (Hu' & Hev' & Hq' & _) & _ & _ & _ & _ & _ & Hh).
  rewrite Hb in Hh. destruct Hh as (z' & block' & start' & Hzz & Hblock' & Hst' & H1 & H2 & _).
  unfold hold_fits, last_pos_fits in *. simpl in H1, H2.
  rewrite He1, He2, He3, He4, He5 in Hf.
  replace (o_event x) with ev in * by congruence. replace (o_quantity x) with q in * by congruence.
  replace z' with z in * by congruence. replace block' with block in * by congruence.
  replace start' with start in * by congruence. rewrite H1, H2 in Hf. done.
Qed.

(** Why a transaction of [_persist_intent] fails. *)
Definition persist_failure (x : db_fault) (f : fields) (e : exn) : Prop :=
  (bad_field e ∧ unreadable f) ∨ ((∃ c, e = IntegrityError c) ∧ ∃ k, key_field f = Ok k) ∨
  (e = OperationalError ∧ x ≠ DbUp).

Lemma first_statement_cases {A} x (m : M DB exn A) d :
  first_statement x m d = m d ∨ (∃ d', first_statement x m d = (Err OperationalError, d')) ∧ x ≠ DbUp.
Proof. unfold first_statement. destruct x as [|[]| |]; auto; right; by eauto. Qed.

Lemma persist_tx_order x tx f u ev q p k zone d :
  reads f u ev q p zone → key_field f = Ok k →
  match first_statement x (create_order tx u ev q p k zone) d with
  | (Ok o, d1) => intent_row f tx zone o ∧ order_fits o = true ∧ o_id o = d_next_order d ∧
      o = mk_order (d_next_order d) u ev zone q p PENDING k None tx None None None None ∧
      d1 = set_orders (<[o_id o := o]> (d_orders d)) (set_next_order (d_next_order d + 1) d) ∧
      (∀ i y, d_orders d !! i = Some y → o_idem y ≠ k)
  | (Err e, _) => persist_failure x f e
  end.
Proof.
  intros Hr Hk. destruct (first_statement_cases x (create_order tx u ev q p k zone) d)
    as [->|[[d' ->] Hx]]; [|right; by right].
  unfold create_order. pose proof (insert_order_cases
    (λ i, mk_order i u ev zone q p PENDING k None tx None None None None) d ltac:(done)) as Hins.
  destruct (insert_order _ d) as [[o|e] d1].
  - destruct Hins as (Ho & _ & Href & Hf & ->). split_and!; try (by rewrite Ho); try done.
    + destruct Hr. rewrite Ho. unfold intent_row. simpl. split_and!; done.
    + intros i y Hi. pose proof (order_reference_idem d o i y Href Hi) as H. by rewrite Ho in H.
  - destruct Hins as [[He _]|(-> & _ & Hf)]; [right; left; eauto|left].
    split; [unfold bad_field; auto|].
    eapply too_wide_unreadable; [exact Hr| | | | | |exact Hf]; reflexivity.
Qed.

Lemma persist_tx_cases x tx f d :
  let zone_id := optional_field f "zone_id" in
  let block_id := optional_field f "block_id" in
  is_some zone_id = is_some block_id →
  match persist_tx x tx f zone_id block_id d with
  | (Ok _, d') => intent_written f tx d d' ∧
      ∃ k, key_field f = Ok k ∧ ∀ i x, d_orders d !! i = Some x → o_idem x ≠ k
  | (Err e, d') => persist_failure x f e
  end.
Proof.
  intros zone_id block_id Hsync. unfold persist_tx.
  assert (Hno : ∀ e, bad_field e → unreadable f → persist_failure x f e) by (intros; left; auto).
  rewrite bind_lift. destruct (int_field f "user_id") as [u|e] eqn:Hu; [|apply Hno; [by eapply int_field_err|unread]].
  rewrite bind_lift. destruct (int_field f "event_id") as [ev|e] eqn:Hev; [|apply Hno; [by eapply int_field_err|unread]].
  rewrite bind_lift. unfold zone_id at 1. fold (intent_zone f).
  destruct (intent_zone f) as [zone|e] eqn:Hzone.
  2:{ apply Hno; [|unread]. unfold intent_zone in Hzone. destruct (optional_field f "zone_id") as [z|]; [|done].
      destruct (int_str z) eqn:Hi; simplify_eq/=. by eapply int_str_err. }
  rewrite bind_lift. destruct (int_field f "quantity") as [q|e] eqn:Hq; [|apply Hno; [by eapply int_field_err|unread]].
  rewrite bind_lift. destruct (int_field f "total_price_cents") as [p|e] eqn:Hp;
    [|apply Hno; [by eapply int_field_err|unread]].
  rewrite bind_lift. destruct (key_field f) as [k|e] eqn:Hk; [|apply Hno; [by eapply key_field_err|unread]].
  assert (Hr : reads f u ev q p zone) by done.
  unfold bind at 1. pose proof (persist_tx_order x tx f u ev q p k zone d Hr Hk) as Hins.
  destruct (first_statement x _ d) as [[o|e] d1]; [|done].
  destruct Hins as (Hrow & Hfit & Hid & Ho & -> & Hfresh).
  unfold intent_written. pose proof Hzone as Hz0.
  unfold intent_zone in Hzone. fold zone_id in Hzone.
  destruct (optional_field f "block_id") as [b|] eqn:Hbk; subst block_id.
  2:{ split; [|eauto]. exists o, zone. destruct zone_id; [done|]. simplify_eq/=.
      split_and!; done. }
  destruct zone_id as [z|]; [|done]. rewrite bind_lift.
  destruct (int_str z) as [zn|e] eqn:Hz; simplify_eq/=.
  rewrite bind_lift. destruct (int_str b) as [block|e] eqn:Hblock; [|apply Hno; [by eapply int_str_err|unread]].
  rewrite bind_lift. destruct (int_field f "start_pos") as [start|e] eqn:Hst;
    [|apply Hno; [by eapply int_field_err|unread]].
  match goal with |- context [insert_hold ?h ?d1] => pose proof (insert_hold_cases h d1) as Hh;
    destruct (insert_hold h d1) as [[[]|e] d2] end.
  2:{ destruct Hh as [_ [He|[-> Hw]]]; [right; left; eauto|]. apply Hno; [unfold bad_field; auto|].
      eapply hold_too_wide_unreadable; [exact Hr|exact Hbk|exact Hblock|exact Hst| | | | | |exact Hw];
        by rewrite ?Ho. }
  destruct Hh as (_ & Hf1 & Hf2 & ->). split; [|eauto]. eexists _, (Some zn). split_and!; try done.
  exists zn, block, start. split_and!; done.
Qed.

Lemma order_by_key_some d k o :
  order_by_key d k = Some o → ∃ i, d_orders d !! i = Some o ∧ o_idem o = k.
Proof.
  unfold order_by_key. destruct (find _ _) as [[i x]|] eqn:Hf; [|done]. intros [= ->].
  apply find_some in Hf as [Hin Hk]. apply bool_decide_eq_true in Hk.
  exists i. split; [|done]. by apply elem_of_map_to_list, list_elem_of_In.
Qed.

Lemma order_by_key_none d k i o :
  order_by_key d k = None → d_orders d !! i = Some o → o_idem o ≠ k.
Proof.
  unfold order_by_key. destruct (find _ _) as [[j x]|] eqn:Hf; [done|]. intros _ Hi Hk.
  assert (Hn : bool_decide (o_idem o = k) = false).
  { apply (find_none _ _ Hf (i, o)). by apply list_elem_of_In, elem_of_map_to_list. }
  by apply bool_decide_eq_false in Hn.
Qed.

(** The database holds an order under the intent's key. *)
Definition recorded (f : fields) (d : DB) : Prop :=
  ∃ k o, key_field f = Ok k ∧ order_by_key d k = Some o.

(** The connection was lost, and what that left behind. *)
Definition cut_off (x : db_fault) (f : fields) (tx_now : Z) (d d' : DB) : Prop :=
  x ≠ DbUp ∧ (same_tables d d' ∨
    x = LostAtCommit true ∧ intent_written f tx_now d d' ∧ ¬ recorded f d).

Lemma persist_intent_cases x tx f w :
  match persist_intent x tx f w with
  | (Ok POk, w') => intent_written f tx (w_db w) (w_db w') ∧ w_redis w' = w_redis w ∧
      ¬ recorded f (w_db w)
  | (Ok PDuplicate, w') =>
      same_tables (w_db w) (w_db w') ∧ w_redis w' = w_redis w ∧ recorded f (w_db w)
  | (Ok PFailed, w') =>
      same_tables (w_db w) (w_db w') ∧ w_redis w' = w_redis w ∧
      (is_some (optional_field f "zone_id") ≠ is_some (optional_field f "block_id") ∨
       ¬ recorded f (w_db w))
  | (Err e, w') => w_redis w' = w_redis w ∧
      (same_tables (w_db w) (w_db w') ∧ bad_field e ∧ unreadable f ∨
       e = OperationalError ∧ cut_off x f tx (w_db w) (w_db w'))
  end.
Proof.
  unfold persist_intent. destruct (negb _) eqn:Hsync.
  { simpl. split; [done|]. split; [done|]. left. apply negb_true_iff, eqb_false_iff in Hsync. done. }
  apply negb_false_iff, eqb_prop in Hsync.
  pose proof (persist_tx_cases x tx f (w_db w) Hsync) as H. cbn zeta in H.
  unfold try_catch, bind at 1, faulty_transaction at 1.
  destruct (persist_tx _ _ _ _ _ (w_db w)) as [[u|e] d]; simpl.
  { destruct H as (Hw & k & Hk & Hfresh).
    assert (¬ recorded f (w_db w)).
    { intros (k' & o & Hk' & Ho). assert (k' = k) as -> by congruence.
      apply order_by_key_some in Ho as (i & Hi & Hx). exact (Hfresh _ _ Hi Hx). }
    destruct x as [|ran|[]|]; simpl; try done;
      (split; [done|]); right; (split; [done|]); (split; [done|]); [by right|by left]. }
  assert (Hsame : same_tables (w_db w) (rollback (w_db w) d)) by apply rollback_tables.
  destruct H as [[He Hun]|[[[c ->] [k Hk]]|[-> Hx]]].
  { assert (Hb : bad_field e) by done. destruct He as [->|[->| ->]]; simpl; auto. }
  2:{ simpl. split; [done|]. right. split; [done|]. split; [done|by left]. }
  simpl. unfold bind at 1, lift. rewrite Hk. unfold faulty_lookup, bind at 1.
  assert (Hlook : (x = LostAtLookup ∧ x ≠ DbUp) ∨ x ≠ LostAtLookup) by (destruct x; auto).
  destruct Hlook as [[Hx Hx']|Hx].
  { rewrite Hx. simpl. split; [done|]. right. split; [done|]. split; [done|by left]. }
  replace (match x with LostAtLookup => _ | _ => _ end)
    with (transaction (get_order_by_idempotency_key k)) by (by destruct x).
  unfold transaction, get_order_by_idempotency_key, gets. simpl.
  change (order_by_key (rollback (w_db w) d) k) with (order_by_key (w_db w) k).
  destruct (order_by_key (w_db w) k) as [o|] eqn:Ho; simpl.
  - split; [done|]. split; [done|]. by exists k, o.
  - split; [done|]. split; [done|]. right. intros (k' & o & Hk' & Ho'). congruence.
Qed.

Lemma safe_gets_key k : safe (get_order_by_idempotency_key k).
Proof. apply safe_gets. Qed.

Lemma persist_intent_ok x tx f w : db_ok (w_db w) → db_ok (w_db (persist_intent x tx f w).2).
Proof.
  intros Hd. unfold persist_intent. destruct (negb _); [done|].
  unfold try_catch, bind at 1.
  pose proof (faulty_transaction_safe x _ w (safe_persist x tx f (optional_field f "zone_id")
    (optional_field f "block_id")) Hd) as H1.
  destruct (faulty_transaction x _ w) as [[u|e] w1]; simpl in *; [done|].
  destruct e; try done. unfold bind, lift. destruct (key_field f) as [k|e]; [|done].
  pose proof (transaction_safe _ w1 (safe_gets_key k) H1) as H2. unfold faulty_lookup.
  destruct x; simpl; try done; destruct (transaction _ w1) as [[o|e] w2]; done.
Qed.

(** C9 (an intent becomes one order, with its seats, or nothing).  Persisting an
    intent, whatever happens to its database connection, keeps every constraint of
    the schema and never touches Redis.  [ok]: one new PENDING order with the
    intent's buyer, event, zone, quantity, price and key, each within its integer
    column, and for a seated intent the hold on exactly its interval, in one
    commit, and the key was not there before.  [duplicate]: an order with the key
    exists already and nothing changed.  [failed]: nothing changed and either the
    zone and the block are not both given or no order has the key.  An exception is
    of two kinds.  A [KeyError], [ValueError] or [DataError] means that a field is
    missing, is no number or does not fit its column: nothing changed, and no
    database will ever take this intent.  An [OperationalError] means that the
    connection was lost: nothing changed either, unless it was lost at a COMMIT
    that PostgreSQL had applied, and then exactly the [ok] rows are there. *)
Theorem persist_intent_all_or_nothing x tx f w :
  db_ok (w_db w) →
  let '(out, w') := persist_intent x tx f w in
  db_ok (w_db w') ∧ w_redis w' = w_redis w ∧
  match out with
  | Ok POk => intent_written f tx (w_db w) (w_db w') ∧ ¬ recorded f (w_db w)
  | Ok PDuplicate => same_tables (w_db w) (w_db w') ∧ recorded f (w_db w)
  | Ok PFailed => same_tables (w_db w) (w_db w') ∧
      (is_some (optional_field f "zone_id") ≠ is_some (optional_field f "block_id") ∨
       ¬ recorded f (w_db w))
  | Err e =>
      same_tables (w_db w) (w_db w') ∧ (e = KeyError ∨ e = ValueError ∨ e = DataError) ∧
        unreadable f ∨
      e = OperationalError ∧ x ≠ DbUp ∧
        (same_tables (w_db w) (w_db w') ∨
         x = LostAtCommit true ∧ intent_written f tx (w_db w) (w_db w') ∧ ¬ recorded f (w_db w))
  end.
Proof.
  intros Hd. pose proof (persist_intent_cases x tx f w) as H.
  pose proof (persist_intent_ok x tx f w Hd) as Hok.
  destruct (persist_intent x tx f w) as [[[]|e] w']; simpl in *; unfold bad_field, cut_off in *; tauto.
Qed.

Lemma intent_written_sync f tx d d' :
  intent_written f tx d d' → is_some (optional_field f "zone_id") = is_some (optional_field f "block_id").
Proof.
  intros (o & zone & Hz & _ & _ & _ & _ & _ & _ & Hb). unfold intent_zone in Hz.
  destruct (optional_field f "block_id"), (optional_field f "zone_id"); try done; simpl in *.
  - destruct Hb as (? & ? & ? & ? & _). congruence.
  - destruct (int_str s); simplify_eq/=. by destruct Hb.
Qed.

(** A replayed intent is recognised.  Once an intent is written - the commit was
    answered or not - persisting it again, after any further history of the
    orders, changes no table and answers [duplicate]: a consumer that died before
    its acknowledgement, or never heard of its commit, costs nothing. *)
Theorem persist_intent_replay f tx d d' tx2 w2 :
  intent_written f tx d d' → moved d' (w_db w2) →
  ∃ w3, persist_intent DbUp tx2 f w2 = (Ok PDuplicate, w3) ∧ same_tables (w_db w2) (w_db w3) ∧
        w_redis w3 = w_redis w2.
Proof.
  intros Hw Hm. pose proof Hw as (o & zone & _ & Hrow & _ & _ & Hor & _).
  destruct (Hm (o_id o) o) as (o2 & Ho2 & _ & Hs); [rewrite Hor; apply lookup_insert_eq|].
  assert (Hrec : recorded f (w_db w2)).
  { destruct Hrow as (_ & _ & _ & _ & Hk & _). exists (o_idem o).
    destruct (order_by_key (w_db w2) (o_idem o)) as [y|] eqn:Hx; [eauto|].
    exfalso. eapply order_by_key_none; [exact Hx|exact Ho2|]. apply Hs. }
  pose proof (intent_written_sync _ _ _ _ Hw) as Hsync.
  pose proof (persist_intent_cases DbUp tx2 f w2) as Hc.
  destruct (persist_intent DbUp tx2 f w2) as [[[]|e] w3].
  - by destruct Hc as (_ & _ & []).
  - exists w3. by destruct Hc as (? & ? & _).
  - by destruct Hc as (_ & _ & [?|[]]).
  - destruct Hc as (_ & [(_ & _ & Hun)|(_ & [] & _)]); [by destruct (Hun _ _ _ Hw)|done].
Qed.

(** ** What was sold is what is recorded *)

Lemma int_str_z n : int_str (z_str n) = Ok n.
Proof. unfold int_str. by rewrite z_parse_str. Qed.

Lemma z_str_not_empty n : z_str n ≠ "".
Proof.
  intros H. pose proof (z_parse_str n) as Hp. rewrite H in Hp. by vm_compute in Hp.
Qed.

Lemma int_field_str f k n : f !! k = Some (z_str n) → int_field f k = Ok n.
Proof. unfold int_field. intros ->. by rewrite z_parse_str. Qed.

Lemma key_field_uuid f u :
  is_uuid u → f !! "idempotency_key" = Some (uuid_str u) → key_field f = Ok u.
Proof. intros Hu H. unfold key_field. rewrite H. by rewrite uuid_of_str. Qed.

Lemma optional_field_str f k n : f !! k = Some (z_str n) → optional_field f k = Some (z_str n).
Proof.
  unfold optional_field. intros ->. rewrite bool_decide_eq_false_2; [done|]. apply z_str_not_empty.
Qed.

(** The row a claim stands for. *)
Definition claim_order (i tx : Z) (a : claim_args) (u : string) : Order :=
  mk_order i (ca_user a) (ca_event a) (Some (ca_zone a)) (ca_len a) (ca_price a) PENDING u None tx
    None None None None.
Definition claim_hold (i : Z) (a : claim_args) : SeatHold :=
  mk_hold (ca_event a) (ca_zone a) (ca_block a) i (ca_start a) (ca_len a) None.
Definition reserve_order (i tx : Z) (a : reserve_args) (u : string) : Order :=
  mk_order i (va_user a) (va_event a) None (va_quantity a) (va_price a) PENDING u None tx
    None None None None.

Lemma intent_row_order f tx zone o o' :
  intent_row f tx zone o → intent_row f tx zone o' → o_id o = o_id o' → o = o'.
Proof.
  unfold intent_row, stamps_ok. intros H H' Hid. destruct_and!.
  repeat match goal with E : o_status _ = _ |- _ => rewrite E in * end. destruct_and!.
  destruct o, o'; simpl in *. simplify_eq. congruence.
Qed.

Lemma seat_intent_reads a u :
  is_uuid u → ca_idem a = uuid_str u →
  let f := seat_intent a in
  intent_zone f = Ok (Some (ca_zone a)) ∧ optional_field f "block_id" = Some (z_str (ca_block a)) ∧
  int_field f "start_pos" = Ok (ca_start a) ∧
  ∀ i tx, intent_row f tx (Some (ca_zone a)) (claim_order i tx a u).
Proof.
  intros Hu Hk f. subst f. destruct (seat_intent_fields a) as (H1 & H2 & H3 & H4 & H5 & H6 & H7 & H8).
  rewrite Hk in H5. split_and!.
  - unfold intent_zone. rewrite (optional_field_str _ _ _ H6), int_str_z. done.
  - by apply optional_field_str.
  - by apply int_field_str.
  - intros i tx. unfold intent_row. split_and!; try done; try by apply int_field_str.
    by apply key_field_uuid.
Qed.

Lemma counter_intent_reads a u :
  is_uuid u → va_idem a = uuid_str u → va_zone a = None →
  let f := counter_intent a in
  intent_zone f = Ok None ∧ optional_field f "zone_id" = None ∧
  optional_field f "block_id" = None ∧ ∀ i tx, intent_row f tx None (reserve_order i tx a u).
Proof.
  intros Hu Hk Hz f. subst f. destruct (counter_intent_fields a) as (H1 & H2 & H3 & H4 & H5 & H6 & H7).
  rewrite Hk in H5. rewrite Hz in H6.
  assert (Ho : optional_field (counter_intent a) "zone_id" = None)
    by (unfold optional_field; by rewrite H6).
  split_and!.
  - unfold intent_zone. by rewrite Ho.
  - done.
  - unfold optional_field. by rewrite H7.
  - intros i tx. unfold intent_row. split_and!; try done; try by apply int_field_str.
    by apply key_field_uuid.
Qed.

(** What was sold is what is recorded.  Reading back the intent a seat claim
    or a counter reservation wrote never fails on its fields, as long as its
    numbers fit the integer columns and the database answers; when it is
    persisted as new, the order row carries the claim's buyer, event, zone,
    quantity, price and the client's key, and the hold is on the very interval
    the claim took; otherwise the tables stay as they are. *)
Theorem intent_roundtrip u tx w :
  is_uuid u →
  (∀ a, ca_idem a = uuid_str u →
     order_fits (claim_order 0 tx a u) = true → hold_fits (claim_hold 0 a) = true →
     last_pos_fits (claim_hold 0 a) = true →
     match persist_intent DbUp tx (seat_intent a) w with
     | (Ok POk, w') => let i := d_next_order (w_db w) in
         d_orders (w_db w') = <[i := claim_order i tx a u]> (d_orders (w_db w)) ∧
         d_holds (w_db w') = <[i := claim_hold i a]> (d_holds (w_db w))
     | (Ok _, w') => same_tables (w_db w) (w_db w')
     | (Err _, _) => False
     end) ∧
  (∀ a, va_idem a = uuid_str u → va_zone a = None →
     order_fits (reserve_order 0 tx a u) = true →
     match persist_intent DbUp tx (counter_intent a) w with
     | (Ok POk, w') => let i := d_next_order (w_db w) in
         d_orders (w_db w') = <[i := reserve_order i tx a u]> (d_orders (w_db w)) ∧
         d_holds (w_db w') = d_holds (w_db w)
     | (Ok _, w') => same_tables (w_db w) (w_db w')
     | (Err _, _) => False
     end).
Proof.
  intros Hu. split.
  - intros a Hk Hf1 Hf2 Hf3. destruct (seat_intent_reads a u Hu Hk) as (Hz & Hb & Hs & Hrow).
    pose proof (persist_intent_cases DbUp tx (seat_intent a) w) as H.
    destruct (persist_intent DbUp tx (seat_intent a) w) as [[[]|e] w']; [|tauto..|].
    + destruct H as [(o & zone & Hz' & Ho & _ & Hid & Hor & _ & _ & Hh) _].
      rewrite Hz in Hz'. simplify_eq. rewrite Hb in Hh.
      assert (o = claim_order (d_next_order (w_db w)) tx a u) as ->
        by (by eapply intent_row_order).
      split; [done|]. destruct Hh as (z & b & st & [= <-] & Hb' & Hs' & _ & _ & ->).
      rewrite int_str_z in Hb'. simplify_eq. rewrite Hs in Hs'. by simplify_eq.
    + destruct H as (_ & [(_ & _ & Hun)|(_ & [] & _)]); [|done].
      eapply (Hun tx empty_db (set_holds {[1 := claim_hold 1 a]}
        (set_orders {[1 := claim_order 1 tx a u]} empty_db))).
      exists (claim_order 1 tx a u), (Some (ca_zone a)). split_and!; [done..|]. rewrite Hb.
      exists (ca_zone a), (ca_block a), (ca_start a). by rewrite int_str_z.
  - intros a Hk Hzone Hf. destruct (counter_intent_reads a u Hu Hk Hzone) as (Hz & _ & Hb & Hrow).
    pose proof (persist_intent_cases DbUp tx (counter_intent a) w) as H.
    destruct (persist_intent DbUp tx (counter_intent a) w) as [[[]|e] w']; [|tauto..|].
    + destruct H as [(o & zone & Hz' & Ho & _ & Hid & Hor & _ & _ & Hh) _].
      rewrite Hz in Hz'. simplify_eq. rewrite Hb in Hh.
      assert (o = reserve_order (d_next_order (w_db w)) tx a u) as ->
        by (by eapply intent_row_order).
      split; [done|]. by destruct Hh.
    + destruct H as (_ & [(_ & _ & Hun)|(_ & [] & _)]); [|done].
      eapply (Hun tx empty_db (set_orders {[1 := reserve_order 1 tx a u]} empty_db)).
      exists (reserve_order 1 tx a u), None. split_and!; done.
Qed.

(** ** The consumer loses nothing *)

(** Ids increase, and whatever was delivered and not acknowledged is pending. *)
Record stream_ok (s : Stream) : Prop := {
  so_sorted : StronglySorted id_before (s_entries s);
  so_pending : ∀ e, e ∈ s_entries s → sid_ltb (s_cursor s) e.1 = true ∨ is_Some (s_pel s !! e.1);
}.

(** Orders are only added. *)
Definition grown (d d' : DB) : Prop := ∀ i o, d_orders d !! i = Some o → d_orders d' !! i = Some o.

#[global] Instance grown_preorder : PreOrder grown.
Proof. split; [by intros d i o|]. intros d1 d2 d3 H1 H2 i o Hi. by apply H2, H1. Qed.

Lemma same_tables_grown d d' : same_tables d d' → grown d d'.
Proof. intros [Ho _ _ _ _ _] i o. by rewrite Ho. Qed.

Lemma intent_written_grown f tx d d' : db_ok d → intent_written f tx d d' → grown d d'.
Proof.
  intros Hd (o & z & _ & _ & _ & Hid & Ho & _) i x Hi. rewrite Ho, lookup_insert_ne; [done|].
  rewrite Hid. intros <-. pose proof (ok_order_ids _ Hd _ (ex_intro _ _ Hi)). lia.
Qed.

Lemma key_known d k i o : d_orders d !! i = Some o → o_idem o = k → ∃ x, order_by_key d k = Some x.
Proof.
  intros Hi Hk. destruct (order_by_key d k) as [x|] eqn:Hx; [eauto|].
  by destruct (order_by_key_none _ _ _ _ Hx Hi).
Qed.

Lemma recorded_grown f d d' : grown d d' → recorded f d → recorded f d'.
Proof.
  intros Hg (k & o & Hk & Ho). apply order_by_key_some in Ho as (i & Hi & Hx).
  destruct (key_known d' k i o (Hg _ _ Hi) Hx) as [x ?]. by exists k, x.
Qed.

Lemma written_recorded f tx d d' : intent_written f tx d d' → recorded f d'.
Proof.
  intros (o & z & _ & (_ & _ & _ & _ & Hk & _) & _ & _ & Ho & _).
  destruct (key_known d' (o_idem o) (o_id o) o) as [x ?]; [|done|by exists (o_idem o), x].
  rewrite Ho. apply lookup_insert_eq.
Qed.

Lemma persist_grown x tx f w : db_ok (w_db w) → grown (w_db w) (w_db (persist_intent x tx f w).2).
Proof.
  intros Hd. pose proof (persist_intent_cases x tx f w) as H.
  destruct (persist_intent x tx f w) as [[[]|e] w']; simpl.
  - destruct H as [H _]. by eapply intent_written_grown.
  - apply same_tables_grown, H.
  - apply same_tables_grown, H.
  - destruct H as (_ & [[H _]|(_ & _ & [H|(_ & H & _)])]);
      [by apply same_tables_grown..|by eapply intent_written_grown].
Qed.

(** One entry: acknowledged once recorded, or left exactly where it was. *)
Lemma consume_entry_cases x tx e w :
  db_ok (w_db w) →
  ∃ w', consume_entry x tx e w = (Ok tt, w') ∧ db_ok (w_db w') ∧ grown (w_db w) (w_db w') ∧
    (w_redis w' = w_redis w ∨
     w_redis w' = set_stream (ack_entry e.1 (r_stream (w_redis w))) (w_redis w) ∧
     recorded e.2 (w_db w')).
Proof.
  intros Hd. unfold consume_entry, try_catch, bind.
  pose proof (persist_intent_cases (x e.1) tx e.2 w) as H.
  pose proof (persist_intent_ok (x e.1) tx e.2 w Hd) as Hok.
  pose proof (persist_grown (x e.1) tx e.2 w Hd) as Hg.
  destruct (persist_intent (x e.1) tx e.2 w) as [[[]|ex] w1]; simpl in *.
  - destruct H as (Hw & Hr & _). eexists. split; [done|]. simpl. rewrite Hr.
    split_and!; [done..|]. right. split; [done|]. by eapply written_recorded.
  - destruct H as (Hs & Hr & Hrec). eexists. split; [done|]. simpl. rewrite Hr.
    split_and!; [done..|]. right. split; [done|]. by eapply recorded_grown.
  - destruct H as (Hs & Hr & _). exists w1. auto.
  - destruct H as (Hr & _). exists w1. auto.
Qed.

(** A stream after some entries were settled: nothing new, nothing lost. *)
Definition settled_into (d : DB) (s s' : Stream) : Prop :=
  stream_ok s' ∧ (∀ e, e ∈ s_entries s' → e ∈ s_entries s) ∧
  (∀ e, e ∈ s_entries s → e ∈ s_entries s' ∨ recorded e.2 d).

Lemma ack_settles d s e :
  stream_ok s → e ∈ s_entries s → recorded e.2 d → settled_into d s (ack_entry e.1 s).
Proof.
  intros [Hn Hp] He Hr. unfold ack_entry. split; [split; simpl|split; simpl].
  - by apply sorted_filter.
  - intros x [Hx Hin]%list_elem_of_filter. rewrite lookup_delete_ne by done. by apply Hp.
  - by intros x [_ ?]%list_elem_of_filter.
  - intros x Hx. destruct (decide (x.1 = e.1)) as [Heq|Hne].
    + right. assert (x = e) as ->; [|done]. eapply nodup_fst_unique; [by apply sorted_ids|done..].
    + left. by apply list_elem_of_filter.
Qed.

Lemma settled_trans d d' s1 s2 s3 :
  grown d d' → settled_into d s1 s2 → settled_into d' s2 s3 → settled_into d' s1 s3.
Proof.
  intros Hg (_ & H1 & H2) (Ho & H3 & H4). split; [done|]. split; [by auto|].
  intros e He. destruct (H2 e He) as [He2|Hr]; [by apply H4|].
  right. by eapply recorded_grown.
Qed.

Lemma settled_refl d s : stream_ok s → settled_into d s s.
Proof. intros H. split; [done|]. split; auto. Qed.

(** Acknowledging an entry that is gone already changes no entry. *)
Lemma ack_settles_any d s (e : sid * fields) :
  stream_ok s → (∀ x, x ∈ s_entries s → x.1 = e.1 → x = e) → recorded e.2 d →
  settled_into d s (ack_entry e.1 s).
Proof.
  intros Hs Hu Hr. destruct (decide (e ∈ s_entries s)) as [He|He]; [by apply ack_settles|].
  assert (Hne : ∀ x, x ∈ s_entries s → x.1 ≠ e.1) by (intros x Hx Heq; by rewrite (Hu x Hx Heq) in Hx).
  destruct Hs as [Hn Hp]. unfold ack_entry. split; [split; simpl|split; simpl].
  - by apply sorted_filter.
  - intros x [Hx Hin]%list_elem_of_filter. rewrite lookup_delete_ne by done. by apply Hp.
  - by intros x [_ ?]%list_elem_of_filter.
  - intros x Hx. left. apply list_elem_of_filter. split; [by apply Hne|done].
Qed.

(** The entries to handle are, by id, those of the stream. *)
Definition agrees (l : list (sid * fields)) (s : Stream) : Prop :=
  ∀ e x, e ∈ l → x ∈ s_entries s → x.1 = e.1 → x = e.

Lemma consume_all_cases x tx l w :
  db_ok (w_db w) → stream_ok (r_stream (w_redis w)) → agrees l (r_stream (w_redis w)) →
  ∃ w', consume_all x tx l w = (Ok tt, w') ∧ db_ok (w_db w') ∧ grown (w_db w) (w_db w') ∧
    settled_into (w_db w') (r_stream (w_redis w)) (r_stream (w_redis w')).
Proof.
  revert w. induction l as [|e l IH]; intros w Hd Hs Ha; simpl.
  { exists w. split_and!; [done|done|reflexivity|by apply settled_refl]. }
  destruct (consume_entry_cases x tx e w Hd) as (w1 & H1 & Hd1 & Hg1 & Hc).
  unfold bind. rewrite H1.
  assert (Hset : settled_into (w_db w1) (r_stream (w_redis w)) (r_stream (w_redis w1))).
  { destruct Hc as [->|[-> Hr]]; [by apply settled_refl|]. simpl.
    apply ack_settles_any; [done| |done]. intros y Hx. apply Ha; [left|done]. }
  destruct (IH w1 Hd1) as (w2 & H2 & Hd2 & Hg2 & Hset2);
    [apply Hset|intros e' y He' Hx; apply Ha; [by right|by apply Hset]|].
  exists w2. split_and!; [done|done|by etrans|by eapply settled_trans].
Qed.

(** Reading a batch makes the entries past the cursor pending, in order, and
    leaves the stream as it is. *)
Lemma xreadgroup_ok now c n s :
  stream_ok s →
  let '(l, s') := xreadgroup now c n s in
  stream_ok s' ∧ s_entries s' = s_entries s ∧ ∀ e, e ∈ l → e ∈ s_entries s.
Proof.
  intros [Hs Hp]. pose proof (xreadgroup_open now c n s Hs) as H.
  destruct (xreadgroup now c n s) as [l s']. destruct H as (Hent & Hin & Ho).
  split; [|done]. split; [by rewrite Hent|]. intros e He. apply Ho. rewrite Hent in He.
  split; [done|by apply Hp].
Qed.

(** C11 (the consumer loses no order).  A batch never raises.  Every intent that was
    in the stream is afterwards still there - and then pending or not yet
    delivered, so that a later read or [reclaim_stale_order_intents] meets it - or
    an order with its key is in the database; no intent appears from nowhere, the
    schema's constraints hold and no order is touched.  This is so whatever happens
    to the database connection while each intent is persisted; Redis stays up. *)
Theorem consume_batch_loses_nothing x tx consumer w :
  db_ok (w_db w) → stream_ok (r_stream (w_redis w)) →
  let '(out, w') := consume_batch x tx consumer w in
  (∃ n, out = Ok n) ∧ db_ok (w_db w') ∧ grown (w_db w) (w_db w') ∧
  settled_into (w_db w') (r_stream (w_redis w)) (r_stream (w_redis w')).
Proof.
  intros Hd Hs. unfold consume_batch.
  pose proof (xreadgroup_ok (r_now (w_redis w)) consumer READ_COUNT (r_stream (w_redis w)) Hs) as Hx.
  destruct (xreadgroup _ _ _ _) as [l s]. destruct Hx as (Hs' & Hent & Hin).
  set (w1 := mk_world (w_db w) (set_stream s (w_redis w))).
  assert (H0 : settled_into (w_db w) (r_stream (w_redis w)) s).
  { split; [done|]. rewrite Hent. split; auto. }
  assert (Hcons : ∃ w', consume_all x tx l w1 = (Ok tt, w') ∧ db_ok (w_db w') ∧
    grown (w_db w1) (w_db w') ∧ settled_into (w_db w') s (r_stream (w_redis w'))).
  { apply consume_all_cases; [done|done|]. intros e y He Hx1 Hx2. simpl in Hx1.
    eapply nodup_fst_unique; [apply sorted_ids, Hs|by rewrite <-Hent|by apply Hin|done]. }
  destruct l as [|e l]; [split_and!; [by eexists|done|reflexivity|done]|].
  destruct Hcons as (w' & Hc & Hd' & Hg & Hset). unfold bind. rewrite Hc. simpl.
  split_and!; [by eexists|done|done|by eapply settled_trans].
Qed.

(** ** Dead letters *)

(** The part of Redis that says what can be sold, and to whom. *)
Definition sellable (r : Redis) :=
  (r_available r, r_purchased r, r_zone_available r, r_runs r, r_ends r, r_released r).

Lemma release_seats_cases e z u b s l m ttl r :
  match release_seats e z u b s l m ttl r with
  | (Ok true, r') => ∃ n, release_effect (mk_release_args e z m b s l ttl u) r n r' ∨
      ∃ r1, release_effect (mk_release_args e z m b s l ttl u) r n r1 ∧ r' = poke e r1
  | (Ok false, r') => r' = r ∧ released_exists r m = true
  | (Err _, r') => r' = r ∧ released_exists r m = false
  end.
Proof.
  unfold release_seats.
  destruct (release_seats_lua (mk_release_args e z m b s l ttl u) r) as [res r'] eqn:Hc.
  pose proof (release_rejected _ _ _ _ Hc) as Hrej. cbn zeta in Hrej.
  destruct res as [|s0 l0|c|lo n rem]; [done|by destruct Hrej as (? & ? & _)..|].
  apply release_accepted in Hc. destruct (_ && _); eauto.
Qed.

(** A refund leaves everything sellable as it was when the marker is live. *)
Lemma refund_replay f idem r :
  released_exists r (dead_marker idem) = true → (dead_letter_refund f idem r).2 = r.
Proof.
  intros Hm. unfold dead_letter_refund.
  destruct (optional_field f "block_id") as [b|].
  - destruct (optional_field f "zone_id") as [z|]; [|done].
    repeat (rewrite bind_lift; match goal with |- context [match ?x with Ok _ => _ | Err _ => _ end] =>
      destruct x end; [|done]).
    unfold bind. pose proof (release_seats_cases a a0 a1 a2 a3 a4 (dead_marker idem)
      DEFAULT_TTL_SECONDS r) as H.
    destruct (release_seats _ _ _ _ _ _ _ _ r) as [[[]|e] r'].
    + destruct H as (n & [H|(r1 & H & _)]); pose proof (re_fresh _ _ _ _ H) as Hf;
        simpl in Hf; congruence.
    + by destruct H as [-> _].
    + destruct H as [_ H]. congruence.
  - repeat (rewrite bind_lift; match goal with |- context [match ?x with Ok _ => _ | Err _ => _ end] =>
      destruct x end; [|done]).
    unfold bind, Inventory.release. by rewrite release_lua_replay.
Qed.

(** What a dead letter did when it did not raise: the entry parked, the claim
    FAILED, and the refund run exactly when the key has no order. *)
Lemma dead_letter_cases excess i f w :
  match dead_letter_intent excess i f w with
  | (Ok _, w') => ∃ idem k, f !! "idempotency_key" = Some idem ∧ key_field f = Ok k ∧
      w_db w' = w_db w ∧
      let r1 := xadd_dead excess (<["original_id" := sid_str i]> f) (w_redis w) in
      let r2 := if is_some (order_by_key (w_db w) k) then r1 else (dead_letter_refund f idem r1).2 in
      w_redis w' = set_claim idem "FAILED" DEFAULT_TTL_SECONDS r2
  | (Err e, w') => w_db w' = w_db w ∧
      (w_redis w' = w_redis w ∧ (∀ k, key_field f ≠ Ok k) ∨
       ∃ idem k, f !! "idempotency_key" = Some idem ∧ key_field f = Ok k ∧
         order_by_key (w_db w) k = None ∧
       let r1 := xadd_dead excess (<["original_id" := sid_str i]> f) (w_redis w) in
       w_redis w' = (dead_letter_refund f idem r1).2)
  end.
Proof.
  unfold dead_letter_intent. rewrite bind_lift.
  destruct (f !! "idempotency_key") as [idem|] eqn:Hi.
  2:{ split; [done|]. left. split; [done|]. intros k. unfold key_field. by rewrite Hi. }
  rewrite bind_lift. destruct (key_field f) as [k|e] eqn:Hk; [|by auto].
  unfold bind at 1, transaction, get_order_by_idempotency_key, gets. simpl.
  unfold bind at 1. unfold in_redis at 1, modify. simpl.
  set (r1 := xadd_dead _ _ (w_redis w)).
  destruct (is_some (order_by_key (w_db w) k)) eqn:Ho; simpl.
  { exists idem, k. rewrite Ho. done. }
  unfold bind, in_redis. simpl.
  destruct (dead_letter_refund f idem r1) as [[b|e] r2] eqn:Hr; simpl.
  - exists idem, k. rewrite Ho. fold r1. by rewrite Hr.
  - split; [done|]. right. exists idem, k. fold r1. rewrite Hr.
    by destruct (order_by_key (w_db w) k).
Qed.

Lemma xadd_dead_facts excess f r :
  let r1 := xadd_dead excess f r in
  sellable r1 = sellable r ∧ r_now r1 = r_now r ∧ r_stream r1 = r_stream r ∧
  r_claims r1 = r_claims r ∧ r_geom r1 = r_geom r.
Proof. done. Qed.

Lemma set_claim_facts k v t r :
  let r1 := set_claim k v t r in
  sellable r1 = sellable r ∧ r_now r1 = r_now r ∧ r_stream r1 = r_stream r.
Proof. done. Qed.

(** A dead letter oversells nothing that is recorded, and refunds once.  When
    an order with the intent's key exists, dead-lettering the intent changes
    neither stock, quotas, free seats nor markers; and once the refund's marker
    is live, dead-lettering the same intent again - a crash before the
    acknowledgement - changes none of them either.  The database is never
    written, and a run that does not raise leaves the claim FAILED. *)
Theorem dead_letter_refund_guarded excess i f w :
  let '(out, w') := dead_letter_intent excess i f w in
  w_db w' = w_db w ∧
  (recorded f (w_db w) → sellable (w_redis w') = sellable (w_redis w)) ∧
  (∀ idem, f !! "idempotency_key" = Some idem →
     released_exists (w_redis w) (dead_marker idem) = true →
     sellable (w_redis w') = sellable (w_redis w)) ∧
  (out = Ok tt → ∃ idem, f !! "idempotency_key" = Some idem ∧
     claim_state (w_redis w') idem = Some "FAILED").
Proof.
  assert (Hclaim : ∀ k r, claim_state (set_claim k "FAILED" DEFAULT_TTL_SECONDS r) k = Some "FAILED").
  { intros k r. unfold claim_state, set_claim. simpl. rewrite lookup_insert_eq.
    unfold live, expiry_after, DEFAULT_TTL_SECONDS. simpl. case_goal; [done|zlia]. }
  pose proof (dead_letter_cases excess i f w) as H.
  destruct (dead_letter_intent excess i f w) as [[u|e] w'].
  - destruct H as (idem & k & Hi & Hk & Hd & Hr). cbn zeta in Hr. split; [done|]. rewrite Hr.
    split_and!.
    + intros (k' & o & Hk' & Ho). assert (k' = k) as -> by congruence. by rewrite Ho.
    + intros idem' Hi' Hm. assert (idem' = idem) as -> by congruence.
      destruct (is_some _); [done|]. by rewrite refund_replay.
    + intros _. exists idem. split; [done|]. apply Hclaim.
  - destruct H as [Hd H]. split; [done|]. split_and!; [| |done].
    + intros (k & o & Hk & Ho). destruct H as [[-> _]|(idem & k' & _ & Hk' & Hno & _)]; [done|].
      congruence.
    + intros idem' Hi' Hm. destruct H as [[-> _]|(idem & k & Hi & _ & _ & Hr)]; [done|].
      assert (idem' = idem) as -> by congruence. cbn zeta in Hr. rewrite Hr.
      by rewrite refund_replay.
Qed.

(** The refund of a seat intent is a release of its interval. *)
Lemma refund_seat_intent a idem :
  dead_letter_refund (seat_intent a) idem =
  (release_seats (ca_event a) (ca_zone a) (ca_user a) (ca_block a) (ca_start a) (ca_len a)
     (dead_marker idem) DEFAULT_TTL_SECONDS ;;; ret true).
Proof.
  destruct (seat_intent_fields a) as (F1 & F2 & F3 & _ & _ & F6 & F7 & F8).
  unfold dead_letter_refund.
  rewrite (optional_field_str _ _ _ F7), (optional_field_str _ _ _ F6), (int_field_str _ _ _ F2),
    !int_str_z, (int_field_str _ _ _ F1), (int_field_str _ _ _ F3), (int_field_str _ _ _ F8).
  reflexivity.
Qed.

(** A release of taken seats inside the block frees them. *)
Lemma release_seats_frees e z u b s l m ttl r :
  seats_inv r → 1 <= l → released_exists r m = false →
  out_of_block (geom_capacity r (e, z) b) s (s + l) = false →
  (∀ q, s <= q < s + l → ¬ zone_free r (e, z) b q) →
  ∀ p, s <= p < s + l → zone_free (release_seats e z u b s l m ttl r).2 (e, z) b p.
Proof.
  intros Hinv Hl Hm Hb Hno p Hp. unfold release_seats.
  destruct (release_seats_lua (mk_release_args e z m b s l ttl u) r) as [res r'] eqn:Hc.
  pose proof (release_rejected _ _ _ _ Hc) as Hrej. cbn zeta in Hrej. simpl in Hrej.
  destruct res as [|s0 l0|c|lo n rem].
  - destruct Hrej. congruence.
  - destruct Hrej as (_ & _ & Hex). exfalso.
    apply overlap_free in Hex as (q & Hq & Hfree); [by apply (Hno q)|apply Hinv|lia].
  - destruct Hrej as (_ & _ & Ho). congruence.
  - apply release_accepted in Hc.
    edestruct release_effect_seats as [_ Hf]; [exact Hinv| |exact Hc|]; [exact Hl|].
    assert (zone_free r' (e, z) b p) by (apply Hf; by right).
    by destruct (_ && _).
Qed.

(** The guard does not cover a rejected overlap.  An intent the database
    refused because its interval meets another order's hold is dead-lettered like
    any other: if Redis still counts the interval as taken, the seats that other
    order holds become free, against the rule that a rejected interval is never
    given back. *)
Theorem dead_letter_frees_held_seats excess i a u w h p :
  is_uuid u → ca_idem a = uuid_str u → 1 <= ca_len a → seats_inv (w_redis w) →
  let zk := (ca_event a, ca_zone a) in
  let hi := ca_start a + ca_len a in
  ¬ recorded (seat_intent a) (w_db w) →
  released_exists (w_redis w) (dead_marker (ca_idem a)) = false →
  out_of_block (geom_capacity (w_redis w) zk (ca_block a)) (ca_start a) hi = false →
  (∀ q, ca_start a <= q < hi → ¬ zone_free (w_redis w) zk (ca_block a) q) →
  d_holds (w_db w) !! hd_order h = Some h →
  (hd_event h, hd_zone h, hd_block h) = (zk, ca_block a) →
  hd_start h <= p < hd_start h + hd_len h → ca_start a <= p < hi →
  let w' := (dead_letter_intent excess i (seat_intent a) w).2 in
  d_holds (w_db w') !! hd_order h = Some h ∧ zone_free (w_redis w') zk (hd_block h) p.
Proof.
  intros Hu Hk Hlen Hinv zk hi Hrec Hm Hb Hno Hh Heq Hp1 Hp2. cbn zeta.
  destruct (seat_intent_fields a) as (_ & _ & _ & _ & F5 & _).
  assert (Hkey : key_field (seat_intent a) = Ok u)
    by (apply key_field_uuid; [done|by rewrite <-Hk]).
  injection Heq as _ _ Hbk. rewrite Hbk.
  set (r1 := xadd_dead excess (<["original_id" := sid_str i]> (seat_intent a)) (w_redis w)).
  assert (Hfree : zone_free (dead_letter_refund (seat_intent a) (ca_idem a) r1).2 zk (ca_block a) p).
  { rewrite refund_seat_intent. unfold bind.
    assert (Hr : zone_free (release_seats (ca_event a) (ca_zone a) (ca_user a) (ca_block a)
      (ca_start a) (ca_len a) (dead_marker (ca_idem a)) DEFAULT_TTL_SECONDS r1).2 zk (ca_block a) p)
      by (apply release_seats_frees; [by destruct Hinv|done|exact Hm|exact Hb|exact Hno|done]).
    by destruct (release_seats _ _ _ _ _ _ _ _ r1) as [[]]. }
  assert (Hnone : order_by_key (w_db w) u = None).
  { destruct (order_by_key (w_db w) u) eqn:Ho; [|done]. destruct Hrec. by eexists u, _. }
  pose proof (dead_letter_cases excess i (seat_intent a) w) as H. fold r1 in H.
  destruct (dead_letter_intent excess i (seat_intent a) w) as [[[]|e] w']; simpl.
  - destruct H as (idem & k & Hi & Hk' & -> & Hr). cbn zeta in Hr.
    assert (idem = ca_idem a) as -> by congruence. assert (k = u) as -> by congruence.
    rewrite Hnone in Hr. simpl in Hr. by rewrite Hr.
  - destruct H as [-> [[_ Hno']|(idem & k & Hi & _ & _ & Hr)]]; [by destruct (Hno' u)|].
    assert (idem = ca_idem a) as -> by congruence. cbn zeta in Hr. by rewrite Hr.
Qed.

(** ** Recovery *)

Lemma refund_stream f idem r : r_stream (dead_letter_refund f idem r).2 = r_stream r.
Proof.
  unfold dead_letter_refund. destruct (optional_field f "block_id") as [b|].
  - destruct (optional_field f "zone_id") as [z|]; [|done].
    repeat (rewrite bind_lift; match goal with |- context [match ?x with Ok _ => _ | Err _ => _ end] =>
      destruct x end; [|done]).
    unfold bind. pose proof (release_seats_cases a a0 a1 a2 a3 a4 (dead_marker idem)
      DEFAULT_TTL_SECONDS r) as H.
    destruct (release_seats _ _ _ _ _ _ _ _ r) as [[[]|e] r']; simpl.
    + by destruct H as (n & [H|(r1 & H & ->)]); apply (re_stream _ _ _ _ H).
    + by destruct H as [-> _].
    + by destruct H as [-> _].
  - repeat (rewrite bind_lift; match goal with |- context [match ?x with Ok _ => _ | Err _ => _ end] =>
      destruct x end; [|done]).
    unfold bind, Inventory.release, release_lua. by destruct (released_exists _ _); simpl; case_goal.
Qed.

Lemma dead_letter_stream excess i f w :
  r_stream (w_redis (dead_letter_intent excess i f w).2) = r_stream (w_redis w).
Proof.
  pose proof (dead_letter_cases excess i f w) as H.
  destruct (dead_letter_intent excess i f w) as [[u|e] w']; simpl.
  - destruct H as (idem & k & _ & _ & _ & ->). simpl. destruct (is_some _); [done|].
    by rewrite refund_stream.
  - destruct H as [_ [[-> _]|(idem & k & _ & _ & _ & ->)]]; [done|]. by rewrite refund_stream.
Qed.

(** A dead letter that raises stops the recovery.  The dead-letter path is not
    inside the loop's exception handler: when the first pending entry is past its
    deliveries and its dead-lettering raises, the run ends with that exception,
    the entry stays pending - so the next run meets it first again - and no later
    entry, however old, is looked at. *)
Theorem failing_dead_letter_blocks_reclaim x tx idle maxd excess p l f s1 e w w2 :
  let r := w_redis w in
  xclaim (r_now r) idle ORDER_CONSUMER_NAME p.1 (r_stream r) = (Some f, s1) →
  maxd <= p_count p.2 →
  dead_letter_intent excess p.1 f (mk_world (w_db w) (set_stream s1 r)) = (Err e, w2) →
  reclaim_all x tx idle maxd excess (p :: l) w = (Err e, w2) ∧
  w_db w2 = w_db w ∧
  (p.1, f) ∈ s_entries (r_stream (w_redis w2)) ∧
  is_Some (s_pel (r_stream (w_redis w2)) !! p.1) ∧
  ∀ j, j ≠ p.1 → s_pel (r_stream (w_redis w2)) !! j = s_pel (r_stream r) !! j.
Proof.
  intros r Hx Hmax Hdl.
  pose proof (dead_letter_stream excess p.1 f (mk_world (w_db w) (set_stream s1 r))) as Hst.
  pose proof (dead_letter_cases excess p.1 f (mk_world (w_db w) (set_stream s1 r))) as Hc.
  rewrite Hdl in Hst, Hc. simpl in Hst. destruct Hc as [Hdb _]. simpl in Hdb.
  destruct (xclaim_some _ _ _ _ _ _ _ Hx) as (Hin & Hent & Hp & Ho). rewrite Hst, Hent.
  split; [|done]. unfold reclaim_all, bind at 1, reclaim_entry. fold r. rewrite Hx.
  destruct (maxd <=? p_count p.2) eqn:Hm; [|zlia]. unfold bind. by rewrite Hdl.
Qed.

(** ** The two timeouts *)

(** Every unpaid order times out under exactly one of the two jobs.  The first
    timeout takes PENDING orders without a payment, the second those with one: no
    order is in both; and with settings that load, every order still PENDING past
    the second timeout is in one of them. *)
Theorem timeouts_partition s0 s now o :
  load_settings s0 = Ok s →
  let cutoff1 := now - PENDING_TIMEOUT_MINUTES s * 60000 in
  let cutoff2 := now - PAYMENT_ABANDON_TIMEOUT_MINUTES s * 60000 in
  ¬ (overdue cutoff1 o = true ∧ paying cutoff2 o = true) ∧
  (o_status o = PENDING → o_created o < cutoff2 →
     overdue cutoff1 o = true ∨ paying cutoff2 o = true) ∧
  (overdue cutoff1 o = true ∨ paying cutoff2 o = true → o_status o = PENDING).
Proof.
  intros Hl. assert (Hg : guard_abandon_after_pending s = true).
  { apply load_settings_guards in Hl as (_ & _ & Hg). unfold guards in Hg.
    rewrite !andb_true_iff in Hg. by destruct_and!. }
  unfold guard_abandon_after_pending in Hg. zbool.
  unfold overdue, paying. rewrite !andb_true_iff, !bool_decide_eq_true, !Z.ltb_lt.
  split_and!.
  - intros [[[_ _] Hn] [[_ [x Hx]] _]]. congruence.
  - intros Hs Ht. destruct (o_payment o); [right|left]; split_and!; try done; lia.
  - tauto.
Qed.

Lemma expire_tx_settle t seen i : expire_tx t seen i = settle_tx t (λ _, seen) i.
Proof. done. Qed.

Lemma release_order_seat_ok o w : db_ok (w_db w) → db_ok (w_db (release_order_seat o w).2).
Proof.
  intros Hd. unfold release_order_seat. destruct (o_zone o) as [z|]; [|by rewrite in_redis_db].
  unfold bind. pose proof (transaction_safe (take_hold (o_id o)) w (safe_take_hold _) Hd) as H.
  destruct (transaction _ w) as [[[h|]|e] w1]; simpl in *; [|done|done]. by rewrite in_redis_db.
Qed.

(** One order of the first timeout: expired, or left as it is. *)
Lemma expire_one_cases t seen i w :
  db_ok seen → db_ok (w_db w) →
  ∃ w', expire_one t seen i w = (Ok tt, w') ∧ db_ok (w_db w') ∧
    (d_orders (w_db w') = d_orders (w_db w) ∨
     ∃ d, expired_with_debt i (w_db w) d ∧ d_orders (w_db w') = d_orders d).
Proof.
  intros Hs Hd. unfold expire_one, bind, try_catch. rewrite expire_tx_settle.
  pose proof (settle_tx_cases t (λ _, seen) i w Hs Hd) as H.
  assert (Hsafe : safe (settle_tx t (λ _, seen) i)).
  { unfold settle_tx. destruct (d_orders seen !! i); [|auto with prog].
    destruct (negb _); [auto with prog|]. apply safe_bind; [apply safe_owing_release|].
    intros [[] o']; simpl; auto with prog. }
  pose proof (transaction_safe _ w Hsafe Hd) as Hok.
  destruct (transaction (settle_tx t (λ _, seen) i) w) as [[[o|]|e] w1]; simpl in *.
  - destruct H as [_ H]. unfold ret.
    destruct (release_keeps_orders o w1) as [Ho _].
    assert (Hok' : db_ok (w_db (release_order_seat o w1).2)) by (by apply release_order_seat_ok).
    destruct (release_order_seat o w1) as [[b|e] w2]; simpl in *; exists w2;
      (split; [done|]); (split; [done|]); right; by exists (w_db w1).
  - rewrite H in *. exists w. auto.
  - destruct H as [Ht _]. exists w1. split; [done|]. split; [done|]. left. apply Ht.
Qed.

(** The first timeout only expires unpaid orders it listed.  The job never
    raises; whatever the orders looked like when they were read again, each order
    ends as it was, or was listed - PENDING, old and without a payment - and went
    from PENDING to EXPIRED with everything else unchanged. *)
Theorem expire_pending_only_expires t seen minutes now w :
  db_ok (w_db w) → (∀ i, db_ok (seen i)) →
  let cutoff := now - minutes * 60000 in
  ∃ w', expire_pending_orders t seen minutes now w = (Ok tt, w') ∧ db_ok (w_db w') ∧
    ∀ i row, d_orders (w_db w) !! i = Some row →
      ∃ row', d_orders (w_db w') !! i = Some row' ∧
        (row' = row ∨
         overdue cutoff row = true ∧ o_status row' = EXPIRED ∧ same_purchase row row').
Proof.
  intros Hd Hs cutoff. unfold expire_pending_orders. fold cutoff.
  assert (Hids : ∀ i row, i ∈ overdue_ids (w_db w) cutoff → d_orders (w_db w) !! i = Some row →
    overdue cutoff row = true).
  { intros i row Hi Hrow. unfold overdue_ids in Hi.
    apply list_elem_of_fmap in Hi as (o & -> & Hi). apply list_elem_of_filter in Hi as [Ho Hin].
    apply list_elem_of_fmap in Hin as ([j x] & -> & Hin). apply elem_of_map_to_list in Hin.
    simpl in *. destruct (ok_order_checks _ Hd _ _ Hin) as [Hid _]. rewrite Hid in Hrow.
    congruence. }
  revert Hids. generalize (overdue_ids (w_db w) cutoff). intros ids Hids.
  assert (Hgen : ∀ w0, db_ok (w_db w0) →
    (∀ i row, d_orders (w_db w) !! i = Some row → ∃ row', d_orders (w_db w0) !! i = Some row' ∧
        (row' = row ∨ overdue cutoff row = true ∧ o_status row' = EXPIRED ∧ same_purchase row row')) →
    ∃ w', expire_all t seen ids w0 = (Ok tt, w') ∧ db_ok (w_db w') ∧
    (∀ i row, d_orders (w_db w) !! i = Some row → ∃ row', d_orders (w_db w') !! i = Some row' ∧
        (row' = row ∨ overdue cutoff row = true ∧ o_status row' = EXPIRED ∧ same_purchase row row')));
    [|apply Hgen; [done|]; intros; eauto].
  induction ids as [|j ids IH]; intros w0 Hd0 H0; simpl; [eauto|].
  destruct (expire_one_cases t (seen j) j w0 (Hs j) Hd0) as (w1 & H1 & Hd1 & Hc).
  unfold bind. rewrite H1. apply IH; [intros i row Hi; apply Hids; by right|done|].
  intros i row Hi. destruct (H0 i row Hi) as (row' & Hi' & Hr).
  destruct Hc as [->|(d & (x & o & Hx & Hp & He & Hsame & Ho & _) & ->)]; [eauto|].
  rewrite Ho. destruct (decide (i = j)) as [->|Hne].
  - exists o. rewrite lookup_insert_eq. split; [done|]. right.
    assert (row' = x) as -> by congruence.
    destruct Hr as [->|(_ & Hexp & _)]; [|congruence].
    split_and!; [|done|done]. apply (Hids j); [left|done].
  - exists row'. by rewrite lookup_insert_ne.
Qed.

(** ** The outbox *)

Definition outbox_inv (d : DB) : Prop := ∀ i e, d_outbox d !! i = Some e →
  ob_id e = i ∧ 0 <= ob_attempts e <= OUTBOX_MAX_ATTEMPTS.

Lemma backoff_range n : 0 <= n → OUTBOX_BACKOFF_BASE_S <= backoff_s n <= OUTBOX_BACKOFF_CAP_S.
Proof.
  intros Hn. unfold backoff_s, OUTBOX_BACKOFF_BASE_S, OUTBOX_BACKOFF_CAP_S.
  assert (1 <= 2 ^ n) by (apply (Z.pow_le_mono_r 2 0 n); lia). lia.
Qed.

Lemma outbox_batch_spec locked now d :
  outbox_inv d →
  let rows := outbox_batch locked now d in
  (length rows <= OUTBOX_BATCH)%nat ∧ NoDup (ob_id <$> rows) ∧
  (∀ e, e ∈ rows → d_outbox d !! ob_id e = Some e ∧ due now e = true ∧ ob_id e ∉ locked) ∧
  ((length rows < OUTBOX_BATCH)%nat →
     ∀ i e, d_outbox d !! i = Some e → due now e = true → i ∉ locked → e ∈ rows).
Proof.
  intros Hinv. unfold outbox_batch. set (all := filter _ _). set (sorted := isort _ all).
  assert (Hall : ∀ e, e ∈ all ↔ d_outbox d !! ob_id e = Some e ∧ due now e = true ∧ ob_id e ∉ locked).
  { intros e. unfold all. rewrite list_elem_of_filter, list_elem_of_fmap. split.
    - intros [[Hd Hl] ([i x] & -> & Hin)]. apply elem_of_map_to_list in Hin. simpl in *.
      destruct (Hinv _ _ Hin) as [<- _]. done.
    - intros (Hi & ? & ?). split; [done|]. exists (ob_id e, e). split; [done|].
      by apply elem_of_map_to_list. }
  assert (Hs : ∀ e, e ∈ sorted ↔ e ∈ all) by (intros; apply elem_of_isort).
  assert (Hnd : NoDup (ob_id <$> sorted)).
  { unfold sorted. rewrite (isort_perm _ all). apply NoDup_fmap_2_strong.
    - intros x y Hx%Hall Hy%Hall Heq. destruct Hx as [Hx _], Hy as [Hy _]. congruence.
    - apply NoDup_filter, (NoDup_fmap_2_strong snd).
      + intros [i x] [j y] Hx Hy Heq. simpl in Heq. subst y.
        apply elem_of_map_to_list in Hx, Hy.
        destruct (Hinv _ _ Hx) as [<- _]. by destruct (Hinv _ _ Hy) as [<- _].
      + apply NoDup_map_to_list. }
  assert (Htake : ∀ e, e ∈ take OUTBOX_BATCH sorted → e ∈ sorted).
  { intros e He. rewrite <-(take_drop OUTBOX_BATCH sorted). apply elem_of_app. by left. }
  cbn zeta. split_and!.
  - rewrite length_take. lia.
  - rewrite fmap_take. eapply sublist_NoDup; [exact Hnd|]. apply sublist_take.
  - intros e He. by apply Hall, Hs, Htake.
  - intros Hlen i e Hi Hdue Hl. rewrite length_take in Hlen. rewrite take_ge by lia.
    apply Hs, Hall. by destruct (Hinv _ _ Hi) as [-> _].
Qed.

Lemma foldr_leased now rows (m : gmap Z OutboxEntry) i :
  NoDup (ob_id <$> rows) →
  foldr (λ e m, <[ob_id e := leased now e]> m) m rows !! i =
  match list_find (λ e, ob_id e = i) rows with
  | Some (_, e) => Some (leased now e)
  | None => m !! i
  end.
Proof.
  induction rows as [|e rows IH]; simpl; [done|]. intros [Hn Hnd]%NoDup_cons.
  destruct (decide (ob_id e = i)) as [<-|Hne]; [by rewrite lookup_insert_eq|].
  rewrite lookup_insert_ne by done. rewrite IH by done.
  by destruct (list_find _ rows) as [[]|].
Qed.

(** A claimed row is leased.  The claim takes at most a hundred due, unlocked
    rows - all of them when there are fewer - raises each one's attempts by one
    and puts its next attempt between one minute and one hour away; so a row
    being worked on is not due for anybody else, a relay that dies lets it come
    back by itself, and no row is ever claimed a ninth time. *)
Theorem outbox_claim_leases locked now d :
  outbox_inv d →
  let '(out, d') := claim_outbox locked now d in
  ∃ rows, out = Ok rows ∧ outbox_inv d' ∧ (length rows <= OUTBOX_BATCH)%nat ∧
    (∀ e, e ∈ rows → d_outbox d !! ob_id e = Some e ∧ due now e = true ∧ (ob_id e ∉ locked) ∧
       ∃ e', d_outbox d' !! ob_id e = Some e' ∧ ob_attempts e' = ob_attempts e + 1 ∧
         ob_attempts e' <= OUTBOX_MAX_ATTEMPTS ∧
         now + 60000 <= ob_next_attempt e' <= now + 3600000 ∧
         (∀ now', due now' e' = true → now + 60000 <= now')) ∧
    ((length rows < OUTBOX_BATCH)%nat →
       ∀ i e, d_outbox d !! i = Some e → due now e = true → i ∉ locked → e ∈ rows) ∧
    (∀ i, (∀ e, e ∈ rows → ob_id e ≠ i) → d_outbox d' !! i = d_outbox d !! i).
Proof.
  intros Hinv. unfold claim_outbox.
  destruct (outbox_batch_spec locked now d Hinv) as (Hlen & Hnd & Hrows & Hfull).
  set (rows := outbox_batch locked now d) in *. exists rows. split; [done|].
  assert (Hback : ∀ e, e ∈ rows → 60 <= backoff_s (ob_attempts e) <= 3600 ∧
                                  ob_attempts e + 1 <= OUTBOX_MAX_ATTEMPTS).
  { intros e He. destruct (Hrows e He) as (Hi & Hdue & _). destruct (Hinv _ _ Hi) as [_ ?].
    unfold due in Hdue. zbool. split; [apply backoff_range; lia|lia]. }
  assert (Hfind : ∀ i, match list_find (λ e, ob_id e = i) rows with
    | Some (_, e) => e ∈ rows ∧ ob_id e = i | None => (∀ e, e ∈ rows → ob_id e ≠ i) end).
  { intros i. destruct (list_find _ rows) as [[n e]|] eqn:Hf.
    - apply list_find_Some in Hf as (Hl & ? & _). split; [by eapply list_elem_of_lookup_2|done].
    - apply list_find_None in Hf. by rewrite Forall_forall in Hf. }
  split_and!; [|done| |done|].
  - intros i e He. simpl in He. rewrite foldr_leased in He by done. specialize (Hfind i).
    destruct (list_find _ rows) as [[n x]|]; [|by apply Hinv]. destruct Hfind as [Hx <-].
    injection He as <-. simpl. destruct (Hrows x Hx) as (Hi & _). destruct (Hinv _ _ Hi) as [_ ?].
    destruct (Hback x Hx). split; [done|lia].
  - intros e He. destruct (Hrows e He) as (Hi & Hdue & Hl). split_and!; [done..|].
    exists (leased now e). simpl. rewrite foldr_leased by done. specialize (Hfind (ob_id e)).
    destruct (list_find _ rows) as [[n x]|]; [|by destruct (Hfind e He)].
    destruct Hfind as [Hx Hid]. destruct (Hrows x Hx) as (Hix & _).
    assert (x = e) as -> by congruence. destruct (Hback e He). split_and!; [done|done|lia..|].
    intros now'. unfold due. simpl. rewrite !andb_true_iff, Z.leb_le. lia.
  - intros i Hno. simpl. rewrite foldr_leased by done. specialize (Hfind i).
    destruct (list_find _ rows) as [[n x]|]; [|done]. destruct Hfind as [Hx Hid].
    by destruct (Hno x Hx).
Qed.

(** The release an order was owed has been made, as far as the stores tell: its
    marker is live, or its hold is gone. *)
Definition paid_back (order_id : Z) (w : World) : Prop :=
  ∀ o, d_orders (w_db w) !! order_id = Some o →
    match o_zone o with
    | None => released_exists (w_redis w) (order_marker (o_id o)) = true
    | Some _ => d_holds (w_db w) !! o_id o = None
    end.

(** What releases do to the stores: holds only go, live markers stay. *)
Record releasing (w w' : World) : Prop := {
  rl_orders : d_orders (w_db w') = d_orders (w_db w);
  rl_outbox : d_outbox (w_db w') = d_outbox (w_db w);
  rl_holds : ∀ i, d_holds (w_db w) !! i = None → d_holds (w_db w') !! i = None;
  rl_markers : ∀ m, released_exists (w_redis w) m = true → released_exists (w_redis w') m = true;
}.

#[global] Instance releasing_refl : Reflexive releasing.
Proof. intros w. split; auto. Qed.
#[global] Instance releasing_trans : Transitive releasing.
Proof. intros w1 w2 w3 [] []. split; try congruence; auto. Qed.

Lemma marked_live r r' m ttl :
  0 < ttl → r_released r' = <[m := expiry_after r ttl]> (r_released r) → r_now r' = r_now r →
  released_exists r' m = true ∧
  ∀ k, released_exists r k = true → released_exists r' k = true.
Proof.
  intros Ht Hr Hn. unfold released_exists. rewrite Hr.
  assert (Hl : live r' (expiry_after r ttl) = true)
    by (unfold live, expiry_after; rewrite Hn; zlia).
  split; [by rewrite lookup_insert_eq|]. intros k Hk.
  destruct (decide (k = m)) as [->|]; [by rewrite lookup_insert_eq|].
  rewrite lookup_insert_ne by done. destruct (r_released r !! k); [|done].
  unfold live in *. by rewrite Hn.
Qed.

Lemma poke_markers e r m : released_exists (poke e r) m = released_exists r m.
Proof. done. Qed.

Lemma counter_release_marks e u q m r :
  ∃ b r', Inventory.release e u q m DEFAULT_TTL_SECONDS r = (Ok b, r') ∧
    released_exists r' m = true ∧
    ∀ k, released_exists r k = true → released_exists r' k = true.
Proof.
  unfold Inventory.release. destruct (released_exists r m) eqn:Hm.
  { rewrite release_lua_replay by done. eauto. }
  destruct (release_lua_fresh e u q m DEFAULT_TTL_SECONDS r Hm)
    as (n & r' & -> & _ & _ & _ & Hr & Hn & _).
  destruct (marked_live r r' m DEFAULT_TTL_SECONDS) as [H1 H2]; [done..|].
  do 2 eexists. split; [done|]. by destruct (_ && _).
Qed.

Lemma seats_release_marks e z u b s l m r k :
  released_exists r k = true →
  released_exists (release_seats e z u b s l m DEFAULT_TTL_SECONDS r).2 k = true.
Proof.
  intros Hk. pose proof (release_seats_cases e z u b s l m DEFAULT_TTL_SECONDS r) as H.
  destruct (release_seats _ _ _ _ _ _ _ _ r) as [[[]|e0] r']; simpl.
  - destruct H as (n & [H|(r1 & H & ->)]); [|rewrite poke_markers];
      apply (marked_live r _ m DEFAULT_TTL_SECONDS); [done|apply (re_released _ _ _ _ H)
        |apply (re_now _ _ _ _ H)|done|done|apply (re_released _ _ _ _ H)
        |apply (re_now _ _ _ _ H)|done].
  - by destruct H as [-> _].
  - by destruct H as [-> _].
Qed.

Lemma release_order_seat_cases o w :
  let out := release_order_seat o w in
  releasing w out.2 ∧
  (is_ok out.1 = true → match o_zone o with
     | None => released_exists (w_redis out.2) (order_marker (o_id o)) = true
     | Some _ => d_holds (w_db out.2) !! o_id o = None
     end).
Proof.
  cbn zeta. unfold release_order_seat. destruct (o_zone o) as [z|].
  - unfold bind, transaction, take_hold.
    destruct (d_holds (w_db w) !! o_id o) as [h|] eqn:Hh; simpl.
    + unfold in_redis, give_back. simpl.
      pose proof (seats_release_marks (o_event o) z (o_user o) (hd_block h) (hd_start h) (hd_len h)
        (order_marker (o_id o)) (w_redis w)) as Hm.
      destruct (release_seats _ _ _ _ _ _ _ _ (w_redis w)) as [x r]; simpl in *.
      split; [split; simpl; try done|intros _; apply lookup_delete_eq].
      intros i Hi. destruct (decide (i = o_id o)) as [->|]; [apply lookup_delete_eq|].
      by rewrite lookup_delete_ne.
    + split; [by split|done].
  - unfold in_redis.
    destruct (counter_release_marks (o_event o) (o_user o) (o_quantity o) (order_marker (o_id o))
      (w_redis w)) as (b & r & -> & H1 & H2). simpl. by split.
Qed.

Lemma paid_back_mono i w w' : releasing w w' → paid_back i w → paid_back i w'.
Proof.
  intros [Ho _ Hh Hm] Hp o Hi. rewrite Ho in Hi. specialize (Hp o Hi).
  destruct (o_zone o); auto.
Qed.

(** What a row of the outbox may become in one pass. *)
Definition row_outcome (now : Z) (w' : World) (e e' : OutboxEntry) : Prop :=
  ob_id e' = ob_id e ∧ ob_type e' = ob_type e ∧ ob_aggregate e' = ob_aggregate e ∧
  (ob_processed e' = ob_processed e ∨
   ob_processed e' = Some now ∧ ob_type e = SEAT_RELEASE ∧ paid_back (ob_aggregate e) w').

(** A stretch of the relay's work: no order moves, no row goes. *)
Definition relayed (now : Z) (w w' : World) : Prop :=
  d_orders (w_db w') = d_orders (w_db w) ∧ (∀ i, paid_back i w → paid_back i w') ∧
  ∀ i e, d_outbox (w_db w) !! i = Some e →
    ∃ e', d_outbox (w_db w') !! i = Some e' ∧ row_outcome now w' e e'.

Lemma releasing_relayed now w w' : releasing w w' → relayed now w w'.
Proof.
  intros Hr. split_and!; [apply Hr|intros i; by apply paid_back_mono|].
  intros i e He. exists e. split; [by rewrite (rl_outbox _ _ Hr)|]. split_and!; auto.
Qed.

Lemma relayed_trans now w1 w2 w3 : relayed now w1 w2 → relayed now w2 w3 → relayed now w1 w3.
Proof.
  intros (O1 & P1 & R1) (O2 & P2 & R2). split_and!; [congruence|by auto|].
  intros i e He. destruct (R1 i e He) as (e2 & H2 & I2 & T2 & A2 & C2).
  destruct (R2 i e2 H2) as (e3 & H3 & I3 & T3 & A3 & C3). exists e3. split; [done|].
  split_and!; [congruence..|]. rewrite T2, A2 in C3.
  destruct C3 as [->|?]; [|by right]. destruct C2 as [->|(-> & ? & ?)]; auto.
Qed.

(** Stamping a row that was paid. *)
Lemma marked_relayed now id w :
  (∀ e, d_outbox (w_db w) !! id = Some e → ob_type e = SEAT_RELEASE ∧ paid_back (ob_aggregate e) w) →
  ∃ w', transaction (mark_processed id now) w = (Ok tt, w') ∧ relayed now w w'.
Proof.
  intros Hp. unfold transaction, mark_processed, modify. simpl. eexists. split; [done|].
  destruct (d_outbox (w_db w) !! id) as [e|] eqn:He; [|by apply releasing_relayed; split].
  split_and!; [done|done|]. intros i x Hx. simpl. destruct (decide (i = id)) as [->|Hne].
  - rewrite lookup_insert_eq. eexists. split; [done|]. assert (x = e) as -> by congruence.
    destruct (Hp e eq_refl). split_and!; [done..|right]. done.
  - rewrite lookup_insert_ne by done. exists x. split; [done|]. split_and!; auto.
Qed.

(** The row a claimed copy stands for. *)
Definition row_of (w : World) (e : OutboxEntry) : Prop :=
  ∃ x, d_outbox (w_db w) !! ob_id e = Some x ∧ ob_type x = ob_type e ∧
       ob_aggregate x = ob_aggregate e.

Lemma row_of_relayed now w w' e : relayed now w w' → row_of w e → row_of w' e.
Proof.
  intros (_ & _ & Hr) (x & Hx & Ht & Ha). destruct (Hr _ _ Hx) as (x' & Hx' & _ & Ht' & Ha' & _).
  exists x'. split_and!; [done|congruence..].
Qed.

Lemma handle_seat_release_eq i w :
  handle_seat_release i w = match d_orders (w_db w) !! i with
    | None => (Ok tt, w)
    | Some o => (release_order_seat o ;;; ret tt) w
    end.
Proof.
  unfold handle_seat_release, bind at 1, transaction, get_order_by_id, gets. simpl.
  replace (mk_world (w_db w) (w_redis w)) with w by (by destruct w).
  by destruct (d_orders (w_db w) !! i).
Qed.

Lemma bind_try {B} (m : M World exn unit) (k : bool → M World exn B) w :
  (let! ok := try_catch (m ;;; ret true) (λ _, ret false) in k ok) w =
  match m w with (Ok _, w') => k true w' | (Err _, w') => k false w' end.
Proof. unfold bind, try_catch. by destruct (m w) as [[[]|e] w']. Qed.

Lemma process_row_cases now e w :
  row_of w e → ∃ w', process_row now e w = (Ok tt, w') ∧ relayed now w w'.
Proof.
  intros (x & Hx & Hxt & Hxa). unfold process_row, outbox_handler.
  destruct (bool_decide _) eqn:Hty; [|exists w; split; [done|by apply releasing_relayed]].
  apply bool_decide_eq_true in Hty.
  rewrite bind_try, handle_seat_release_eq.
  destruct (d_orders (w_db w) !! ob_aggregate e) as [o|] eqn:Ho; simpl.
  2:{ apply marked_relayed. intros y Hy. assert (y = x) as -> by congruence.
      split; [congruence|]. rewrite Hxa. intros o'. by rewrite Ho. }
  unfold bind. destruct (release_order_seat_cases o w) as [Hr Hok].
  destruct (release_order_seat o w) as [[b|ex] w1]; simpl in *.
  - destruct (marked_relayed now (ob_id e) w1) as (w2 & -> & H2).
    { intros y Hy. rewrite (rl_outbox _ _ Hr) in Hy. assert (y = x) as -> by congruence.
      split; [congruence|]. rewrite Hxa. intros o'. rewrite (rl_orders _ _ Hr), Ho.
      intros [= <-]. by apply Hok. }
    exists w2. split; [done|]. eapply relayed_trans; [by apply releasing_relayed|done].
  - exists w1. split; [done|by apply releasing_relayed].
Qed.

Lemma process_rows_cases now rows w :
  (∀ e, e ∈ rows → row_of w e) →
  ∃ w', process_rows now rows w = (Ok tt, w') ∧ relayed now w w'.
Proof.
  revert w. induction rows as [|e rows IH]; intros w Hrows; simpl.
  { exists w. split; [done|by apply releasing_relayed]. }
  destruct (process_row_cases now e w) as (w1 & H1 & R1); [apply Hrows; left|].
  unfold bind. rewrite H1. destruct (IH w1) as (w2 & H2 & R2).
  { intros x Hx. eapply row_of_relayed; [exact R1|]. apply Hrows. by right. }
  exists w2. split; [done|by eapply relayed_trans].
Qed.

Lemma claim_outbox_keeps locked now d :
  outbox_inv d →
  ∃ d', claim_outbox locked now d = (Ok (outbox_batch locked now d), d') ∧
    d_orders d' = d_orders d ∧ d_holds d' = d_holds d ∧
    ∀ i e, d_outbox d !! i = Some e → ∃ e', d_outbox d' !! i = Some e' ∧ ob_id e' = ob_id e ∧
      ob_type e' = ob_type e ∧ ob_aggregate e' = ob_aggregate e ∧ ob_processed e' = ob_processed e.
Proof.
  intros Hinv. destruct (outbox_batch_spec locked now d Hinv) as (_ & Hnd & Hrows & _).
  unfold claim_outbox. eexists. split; [done|]. split_and!; [done..|].
  intros i e He. simpl. rewrite foldr_leased by done.
  destruct (list_find _ _) as [[n x]|] eqn:Hf; [|by exists e].
  apply list_find_Some in Hf as (Hl & Hid & _). apply list_elem_of_lookup_2 in Hl.
  destruct (Hrows x Hl) as (Hx & _). assert (x = e) as -> by congruence. by eexists.
Qed.

(** The pass as a whole, without its rows' fates one by one. *)
Lemma process_outbox_rows locked now w :
  outbox_inv (w_db w) →
  ∃ n w', process_outbox locked now w = (Ok n, w') ∧
    d_orders (w_db w') = d_orders (w_db w) ∧
    ∀ i e, d_outbox (w_db w) !! i = Some e →
      ∃ e', d_outbox (w_db w') !! i = Some e' ∧ row_outcome now w' e e'.
Proof.
  intros Hinv. unfold process_outbox, bind at 1, transaction at 1.
  destruct (claim_outbox_keeps locked now (w_db w) Hinv) as (d & -> & Ho & _ & Hk).
  destruct (outbox_batch_spec locked now (w_db w) Hinv) as (_ & _ & Hrows & _).
  set (w1 := mk_world d (w_redis w)).
  destruct (process_rows_cases now (outbox_batch locked now (w_db w)) w1) as (w2 & H2 & R2).
  { intros e He. destruct (Hrows e He) as (Hi & _). destruct (Hk _ _ Hi) as (e' & He' & _ & ? & ? & _).
    by exists e'. }
  unfold bind. rewrite H2. unfold transaction, gets. simpl. do 2 eexists. split; [done|].
  destruct R2 as (O2 & _ & R2). simpl. split; [by rewrite O2|].
  intros i e He. destruct (Hk _ _ He) as (e1 & He1 & I1 & T1 & A1 & C1).
  destruct (R2 _ _ He1) as (e2 & He2 & I2 & T2 & A2 & C2). exists e2. split; [done|].
  unfold row_outcome. rewrite I2, T2, A2, I1, T1, A1. split_and!; [done..|].
  rewrite T1, A1, C1 in C2. destruct C2 as [|(? & ? & ?)]; [by left|right]. split_and!; try done.
Qed.

(** Did the handler of a claimed row return, when it was run in [w]? *)
Definition handled (e : OutboxEntry) (w : World) : bool :=
  match outbox_handler (ob_type e) with
  | Some handler => is_ok (handler (ob_aggregate e) w).1
  | None => false
  end.

(** A claimed row when the pass is over. *)
Definition row_after (now : Z) (ok : bool) (e : OutboxEntry) : OutboxEntry :=
  mk_outbox (ob_id e) (ob_type e) (ob_aggregate e) (ob_attempts e + 1)
    (now + backoff_s (ob_attempts e) * 1000) (if ok then Some now else None).

(** The state in which the [k]-th claimed row is handled. *)
Definition before_row (locked : gset Z) (now : Z) (w : World) (k : nat) : World :=
  let '(_, d) := claim_outbox locked now (w_db w) in
  (process_rows now (take k (outbox_batch locked now (w_db w))) (mk_world d (w_redis w))).2.

Definition stamp (now : Z) (e : OutboxEntry) : OutboxEntry :=
  mk_outbox (ob_id e) (ob_type e) (ob_aggregate e) (ob_attempts e) (ob_next_attempt e) (Some now).

Lemma mark_processed_outbox id now d :
  d_outbox (mark_processed id now d).2 = alter (stamp now) id (d_outbox d).
Proof.
  unfold mark_processed, modify. simpl. destruct (d_outbox d !! id) as [e|] eqn:He; simpl.
  - apply map_eq. intros i. destruct (decide (i = id)) as [->|Hne].
    + by rewrite lookup_insert_eq, lookup_alter_eq, He.
    + by rewrite lookup_insert_ne, lookup_alter_ne.
  - apply map_eq. intros i. destruct (decide (i = id)) as [->|Hne].
    + by rewrite lookup_alter_eq, He.
    + by rewrite lookup_alter_ne.
Qed.

Lemma process_row_outbox now e w :
  (process_row now e w).1 = Ok tt ∧
  d_outbox (w_db (process_row now e w).2) =
    if handled e w then alter (stamp now) (ob_id e) (d_outbox (w_db w)) else d_outbox (w_db w).
Proof.
  unfold process_row, handled, outbox_handler. destruct (bool_decide _); [|done].
  rewrite bind_try. assert (Hout : d_outbox (w_db (handle_seat_release (ob_aggregate e) w).2) =
    d_outbox (w_db w)).
  { rewrite handle_seat_release_eq. destruct (d_orders (w_db w) !! ob_aggregate e) as [o|]; [|done].
    unfold bind. destruct (release_order_seat_cases o w) as [Hr _].
    destruct (release_order_seat o w) as [[b|ex] w1]; apply (rl_outbox _ _ Hr). }
  destruct (handle_seat_release (ob_aggregate e) w) as [[[]|ex] w1]; simpl in *; [|done].
  unfold transaction. pose proof (mark_processed_outbox (ob_id e) now (w_db w1)) as Hm.
  unfold mark_processed, modify in *. simpl in *. split; [done|]. by rewrite Hm, Hout.
Qed.

Lemma process_rows_app now l1 l2 w :
  process_rows now (l1 ++ l2) w = process_rows now l2 (process_rows now l1 w).2.
Proof.
  revert w. induction l1 as [|e l1 IH]; intros w; [done|]. cbn [app process_rows]. unfold bind.
  destruct (process_row_outbox now e w) as [H1 _].
  destruct (process_row now e w) as [r w1]; simpl in *; subst r. apply IH.
Qed.

Lemma process_rows_untouched now rows w i :
  i ∉ ob_id <$> rows → d_outbox (w_db (process_rows now rows w).2) !! i = d_outbox (w_db w) !! i.
Proof.
  revert w. induction rows as [|e rows IH]; intros w Hi; [done|]. cbn [process_rows]. unfold bind.
  rewrite fmap_cons, not_elem_of_cons in Hi. destruct Hi as [Hne Hi].
  destruct (process_row_outbox now e w) as [H1 H2].
  destruct (process_row now e w) as [r w1]; simpl in *; subst r. rewrite IH by done. rewrite H2.
  destruct (handled e w); [by rewrite lookup_alter_ne|done].
Qed.

(** Row by row: stamped if and only if its handler returned. *)
Lemma process_rows_exact now rows w k e :
  NoDup (ob_id <$> rows) → rows !! k = Some e →
  d_outbox (w_db (process_rows now rows w).2) !! ob_id e =
    (if handled e (process_rows now (take k rows) w).2 then stamp now <$> d_outbox (w_db w) !! ob_id e
     else d_outbox (w_db w) !! ob_id e).
Proof.
  intros Hnd Hk. rewrite <-(take_drop_middle rows k e Hk) in Hnd |- * at 1.
  rewrite fmap_app, fmap_cons in Hnd. apply NoDup_app in Hnd as (_ & Hl & Hr).
  apply NoDup_cons in Hr as [Hr _]. rewrite process_rows_app. cbn [process_rows]. unfold bind.
  assert (Hpre := process_rows_untouched now (take k rows) w (ob_id e)
    ltac:(intros Hin; apply (Hl _ Hin); left)).
  set (wk := (process_rows now (take k rows) w).2) in *.
  destruct (process_row_outbox now e wk) as [H1 H2].
  destruct (process_row now e wk) as [r w1]; simpl in *; subst r.
  rewrite process_rows_untouched, H2 by done.
  destruct (handled e wk); [by rewrite lookup_alter_eq, Hpre|done].
Qed.

(** C16 (an outbox row is settled exactly when the release it owes was made).  A
    pass of the relay never raises, moves no order and leaves every row it did not
    claim as it is.  A row it claimed has one attempt more and its next attempt put
    off; it is stamped processed exactly when its handler, run in the state the
    rows before it left, returned: a handler that raised - or the want of one for
    the row's type - leaves it unprocessed, to come back when its lease runs out.
    And a stamped row is a seat release that, as the stores tell, is made: a counter
    order's marker is live, a seated order's hold is gone, or the order does not
    exist. *)
Theorem processed_means_released locked now w :
  outbox_inv (w_db w) →
  let rows := outbox_batch locked now (w_db w) in
  ∃ n w', process_outbox locked now w = (Ok n, w') ∧
    d_orders (w_db w') = d_orders (w_db w) ∧
    (∀ i, i ∉ ob_id <$> rows → d_outbox (w_db w') !! i = d_outbox (w_db w) !! i) ∧
    ∀ k e, rows !! k = Some e →
      let ok := handled e (before_row locked now w k) in
      d_outbox (w_db w') !! ob_id e = Some (row_after now ok e) ∧
      (ok = true → ob_type e = SEAT_RELEASE ∧ paid_back (ob_aggregate e) w').
Proof.
  intros Hinv rows. destruct (process_outbox_rows locked now w Hinv) as (n & w' & Hp & Ho & Hrows).
  destruct (outbox_batch_spec locked now (w_db w) Hinv) as (_ & Hnd & Hin & _). fold rows in Hnd, Hin.
  assert (Hw : d_outbox (w_db w') = d_outbox (w_db (process_rows now rows
    (mk_world (claim_outbox locked now (w_db w)).2 (w_redis w))).2)).
  { unfold process_outbox, bind at 1, transaction at 1, claim_outbox in Hp. fold rows in Hp.
    unfold claim_outbox. fold rows. simpl in Hp |- *. unfold bind in Hp.
    destruct (process_rows now rows _) as [[[]|ex] w2]; [|done].
    unfold transaction, gets in Hp. simpl in Hp. by simplify_eq. }
  assert (Hclaim : ∀ i, d_outbox (claim_outbox locked now (w_db w)).2 !! i =
    match list_find (λ e, ob_id e = i) rows with
    | Some (_, e) => Some (leased now e) | None => d_outbox (w_db w) !! i end).
  { intros i. unfold claim_outbox. simpl. fold rows. by apply foldr_leased. }
  exists n, w'. split; [done|]. split; [done|]. split.
  - intros i Hi. rewrite Hw, process_rows_untouched by done. simpl. rewrite Hclaim.
    destruct (list_find _ rows) as [[j x]|] eqn:Hf; [|done]. destruct Hi.
    apply list_find_Some in Hf as (Hj & <- & _).
    apply list_elem_of_fmap_2. by eapply list_elem_of_lookup_2.
  - intros k e Hk. assert (He : e ∈ rows) by (by eapply list_elem_of_lookup_2).
    destruct (Hin e He) as (Hi & Hdue & _).
    assert (Hpend : ob_processed e = None).
    { unfold due in Hdue. destruct (ob_processed e); [|done]. by rewrite bool_decide_eq_false_2 in Hdue. }
    assert (Hrow : d_outbox (claim_outbox locked now (w_db w)).2 !! ob_id e = Some (leased now e)).
    { rewrite Hclaim. destruct (list_find _ rows) as [[j x]|] eqn:Hf.
      - apply list_find_Some in Hf as (Hj & Hx & _). apply list_elem_of_lookup_2 in Hj.
        destruct (Hin x Hj) as (Hi' & _). rewrite Hx in Hi'. by assert (x = e) as -> by congruence.
      - apply list_find_None in Hf. rewrite Forall_forall in Hf. by destruct (Hf e He). }
    cbn zeta. unfold before_row. destruct (claim_outbox locked now (w_db w)) as [q d1] eqn:Hc.
    fold rows. simpl in Hw, Hrow.
    pose proof (process_rows_exact now rows (mk_world d1 (w_redis w)) k e Hnd Hk) as Hx.
    rewrite <-Hw in Hx. simpl in Hx. rewrite Hrow in Hx.
    set (ok := handled e _) in *. assert (Hres : d_outbox (w_db w') !! ob_id e = Some (row_after now ok e)).
    { rewrite Hx. unfold row_after, stamp, leased. rewrite Hpend. by destruct ok. }
    split; [done|]. intros Hok. destruct (Hrows _ _ Hi) as (e' & He' & _ & _ & _ & Hfate).
    rewrite Hres in He'. injection He' as <-. rewrite Hok in Hfate. simpl in Hfate.
    destruct Hfate as [?|(_ & ? & ?)]; [congruence|done].
Qed.

(** ** Witnesses *)

(** [demo_db] with the labels of the block's last seats, and what Redis sells. *)
Definition shop_db : DB :=
  mk_db {[5]} {[7 := priced_event]} {[3 := mk_zone 3 1 "A" 0 1]} {[1 := mk_block 1 3 6 1 1]}
    {[(1, 1) := "2"; (1, 3) := "4"]} {[(7, 3) := 500]} {[9 := demo_order]} 10 {[9 := demo_hold]}
    {[1 := mk_outbox 1 SEAT_RELEASE 9 0 0 None]} 2 ∅.
Definition shop_world : World := mk_world shop_db sample_redis.
Definition demo_key : string := "0123456789abcdef0123456789abcdef".

(** A claim of the free seats [0, 2), and one of the held seats [2, 4). *)
Definition free_claim : claim_args :=
  mk_claim_args 7 3 (uuid_str demo_key) 1 0 2 0 2 60 5 1000 4 "" "".
Definition held_claim : claim_args :=
  mk_claim_args 7 3 (uuid_str demo_key) 1 2 2 2 2 60 5 1000 4 "" "".

Lemma demo_key_uuid : is_uuid demo_key.
Proof. split; [by vm_compute|repeat constructor]. Defined.

Lemma shop_db_ok : db_ok shop_db.
Proof.
  destruct demo_db_ok as [H1 H2 H3 H4 H5 _]. split; try done.
  intros i [e Hi]. simpl in Hi. apply lookup_singleton_Some in Hi as [<- _]. done.
Defined.

Lemma shop_outbox_inv : outbox_inv shop_db.
Proof. intros i e Hi. simpl in Hi. apply lookup_singleton_Some in Hi as [<- <-]. done. Defined.

Lemma persist_intent_all_or_nothing_witness :
  let '(out, w') := persist_intent DbUp 77 (seat_intent free_claim) shop_world in
  out = Ok POk ∧ db_ok (w_db w') ∧ intent_written (seat_intent free_claim) 77 shop_db (w_db w').
Proof.
  pose proof (persist_intent_all_or_nothing DbUp 77 (seat_intent free_claim) shop_world shop_db_ok) as H.
  destruct (persist_intent DbUp 77 (seat_intent free_claim) shop_world) as [out w'] eqn:He.
  assert (out = Ok POk) as -> by (apply (f_equal fst) in He; vm_compute in He; by rewrite <-He).
  by destruct H as (? & _ & ? & _).
Defined.

(** The free claim's intent in the stream, delivered once and not acknowledged. *)
Definition queued_stream : Stream :=
  mk_stream [((3, 0), seat_intent free_claim)] (3, 0) (0, 0) ∅.
Definition queued_world : World := mk_world shop_db (set_stream queued_stream sample_redis).

Lemma queued_stream_ok : stream_ok queued_stream.
Proof.
  split; [by repeat constructor|]. intros e He. left. by apply list_elem_of_singleton in He as ->.
Defined.

Lemma consume_batch_loses_nothing_witness :
  let w' := (consume_batch (λ _, DbUp) 77 "c" queued_world).2 in
  db_ok (w_db w') ∧ s_entries (r_stream (w_redis w')) = [] ∧
  recorded (seat_intent free_claim) (w_db w').
Proof.
  cbn zeta. pose proof (consume_batch_loses_nothing (λ _, DbUp) 77 "c" queued_world shop_db_ok queued_stream_ok) as H.
  assert (Hs : s_entries (r_stream (w_redis (consume_batch (λ _, DbUp) 77 "c" queued_world).2)) = [])
    by by vm_compute.
  destruct (consume_batch (λ _, DbUp) 77 "c" queued_world) as [out w']. destruct H as (_ & ? & _ & _ & _ & H).
  split; [done|]. split; [done|]. simpl in *.
  destruct (H ((3, 0), seat_intent free_claim)) as [Hin|]; [left| |done].
  rewrite Hs in Hin. by apply not_elem_of_nil in Hin.
Defined.

(** The held seats are in none of the zone's free runs. *)
Lemma sample_not_free q : 2 <= q < 4 → ¬ zone_free sample_redis (7, 3) 1 q.
Proof.
  intros Hq (r & Hr & Hb & Hs).
  assert (Hall : Forall (λ x, run_start x + run_len x <= 2 ∨ 4 <= run_start x)
    (runs_of (zone_maps sample_redis (7, 3)).1)).
  { assert (Ht : forallb (λ x, (run_start x + run_len x <=? 2) || (4 <=? run_start x))
      (runs_of (zone_maps sample_redis (7, 3)).1) = true) by by vm_compute.
    rewrite forallb_forall in Ht. apply Forall_forall. intros x Hx.
    specialize (Ht x). rewrite <-list_elem_of_In in Ht. specialize (Ht Hx).
    apply orb_true_iff in Ht as [?%Z.leb_le|?%Z.leb_le]; simpl in *; [left|right]; assumption. }
  rewrite Forall_forall in Hall. specialize (Hall r Hr). cbn beta in Hall. unfold run_end in *. lia.
Defined.

(** The intent of [free_claim], whose seats Redis has as free, past its deliveries. *)
Definition stuck_world : World :=
  mk_world shop_db (set_stream
    (mk_stream [((3, 0), seat_intent free_claim)] (3, 0) (3, 0)
       {[(3, 0) := mk_pending "worker" (-90000) 5]}) sample_redis).

(** Two due releases: order 9 holds the seats [2, 4) and gives them back; the hold of
    order 8 is on [0, 2), which Redis has as free already, and its release raises. *)
Definition free_order : Order := mk_order 8 5 7 (Some 3) 2 200 PENDING "key8" None 0 None None None None.
Definition relay_db : DB :=
  mk_db {[5]} {[7 := priced_event]} {[3 := mk_zone 3 1 "A" 0 1]} {[1 := mk_block 1 3 6 1 1]}
    {[(1, 1) := "2"; (1, 3) := "4"]} {[(7, 3) := 500]} {[9 := demo_order; 8 := free_order]} 10
    {[9 := demo_hold; 8 := mk_hold 7 3 1 8 0 2 None]}
    {[1 := mk_outbox 1 SEAT_RELEASE 9 0 0 None; 2 := mk_outbox 2 SEAT_RELEASE 8 3 0 None]} 3 ∅.
Definition relay_world : World := mk_world relay_db sample_redis.

Lemma relay_outbox_inv : outbox_inv relay_db.
Proof.
  intros i e Hi. simpl in Hi. apply lookup_insert_Some in Hi as [[<- <-]|[_ Hi]]; [done|].
  by apply lookup_singleton_Some in Hi as [<- <-].
Defined.

Lemma processed_means_released_witness :
  let w' := (process_outbox ∅ 500 relay_world).2 in
  d_outbox (w_db w') !! 1 = Some (mk_outbox 1 SEAT_RELEASE 9 1 60500 (Some 500)) ∧
  d_outbox (w_db w') !! 2 = Some (mk_outbox 2 SEAT_RELEASE 8 4 480500 None) ∧ paid_back 9 w'.
Proof.
  destruct (processed_means_released ∅ 500 relay_world relay_outbox_inv) as (n & w' & H & _ & _ & Hr).
  cbn zeta. rewrite H. cbn [snd].
  destruct (Hr 0%nat (mk_outbox 1 SEAT_RELEASE 9 0 0 None) ltac:(vm_compute; reflexivity)) as [H1 P1].
  destruct (Hr 1%nat (mk_outbox 2 SEAT_RELEASE 8 3 0 None) ltac:(vm_compute; reflexivity)) as [H2 _].
  assert (O1 : handled (mk_outbox 1 SEAT_RELEASE 9 0 0 None) (before_row ∅ 500 relay_world 0) = true)
    by (vm_compute; reflexivity).
  assert (O2 : handled (mk_outbox 2 SEAT_RELEASE 8 3 0 None) (before_row ∅ 500 relay_world 1) = false)
    by (vm_compute; reflexivity).
  rewrite O1 in H1. rewrite O2 in H2. split; [exact H1|]. split; [exact H2|]. by apply P1.
Defined.
