(* ===== verification/WaitingRoom.v ===== *)
(** The waiting room (src/app/services/waiting_room.py), its endpoints
    (src/app/api/v1/events.py, orders.py) and the circuit breaker of the worker
    that closes it: the lottery draw, who is admitted when, the single-use
    admission pass and what an order request does with it. *)

From Stdlib Require Import QArith Qabs Lqa.
From S2P Require Import Prelude Exceptions Config Keys Uuid Binary64 Sha256 Redis DB World Inventory.
From S2P Require Import SeatRuns RateLimit Pricing Orders Payments Worker.

#[local] Open Scope string_scope.
#[local] Open Scope Z_scope.

(** ** State *)

(** Redis with the key families of the waiting room beside it. *)
Record Room : Type := mk_room {
  rm_redis : Redis;
  rm_limits : Limits;                      (* rl:{...} *)
  rm_draw : gmap Z (gmap string Z);        (* queue:{e}:draw, member to score *)
  rm_salt : gmap Z string;                 (* queue:{e}:salt *)
  rm_paused : option Z;                    (* admission:paused, its expiry *)
  rm_used : gmap string Z;                 (* admission_used:{jti}, its expiry *)
  rm_cursor : option sid;                  (* the breaker's dead-letter cursor *)
  rm_pokes : Z;                            (* messages on the global channel *)
}.

Definition with_redis (r : Redis) (m : Room) : Room :=
  mk_room r (rm_limits m) (rm_draw m) (rm_salt m) (rm_paused m) (rm_used m) (rm_cursor m) (rm_pokes m).
Definition with_limits (v : Limits) (m : Room) : Room :=
  mk_room (rm_redis m) v (rm_draw m) (rm_salt m) (rm_paused m) (rm_used m) (rm_cursor m) (rm_pokes m).
Definition with_draw (v : gmap Z (gmap string Z)) (m : Room) : Room :=
  mk_room (rm_redis m) (rm_limits m) v (rm_salt m) (rm_paused m) (rm_used m) (rm_cursor m) (rm_pokes m).
Definition with_salt (v : gmap Z string) (m : Room) : Room :=
  mk_room (rm_redis m) (rm_limits m) (rm_draw m) v (rm_paused m) (rm_used m) (rm_cursor m) (rm_pokes m).
Definition with_paused (v : option Z) (m : Room) : Room :=
  mk_room (rm_redis m) (rm_limits m) (rm_draw m) (rm_salt m) v (rm_used m) (rm_cursor m) (rm_pokes m).
Definition with_used (v : gmap string Z) (m : Room) : Room :=
  mk_room (rm_redis m) (rm_limits m) (rm_draw m) (rm_salt m) (rm_paused m) v (rm_cursor m) (rm_pokes m).
Definition with_cursor (v : option sid) (m : Room) : Room :=
  mk_room (rm_redis m) (rm_limits m) (rm_draw m) (rm_salt m) (rm_paused m) (rm_used m) v (rm_pokes m).

Definition on_redis {A} (c : M Redis exn A) : M Room exn A := λ m,
  let '(x, r) := c (rm_redis m) in (x, with_redis r m).
Definition on_limits {A} (c : M Limits exn A) : M Room exn A := λ m,
  let '(x, v) := c (rm_limits m) in (x, with_limits v m).

(** [publish_global_poke] *)
Definition publish_global_poke (m : Room) : Room :=
  mk_room (rm_redis m) (rm_limits m) (rm_draw m) (rm_salt m) (rm_paused m) (rm_used m)
    (rm_cursor m) (rm_pokes m + 1).

(** ** The circuit breaker *)

Definition is_paused (m : Room) : bool :=
  match rm_paused m with Some e => live (rm_redis m) e | None => false end.

(** [set_admission_paused]; its time to live defaults to two minutes. *)
Definition set_admission_paused (paused : bool) (ttl_seconds : Z) (m : Room) : Room :=
  publish_global_poke
    (with_paused (if paused then Some (expiry_after (rm_redis m) ttl_seconds) else None) m).

Record queue_stats : Type := mk_stats {
  qs_backlog : Z; qs_dead : Z; qs_new_dead : Z; qs_oldest_age : Q;
}.

(** [collect_queue_stats] *)
Definition collect_queue_stats (s : Settings) (now : Q) (m : Room) : queue_stats * Room :=
  let '(new, cursor) := count_new_dead_letters (Z.to_nat (ADMISSION_PAUSE_NEW_DEAD_LETTERS s))
                          (r_dead (rm_redis m)) (rm_cursor m) in
  (mk_stats (xlen (r_stream (rm_redis m))) (xlen (r_dead (rm_redis m))) new
     (oldest_intent_age_seconds now (rm_redis m)),
   with_cursor (Some cursor) m).

Definition unhealthy (s : Settings) (st : queue_stats) : bool :=
  (ADMISSION_PAUSE_NEW_DEAD_LETTERS s <? qs_new_dead st) ||
  (ADMISSION_PAUSE_BACKLOG_THRESHOLD s <? qs_backlog st).

(** [report_queue_depth] *)
Definition report_queue_depth (s : Settings) (now : Q) (m : Room) : queue_stats * Room :=
  let '(st, m) := collect_queue_stats s now m in
  (st, set_admission_paused (unhealthy s st) 120 m).

(** ** The registration window *)

(** [effective_window] *)
Definition effective_window (s : Settings) (sale_starts : Z) (opens closes : option Z) : Z * Z :=
  (match opens with Some o => o | None => sale_starts - QUEUE_LEAD_TIME_SECONDS s * 1000 end,
   match closes with
   | Some c => c
   | None => sale_starts - QUEUE_ADMISSION_BUFFER_SECONDS s * 1000
   end).

(** [window] *)
Definition window (s : Settings) (ev : Event) : Z * Z :=
  effective_window s (ev_sale_starts ev) (ev_queue_opens ev) (ev_queue_closes ev).

(** ** The draw *)

(** [_ensure_salt]; [fresh] is what [secrets.token_hex] gives. *)
Definition ensure_salt (fresh : string) (event_id : Z) (m : Room) : string * Room :=
  match rm_salt m !! event_id with
  | Some salt => (salt, m)
  | None => (fresh, with_salt (<[event_id := fresh]> (rm_salt m)) m)
  end.

(** [_score] *)
Definition score (event_id user_id : Z) (salt : string) : Z :=
  be_value (take 6 (sha256 (join (z_str event_id) (join (z_str user_id) salt)))).

Definition draw_of (m : Room) (event_id : Z) : gmap string Z := default ∅ (rm_draw m !! event_id).

(** [ZADD ... NX] *)
Definition zadd_nx (event_id : Z) (member : string) (sc : Z) (m : Room) : Room :=
  match draw_of m event_id !! member with
  | Some _ => m
  | None => with_draw (<[event_id := <[member := sc]> (draw_of m event_id)]> (rm_draw m)) m
  end.

(** [register] *)
Definition register (fresh : string) (event_id user_id : Z) (m : Room) : Room :=
  let '(salt, m) := ensure_salt fresh event_id m in
  zadd_nx event_id (z_str user_id) (score event_id user_id salt) m.

(** [setup] *)
Definition setup (fresh : string) (event_id : Z) (m : Room) : Room :=
  (ensure_salt fresh event_id m).2.

(** The order of a sorted set: by score, then by member. *)
Definition ranks_before (a b : string * Z) : bool :=
  (a.2 <? b.2) || ((a.2 =? b.2) && String.ltb a.1 b.1).

(** [ZRANK] *)
Definition zrank (draw : gmap string Z) (member : string) : option Z :=
  match draw !! member with
  | None => None
  | Some sc => Some (Z.of_nat (length
      (filter (λ x, ranks_before x (member, sc) = true) (map_to_list draw))))
  end.

(** ** Admission *)

(** [datetime.timestamp()] of an instant in milliseconds: seconds, as a double. *)
Definition timestamp (t : Z) : Q := rnd (t # 1000).

(** [_admit_start]; [meta] is what [get_event_meta] returned. *)
Definition admit_start (s : Settings) (meta : option EventMeta) : option Q :=
  match meta with
  | None => None
  | Some meta =>
      if negb (bool_decide (m_status meta = PUBLISHED)) then None
      else Some (timestamp (effective_window s (m_sale_starts_at meta) (m_queue_opens_at meta)
                              (m_queue_closes_at meta)).2)
  end.

(** [_admitted_count]: the difference and the product are doubles, [int]
    truncates. *)
Definition admitted_count (s : Settings) (meta : option EventMeta) (now event_id : Z) (m : Room) : Z :=
  match admit_start s meta with
  | None => 0
  | Some start =>
      let elapsed := rnd (timestamp now - start) in
      if Qle_bool elapsed 0 then 0
      else Z.min (trunc (rnd (elapsed * inject_Z (QUEUE_ADMISSION_RATE s))))
                 (Z.of_nat (size (draw_of m event_id)))
  end.

Record QueueState : Type := mk_queue_state {
  q_admitted : bool; q_people_ahead : option Z; q_sold_out : bool; q_paused : bool;
}.

(** [status] *)
Definition status (s : Settings) (meta : option EventMeta) (now event_id user_id : Z) (m : Room)
    : QueueState :=
  let sold_out := get_available event_id (rm_redis m) <=? 0 in
  let paused := is_paused m in
  match zrank (draw_of m event_id) (z_str user_id) with
  | None => mk_queue_state false None sold_out paused
  | Some rank =>
      if sold_out then mk_queue_state false None true paused
      else
        let count := admitted_count s meta now event_id m in
        if paused then mk_queue_state false (Some (Z.max 0 (rank - count))) false true
        else if rank <? count then mk_queue_state true None false false
        else mk_queue_state false (Some (rank - count)) false false
  end.

(** [admit_deadline], in seconds. *)
Definition admit_deadline (s : Settings) (meta : option EventMeta) (event_id user_id : Z) (m : Room)
    : result exn (option Q) :=
  match admit_start s meta with
  | None => Ok None
  | Some start =>
      match zrank (draw_of m event_id) (z_str user_id) with
      | None => Ok None
      | Some rank =>
          let rate := QUEUE_ADMISSION_RATE s in
          if rate =? 0 then Err ZeroDivisionError
          else Ok (Some (rnd (start + rnd (inject_Z (rank + 1) / inject_Z rate))))
      end
  end.

(** ** The admission pass *)

(** The claims of a token that the checks read; an absent one is [None]. *)
Record claims : Type := mk_claims {
  cl_typ : option string; cl_event : option Z; cl_sub : option string;
  cl_jti : option string; cl_exp : option Z;      (* seconds *)
}.

(** [_used_key]'s argument: Python prints a missing [jti] as None. *)
Definition used_name (jti : option string) : string := default "None" jti.

Definition used_exists (m : Room) (j : string) : bool :=
  match rm_used m !! j with Some e => live (rm_redis m) e | None => false end.

(** [refund_admission] *)
Definition refund_admission (j : string) (m : Room) : Room := with_used (delete j (rm_used m)) m.

Section admission.
(* jwt.decode with the application's key, at a time; [None]: it raised. *)
Context (decode : Z → string → option claims).

(** [verify_admission] *)
Definition verify_admission (now : Z) (token : string) (user_id event_id : Z)
    : M Room exn (option string) := λ m,
  match decode now token with
  | None => (Err (Domain (AdmissionDenied "invalid or expired admission token")), m)
  | Some p =>
      if negb (bool_decide (cl_typ p = Some "admission"))
      then (Err (Domain (AdmissionDenied "wrong token type")), m)
      else if negb (bool_decide (cl_event p = Some event_id))
      then (Err (Domain (AdmissionDenied "admission token not valid for this event")), m)
      else if negb (bool_decide (cl_sub p = Some (z_str user_id)))
      then (Err (Domain (AdmissionDenied "admission token belongs to another user")), m)
      else
        match cl_exp p with
        | None => (Err KeyError, m)
        | Some exp =>
            let ttl := Z.max 1 (Z.quot (exp * 1000 - now) 1000) in
            let j := used_name (cl_jti p) in
            if used_exists m j
            then (Err (Domain (AdmissionDenied "admission token already used")), m)
            else (Ok (cl_jti p),
                  with_used (<[j := expiry_after (rm_redis m) ttl]> (rm_used m)) m)
        end
  end.
End admission.

(** [create_admission_token]'s payload; [exp] is written in whole seconds. *)
Definition admission_claims (now user_id event_id ttl_seconds : Z) (jti : string) : claims :=
  mk_claims (Some "admission") (Some event_id) (Some (z_str user_id)) (Some jti)
    (Some ((now + ttl_seconds * 1000) / 1000)).

(** ** The endpoints of the queue *)

Record QueueStatusResponse : Type := mk_queue_response {
  qr_admitted : bool; qr_sold_out : bool; qr_paused : bool; qr_people_ahead : option Z;
  qr_poll_after_seconds : option Z; qr_access_token : option string;
}.

Section endpoints.
Context (settings : Settings).
(* jwt.encode and jwt.decode with the application's key *)
Context (encode : claims → string) (decode : Z → string → option claims).

(** [_queue_response]; [jti] is the fresh id of the token, if one is made. *)
Definition queue_response (now : Z) (jti : string) (st : QueueState) (user_id event_id : Z)
    : QueueStatusResponse :=
  let token :=
    if q_admitted st
    then Some (encode (admission_claims now user_id event_id
                         (QUEUE_ADMISSION_TOKEN_TTL_SECONDS settings) jti))
    else None in
  let finished := q_admitted st || q_sold_out st in
  mk_queue_response (q_admitted st) (q_sold_out st) (q_paused st) (q_people_ahead st)
    (if finished then None else Some 5) token.

(** [join_queue]; [event] is what [get_event] returned. *)
Definition join_queue (now : Z) (salt jti : string) (event : option Event) (meta : option EventMeta)
    (event_id user_id : Z) : M Room exn QueueStatusResponse :=
  (λ m, on_limits (enforce_rate_limit settings (r_now (rm_redis m))
          (join "qjoin" (join (z_str event_id) (z_str user_id)))
          (QUEUE_JOIN_LIMIT_PER_MINUTE settings) 60) m) ;;;
  match event with
  | None => raise (Domain (EventNotFound event_id))
  | Some ev =>
      if negb (bool_decide (ev_status ev = PUBLISHED)) then raise (Domain (EventNotOnSale event_id))
      else
        let '(opens, closes) := window settings ev in
        if now <? opens then raise (HTTPException 409 "queue not open yet")
        else if closes <=? now then raise (HTTPException 409 "queue registration closed")
        else
          modify (register salt (ev_id ev) user_id) ;;;
          let! st := gets (status settings meta now event_id user_id) in
          ret (queue_response now jti st user_id event_id)
  end.

(** [queue_status_endpoint] *)
Definition queue_status_endpoint (now : Z) (jti : string) (meta : option EventMeta)
    (event_id user_id : Z) (m : Room) : QueueStatusResponse :=
  queue_response now jti (status settings meta now event_id user_id m) user_id event_id.

(** ** The event stream *)

Definition SSE_HEARTBEAT_SECONDS : Z := 20.
Definition SSE_MAX_SECONDS : Z := 300.

(** How long a connection sleeps, in seconds, unless it is poked. *)
Definition stream_timeout (now : Z) (admit_at : option Q) : Q :=
  let heartbeat := inject_Z SSE_HEARTBEAT_SECONDS in
  match admit_at with
  | None => heartbeat
  | Some t =>
      let until_admit := rnd (t - timestamp now) in
      if Qle_bool until_admit 0 then heartbeat
      else if Qle_bool heartbeat until_admit then heartbeat else until_admit
  end.

(** A wake of the connection: the time since it started when the loop was
    entered, whether the client has gone, and the state it then reads. *)
Record wake : Type := mk_wake { wk_elapsed : Z; wk_gone : bool; wk_state : QueueState }.

Definition terminal (st : QueueState) : bool := q_admitted st || q_sold_out st.

Fixpoint stream_loop (wakes : list wake) : list QueueState :=
  match wakes with
  | [] => []
  | w :: wakes' =>
      if negb (wk_elapsed w <? SSE_MAX_SECONDS * 1000) then []
      else if wk_gone w then []
      else wk_state w :: (if terminal (wk_state w) then [] else stream_loop wakes')
  end.

(** [queue_stream]: the states of the frames it sends. *)
Definition queue_stream (first : QueueState) (wakes : list wake) : list QueueState :=
  first :: (if terminal first then [] else stream_loop wakes).

(** ** Ordering with a pass *)

Section create.
Context (link : redis_link).
Context (randrange : Z → Z → Z) (others : Z → Redis → Redis) (trace traceparent : string).

(** [create_endpoint]; the idempotency key is a UUID, printed. *)
Definition create_endpoint (now : Z) (meta : option EventMeta) (user_id event_id quantity : Z)
    (zone_id : option Z) (idem admission_token : string) : M Room exn string :=
  (λ m, on_limits (enforce_rate_limit settings (r_now (rm_redis m)) (join "order" (z_str user_id))
          (ORDER_SUBMIT_LIMIT_PER_MINUTE settings) 60) m) ;;;
  let! jti := (if LOADTEST_BYPASS_ADMISSION settings then ret None
               else verify_admission decode now admission_token user_id event_id) in
  try_catch
    (on_redis (submit_order settings link randrange others trace traceparent now meta user_id
       event_id quantity idem zone_id) ;;; ret idem)
    (λ e, match e with
          | Domain _ =>
              match jti with
              | Some j => modify (refund_admission j)
              | None => ret tt
              end ;;; raise e
          | _ => raise e
          end).
End create.
End endpoints.

(** ** The score and the draw *)

(** The score is one of 2^48 integers: exact as a double. *)
Lemma score_range event_id user_id salt : 0 <= score event_id user_id salt < 2 ^ 48.
Proof.
  unfold score. set (d := sha256 _).
  assert (Hr : Forall (λ b, 0 <= b < 256) (take 6 d)) by (apply Forall_take, sha256_range).
  pose proof (be_value_range _ Hr) as Hb. split; [lia|].
  eapply Z.lt_le_trans; [apply Hb|]. change (2 ^ 48) with (256 ^ 6).
  apply Z.pow_le_mono_r; [lia|]. rewrite length_take. lia.
Qed.

Lemma draw_zadd_eq e u sc m : draw_of (zadd_nx e u sc m) e =
  match draw_of m e !! u with Some _ => draw_of m e | None => <[u := sc]> (draw_of m e) end.
Proof.
  unfold zadd_nx. destruct (draw_of m e !! u) eqn:H; [done|].
  unfold draw_of at 1. simpl. by rewrite lookup_insert_eq.
Qed.

Lemma draw_zadd_ne e e' u sc m : e ≠ e' → draw_of (zadd_nx e u sc m) e' = draw_of m e'.
Proof.
  intros He. unfold zadd_nx. destruct (draw_of m e !! u); [done|].
  unfold draw_of. simpl. by rewrite lookup_insert_ne.
Qed.

(** Scores made under the event's salt. *)
Definition draw_ok (m : Room) : Prop := ∀ e u sc, draw_of m e !! u = Some sc →
  ∃ salt user, rm_salt m !! e = Some salt ∧ u = z_str user ∧ sc = score e user salt.

Lemma ensure_salt_cases fresh e m :
  let '(salt, m') := ensure_salt fresh e m in
  rm_salt m' !! e = Some salt ∧ rm_draw m' = rm_draw m ∧
  (∀ e' x, rm_salt m !! e' = Some x → rm_salt m' !! e' = Some x) ∧
  (is_Some (rm_salt m !! e) → m' = m).
Proof.
  unfold ensure_salt. destruct (rm_salt m !! e) as [x|] eqn:He; [done|]. simpl.
  split_and!; [by rewrite lookup_insert_eq|done| |by intros []].
  intros e' x Hx. destruct (decide (e' = e)) as [->|]; [congruence|]. by rewrite lookup_insert_ne.
Qed.

(** A place in the draw cannot be bought or rolled again.  Registering puts
    the user into the draw under a score fixed by the event's secret salt, the
    event and the user alone, one of 2^48 values; registering again, whatever
    fresh salt is offered, changes nothing; nobody's score ever changes; and the
    salt, once fixed, stays. *)
Theorem register_fixes_the_score fresh e u m :
  draw_ok m →
  let m' := register fresh e u m in
  draw_ok m' ∧
  (∃ salt, rm_salt m' !! e = Some salt ∧
     draw_of m' e !! z_str u = Some (score e u salt) ∧ 0 <= score e u salt < 2 ^ 48) ∧
  (∀ fresh', register fresh' e u m' = m') ∧
  (∀ e' v sc, draw_of m e' !! v = Some sc → draw_of m' e' !! v = Some sc) ∧
  (∀ e' x, rm_salt m !! e' = Some x → rm_salt m' !! e' = Some x).
Proof.
  intros Hd. cbn zeta. pose proof (ensure_salt_cases fresh e m) as Hs.
  destruct (ensure_salt fresh e m) as [salt m1] eqn:Hreg. destruct Hs as (Hs & Hdr & Hk & _).
  assert (Hd1 : ∀ e', draw_of m1 e' = draw_of m e') by (intros e'; unfold draw_of; by rewrite Hdr).
  set (m2 := zadd_nx e (z_str u) (score e u salt) m1).
  replace (register fresh e u m) with m2 by (unfold register; by rewrite Hreg).
  assert (Hs2 : rm_salt m2 = rm_salt m1) by (unfold m2, zadd_nx; by case_match).
  assert (Hu : draw_of m2 e !! z_str u = Some (score e u salt)).
  { unfold m2. rewrite draw_zadd_eq, Hd1. destruct (draw_of m e !! z_str u) as [sc|] eqn:H.
    - destruct (Hd _ _ _ H) as (x & v & Hx & Hv & ->). apply z_str_inj in Hv as ->.
      apply Hk in Hx. rewrite H. congruence.
    - by rewrite lookup_insert_eq. }
  assert (Hgrow : ∀ e' v sc, draw_of m e' !! v = Some sc → draw_of m2 e' !! v = Some sc).
  { intros e' v sc Hv. unfold m2. destruct (decide (e = e')) as [<-|]; [|by rewrite draw_zadd_ne, Hd1].
    rewrite draw_zadd_eq, Hd1. destruct (draw_of m e !! z_str u) eqn:H; [done|].
    rewrite lookup_insert_ne; [done|]. congruence. }
  split_and!; [| |intros fresh'|done|by rewrite Hs2].
  - intros e' v sc Hv. destruct (draw_of m e' !! v) as [sc'|] eqn:H.
    + rewrite (Hgrow _ _ _ H) in Hv. injection Hv as <-. rewrite Hs2.
      destruct (Hd _ _ _ H) as (x & w & ? & ? & ?). eauto 6.
    + destruct (decide (e = e')) as [<-|]; [|unfold m2 in Hv; rewrite draw_zadd_ne, Hd1 in Hv by done; congruence].
      unfold m2 in Hv. rewrite draw_zadd_eq, Hd1 in Hv.
      destruct (draw_of m e !! z_str u); [congruence|].
      apply lookup_insert_Some in Hv as [[<- <-]|[_ Hv]]; [|congruence]. rewrite Hs2. eauto.
  - exists salt. rewrite Hs2. split_and!; [done|done|apply score_range..].
  - unfold register. destruct (ensure_salt fresh' e m2) as [salt' m3] eqn:He.
    pose proof (ensure_salt_cases fresh' e m2) as H. rewrite He in H.
    destruct H as (Hs3 & _ & _ & H3). rewrite H3 in * by (rewrite Hs2, Hs; eauto).
    unfold zadd_nx. by rewrite Hu.
Qed.

Definition empty_room : Room := mk_room empty_redis ∅ ∅ ∅ None ∅ None 0.

(** ** Who is admitted when *)

Lemma ltb_irrefl u : String.ltb u u = false.
Proof.
  unfold String.ltb. assert (String.compare u u = Eq) as ->; [|done].
  induction u as [|c u IH]; simpl; [done|]. unfold Ascii.compare. by rewrite N.compare_refl.
Qed.

Lemma zrank_range draw u k : zrank draw u = Some k → 0 <= k < Z.of_nat (size draw).
Proof.
  unfold zrank. destruct (draw !! u) as [sc|] eqn:Hu; [|done]. intros [= <-]. split; [lia|].
  apply Nat2Z.inj_lt. rewrite <-length_map_to_list.
  apply (length_filter_lt _ _ (u, sc)); [by apply elem_of_map_to_list|].
  unfold ranks_before. simpl. rewrite ltb_irrefl, andb_false_r, orb_false_r. zlia.
Qed.

(** The instants for which the error bounds are given: 136 years around 1970. *)
Definition SPAN_SECONDS : Z := 4294967296.
Definition in_span (t : Z) : Prop := - SPAN_SECONDS * 1000 <= t <= SPAN_SECONDS * 1000.

(** Ten microseconds. *)
Definition CLOCK_TOLERANCE : Q := 1 # 100000.

#[local] Abbreviation u20 := (1 # 1048576)%Q.

Lemma timestamp_error t : in_span t → (Qabs (timestamp t - (t # 1000)) <= (1 # 2097152))%Q.
Proof.
  intros Ht. assert (Hb : (Qabs (t # 1000) <= 4294967296 # 1)%Q).
  { unfold in_span, SPAN_SECONDS in Ht. apply Qabs_Qle_condition. unfold Qle. simpl. lia. }
  eapply Qle_trans; [exact (rnd_error_bound _ _ Hb)|]. by vm_compute.
Qed.

Lemma instant_bound t : in_span t → (- (4294967296 # 1) <= t # 1000 <= 4294967296 # 1)%Q.
Proof. unfold in_span, SPAN_SECONDS, Qle. simpl. lia. Qed.

Lemma elapsed_error now start :
  in_span now → in_span start →
  let e := rnd (timestamp now - timestamp start) in
  (Qabs (e - ((now # 1000) - (start # 1000))) <= 3 * u20)%Q ∧ (Qabs e <= 17179869184 # 1)%Q.
Proof.
  intros Hn Hs e. pose proof (timestamp_error now Hn) as En. pose proof (timestamp_error start Hs) as Es.
  pose proof (instant_bound now Hn) as Bn. pose proof (instant_bound start Hs) as Bs.
  apply Qabs_Qle_condition in En, Es.
  assert (Hb : (Qabs (timestamp now - timestamp start) <= 17179869184 # 1)%Q)
    by (apply Qabs_Qle_condition; lra).
  pose proof (rnd_error_bound _ _ Hb) as Ee. fold e in Ee. unfold UNIT_ROUNDOFF in Ee.
  apply Qabs_Qle_condition in Ee. split; apply Qabs_Qle_condition; lra.
Qed.

(** What the rounded product says of the elapsed time. *)
Lemma progress_error e r : (0 < r)%Q → (Qabs e <= 17179869184 # 1)%Q →
  (Qabs (rnd (e * r) / r - e) <= 2 * u20)%Q.
Proof.
  intros Hr He. assert (Heq : (rnd (e * r) / r - e == (rnd (e * r) - e * r) / r)%Q) by (field; lra).
  rewrite Heq. unfold Qdiv. rewrite Qabs_Qmult, (Qabs_pos (/ r)) by (apply Qlt_le_weak, Qinv_lt_0_compat, Hr).
  apply Qle_shift_div_r; [done|]. eapply Qle_trans; [apply rnd_error|].
  rewrite Qabs_Qmult, (Qabs_pos r) by lra. unfold UNIT_ROUNDOFF.
  assert (Hm : (Qabs e * r <= (17179869184 # 1) * r)%Q) by (apply Qmult_le_compat_r; [done|lra]).
  lra.
Qed.

Lemma deadline_error start k r :
  in_span start → (0 < r)%Q → (0 <= k)%Q → (k / r <= 4294967296 # 1)%Q →
  (Qabs (rnd (timestamp start + rnd (k / r)) - ((start # 1000) + k / r)) <= 3 * u20)%Q.
Proof.
  intros Hs Hr Hk Hb. pose proof (timestamp_error start Hs) as Es.
  pose proof (instant_bound start Hs) as Bs. apply Qabs_Qle_condition in Es.
  assert (Hpos : (0 <= k / r)%Q) by (apply Qle_shift_div_l; [done|lra]).
  assert (Hb1 : (Qabs (k / r) <= 4294967296 # 1)%Q) by (apply Qabs_Qle_condition; lra).
  pose proof (rnd_error_bound _ _ Hb1) as E1. unfold UNIT_ROUNDOFF in E1.
  apply Qabs_Qle_condition in E1.
  assert (Hb2 : (Qabs (timestamp start + rnd (k / r)) <= 17179869184 # 1)%Q)
    by (apply Qabs_Qle_condition; lra).
  pose proof (rnd_error_bound _ _ Hb2) as E2. unfold UNIT_ROUNDOFF in E2.
  apply Qabs_Qle_condition in E2. apply Qabs_Qle_condition. lra.
Qed.

Lemma admitted_count_nonneg s meta now e m :
  0 < QUEUE_ADMISSION_RATE s → 0 <= admitted_count s meta now e m.
Proof.
  intros Hr. unfold admitted_count. destruct (admit_start s meta) as [start|]; [|done].
  destruct (Qle_bool _ 0) eqn:He; [done|].
  assert (Hpos : (0 < rnd (timestamp now - start))%Q).
  { apply Qnot_le_lt. intros H. apply Qle_bool_iff in H. congruence. }
  apply Z.min_glb; [|lia]. set (x := (rnd (timestamp now - start) * inject_Z (QUEUE_ADMISSION_RATE s))%Q).
  assert (Hx : (0 <= x)%Q).
  { apply Qlt_le_weak, Qmult_lt_0_compat; [done|]. change 0%Q with (inject_Z 0). by rewrite <-Zlt_Qlt. }
  pose proof (rnd_error x) as Ex. rewrite (Qabs_pos x) in Ex by done. unfold UNIT_ROUNDOFF in Ex.
  apply Qabs_Qle_condition in Ex. assert (Hrx : (0 <= rnd x)%Q) by lra.
  apply trunc_ge; [done|]. exact Hrx.
Qed.

(** The head count passes a rank ten microseconds after the deadline at the
    latest, and ten microseconds before it at the earliest. *)
Lemma admitted_count_passes s meta now e m start k d :
  0 < QUEUE_ADMISSION_RATE s → admit_start s meta = Some (timestamp start) →
  in_span start → in_span now → 0 <= k < Z.of_nat (size (draw_of m e)) →
  let r := inject_Z (QUEUE_ADMISSION_RATE s) in
  (Qabs (d - ((start # 1000) + inject_Z (k + 1) / r)) <= 3 * u20)%Q →
  ((d + CLOCK_TOLERANCE <= now # 1000)%Q → k < admitted_count s meta now e m) ∧
  ((now # 1000 <= d - CLOCK_TOLERANCE)%Q → admitted_count s meta now e m <= k).
Proof.
  intros Hrate Ha Hs Hn Hk r Hd. destruct (elapsed_error now start Hn Hs) as [Ee Be].
  unfold admitted_count. rewrite Ha. fold r. set (el := rnd (timestamp now - timestamp start)) in *.
  assert (Hr : (0 < r)%Q) by (unfold r; change 0%Q with (inject_Z 0); by rewrite <-Zlt_Qlt).
  pose proof (progress_error el r Hr Be) as Ep. apply Qabs_Qle_condition in Ee, Ep, Hd.
  assert (Hkr : (0 <= inject_Z (k + 1) / r)%Q).
  { apply Qle_shift_div_l; [done|]. rewrite Qmult_0_l. change 0%Q with (inject_Z 0).
    rewrite <-Zle_Qle. lia. }
  assert (Hmul : ∀ x, (x / r * r == x)%Q) by (intros x; field; lra).
  unfold CLOCK_TOLERANCE. destruct (Qle_bool el 0) eqn:He.
  { apply Qle_bool_iff in He. split; intros H; [exfalso; lra|lia]. }
  assert (Hel : (0 < el)%Q) by (apply Qnot_le_lt; intros H; apply Qle_bool_iff in H; congruence).
  assert (Hp : (0 <= rnd (el * r))%Q).
  { pose proof (rnd_error (el * r)) as Ex. assert (0 < el * r)%Q by (by apply Qmult_lt_0_compat).
    rewrite (Qabs_pos (el * r)) in Ex by lra. unfold UNIT_ROUNDOFF in Ex.
    apply Qabs_Qle_condition in Ex. lra. }
  split; intros H.
  - apply Z.min_glb_lt; [|lia]. apply Z.le_succ_l. apply trunc_ge; [done|].
    rewrite <-(Hmul (inject_Z (Z.succ k))), <-(Hmul (rnd (el * r))).
    apply Qmult_le_compat_r; [|lra]. unfold Z.succ. lra.
  - apply Z.min_le_iff. left. apply Z.lt_succ_r, Z.lt_nge. intros Hge.
    apply trunc_ge in Hge; [|done].
    rewrite <-(Hmul (inject_Z (Z.succ k))), <-(Hmul (rnd (el * r))) in Hge.
    apply Qmult_le_r in Hge; [|done]. unfold Z.succ in Hge. lra.
Qed.

(** C27 (admission opens at the deadline, to ten microseconds, and in rank order).
    With stock left and the breaker closed, a positive rate, and instants within
    2^32 seconds of 1970: [admit_deadline], computed in doubles, is within ten
    microseconds of the exact [start + (rank + 1) / rate]; a registered user is
    admitted at every instant from ten microseconds after it, and at no instant up
    to ten microseconds before it.  Between the two the rounding of the doubles
    decides, so that a stream that sleeps exactly until the deadline may find
    itself not yet admitted.  Who is not admitted has a non-negative number of
    people ahead, and at any one instant, whoever is admitted, so is everybody of
    no greater rank. *)
Theorem admitted_exactly_from_deadline s meta now e u m start rank :
  0 < QUEUE_ADMISSION_RATE s → 0 < get_available e (rm_redis m) → is_paused m = false →
  admit_start s meta = Some (timestamp start) → zrank (draw_of m e) (z_str u) = Some rank →
  in_span start → in_span now → rank + 1 <= SPAN_SECONDS * QUEUE_ADMISSION_RATE s →
  ∃ d, admit_deadline s meta e u m = Ok (Some d) ∧
    (Qabs (d - ((start # 1000) + inject_Z (rank + 1) / inject_Z (QUEUE_ADMISSION_RATE s)))
       <= CLOCK_TOLERANCE)%Q ∧
    let st := status s meta now e u m in
    ((d + CLOCK_TOLERANCE <= now # 1000)%Q → q_admitted st = true) ∧
    ((now # 1000 <= d - CLOCK_TOLERANCE)%Q → q_admitted st = false) ∧
    (q_admitted st = false → ∃ n, q_people_ahead st = Some n ∧ 0 <= n <= rank) ∧
    (∀ v rank', zrank (draw_of m e) (z_str v) = Some rank' → rank' <= rank →
       q_admitted st = true → q_admitted (status s meta now e v m) = true).
Proof.
  intros Hr Ha Hp Hs Hk Hspan Hnow Hbig. unfold admit_deadline. rewrite Hs, Hk.
  assert ((QUEUE_ADMISSION_RATE s =? 0) = false) as -> by zlia. eexists. split; [done|].
  pose proof (zrank_range _ _ _ Hk) as Hrange. set (r := inject_Z (QUEUE_ADMISSION_RATE s)).
  assert (Hrq : (0 < r)%Q) by (unfold r; change 0%Q with (inject_Z 0); by rewrite <-Zlt_Qlt).
  assert (Hk0 : (0 <= inject_Z (rank + 1))%Q) by (change 0%Q with (inject_Z 0); rewrite <-Zle_Qle; lia).
  assert (Hk1 : (inject_Z (rank + 1) / r <= 4294967296 # 1)%Q).
  { apply Qle_shift_div_r; [done|]. change (4294967296 # 1)%Q with (inject_Z SPAN_SECONDS).
    unfold r. rewrite <-inject_Z_mult, <-Zle_Qle. done. }
  pose proof (deadline_error start (inject_Z (rank + 1)) r Hspan Hrq Hk0 Hk1) as Hd.
  destruct (admitted_count_passes s meta now e m start rank _ Hr Hs Hspan Hnow Hrange Hd) as [Hin Hout].
  fold r in Hin, Hout.
  assert (Hst : ∀ v k, zrank (draw_of m e) (z_str v) = Some k →
    status s meta now e v m =
      if k <? admitted_count s meta now e m then mk_queue_state true None false false
      else mk_queue_state false (Some (k - admitted_count s meta now e m)) false false).
  { intros v k Hv. unfold status. rewrite Hv, Hp.
    by assert ((get_available e (rm_redis m) <=? 0) = false) as -> by zlia. }
  pose proof (admitted_count_nonneg s meta now e m Hr) as Hcount.
  split; [unfold CLOCK_TOLERANCE; apply Qabs_Qle_condition in Hd; apply Qabs_Qle_condition; lra|].
  cbn zeta; rewrite (Hst u rank Hk); split_and!.
  - intros H. specialize (Hin H). by assert ((rank <? admitted_count s meta now e m) = true) as -> by zlia.
  - intros H. specialize (Hout H). by assert ((rank <? admitted_count s meta now e m) = false) as -> by zlia.
  - destruct (_ <? _) eqn:Hlt; simpl; [done|]. intros _. eexists. split; [done|zlia].
  - intros v k Hv Hle. rewrite (Hst v k Hv). destruct (rank <? _) eqn:Hlt; [|done]. intros _.
    by assert ((k <? admitted_count s meta now e m) = true) as -> by zlia.
Qed.

(** ** The pass *)

Lemma live_later r e : r_now r < e → live r e = true.
Proof. unfold live. zlia. Qed.

(** A pass that was taken: its claims fit, its name was free, and it is now used
    until [x]. *)
Lemma verify_ok decode now token user event m j m' :
  verify_admission decode now token user event m = (Ok j, m') →
  ∃ c exp, decode now token = Some c ∧ cl_typ c = Some "admission" ∧ cl_event c = Some event ∧
    cl_sub c = Some (z_str user) ∧ cl_jti c = j ∧ cl_exp c = Some exp ∧
    used_exists m (used_name j) = false ∧
    m' = with_used (<[used_name j :=
      expiry_after (rm_redis m) (Z.max 1 (Z.quot (exp * 1000 - now) 1000))]> (rm_used m)) m.
Proof.
  unfold verify_admission. destruct (decode now token) as [c|]; [|done].
  destruct (bool_decide (cl_typ c = Some "admission")) eqn:H1; [|done].
  destruct (bool_decide (cl_event c = Some event)) eqn:H2; [|done].
  destruct (bool_decide (cl_sub c = Some (z_str user))) eqn:H3; [|done]. simpl.
  apply bool_decide_eq_true in H1, H2, H3.
  destruct (cl_exp c) as [exp|] eqn:H4; [|done]. destruct (used_exists _ _) eqn:H5; [done|].
  intros [= <- <-]. exists c, exp. done.
Qed.

Lemma verify_err decode now token user event m e m' :
  verify_admission decode now token user event m = (Err e, m') →
  m' = m ∧ (e = KeyError ∨ ∃ why, e = Domain (AdmissionDenied why)).
Proof.
  unfold verify_admission. intros H. case_hyp H; simplify_eq; eauto.
Qed.

(** C21 (a pass is spent at most once, up to its last second).  Once a pass has been
    taken, as long as its marker is not refunded, every further attempt with the
    same token - by anybody, for any event - until one second before the token
    expires is refused and changes nothing. *)
Theorem pass_single_use decode now token user event m j m1 m2 now2 user2 event2 c exp :
  verify_admission decode now token user event m = (Ok j, m1) →
  decode now token = Some c → cl_exp c = Some exp → decode now2 token = Some c →
  r_now (rm_redis m) = now → r_now (rm_redis m2) = now2 →
  rm_used m2 !! used_name j = rm_used m1 !! used_name j →
  now < exp * 1000 → now2 <= exp * 1000 - 1000 →
  ∃ why, verify_admission decode now2 token user2 event2 m2 = (Err (Domain (AdmissionDenied why)), m2).
Proof.
  intros Hv Hc Hexp Hc2 Hn Hn2 Hu Hlt Hle.
  destruct (verify_ok _ _ _ _ _ _ _ _ Hv) as (c' & exp' & Hc' & _ & _ & _ & Hj & He' & _ & ->).
  simplify_eq. simpl in Hu. rewrite lookup_insert_eq in Hu.
  unfold verify_admission. rewrite Hc2.
  destruct (bool_decide (cl_typ c = _)); [|simpl; eauto].
  destruct (bool_decide (cl_event c = _)); [|simpl; eauto].
  destruct (bool_decide (cl_sub c = _)); [|simpl; eauto]. simpl. rewrite Hexp.
  assert (used_exists m2 (used_name (cl_jti c)) = true) as ->; [|eauto].
  unfold used_exists. rewrite Hu. apply live_later. unfold expiry_after. 
  rewrite Z.quot_div_nonneg by lia.
  pose proof (Z.div_mod (exp * 1000 - r_now (rm_redis m)) 1000).
  pose proof (Z.mod_pos_bound (exp * 1000 - r_now (rm_redis m)) 1000). lia.
Qed.

(** In its last second a pass works twice.  The marker's time to live is the
    token's remaining life cut to whole seconds, so it is gone before the token:
    unless the remaining life is a whole number of seconds, there is a moment
    after the first use at which the token still decodes and is accepted again. *)
Theorem pass_works_twice_in_its_last_second decode now token user event m j m1 c exp :
  verify_admission decode now token user event m = (Ok j, m1) →
  decode now token = Some c → cl_exp c = Some exp →
  r_now (rm_redis m) = now → 1000 < exp * 1000 - now → (exp * 1000 - now) mod 1000 ≠ 0 →
  (* the token decodes until it expires *)
  (∀ t, now <= t < exp * 1000 → decode t token = Some c) →
  let now2 := exp * 1000 - 1 in
  let m2 := with_redis (set_now now2 (rm_redis m1)) m1 in
  ∃ m3, verify_admission decode now2 token user event m2 = (Ok j, m3) ∧ now2 < exp * 1000.
Proof.
  intros Hv Hc Hexp Hn Hlong Hfrac Hdec. cbn zeta.
  destruct (verify_ok _ _ _ _ _ _ _ _ Hv) as (c' & exp' & Hc' & H1 & H2 & H3 & Hj & He' & _ & ->).
  simplify_eq. unfold verify_admission. rewrite Hdec by lia. rewrite H1, H2, H3.
  rewrite !bool_decide_eq_true_2 by done. simpl. rewrite Hexp.
  assert (Hd : exp * 1000 - r_now (rm_redis m) =
    1000 * ((exp * 1000 - r_now (rm_redis m)) / 1000) + (exp * 1000 - r_now (rm_redis m)) mod 1000)
    by (apply Z.div_mod; lia).
  pose proof (Z.mod_pos_bound (exp * 1000 - r_now (rm_redis m)) 1000).
  rewrite Z.quot_div_nonneg by lia.
  set (q := (exp * 1000 - r_now (rm_redis m)) / 1000) in *.
  assert (1 <= q) by (unfold q; apply Z.div_le_lower_bound; lia).
  match goal with |- context [used_exists ?x ?y] =>
    assert (used_exists x y = false) as -> end.
  { unfold used_exists. simpl. rewrite lookup_insert_eq. unfold live, expiry_after. simpl. zlia. }
  eexists. split; [done|lia].
Qed.

(** ** The pass and the order *)

(** Nothing about the used names changed, but for a name that was free. *)
Definition pass_kept (m m' : Room) : Prop := ∀ j,
  rm_used m' !! j = rm_used m !! j ∨ used_exists m j = false ∧ rm_used m' !! j = None.

(** One pass was spent: its name was free and is now used until [x]. *)
Definition pass_spent (m m' : Room) : Prop := ∃ j x,
  used_exists m j = false ∧ r_now (rm_redis m) < x ∧ rm_used m' = <[j := x]> (rm_used m).

Lemma pass_kept_refl m : pass_kept m m.
Proof. intros j. by left. Qed.

Lemma on_limits_frame (c : M Limits exn unit) m :
  rm_used (on_limits c m).2 = rm_used m ∧ rm_redis (on_limits c m).2 = rm_redis m.
Proof. unfold on_limits. by destruct (c (rm_limits m)). Qed.

Lemma on_limits_kept (c : M Limits exn unit) m : pass_kept m (on_limits c m).2.
Proof. intros j. left. by destruct (on_limits_frame c m) as [-> _]. Qed.

Section create.
Context (settings : Settings) (decode : Z → string → option claims) (link : redis_link).
Context (randrange : Z → Z → Z) (others : Z → Redis → Redis) (trace traceparent : string).
Context (now : Z) (meta : option EventMeta) (user event quantity : Z) (zone : option Z).
Context (idem token : string).
Hypothesis randrange_range : ∀ k n, 0 < n → 0 <= randrange k n < n.
Hypothesis others_intents : ∀ k r, intents_of idem (others k r) = intents_of idem r.
(* the application signs no admission token without an id *)
Hypothesis tokens_have_ids : ∀ t s c, decode t s = Some c → cl_typ c = Some "admission" →
  is_Some (cl_jti c).

Lemma submit_in_room m :
  let out := on_redis (submit_order settings link randrange others trace traceparent now meta user
               event quantity idem zone) m in
  submitted link meta now user event quantity idem zone (rm_redis m) (out.1, rm_redis out.2) ∧
  rm_used out.2 = rm_used m.
Proof using randrange_range others_intents.
  cbn zeta. unfold on_redis.
  pose proof (submit_order_cases settings randrange others trace traceparent now meta user event
    quantity idem zone randrange_range others_intents link (rm_redis m)) as H.
  by destruct (submit_order _ _ _ _ _ _ _ _ _ _ _ _ _ (rm_redis m)) as [out r].
Qed.

(** A pass is spent when an order intent was accepted.  When ordering
    succeeds, one unused pass has been marked used (none under the load-test
    bypass) and the submission put exactly the intent it describes in the stream,
    or found it there; when it fails with any error of the domain - the
    rate limit, a refused pass, a sold-out event, no fitting seats - no intent is
    left and every pass is as it was; any other exception leaves no intent either
    and at most costs the pass - unless Redis carried the reservation out and its
    answer was lost, and then the intent is there and the pass is spent: no
    exception ever leaves an intent and hands its pass back. *)
Theorem pass_spent_iff_accepted m :
  let '(out, m') := create_endpoint settings decode link randrange others trace traceparent now
                      meta user event quantity zone idem token m in
  match out with
  | Ok key => key = idem ∧
      (if LOADTEST_BYPASS_ADMISSION settings then rm_used m' = rm_used m else pass_spent m m') ∧
      ∃ res, submitted link meta now user event quantity idem zone (rm_redis m) (Ok res, rm_redis m')
  | Err (Domain _) => intents_of idem (rm_redis m') = intents_of idem (rm_redis m) ∧ pass_kept m m'
  | Err _ => intents_of idem (rm_redis m') = intents_of idem (rm_redis m) ∧
        (pass_kept m m' ∨ pass_spent m m') ∨
      link = LostAfter ∧
        (∃ i, enqueued meta now user event quantity idem zone (rm_redis m) i (rm_redis m')) ∧
        (if LOADTEST_BYPASS_ADMISSION settings then rm_used m' = rm_used m else pass_spent m m')
  end.
Proof using randrange_range others_intents tokens_have_ids.
  unfold create_endpoint, bind at 1.
  match goal with |- context [on_limits ?c m] =>
    destruct (on_limits_frame c m) as [Hu Hr]; pose proof (on_limits_kept c m) as Hk;
    destruct (on_limits c m) as [[[]|e] m1] end; simpl in Hu, Hr, Hk.
  2:{ destruct e; rewrite Hr; auto 6. }
  assert (Hex : ∀ j, used_exists m1 j = used_exists m j)
    by (intros j; unfold used_exists; by rewrite Hu, Hr).
  unfold bind at 1. destruct (LOADTEST_BYPASS_ADMISSION settings) eqn:Hb.
  - cbn [ret]. unfold try_catch, bind at 1. destruct (submit_in_room m1) as [Hs Hu2].
    rewrite Hr in Hs. destruct (on_redis _ m1) as [[res|e] m2]; simpl in *.
    + split; [done|]. split; [congruence|eauto].
    + assert (Hkept : pass_kept m m2) by (intros j; left; congruence).
      destruct Hs as [Hs|(Hl & -> & Hi)]; [destruct e; simpl; auto 6|]. simpl. right.
      split_and!; [done|done|congruence].
  - destruct (verify_admission decode now token user event m1) as [[j|e] m2] eqn:Hv.
    2:{ destruct (verify_err _ _ _ _ _ _ _ _ Hv) as [-> He].
        destruct He as [->|[why ->]]; rewrite Hr; auto 6. }
    destruct (verify_ok _ _ _ _ _ _ _ _ Hv) as (c & exp & Hc & Ht & _ & _ & Hj & _ & Hfree & ->).
    destruct (tokens_have_ids _ _ _ Hc Ht) as [id Hid]. rewrite Hj in Hid. subst j.
    rewrite Hid in *. simpl used_name in *. rewrite Hex in Hfree.
    set (x := expiry_after _ _). set (m2 := with_used _ m1).
    unfold try_catch, bind at 1. destruct (submit_in_room m2) as [Hs Hu2].
    change (rm_redis m2) with (rm_redis m1) in Hs. rewrite Hr in Hs.
    assert (Hspent : ∀ m3, rm_used m3 = rm_used m2 → pass_spent m m3).
    { intros m3 H3. exists id, x. rewrite H3. simpl. rewrite Hu. split_and!; [done| |done].
      unfold x, expiry_after. rewrite Hr. lia. }
    destruct (on_redis _ m2) as [[res|e] m3]; simpl in *.
    + split; [done|]. split; [by apply Hspent|eauto].
    + destruct Hs as [Hs|(Hl & -> & Hi)]; [|right; split_and!; [done|done|by apply Hspent]].
      destruct e; simpl; [|left; split; [done|]; right; by apply Hspent..]. split; [done|].
      intros k. simpl. rewrite Hu2. simpl. destruct (decide (k = id)) as [->|Hne].
      * right. split; [done|apply lookup_delete_eq].
      * left. rewrite lookup_delete_ne, lookup_insert_ne by done. by rewrite Hu.
Qed.
End create.

(** ** The breaker *)

Lemma xlen_nonneg s : 0 <= xlen s.
Proof. unfold xlen. lia. Qed.

(** The dead letters past a cursor. *)
Definition dead_after (c : sid) (dead : Stream) : Z :=
  let newest := match last (s_entries dead) with Some e => e.1 | None => (0, 0) end in
  Z.of_nat (length (filter (λ e, sid_ltb c e.1 = true ∧ sid_ltb newest e.1 = false) (s_entries dead))).

(** The breaker follows the health of the pipeline and cannot stick.  After a
    report admission is paused exactly when the backlog is over its threshold or
    more dead letters than allowed arrived since the last report - none on the
    first; the next report, if no dead letter arrived and the backlog is down,
    resumes it; and with no further report the pause ends by itself within two
    minutes. *)
Theorem breaker_follows_health s now m :
  0 <= ADMISSION_PAUSE_NEW_DEAD_LETTERS s →
  let '(st, m') := report_queue_depth s now m in
  let fresh := match rm_cursor m with None => 0 | Some c => dead_after c (r_dead (rm_redis m)) end in
  (is_paused m' = true ↔ ADMISSION_PAUSE_NEW_DEAD_LETTERS s < fresh ∨
                         ADMISSION_PAUSE_BACKLOG_THRESHOLD s < xlen (r_stream (rm_redis m))) ∧
  (∀ r now2, r_dead r = r_dead (rm_redis m) → xlen (r_stream r) <= ADMISSION_PAUSE_BACKLOG_THRESHOLD s →
     is_paused (report_queue_depth s now2 (with_redis r m')).2 = false) ∧
  (∀ r, r_now (rm_redis m) + 120000 <= r_now r → is_paused (with_redis r m') = false).
Proof.
  intros Hcap. unfold report_queue_depth, collect_queue_stats.
  set (dead := r_dead (rm_redis m)). set (cap := ADMISSION_PAUSE_NEW_DEAD_LETTERS s) in *.
  set (newest := match last (s_entries dead) with Some e => e.1 | None => (0, 0) end).
  assert (Hcount : count_new_dead_letters (Z.to_nat cap) dead (rm_cursor m) =
    (match rm_cursor m with None => 0 | Some c => Z.min (cap + 1) (dead_after c dead) end, newest)).
  { unfold count_new_dead_letters. fold newest. destruct (rm_cursor m) as [c|]; [|done].
    f_equal. unfold dead_after. fold newest. rewrite length_take. lia. }
  rewrite Hcount. cbn iota beta zeta.
  assert (Hlive : ∀ b t mm, 0 < t → is_paused (set_admission_paused b t mm) = b).
  { intros [] t mm Ht; [|done]. unfold is_paused, set_admission_paused. simpl.
    apply live_later. unfold expiry_after. lia. }
  split_and!.
  - rewrite Hlive by lia. unfold unhealthy. simpl. fold cap. rewrite orb_true_iff, !Z.ltb_lt.
    destruct (rm_cursor m); lia.
  - intros r now2 Hd Hx. simpl. rewrite Hd. fold dead. unfold count_new_dead_letters. fold newest.
    rewrite Hlive by lia. unfold unhealthy. simpl. fold cap.
    assert (Hnil : filter (λ e : sid * fields, sid_ltb newest e.1 = true ∧ sid_ltb newest e.1 = false)
      (s_entries dead) = []).
    { apply filter_none. intros e _ [H1 H2]. congruence. }
    rewrite Hnil, take_nil. simpl. apply orb_false_iff. rewrite !Z.ltb_ge. lia.
  - intros r Hr. unfold set_admission_paused. simpl. destruct (unhealthy _ _); [|done].
    unfold is_paused. simpl. unfold live, expiry_after. zlia.
Qed.

(** ** Every frame but the last is an undecided state *)

Lemma stream_loop_stops wakes :
  Forall (λ st, terminal st = false) (removelast (stream_loop wakes)).
Proof.
  induction wakes as [|w l IH]; [constructor|]. cbn [stream_loop].
  destruct (negb _); [constructor|]. destruct (wk_gone w); [constructor|].
  destruct (terminal (wk_state w)) eqn:Ht; [constructor|].
  destruct (stream_loop l) as [|x y] eqn:Hl; [constructor|].
  change (removelast (wk_state w :: x :: y)) with (wk_state w :: removelast (x :: y)).
  by constructor.
Qed.

(** ** Witnesses *)

(** Four tickets left for event 7, user 5 in the draw. *)
Definition open_room : Room :=
  register "salt" 7 5 (with_redis (set_available {[7 := 4]} empty_redis) empty_room).
Definition priced_meta : EventMeta := meta_of priced_event ∅.

(** A pass of user 5 for event 7, good until 119.5 seconds after time 500. *)
Definition demo_pass : claims := admission_claims 0 5 7 120 "j1".
Definition demo_decode (now : Z) (token : string) : option claims :=
  if bool_decide (token = "pass") && (now <? 120000) then Some demo_pass else None.
Definition pass_room : Room := with_redis (set_now 500 (rm_redis open_room)) open_room.

(** Event 7 with its window closing in November 2023, and its first in the draw. *)
Definition soon_event : Event :=
  mk_event 7 None 1700000900000 1700009000000 1700000000000 1700000800000 None (Some 1700000000000)
    10 (Some 100) PUBLISHED 1.
Definition soon_meta : EventMeta := meta_of soon_event ∅.
Definition two_waiting : Room :=
  register "salt" 7 6 (register "salt" 7 5 (with_redis (set_available {[7 := 4]} empty_redis) empty_room)).

Lemma admitted_exactly_from_deadline_witness :
  q_admitted (status (default_settings "s") (Some soon_meta) 1700000000003 7 5 two_waiting) = true ∧
  q_admitted (status (default_settings "s") (Some soon_meta) 1700000000001 7 5 two_waiting) = false.
Proof.
  assert (Hz : zrank (draw_of two_waiting 7) (z_str 5) = Some 0) by (vm_compute; reflexivity).
  split.
  - destruct (admitted_exactly_from_deadline (default_settings "s") (Some soon_meta) 1700000000003 7 5
      two_waiting 1700000000000 0) as (d & H & _ & Hin & _);
      [reflexivity|vm_compute; reflexivity|reflexivity|vm_compute; reflexivity|exact Hz
      |unfold in_span, SPAN_SECONDS; lia..|vm_compute; discriminate|].
    apply Hin. vm_compute in H. injection H as <-. by vm_compute.
  - destruct (admitted_exactly_from_deadline (default_settings "s") (Some soon_meta) 1700000000001 7 5
      two_waiting 1700000000000 0) as (d & H & _ & _ & Hout & _);
      [reflexivity|vm_compute; reflexivity|reflexivity|vm_compute; reflexivity|exact Hz
      |unfold in_span, SPAN_SECONDS; lia..|vm_compute; discriminate|].
    apply Hout. vm_compute in H. injection H as <-. by vm_compute.
Defined.

(** The instant of the deadline itself can be too early: the second in the draw, at
    500 a second, is due exactly four milliseconds after the start; the deadline as a
    double is that instant as a double, and yet the head count, which rounds another
    way, has not reached it, so that a stream woken then sleeps a whole heartbeat. *)
Lemma deadline_may_be_too_early :
  let s := default_settings "s" in
  let now := 1700000000004 in
  admit_deadline s (Some soon_meta) 7 6 two_waiting = Ok (Some (timestamp now)) ∧
  status s (Some soon_meta) now 7 6 two_waiting = mk_queue_state false (Some 0) false false ∧
  stream_timeout now (Some (timestamp now)) = inject_Z SSE_HEARTBEAT_SECONDS.
Proof. cbn zeta. split_and!; vm_compute; reflexivity. Qed.

Lemma pass_single_use_witness :
  ∃ m1, verify_admission demo_decode 500 "pass" 5 7 pass_room = (Ok (Some "j1"), m1) ∧
  ∃ why, verify_admission demo_decode 119000 "pass" 5 7 (with_redis (set_now 119000 (rm_redis m1)) m1) =
    (Err (Domain (AdmissionDenied why)), with_redis (set_now 119000 (rm_redis m1)) m1).
Proof.
  eexists. split; [reflexivity|].
  eapply (pass_single_use demo_decode 500 "pass" 5 7 pass_room (Some "j1"));
    [reflexivity|reflexivity|reflexivity|reflexivity|reflexivity|reflexivity|reflexivity|done|done].
Defined.
