(* ===== verification/QueueEvents.v ===== *)
(** Live updates of the waiting room (src/app/services/queue_events.py and the stream
    of src/app/api/v1/events.py): the mailboxes of a process, the subscriber that
    fills them, and the streams that wait on them, as a step relation - pokes are
    published, delivered or lost, streams wake and re-read - in any interleaving.
    Instants are milliseconds. *)

From Stdlib Require Import QArith Lqa.
From S2P Require Import Prelude Exceptions Config Keys WaitingRoom.

#[local] Open Scope string_scope.
#[local] Open Scope list_scope.
#[local] Open Scope Z_scope.

(** ** The mailboxes of a process *)

(** [_mailboxes]: the queues of one place each, by event; true when full. *)
Record Hub : Type := mk_hub { hb_buckets : gmap Z (gmap nat bool); hb_next : nat }.

Definition empty_hub : Hub := mk_hub ∅ 0.

Definition bucket (event_id : Z) (h : Hub) : gmap nat bool := default ∅ (hb_buckets h !! event_id).

(** [register] *)
Definition sse_register (event_id : Z) (h : Hub) : nat * Hub :=
  let b := hb_next h in
  (b, mk_hub (<[event_id := <[b := false]> (bucket event_id h)]> (hb_buckets h)) (S b)).

(** [unregister] *)
Definition sse_unregister (event_id : Z) (b : nat) (h : Hub) : Hub :=
  match hb_buckets h !! event_id with
  | None => h
  | Some boxes =>
      let boxes := delete b boxes in
      mk_hub (if bool_decide (boxes = ∅) then delete event_id (hb_buckets h)
              else <[event_id := boxes]> (hb_buckets h)) (hb_next h)
  end.

(** [_nudge]: a full mailbox stays full. *)
Definition nudge (full : bool) : bool := true.

(** [_wake], [_wake_all] *)
Definition wake_event (event_id : Z) (h : Hub) : Hub :=
  match hb_buckets h !! event_id with
  | None => h
  | Some boxes => mk_hub (<[event_id := nudge <$> boxes]> (hb_buckets h)) (hb_next h)
  end.
Definition wake_all (h : Hub) : Hub :=
  mk_hub ((λ boxes : gmap nat bool, nudge <$> boxes) <$> hb_buckets h) (hb_next h).

(** [run_subscriber], for one message. *)
Definition dispatch (chan : string) (h : Hub) : Hub :=
  if bool_decide (chan = GLOBAL_CHANNEL) then wake_all h
  else match event_id_from_channel chan with
       | Some event_id => wake_event event_id h
       | None => h
       end.

(** [mailbox.get()], when there is something to get. *)
Definition take_poke (event_id : Z) (b : nat) (h : Hub) : Hub :=
  mk_hub (<[event_id := <[b := false]> (bucket event_id h)]> (hb_buckets h)) (hb_next h).

Definition mailbox (event_id : Z) (b : nat) (h : Hub) : option bool := bucket event_id h !! b.

(** [30 s] cap, doubled from [2 s]: how long the subscriber waits after its [n]-th
    failure in a row, without the jitter. *)
Definition backoff_seconds (failures : Z) : Z := Z.min 30 (2 ^ Z.min failures 5).

(** ** The subscriber *)

Record Message : Type := mk_message { ms_type : string; ms_channel : string }.

(** One connection of the subscriber: whether it subscribed, what it then heard, and
    how it ended: an error of Redis, the end of the stream or a cancellation. *)
Inductive listen_end : Type := Failed | Ended | Cancelled.
#[global] Instance listen_end_eq_dec : EqDecision listen_end.
Proof. solve_decision. Defined.
Record Listening : Type := mk_attempt {
  at_subscribed : bool; at_messages : list Message; at_end : listen_end;
}.

Definition deliver (h : Hub) (m : Message) : Hub :=
  if bool_decide (ms_type m = "pmessage") then dispatch (ms_channel m) h else h.

(** [run_subscriber]: the mailboxes, the sleeps between connections without their
    jitter, and whether the task is still running. *)
Fixpoint run_subscriber (failures : Z) (h : Hub) (attempts : list Listening) : Hub * list Z * bool :=
  match attempts with
  | [] => (h, [], true)
  | a :: attempts' =>
      let failures := if at_subscribed a then 0 else failures in
      let h := if at_subscribed a then foldl deliver h (at_messages a) else h in
      match at_end a with
      | Cancelled => (h, [], false)
      | Ended => run_subscriber failures h attempts'
      | Failed =>
          let '(h, sleeps, running) := run_subscriber (failures + 1) h attempts' in
          (h, backoff_seconds (failures + 1) :: sleeps, running)
      end
  end.

(** ** Streams *)

(** Where a stream is: registered, asleep until an instant, awake, or gone. *)
Inductive stream_pc : Type :=
  | Opening
  | Asleep (until : Q)
  | Awake
  | Closed.

(** [cn_started], [cn_read]: when it began and when it last read its state;
    [cn_shown]: the last frame; [cn_missed]: something changed since without a poke. *)
Record Connection : Type := mk_connection {
  cn_event : Z; cn_user : Z; cn_pc : stream_pc; cn_started : Z; cn_read : Z;
  cn_shown : option QueueState; cn_missed : bool;
}.

(** The process, the messages on their way to it, and what [waiting_room.status]
    would answer. *)
Record Live : Type := mk_live {
  lv_now : Z;
  lv_truth : Z → Z → QueueState;
  lv_messages : list string;
  lv_hub : Hub;
  lv_streams : gmap nat Connection;        (* by mailbox *)
}.

Definition set_stream (b : nat) (c : Connection) (w : Live) : Live :=
  mk_live (lv_now w) (lv_truth w) (lv_messages w) (lv_hub w) (<[b := c]> (lv_streams w)).
Definition set_hub (h : Hub) (w : Live) : Live :=
  mk_live (lv_now w) (lv_truth w) (lv_messages w) h (lv_streams w).
Definition missed (p : Connection → bool) (w : Live) : Live :=
  mk_live (lv_now w) (lv_truth w) (lv_messages w) (lv_hub w)
    ((λ c, mk_connection (cn_event c) (cn_user c) (cn_pc c) (cn_started c) (cn_read c) (cn_shown c)
             (cn_missed c || p c)) <$> lv_streams w).

(** The stream of a user: the mailbox first, then the first frame. *)
Definition open_stream (event_id user_id : Z) (w : Live) : Live :=
  let '(b, h) := sse_register event_id (lv_hub w) in
  set_stream b (mk_connection event_id user_id Opening (lv_now w) (lv_now w) None false) (set_hub h w).

(** [finally: sse_unregister(...)] *)
Definition close_stream (b : nat) (c : Connection) (w : Live) : Live :=
  set_stream b (mk_connection (cn_event c) (cn_user c) Closed (cn_started c) (cn_read c) (cn_shown c) (cn_missed c))
    (set_hub (sse_unregister (cn_event c) b (lv_hub w)) w).

(** Reads the state and sends the frame; then the end, or the next sleep, with the
    deadline [admit_at] it computes. *)
Definition read_and_send (b : nat) (c : Connection) (admit_at : option Q) (w : Live) : Live :=
  let st := lv_truth w (cn_event c) (cn_user c) in
  let c := mk_connection (cn_event c) (cn_user c) (Asleep (inject_Z (lv_now w) + stream_timeout (lv_now w) admit_at * 1000)%Q)
             (cn_started c) (lv_now w) (Some st) false in
  if terminal st || negb (lv_now w - cn_started c <? SSE_MAX_SECONDS * 1000)
  then close_stream b c w else set_stream b c w.

Definition closed (c : Connection) : bool := match cn_pc c with Closed => true | _ => false end.

Definition awake (c : Connection) : Connection :=
  mk_connection (cn_event c) (cn_user c) Awake (cn_started c) (cn_read c) (cn_shown c) (cn_missed c).

Inductive live_step : Live → Live → Prop :=
  | ls_open event_id user_id w : live_step w (open_stream event_id user_id w)
  | ls_first b c admit_at w : lv_streams w !! b = Some c → cn_pc c = Opening →
      live_step w (read_and_send b c admit_at w)
  | ls_poked b c until w : lv_streams w !! b = Some c → cn_pc c = Asleep until →
      mailbox (cn_event c) b (lv_hub w) = Some true →
      live_step w (set_stream b (awake c) (set_hub (take_poke (cn_event c) b (lv_hub w)) w))
  | ls_timeout b c until w : lv_streams w !! b = Some c → cn_pc c = Asleep until →
      (until <= inject_Z (lv_now w))%Q →
      live_step w (set_stream b (awake c) w)
  | ls_gone b c w : lv_streams w !! b = Some c → cn_pc c = Awake → live_step w (close_stream b c w)
  | ls_next b c admit_at w : lv_streams w !! b = Some c → cn_pc c = Awake →
      live_step w (read_and_send b c admit_at w)
  (* [publish_event_poke], [publish_global_poke] after a change *)
  | ls_change event_id truth w : (∀ e u, e ≠ event_id → truth e u = lv_truth w e u) →
      live_step w (mk_live (lv_now w) truth (lv_messages w ++ [channel event_id]) (lv_hub w) (lv_streams w))
  | ls_change_all truth w :
      live_step w (mk_live (lv_now w) truth (lv_messages w ++ [GLOBAL_CHANNEL]) (lv_hub w) (lv_streams w))
  | ls_deliver chan rest w : lv_messages w = chan :: rest →
      live_step w (set_hub (dispatch chan (lv_hub w)) (mk_live (lv_now w) (lv_truth w) rest (lv_hub w) (lv_streams w)))
  (* a publish that fails, an admission that comes with time, a lost connection *)
  | ls_silent truth w :
      live_step w (missed (λ c, true) (mk_live (lv_now w) truth (lv_messages w) (lv_hub w) (lv_streams w)))
  | ls_lost w :
      live_step w (missed (λ c, true) (mk_live (lv_now w) (lv_truth w) [] (lv_hub w) (lv_streams w)))
  | ls_tick t w : lv_now w <= t →
      live_step w (mk_live t (lv_truth w) (lv_messages w) (lv_hub w) (lv_streams w)).

Definition live_start (now : Z) (truth : Z → Z → QueueState) : Live := mk_live now truth [] empty_hub ∅.

(** ** The registry *)

Lemma bucket_insert e e' boxes h n :
  bucket e (mk_hub (<[e' := boxes]> (hb_buckets h)) n) = if decide (e = e') then boxes else bucket e h.
Proof.
  unfold bucket. simpl. destruct (decide (e = e')) as [->|Hne]; [by rewrite lookup_insert_eq|].
  by rewrite lookup_insert_ne by congruence.
Qed.

Lemma mailbox_register e e' b h :
  mailbox e b (sse_register e' h).2 =
    if decide (e = e' ∧ b = hb_next h) then Some false else mailbox e b h.
Proof.
  unfold mailbox, sse_register. simpl. rewrite bucket_insert. destruct (decide (e = e')) as [->|Hne].
  - destruct (decide (b = hb_next h)) as [->|Hb].
    + by rewrite lookup_insert_eq, decide_True.
    + rewrite lookup_insert_ne by congruence. rewrite decide_False; [done|]. tauto.
  - rewrite decide_False; [done|]. tauto.
Qed.

Lemma mailbox_unregister e e' b b' h :
  mailbox e b (sse_unregister e' b' h) = if decide (e = e' ∧ b = b') then None else mailbox e b h.
Proof.
  unfold mailbox, sse_unregister. destruct (hb_buckets h !! e') as [boxes|] eqn:He.
  - assert (Hb : ∀ m, m = (if bool_decide (delete b' boxes = ∅) then delete e' (hb_buckets h)
      else <[e' := delete b' boxes]> (hb_buckets h)) →
      default ∅ (m !! e) = if decide (e = e') then delete b' boxes else bucket e h).
    { intros m ->. unfold bucket. destruct (decide (e = e')) as [->|Hne]; case_bool_decide as Hd.
      - by rewrite lookup_delete_eq.
      - by rewrite lookup_insert_eq.
      - by rewrite lookup_delete_ne.
      - by rewrite lookup_insert_ne. }
    unfold bucket at 1. simpl. rewrite (Hb _ eq_refl). destruct (decide (e = e')) as [->|Hne].
    + destruct (decide (b = b')) as [->|Hbb].
      * by rewrite lookup_delete_eq, decide_True.
      * rewrite lookup_delete_ne by congruence. rewrite decide_False by tauto. unfold bucket. by rewrite He.
    + rewrite decide_False by tauto. done.
  - destruct (decide (e = e' ∧ b = b')) as [[-> ->]|]; [|done]. unfold bucket. by rewrite He.
Qed.

Lemma mailbox_wake e e' b h :
  mailbox e b (wake_event e' h) = if decide (e = e') then (λ _, true) <$> mailbox e b h else mailbox e b h.
Proof.
  unfold mailbox, wake_event. destruct (hb_buckets h !! e') as [boxes|] eqn:He.
  - rewrite bucket_insert. destruct (decide (e = e')) as [->|]; [|done].
    rewrite lookup_fmap. unfold bucket. by rewrite He.
  - destruct (decide (e = e')) as [->|]; [|done]. unfold bucket. by rewrite He.
Qed.

Lemma mailbox_wake_all e b h : mailbox e b (wake_all h) = (λ _, true) <$> mailbox e b h.
Proof.
  unfold mailbox, wake_all, bucket. simpl. rewrite lookup_fmap.
  destruct (hb_buckets h !! e) as [boxes|]; simpl; [by rewrite lookup_fmap|done].
Qed.

Lemma mailbox_take e e' b b' h :
  mailbox e b (take_poke e' b' h) = if decide (e = e' ∧ b = b') then Some false else mailbox e b h.
Proof.
  unfold mailbox, take_poke. rewrite bucket_insert. destruct (decide (e = e')) as [->|Hne].
  - destruct (decide (b = b')) as [->|Hb].
    + by rewrite lookup_insert_eq, decide_True.
    + rewrite lookup_insert_ne by congruence. rewrite decide_False; [done|]. tauto.
  - rewrite decide_False; [done|]. tauto.
Qed.

(** A message fills mailboxes and empties none. *)
Lemma dispatch_mailbox chan e b h :
  mailbox e b (dispatch chan h) = mailbox e b h ∨
  mailbox e b (dispatch chan h) = (λ _, true) <$> mailbox e b h.
Proof.
  unfold dispatch. case_bool_decide; [right; apply mailbox_wake_all|].
  destruct (event_id_from_channel chan) as [i|]; [|by left]. rewrite mailbox_wake.
  destruct (decide (e = i)); [by right|by left].
Qed.

Lemma dispatch_wakes chan e b h x :
  chan = channel e ∨ chan = GLOBAL_CHANNEL → mailbox e b h = Some x → mailbox e b (dispatch chan h) = Some true.
Proof.
  intros [->| ->] Hx; unfold dispatch.
  - rewrite bool_decide_false.
    + destruct (channel_roundtrip e) as [-> _]. by rewrite mailbox_wake, decide_True, Hx.
    + intros Heq. destruct (channel_roundtrip e) as [H1 H2]. rewrite Heq in H1. congruence.
  - rewrite bool_decide_true by done. by rewrite mailbox_wake_all, Hx.
Qed.

Definition buckets_ok (h : Hub) : Prop := ∀ e boxes, hb_buckets h !! e = Some boxes → boxes ≠ ∅.

Lemma dispatch_hub chan h : hb_next (dispatch chan h) = hb_next h ∧ (buckets_ok h → buckets_ok (dispatch chan h)).
Proof.
  unfold dispatch. case_bool_decide.
  - split; [done|]. intros Hb e boxes He. simpl in He. apply lookup_fmap_Some in He as (y & <- & Hy).
    rewrite fmap_empty_iff. by eapply Hb.
  - destruct (event_id_from_channel chan) as [i|]; [|done]. unfold wake_event.
    destruct (hb_buckets h !! i) as [boxes|] eqn:Hi; [|done]. split; [done|].
    intros Hb e y He. simpl in He. apply lookup_insert_Some in He as [[<- <-]|[_ He]]; [rewrite fmap_empty_iff; by eapply Hb|by eapply Hb].
Qed.

(** Delivering keeps a mailbox that was there, and a message for it fills it. *)
Lemma deliver_all_mailbox e b msgs h x :
  mailbox e b h = Some x →
  ∃ y, mailbox e b (foldl deliver h msgs) = Some y ∧ (x = true → y = true) ∧
    (∀ m, m ∈ msgs → ms_type m = "pmessage" → ms_channel m = channel e ∨ ms_channel m = GLOBAL_CHANNEL → y = true).
Proof.
  revert h x. induction msgs as [|m msgs IH]; intros h x Hx; [exists x; split_and!; [done..|by intros m ?%elem_of_nil]|].
  assert (Hstep : ∃ x', mailbox e b (deliver h m) = Some x' ∧ (x = true → x' = true) ∧
    (ms_type m = "pmessage" → ms_channel m = channel e ∨ ms_channel m = GLOBAL_CHANNEL → x' = true)).
  { unfold deliver. case_bool_decide as Ht; [|by exists x].
    destruct (dispatch_mailbox (ms_channel m) e b h) as [H|H]; rewrite Hx in H; [|by exists true].
    exists x. split_and!; [done|done|]. intros _ Hc. pose proof (dispatch_wakes _ _ _ _ _ Hc Hx). congruence. }
  destruct Hstep as (x' & Hx' & Hkeep & Hfill). destruct (IH _ _ Hx') as (y & Hy & Hy1 & Hy2).
  exists y. split_and!; [done|auto|]. intros m' [->|Hm]%elem_of_cons ? ?; eauto.
Qed.

Lemma backoff_bounds failures : 0 <= failures → 2 <= backoff_seconds (failures + 1) <= 30.
Proof.
  intros Hf. unfold backoff_seconds. split; [|lia]. apply Z.min_glb; [lia|].
  change 2 with (2 ^ 1) at 1. apply Z.pow_le_mono_r; lia.
Qed.

(** The subscriber lives as long as the process: no error of Redis ends it, it waits
    between two and thirty seconds after each failure, and a poke heard on any of its
    connections is in the mailbox of every stream of that event. *)
Theorem subscriber_survives failures h attempts e b x :
  0 <= failures → Forall (λ a, at_end a ≠ Cancelled) attempts → mailbox e b h = Some x →
  ∃ h' sleeps y, run_subscriber failures h attempts = (h', sleeps, true) ∧
    length sleeps = length (filter (λ a, at_end a = Failed) attempts) ∧
    Forall (λ t, 2 <= t <= 30) sleeps ∧ mailbox e b h' = Some y ∧ (x = true → y = true) ∧
    (∀ a m, a ∈ attempts → at_subscribed a = true → m ∈ at_messages a → ms_type m = "pmessage" →
       ms_channel m = channel e ∨ ms_channel m = GLOBAL_CHANNEL → y = true).
Proof.
  intros Hf Hall. revert failures h x Hf. induction Hall as [|a attempts Ha Hall IH]; intros failures h x Hf Hx.
  { exists h, [], x. split_and!; [done|done|done|done|done|by intros a m ?%elem_of_nil]. }
  cbn [run_subscriber]. set (failures1 := if at_subscribed a then 0 else failures).
  set (h1 := if at_subscribed a then foldl deliver h (at_messages a) else h).
  assert (H1 : ∃ x1, mailbox e b h1 = Some x1 ∧ (x = true → x1 = true) ∧
    (∀ m, at_subscribed a = true → m ∈ at_messages a → ms_type m = "pmessage" →
       ms_channel m = channel e ∨ ms_channel m = GLOBAL_CHANNEL → x1 = true)).
  { unfold h1. destruct (at_subscribed a); [|by exists x].
    destruct (deliver_all_mailbox e b (at_messages a) h x Hx) as (y & ? & ? & ?). exists y. split_and!; [done|done|eauto]. }
  destruct H1 as (x1 & Hx1 & Hkeep & Hfill).
  assert (Hf1 : 0 <= failures1) by (unfold failures1; destruct (at_subscribed a); lia).
  destruct (at_end a) eqn:Hend; [| |done].
  - destruct (IH (failures1 + 1) h1 x1 ltac:(lia) Hx1) as (h' & sleeps & y & -> & Hl & Hs & Hy & Hy1 & Hy2).
    exists h', (backoff_seconds (failures1 + 1) :: sleeps), y. rewrite filter_cons_True by done.
    split_and!; [done|simpl; lia|constructor; [by apply backoff_bounds|done]|done|auto|].
    intros a' m [->|Hin]%elem_of_cons ? ? ? ?; eauto.
  - destruct (IH failures1 h1 x1 Hf1 Hx1) as (h' & sleeps & y & -> & Hl & Hs & Hy & Hy1 & Hy2).
    exists h', sleeps, y. rewrite filter_cons_False by congruence.
    split_and!; [done|done|done|done|auto|]. intros a' m [->|Hin]%elem_of_cons ? ? ? ?; eauto.
Qed.

Example backoff_schedule :
  (run_subscriber 0 (mk_hub ∅ 0) (replicate 6 (mk_attempt false [] Failed) ++ [mk_attempt true [] Failed])).1.2 =
  [2; 4; 8; 16; 30; 30; 2].
Proof. by vm_compute. Qed.

(** ** The invariant *)

Definition poke_coming (event_id : Z) (w : Live) : Prop :=
  channel event_id ∈ lv_messages w ∨ GLOBAL_CHANNEL ∈ lv_messages w.

(** A sleeping stream that missed nothing has shown the present state, or a poke is
    in its mailbox, or on its way. *)
Definition shown_ok (b : nat) (c : Connection) (w : Live) : Prop :=
  ∀ until, cn_pc c = Asleep until →
  (cn_missed c = false →
     cn_shown c = Some (lv_truth w (cn_event c) (cn_user c)) ∨
     mailbox (cn_event c) b (lv_hub w) = Some true ∨ poke_coming (cn_event c) w) ∧
  (until <= inject_Z (cn_read c + SSE_HEARTBEAT_SECONDS * 1000))%Q ∧ cn_read c <= lv_now w ∧
  (∃ st, cn_shown c = Some st ∧ terminal st = false).

Record live_ok (w : Live) : Prop := {
  lo_open : ∀ b c, lv_streams w !! b = Some c → closed c = false → is_Some (mailbox (cn_event c) b (lv_hub w));
  lo_next : ∀ b c, lv_streams w !! b = Some c → (b < hb_next (lv_hub w))%nat;
  lo_box : ∀ e b x, mailbox e b (lv_hub w) = Some x →
    ∃ c, lv_streams w !! b = Some c ∧ cn_event c = e ∧ closed c = false;
  lo_buckets : buckets_ok (lv_hub w);
  lo_shown : ∀ b c, lv_streams w !! b = Some c → shown_ok b c w;
}.

Lemma live_start_ok now truth : live_ok (live_start now truth).
Proof. by split. Qed.

(** Changes that leave the mailboxes and the streams of the process alone. *)
Lemma live_ok_env w w' :
  live_ok w → lv_hub w' = lv_hub w → lv_streams w' = lv_streams w →
  (∀ b c, lv_streams w !! b = Some c → shown_ok b c w → shown_ok b c w') → live_ok w'.
Proof.
  intros [H1 H2 H3 H4 H5] Hh Hs Hsh. split; rewrite ?Hh, ?Hs; try done. intros b c Hc. apply Hsh; [done|by apply H5].
Qed.

(** A change of one stream and of its own mailbox. *)
Lemma live_ok_stream w b c c' h :
  live_ok w → lv_streams w !! b = Some c → cn_event c' = cn_event c → closed c = false →
  hb_next h = hb_next (lv_hub w) → (buckets_ok (lv_hub w) → buckets_ok h) →
  (∀ e b', b' ≠ b → mailbox e b' h = mailbox e b' (lv_hub w)) →
  (∀ e, e ≠ cn_event c → mailbox e b h = None ∨ mailbox e b h = mailbox e b (lv_hub w)) →
  (if closed c' then mailbox (cn_event c) b h = None else is_Some (mailbox (cn_event c) b h)) →
  shown_ok b c' (set_stream b c' (set_hub h w)) →
  live_ok (set_stream b c' (set_hub h w)).
Proof.
  intros [H1 H2 H3 H4 H5] Hc He Hpc Hn Hb Hother Hev Hown Hsh. split; simpl.
  - intros b' x [[<- <-]|[Hne Hx]]%lookup_insert_Some Hx'.
    + rewrite He. by rewrite Hx' in Hown.
    + rewrite Hother by done. by apply H1.
  - intros b' x [[<- <-]|[Hne Hx]]%lookup_insert_Some; rewrite Hn; [by eapply H2|by eapply H2].
  - intros e b' x Hx. destruct (decide (b' = b)) as [->|Hne].
    + exists c'. rewrite lookup_insert_eq. destruct (decide (e = cn_event c)) as [->|Hee].
      * split_and!; [done|done|]. destruct (closed c'); [congruence|done].
      * destruct (Hev e Hee) as [Hnone|Hsame]; [congruence|]. rewrite Hsame in Hx.
        destruct (H3 e b x Hx) as (y & Hy & Hye & _). congruence.
    + rewrite Hother in Hx by done. destruct (H3 e b' x Hx) as (y & Hy & Hrest). exists y.
      by rewrite lookup_insert_ne by done.
  - by apply Hb.
  - intros b' x [[<- <-]|[Hne Hx]]%lookup_insert_Some; [done|].
    intros u Hu. destruct (H5 b' x Hx u Hu) as (Hs & Hrest). split; [|done].
    intros Hm. rewrite Hother by done. exact (Hs Hm).
Qed.

Lemma stream_timeout_bound now a : (stream_timeout now a <= inject_Z SSE_HEARTBEAT_SECONDS)%Q.
Proof.
  unfold stream_timeout. destruct a as [t|]; [|apply Qle_refl].
  destruct (Qle_bool _ 0); [apply Qle_refl|]. destruct (Qle_bool (inject_Z _) _) eqn:H; [apply Qle_refl|].
  apply Qlt_le_weak, Qnot_le_lt. intros Hle. apply Qle_bool_iff in Hle. congruence.
Qed.

Lemma unregister_hub e b h : hb_next (sse_unregister e b h) = hb_next h ∧ (buckets_ok h → buckets_ok (sse_unregister e b h)).
Proof.
  unfold sse_unregister. destruct (hb_buckets h !! e) as [boxes|] eqn:He; [|done]. split; [done|].
  intros Hb e' y Hy. simpl in Hy. case_bool_decide as Hd.
  - apply lookup_delete_Some in Hy as [_ Hy]. by eapply Hb.
  - apply lookup_insert_Some in Hy as [[_ <-]|[_ Hy]]; [done|by eapply Hb].
Qed.

Lemma take_hub e b h x : mailbox e b h = Some x →
  hb_next (take_poke e b h) = hb_next h ∧ (buckets_ok h → buckets_ok (take_poke e b h)).
Proof.
  intros _. split; [done|]. intros Hb e' y Hy. simpl in Hy. apply lookup_insert_Some in Hy as [[_ <-]|[_ Hy]].
  - apply insert_non_empty.
  - by eapply Hb.
Qed.

Lemma close_ok w b c c0 :
  live_ok w → lv_streams w !! b = Some c → closed c = false → cn_event c0 = cn_event c →
  live_ok (close_stream b c0 w).
Proof.
  intros Hok Hc Hcl He. unfold close_stream. destruct (unregister_hub (cn_event c0) b (lv_hub w)) as [Hn Hb].
  eapply (live_ok_stream w b c); try done.
  - intros e b' Hne. rewrite mailbox_unregister, decide_False; [done|]. tauto.
  - intros e Hne. right. rewrite mailbox_unregister, decide_False; [done|]. rewrite He. tauto.
  - simpl. by rewrite mailbox_unregister, decide_True by done.
Qed.

(** A stream that changes, its mailbox as it was. *)
Lemma stay_ok w b c c' :
  live_ok w → lv_streams w !! b = Some c → closed c = false → cn_event c' = cn_event c → closed c' = false →
  shown_ok b c' (set_stream b c' w) → live_ok (set_stream b c' w).
Proof.
  intros Hok Hc Hcl He Hcl' Hsh. assert (Hw : set_hub (lv_hub w) w = w) by (by destruct w).
  enough (live_ok (set_stream b c' (set_hub (lv_hub w) w))) as H by (by rewrite Hw in H).
  apply (live_ok_stream w b c); rewrite ?Hw; auto. rewrite Hcl'. by apply (lo_open _ Hok).
Qed.

Lemma read_ok w b c admit_at :
  live_ok w → lv_streams w !! b = Some c → closed c = false → live_ok (read_and_send b c admit_at w).
Proof.
  intros Hok Hc Hcl. unfold read_and_send.
  destruct (terminal _ || _) eqn:Ht; [by eapply close_ok|]. apply orb_false_iff in Ht as [Ht _].
  eapply stay_ok; try done. intros u [= <-]. simpl. split_and!; [by left| |lia|by eexists].
  rewrite inject_Z_plus, inject_Z_mult. apply Qplus_le_r.
  by apply Qmult_le_compat_r; [apply stream_timeout_bound|].
Qed.

Lemma awake_ok w b c u h :
  live_ok w → lv_streams w !! b = Some c → cn_pc c = Asleep u →
  h = lv_hub w ∨ mailbox (cn_event c) b (lv_hub w) = Some true ∧ h = take_poke (cn_event c) b (lv_hub w) →
  live_ok (set_stream b (awake c) (set_hub h w)).
Proof.
  intros Hok Hc Hpc Hh. assert (Hcl : closed c = false) by (unfold closed; by rewrite Hpc).
  assert (Hsh : ∀ w', shown_ok b (awake c) w') by by intros w' ?.
  destruct Hh as [->|[Hm ->]].
  - eapply (live_ok_stream w b c); try done; [auto|]. simpl. by apply (lo_open _ Hok).
  - destruct (take_hub _ _ _ _ Hm) as [Hn Hb]. eapply (live_ok_stream w b c); try done.
    + intros e b' Hne. rewrite mailbox_take, decide_False; [done|tauto].
    + intros e Hne. right. rewrite mailbox_take, decide_False; [done|tauto].
    + simpl. rewrite mailbox_take, decide_True by done. by eexists.
Qed.

Lemma open_ok w event_id user_id : live_ok w → live_ok (open_stream event_id user_id w).
Proof.
  intros [H1 H2 H3 H4 H5]. unfold open_stream. destruct (sse_register event_id (lv_hub w)) as [b h] eqn:Hreg.
  assert (Hb : b = hb_next (lv_hub w)) by (by injection Hreg). assert (Hh : h = (sse_register event_id (lv_hub w)).2) by (by rewrite Hreg).
  assert (Hfresh : ∀ c, lv_streams w !! b = Some c → False) by (intros c Hc; specialize (H2 b c Hc); lia).
  assert (Hn : hb_next h = S b) by (by rewrite Hh, Hb).
  split; simpl.
  - intros b' x [[<- <-]|[Hne Hx]]%lookup_insert_Some Hcl; simpl.
    + rewrite Hh, mailbox_register, decide_True by done. by eexists.
    + rewrite Hh, mailbox_register, decide_False; [by apply H1|]. intros [_ ->]. congruence.
  - intros b' x [[<- <-]|[Hne Hx]]%lookup_insert_Some; rewrite Hn; [lia|]. specialize (H2 b' x Hx). lia.
  - intros e b' x Hx. rewrite Hh, mailbox_register in Hx. destruct (decide (e = event_id ∧ b' = hb_next (lv_hub w))) as [[-> ->]|Hne].
    + rewrite <-Hb. eexists. rewrite lookup_insert_eq. by split_and!.
    + destruct (H3 e b' x Hx) as (c & Hc & Hrest). exists c. rewrite lookup_insert_ne; [done|]. intros <-. by eapply Hfresh.
  - rewrite Hh. intros e y Hy. simpl in Hy. apply lookup_insert_Some in Hy as [[_ <-]|[_ Hy]]; [apply insert_non_empty|by eapply H4].
  - intros b' x [[<- <-]|[Hne Hx]]%lookup_insert_Some; [done|]. intros u Hu. destruct (H5 b' x Hx u Hu) as (Hs & Hrest).
    split; [|done]. intros Hm. simpl. rewrite Hh, mailbox_register, decide_False; [by apply Hs|]. intros [_ ->]. congruence.
Qed.

Lemma missed_ok truth messages w :
  live_ok w → live_ok (missed (λ _, true) (mk_live (lv_now w) truth messages (lv_hub w) (lv_streams w))).
Proof.
  intros [H1 H2 H3 H4 H5]. split; simpl.
  - intros b c Hc Hcl. apply lookup_fmap_Some in Hc as (x & <- & Hx). by apply (H1 b x).
  - intros b c Hc. apply lookup_fmap_Some in Hc as (x & <- & Hx). by eapply H2.
  - intros e b x Hx. destruct (H3 e b x Hx) as (c & Hc & He & Hcl). eexists. rewrite lookup_fmap, Hc. simpl.
    split; [done|]. by split.
  - done.
  - intros b c Hc. apply lookup_fmap_Some in Hc as (x & <- & Hx). intros u Hu. simpl in *.
    destruct (H5 b x Hx u Hu) as (_ & Hrest). split; [|done]. rewrite orb_true_r. done.
Qed.

Lemma closed_asleep c u : cn_pc c = Asleep u → closed c = false.
Proof. unfold closed. by intros ->. Qed.

Lemma live_step_ok w w' : live_step w w' → live_ok w → live_ok w'.
Proof.
  intros Hst Hok. destruct Hst as [e u w|b c a w Hc Hpc|b c u w Hc Hpc Hm|b c u w Hc Hpc Hu|b c w Hc Hpc|b c a w Hc Hpc
    |e truth w Ht|truth w|chan rest w Hm|truth w|w|t w Ht].
  - by apply open_ok.
  - apply read_ok; [done|done|]. unfold closed. by rewrite Hpc.
  - eapply awake_ok; try done. by right.
  - assert (Hw : set_hub (lv_hub w) w = w) by (by destruct w). rewrite <-Hw at 1.
    eapply awake_ok; [done|done|done|by left].
  - eapply close_ok; try done. unfold closed. by rewrite Hpc.
  - apply read_ok; [done|done|]. unfold closed. by rewrite Hpc.
  - apply (live_ok_env w); [done..|]. intros b c Hc Hs u Hu. destruct (Hs u Hu) as (Hsh & Hrest). split; [|done].
    intros Hmiss. destruct (decide (cn_event c = e)) as [<-|Hne].
    + right. right. left. simpl. apply elem_of_app. right. by left.
    + destruct (Hsh Hmiss) as [Heq|[Hbox|[Hp|Hp]]].
      * left. simpl. by rewrite Ht.
      * right. by left.
      * right. right. left. simpl. apply elem_of_app. by left.
      * right. right. right. simpl. apply elem_of_app. by left.
  - apply (live_ok_env w); [done..|]. intros b c Hc Hs u Hu. destruct (Hs u Hu) as (Hsh & Hrest). split; [|done].
    intros _. right. right. right. simpl. apply elem_of_app. right. by left.
  - destruct (dispatch_hub chan (lv_hub w)) as [Hn Hb]. destruct Hok as [H1 H2 H3 H4 H5].
    assert (Hsome : ∀ e b, is_Some (mailbox e b (dispatch chan (lv_hub w))) ↔ is_Some (mailbox e b (lv_hub w))).
    { intros e b. destruct (dispatch_mailbox chan e b (lv_hub w)) as [->| ->]; [done|by rewrite fmap_is_Some]. }
    split; simpl.
    + intros b c Hc Hcl. apply Hsome. by apply H1.
    + intros b c Hc. rewrite Hn. by eapply H2.
    + intros e b x Hx. destruct (proj1 (Hsome e b) (ex_intro _ x Hx)) as [y Hy]. by eapply H3.
    + by apply Hb.
    + intros b c Hc u Hu. destruct (H5 b c Hc u Hu) as (Hsh & Hrest). split; [|done]. intros Hmiss. simpl.
      destruct (H1 b c Hc (closed_asleep _ _ Hu)) as [x Hx].
      destruct (Hsh Hmiss) as [Heq|[Hbox|Hp]]; [by left| |].
      * right. left. by destruct (dispatch_mailbox chan (cn_event c) b (lv_hub w)) as [->| ->]; rewrite ?Hbox.
      * destruct (decide (chan = channel (cn_event c) ∨ chan = GLOBAL_CHANNEL)) as [Hch|Hch].
        -- right. left. by eapply dispatch_wakes.
        -- right. right. unfold poke_coming in *. simpl. rewrite Hm, !elem_of_cons in Hp.
           destruct Hp as [[Hp|Hp]|[Hp|Hp]]; [destruct Hch; by left|by left|destruct Hch; by right|by right].
  - by apply missed_ok.
  - by apply missed_ok.
  - apply (live_ok_env w); [done..|]. intros b c Hc Hs u Hu. destruct (Hs u Hu) as (Hsh & H1 & H2 & H3).
    split_and!; [done|done|simpl; lia|done].
Qed.

Lemma live_steps_ok w w' : rtc live_step w w' → live_ok w → live_ok w'.
Proof. induction 1 as [|w w1 w2 Hst _ IH]; [done|]. intros Hok. by apply IH, (live_step_ok w). Qed.

(** C29 (no update is lost, and a lost poke costs one heartbeat).  In every interleaving
    of changes, messages, streams that open, wake, read and close: a sleeping stream
    whose mailbox is empty, with no message for it on its way, shows exactly what the
    status is now, unless something changed without a poke since it last read; even
    then it sleeps no longer than twenty seconds after that read; a poke in its
    mailbox, or the hour, wakes it; and a process keeps a mailbox for its open streams
    and for nothing else. *)
Theorem no_update_is_lost now truth w :
  rtc live_step (live_start now truth) w →
  (∀ b c until, lv_streams w !! b = Some c → cn_pc c = Asleep until →
     (mailbox (cn_event c) b (lv_hub w) = Some false → ¬ poke_coming (cn_event c) w → cn_missed c = false →
        cn_shown c = Some (lv_truth w (cn_event c) (cn_user c))) ∧
     (until <= inject_Z (cn_read c + SSE_HEARTBEAT_SECONDS * 1000))%Q ∧
     (mailbox (cn_event c) b (lv_hub w) = Some true ∨ (until <= inject_Z (lv_now w))%Q →
        ∃ w' c', live_step w w' ∧ lv_streams w' !! b = Some c' ∧ cn_pc c' = Awake)) ∧
  (∀ e b, is_Some (mailbox e b (lv_hub w)) ↔ ∃ c, lv_streams w !! b = Some c ∧ cn_event c = e ∧ closed c = false) ∧
  buckets_ok (lv_hub w).
Proof.
  intros Hr. pose proof (live_steps_ok _ _ Hr (live_start_ok now truth)) as [H1 H2 H3 H4 H5]. split_and!; [| |done].
  - intros b c u Hc Hu. destruct (H5 b c Hc u Hu) as (Hsh & Hb & _). split_and!; [|done|].
    + intros Hbox Hp Hmiss. destruct (Hsh Hmiss) as [?|[?|?]]; [done|congruence|done].
    + intros [Hbox|Hle].
      * do 2 eexists. split; [by eapply ls_poked|]. simpl. by rewrite lookup_insert_eq.
      * do 2 eexists. split; [by eapply ls_timeout|]. simpl. by rewrite lookup_insert_eq.
  - intros e b. split; [intros [x Hx]; by eapply H3|]. intros (c & Hc & <- & Hcl). by apply H1.
Qed.

(** ** A pause reaches a waiting stream *)

Definition waiting_state (paused : bool) (_ _ : Z) : QueueState := mk_queue_state false (Some 4) false paused.

Definition asleep_stream : Live := read_and_send 0 (mk_connection 7 3 Opening 0 0 None false) None
  (open_stream 7 3 (live_start 0 (waiting_state false))).
Definition paused_stream : Live :=
  let w := mk_live 0 (waiting_state true) [GLOBAL_CHANNEL] (lv_hub asleep_stream) (lv_streams asleep_stream) in
  set_hub (dispatch GLOBAL_CHANNEL (lv_hub w)) (mk_live 0 (waiting_state true) [] (lv_hub w) (lv_streams w)).

Definition woken (w : Live) : Live :=
  match lv_streams w !! 0%nat with
  | Some c => set_stream 0 (awake c) (set_hub (take_poke 7 0 (lv_hub w)) w)
  | None => w
  end.
Definition read_again (w : Live) : Live :=
  match lv_streams w !! 0%nat with Some c => read_and_send 0 c None w | None => w end.

Lemma paused_steps : rtc live_step (live_start 0 (waiting_state false)) (read_again (woken paused_stream)).
Proof.
  eapply rtc_l; [apply (ls_open 7 3)|].
  eapply rtc_l; [eapply (ls_first 0%nat _ None); [by vm_compute|done]|].
  eapply rtc_l; [apply (ls_change_all (waiting_state true))|].
  eapply rtc_l; [by eapply ls_deliver|].
  eapply rtc_l; [eapply (ls_poked 0%nat); [by vm_compute|by vm_compute|by vm_compute]|].
  apply rtc_once. eapply (ls_next 0%nat _ None); [by vm_compute|done].
Qed.

Lemma no_update_is_lost_witness :
  ∃ c, lv_streams (read_again (woken paused_stream)) !! 0%nat = Some c ∧ q_paused <$> cn_shown c = Some true.
Proof.
  pose proof (no_update_is_lost 0 (waiting_state false) _ paused_steps) as (H & _).
  eexists. split; [by vm_compute|]. rewrite (proj1 (H 0%nat _ _ ltac:(by vm_compute) ltac:(by vm_compute))); [done|by vm_compute| |done].
  intros [Hp|Hp]; by apply elem_of_nil in Hp.
Defined.
