(* ===== verification/EventAdmin.v ===== *)
(** Creating, editing and publishing an event (src/app/services/event_admin.py,
    publish_event.py, db/optimistic.py, the admin endpoints of api/v1/events.py)
    with the metadata cache the edits must invalidate (event_cache.py).  What
    the administrators' audit trail records of an edit is its diff; the XADD of
    it is left out. *)

From S2P Require Import Prelude Exceptions Config Keys Redis DB Inventory Seating SeatRuns.
From S2P Require Import Pricing Orders WaitingRoom.

#[local] Open Scope string_scope.
#[local] Open Scope list_scope.
#[local] Open Scope Z_scope.

(** ** State *)

(** An event as the ORM holds it: the row and its two texts, which a bad edit
    may have set to None. *)
Record AdminEvent : Type := mk_admin_event {
  ae_row : Event;
  ae_name : option string;
  ae_venue_name : option string;
}.

(** The committed database with what only the administration reads, the Redis of
    the waiting room, and the metadata cache with its expiries. *)
Record Site : Type := mk_site {
  si_db : DB;
  si_text : gmap Z (string * string);        (* events.name, events.venue *)
  si_price_version : gmap (Z * Z) Z;         (* event_zone_prices.version *)
  si_venues : gset Z;
  si_next_event : Z;
  si_room : Room;
  si_meta : gmap Z (EventMeta * Z);          (* event:{e}:meta *)
}.

Definition with_db (d : DB) (s : Site) : Site :=
  mk_site d (si_text s) (si_price_version s) (si_venues s) (si_next_event s) (si_room s) (si_meta s).
Definition with_room (r : Room) (s : Site) : Site :=
  mk_site (si_db s) (si_text s) (si_price_version s) (si_venues s) (si_next_event s) r (si_meta s).
Definition with_meta (v : gmap Z (EventMeta * Z)) (s : Site) : Site :=
  mk_site (si_db s) (si_text s) (si_price_version s) (si_venues s) (si_next_event s) (si_room s) v.

Definition site_now (s : Site) : Z := r_now (rm_redis (si_room s)).

(** ** The metadata cache *)

Definition META_TTL_SECONDS : Z := 60.

(** [get_event_meta]: a live entry, or the row as committed, which then stays
    cached for a minute. *)
Definition get_event_meta (event_id : Z) (s : Site) : option EventMeta * Site :=
  match si_meta s !! event_id with
  | Some (meta, e) =>
      if site_now s <? e then (Some meta, s)
      else
        match load_event_meta (si_db s) event_id with
        | None => (None, s)
        | Some meta => (Some meta,
            with_meta (<[event_id := (meta, site_now s + META_TTL_SECONDS * 1000)]> (si_meta s)) s)
        end
  | None =>
      match load_event_meta (si_db s) event_id with
      | None => (None, s)
      | Some meta => (Some meta,
          with_meta (<[event_id := (meta, site_now s + META_TTL_SECONDS * 1000)]> (si_meta s)) s)
      end
  end.

(** [invalidate_event_meta] *)
Definition invalidate_event_meta (event_id : Z) (s : Site) : Site :=
  with_meta (delete event_id (si_meta s)) s.

(** ** Constraints of [events] *)

(** The CHECKs of [Event.__table_args__]: a name for the first one violated. *)
Definition event_violation (ev : Event) : option string :=
  if negb (0 <? ev_total_seats ev) then Some "ck_events_total_seats_pos"
  else if match ev_price ev with Some p => negb (0 <=? p) | None => false end
  then Some "ck_events_price_nonneg"
  else if negb (eqb (bool_decide (ev_venue ev = None)) (bool_decide (is_Some (ev_price ev))))
  then Some "ck_events_price_source"
  else if negb (ev_starts ev <? ev_ends ev) then Some "ck_events_show_window"
  else if negb (ev_sale_starts ev <? ev_sale_ends ev) then Some "ck_events_sale_window"
  else match ev_queue_opens ev, ev_queue_closes ev with
       | Some o, Some c => if o <? c then None else Some "ck_events_queue_window"
       | _, _ => None
       end.

(** ** The optimistic lock *)

(** [require_version] *)
Definition require_version (version expected : Z) (resource : string) (resource_id : Z)
    : result exn unit :=
  if version =? expected then Ok tt
  else Err (Domain (ConcurrentModification resource resource_id (Some expected) (Some version))).

(** [stale_data_as_conflict] *)
Definition stale_data_as_conflict (resource : string) (resource_id : Z) (expected : option Z)
    {S A} (m : M S exn A) : M S exn A :=
  try_catch m (λ e, match e with
    | StaleDataError => raise (Domain (ConcurrentModification resource resource_id expected None))
    | _ => raise e
    end).

(** The flush of a changed event: [UPDATE ... WHERE version = loaded], with the
    NOT NULLs and the CHECKs. *)
Definition flush_event (loaded : Z) (ev : AdminEvent) : M Site exn unit := λ s,
  let row := ae_row ev in
  match d_events (si_db s) !! ev_id row with
  | None => (Err StaleDataError, s)
  | Some cur =>
      if negb (ev_version cur =? loaded) then (Err StaleDataError, s)
      else
        match ae_name ev, ae_venue_name ev, event_violation row with
        | Some name, Some venue, None =>
            let row := mk_event (ev_id row) (ev_venue row) (ev_starts row) (ev_ends row)
              (ev_sale_starts row) (ev_sale_ends row) (ev_queue_opens row) (ev_queue_closes row)
              (ev_total_seats row) (ev_price row) (ev_status row) (loaded + 1) in
            (Ok tt, mk_site (set_events (<[ev_id row := row]> (d_events (si_db s))) (si_db s))
                      (<[ev_id row := (name, venue)]> (si_text s)) (si_price_version s)
                      (si_venues s) (si_next_event s) (si_room s) (si_meta s))
        | Some _, Some _, Some c => (Err (IntegrityError c), s)
        | _, _, _ => (Err (IntegrityError "not null"), s)
        end
  end.

(** ** Editing *)

(** What an edit records of a value. *)
Inductive jval : Type := JInt (n : option Z) | JStr (t : option string).
#[global] Instance jval_eq_dec : EqDecision jval.
Proof. solve_decision. Defined.
Abbreviation FieldDiff := (list (string * (jval * jval))).

(** The body of the PATCH: [None] is a field that was not sent, [Some None] an
    explicit null. *)
Record EventUpdate : Type := mk_event_update {
  eu_version : Z;
  eu_name : option (option string);
  eu_venue : option (option string);
  eu_starts : option (option Z);
  eu_ends : option (option Z);
  eu_sale_starts : option (option Z);
  eu_sale_ends : option (option Z);
  eu_price : option (option Z);
  eu_queue_opens : option (option Z);
  eu_queue_closes : option (option Z);
}.

Definition no_changes (u : EventUpdate) : bool :=
  negb (is_some (eu_name u) || is_some (eu_venue u) || is_some (eu_starts u) || is_some (eu_ends u)
        || is_some (eu_sale_starts u) || is_some (eu_sale_ends u) || is_some (eu_price u)
        || is_some (eu_queue_opens u) || is_some (eu_queue_closes u)).

(** [a >= b] on datetimes; None does not compare. *)
Definition not_before (a b : option Z) : result exn bool :=
  match a, b with
  | Some x, Some y => Ok (y <=? x)
  | _, _ => Err TypeError
  end.

(** One field of the final loop. *)
Definition changed {A} `{EqDecision A} (name : string) (wrap : A → jval) (before : A)
    (value : option A) : FieldDiff :=
  match value with
  | Some v => if bool_decide (before = v) then [] else [(name, (wrap before, wrap v))]
  | None => []
  end.

(** [apply_event_update] *)
Definition apply_event_update (s : Settings) (ev : AdminEvent) (u : EventUpdate)
    : result exn (AdminEvent * FieldDiff) :=
  let row := ae_row ev in
  let invalid reason := Err (Domain (InvalidEventUpdate (ev_id row) reason)) in
  let? _ := require_version (ev_version row) (eu_version u) "event" (ev_id row) in
  if bool_decide (ev_status row = EV_CANCELLED) then Err (Domain (EventCancelled (ev_id row)))
  else if no_changes u then Ok (ev, [])
  else if is_some (eu_price u) && is_some (ev_venue row) then invalid "price_cents"
  else
    let starts := default (Some (ev_starts row)) (eu_starts u) in
    let ends := default (Some (ev_ends row)) (eu_ends u) in
    let sale_starts := default (Some (ev_sale_starts row)) (eu_sale_starts u) in
    let sale_ends := default (Some (ev_sale_ends row)) (eu_sale_ends u) in
    let? bad := not_before starts ends in
    if (bad : bool) then invalid "starts_at"
    else
      let? bad := not_before sale_starts sale_ends in
      if (bad : bool) then invalid "sale_starts_at"
      else
        let queue_opens := default (ev_queue_opens row) (eu_queue_opens u) in
        let queue_closes := default (ev_queue_closes row) (eu_queue_closes u) in
        match starts, ends, sale_starts, sale_ends with
        | Some st, Some en, Some ss, Some se =>
            let '(opens, closes) := effective_window s ss queue_opens queue_closes in
            if closes <=? opens then invalid "queue_opens_at"
            else
              let diff :=
                changed "name" JStr (ae_name ev) (eu_name u) ++
                changed "venue" JStr (ae_venue_name ev) (eu_venue u) ++
                changed "starts_at" JInt (Some (ev_starts row)) (eu_starts u) ++
                changed "ends_at" JInt (Some (ev_ends row)) (eu_ends u) ++
                changed "sale_starts_at" JInt (Some (ev_sale_starts row)) (eu_sale_starts u) ++
                changed "sale_ends_at" JInt (Some (ev_sale_ends row)) (eu_sale_ends u) ++
                changed "price_cents" JInt (ev_price row) (eu_price u) ++
                changed "queue_opens_at" JInt (ev_queue_opens row) (eu_queue_opens u) ++
                changed "queue_closes_at" JInt (ev_queue_closes row) (eu_queue_closes u) in
              Ok (mk_admin_event
                    (mk_event (ev_id row) (ev_venue row) st en ss se queue_opens queue_closes
                       (ev_total_seats row) (default (ev_price row) (eu_price u)) (ev_status row)
                       (ev_version row))
                    (default (ae_name ev) (eu_name u)) (default (ae_venue_name ev) (eu_venue u)),
                  diff)
        | _, _, _, _ => Err TypeError      (* not reached: the comparisons raised *)
        end.

(** [get_event] *)
Definition get_event (event_id : Z) (s : Site) : option AdminEvent :=
  match d_events (si_db s) !! event_id with
  | None => None
  | Some row =>
      match si_text s !! event_id with
      | Some (name, venue) => Some (mk_admin_event row (Some name) (Some venue))
      | None => Some (mk_admin_event row None None)
      end
  end.

Definition WINDOW_FIELDS : list string := ["sale_starts_at"; "queue_opens_at"; "queue_closes_at"].

(** [publish_event_poke] in the room's Redis. *)
Definition poke_event (event_id : Z) (s : Site) : Site :=
  with_room (with_redis (poke event_id (rm_redis (si_room s))) (si_room s)) s.

(** [update_event_endpoint]; [racing] is what other requests commit between the
    read and the commit. *)
Definition update_event_endpoint (st : Settings) (racing : Site → Site) (event_id : Z)
    (u : EventUpdate) : M Site exn AdminEvent :=
  let! found := gets (get_event event_id) in
  match found with
  | None => raise (Domain (EventNotFound event_id))
  | Some ev =>
      let! res := lift (apply_event_update st ev u) in
      match res.2 with
      | [] => ret ev
      | _ =>
          modify racing ;;;
          stale_data_as_conflict "event" event_id (Some (eu_version u))
            (flush_event (ev_version (ae_row ev)) res.1) ;;;
          modify (invalidate_event_meta event_id) ;;;
          (if existsb (λ f, bool_decide (f ∈ WINDOW_FIELDS)) res.2.*1
           then modify (poke_event event_id) else ret tt) ;;;
          let! fresh := gets (get_event event_id) in
          ret (default res.1 fresh)
      end
  end.

(** ** Zone prices *)

Record ZonePriceUpdate : Type := mk_price_update { zp_zone : Z; zp_price : Z; zp_version : Z }.

(** A row of [event_zone_prices]. *)
Record PriceRow : Type := mk_price_row { pr_price : Z; pr_version : Z }.

Definition price_rows (event_id : Z) (s : Site) : gmap Z PriceRow :=
  list_to_map (omap (λ '((e, z), p),
    if e =? event_id
    then Some (z, mk_price_row p (default 1 (si_price_version s !! (e, z)))) else None)
    (map_to_list (d_prices (si_db s)))).

(** The first loop: every item is checked before any row is touched. *)
Fixpoint check_prices (event_id : Z) (rows : gmap Z PriceRow) (items : list ZonePriceUpdate)
    : result exn unit :=
  match items with
  | [] => Ok tt
  | i :: items' =>
      match rows !! zp_zone i with
      | None => Err (Domain (ZoneNotForEvent event_id (zp_zone i) "no price row for this event"))
      | Some row =>
          let? _ := require_version (pr_version row) (zp_version i) "event_zone_price" (zp_zone i) in
          check_prices event_id rows items'
      end
  end.

(** The second loop. *)
Fixpoint set_prices_loop (rows : gmap Z PriceRow) (items : list ZonePriceUpdate)
    : gmap Z PriceRow * FieldDiff :=
  match items with
  | [] => (rows, [])
  | i :: items' =>
      match rows !! zp_zone i with
      | None => set_prices_loop rows items'         (* checked above *)
      | Some row =>
          if pr_price row =? zp_price i then set_prices_loop rows items'
          else
            let '(rows', diff) := set_prices_loop
              (<[zp_zone i := mk_price_row (zp_price i) (pr_version row)]> rows) items' in
            (rows', (z_str (zp_zone i), (JInt (Some (pr_price row)), JInt (Some (zp_price i)))) :: diff)
      end
  end.

(** [update_zone_prices]: the full table after the change, and the diff. *)
Definition update_zone_prices (ev : AdminEvent) (rows : gmap Z PriceRow)
    (items : list ZonePriceUpdate) : result exn (gmap Z PriceRow * FieldDiff) :=
  if bool_decide (ev_status (ae_row ev) = EV_CANCELLED)
  then Err (Domain (EventCancelled (ev_id (ae_row ev))))
  else
    let? _ := check_prices (ev_id (ae_row ev)) rows items in
    Ok (set_prices_loop rows items).

(** The flush of the changed rows, each under its own version; one that is
    stale fails them all. *)
Fixpoint flush_prices (event_id : Z) (items : list ZonePriceUpdate) (old : gmap Z PriceRow)
    : M Site exn unit :=
  match items with
  | [] => ret tt
  | i :: items' =>
      match old !! zp_zone i with
      | None => flush_prices event_id items' old
      | Some row =>
          if pr_price row =? zp_price i then flush_prices event_id items' old
          else
            let! cur := gets (λ s, (d_prices (si_db s) !! (event_id, zp_zone i),
                                    default 1 (si_price_version s !! (event_id, zp_zone i)))) in
            if negb (is_some cur.1 && (cur.2 =? pr_version row)) then raise StaleDataError
            else if negb (0 <=? zp_price i)
            then raise (IntegrityError "ck_event_zone_prices_nonneg")
            else
              modify (λ s, mk_site
                (set_prices (<[(event_id, zp_zone i) := zp_price i]> (d_prices (si_db s))) (si_db s))
                (si_text s) (<[(event_id, zp_zone i) := pr_version row + 1]> (si_price_version s))
                (si_venues s) (si_next_event s) (si_room s) (si_meta s)) ;;;
              flush_prices event_id items' old
      end
  end.

(** A unit of work: its changes to the database go with its failure. *)
Definition atomically {A} (m : M Site exn A) : M Site exn A := λ s,
  match m s with (Ok a, s') => (Ok a, s') | (Err e, _) => (Err e, s) end.

(** The session's rows after the commit: the changed ones at their next version. *)
Definition committed_rows (old new : gmap Z PriceRow) : gmap Z PriceRow :=
  map_imap (λ z row,
    match old !! z with
    | Some o => if pr_price o =? pr_price row then Some row
                else Some (mk_price_row (pr_price row) (pr_version row + 1))
    | None => Some row
    end) new.

(** [update_zone_prices_endpoint]; the items of a request name different zones. *)
Definition update_zone_prices_endpoint (racing : Site → Site) (event_id : Z)
    (items : list ZonePriceUpdate) : M Site exn (gmap Z PriceRow) :=
  let! found := gets (get_event event_id) in
  match found with
  | None => raise (Domain (EventNotFound event_id))
  | Some ev =>
      let! rows := gets (price_rows event_id) in
      let! res := lift (update_zone_prices ev rows items) in
      match res.2 with
      | [] => ret res.1
      | _ =>
          modify racing ;;;
          stale_data_as_conflict "event_zone_prices" event_id None
            (atomically (flush_prices event_id items rows)) ;;;
          modify (invalidate_event_meta event_id) ;;;
          ret (committed_rows rows res.1)
      end
  end.

(** ** Creating *)

Record EventCreate : Type := mk_event_create {
  ec_name : string; ec_venue : string;
  ec_starts : Z; ec_ends : Z; ec_sale_starts : Z; ec_sale_ends : Z;
  ec_venue_id : option Z; ec_price : option Z; ec_total_seats : option Z;
  ec_zone_prices : option (gmap Z Z);
}.

(** [_check_shape] and the [Field] bounds: ValueError is a 422. *)
Definition check_shape (c : EventCreate) : bool :=
  match ec_price c with Some p => 0 <=? p | None => true end &&
  match ec_total_seats c with Some n => 1 <=? n | None => true end &&
  match ec_venue_id c with
  | None => is_some (ec_price c) && is_some (ec_total_seats c) &&
            match ec_zone_prices c with Some m => bool_decide (m = ∅) | None => true end
  | Some _ =>
      match ec_zone_prices c with
      | Some m => negb (bool_decide (m = ∅)) &&
                  negb (is_some (ec_price c) || is_some (ec_total_seats c)) &&
                  forallb (λ p, 0 <=? p) (map_to_list m).*2
      | None => false
      end
  end.

(** [_check_window] *)
Definition check_window (c : EventCreate) : bool :=
  (ec_starts c <? ec_ends c) && (ec_sale_starts c <? ec_sale_ends c).

Definition venue_zones (d : DB) (venue_id : Z) : gset Z :=
  list_to_set (zn_id <$> filter (λ z, zn_venue z = venue_id) (map_to_list (d_zones d)).*2).

(** [SELECT coalesce(sum(capacity), 0) FROM seat_blocks JOIN zones ...] *)
Definition venue_capacity (d : DB) (venue_id : Z) : Z :=
  list_sum bk_capacity (filter (λ b, bk_zone b ∈ venue_zones d venue_id) (map_to_list (d_blocks d)).*2).

(** The INSERT of an event; a draft at version 1. *)
Definition insert_event (c : EventCreate) (total_seats : Z) (price : option Z) : M Site exn Event := λ s,
  let i := si_next_event s in
  let row := mk_event i (ec_venue_id c) (ec_starts c) (ec_ends c) (ec_sale_starts c)
    (ec_sale_ends c) None None total_seats price DRAFT 1 in
  match event_violation row with
  | Some v => (Err (IntegrityError v), s)
  | None =>
      (Ok row, mk_site (set_events (<[i := row]> (d_events (si_db s))) (si_db s))
         (<[i := (ec_name c, ec_venue c)]> (si_text s)) (si_price_version s) (si_venues s) (i + 1)
         (si_room s) (si_meta s))
  end.

Fixpoint insert_prices (event_id : Z) (items : list (Z * Z)) : M Site exn unit :=
  match items with
  | [] => ret tt
  | (z, p) :: items' =>
      if negb (0 <=? p) then raise (IntegrityError "ck_event_zone_prices_nonneg")
      else
        modify (λ s, mk_site (set_prices (<[(event_id, z) := p]> (d_prices (si_db s))) (si_db s))
          (si_text s) (<[(event_id, z) := 1]> (si_price_version s)) (si_venues s)
          (si_next_event s) (si_room s) (si_meta s)) ;;;
        insert_prices event_id items'
  end.

Definition sorted_set (x : gset Z) : list Z := isort Z.leb (elements x).

(** [create_event], of a request that passed the schema. *)
Definition create_event (c : EventCreate) : M Site exn Event :=
  match ec_venue_id c with
  | None => insert_event c (default 0 (ec_total_seats c)) (ec_price c)
  | Some v =>
      let! known := gets (λ s, bool_decide (v ∈ si_venues s)) in
      if negb known then raise (Domain (VenueNotFound v))
      else
        let! zone_ids := gets (λ s, venue_zones (si_db s) v) in
        let prices := default ∅ (ec_zone_prices c) in
        let given : gset Z := dom prices in
        if bool_decide (given ≠ zone_ids)
        then raise (Domain (ZonePricesInvalid v (sorted_set (zone_ids ∖ given))
                              (sorted_set (given ∖ zone_ids))))
        else
          let! total := gets (λ s, venue_capacity (si_db s) v) in
          let! ev := insert_event c total None in
          insert_prices (ev_id ev) (map_to_list prices) ;;;
          ret ev
  end.

(** [create_event_endpoint] *)
Definition create_event_endpoint (c : EventCreate) : M Site exn Event :=
  if check_shape c && check_window c then atomically (create_event c)
  else raise (HTTPException 422 "validation").

(** ** Publishing *)

(** A flush inside an open transaction: it fails as the UPDATE would, and is seen
    by nobody until the commit; the row stays locked till then. *)
Definition flush_pending (loaded : Z) (ev : AdminEvent) : M Site exn unit := λ s,
  match flush_event loaded ev s with (Ok _, _) => (Ok tt, s) | (Err e, _) => (Err e, s) end.

(** The zones of the venue without a price row for the event. *)
Definition unpriced (d : DB) (event_id venue_id : Z) : list Z :=
  sorted_set (filter (λ z, d_prices d !! (event_id, z) = None) (venue_zones d venue_id)).

Fixpoint rebuild_zones (d : DB) (event_id : Z) (zones : list Z) : M Redis exn unit :=
  match zones with
  | [] => ret tt
  | z :: zones' => rebuild_zone_runs d event_id z true ;;; rebuild_zones d event_id zones'
  end.

(** The event as published. *)
Definition published (ev : AdminEvent) : AdminEvent :=
  let row := ae_row ev in
  mk_admin_event
    (mk_event (ev_id row) (ev_venue row) (ev_starts row) (ev_ends row) (ev_sale_starts row)
       (ev_sale_ends row) (ev_queue_opens row) (ev_queue_closes row) (ev_total_seats row)
       (ev_price row) PUBLISHED (ev_version row)) (ae_name ev) (ae_venue_name ev).

(** What a seated event must have before it can be sold. *)
Definition check_seat_map (d : DB) (row : Event) : result exn unit :=
  match ev_venue row with
  | None => Ok tt
  | Some v =>
      let capacity := venue_capacity d v in
      if negb (capacity =? ev_total_seats row)
      then Err (Domain (SeatMapMismatch (ev_id row) (ev_total_seats row) capacity))
      else
        match unpriced d (ev_id row) v with
        | [] => Ok tt
        | zones => Err (Domain (ZonePricesIncomplete (ev_id row) zones))
        end
  end.

(** The stock and the free runs of every zone. *)
Definition stock_event (d : DB) (row : Event) : M Redis exn unit :=
  set_initial_stock (ev_id row) (ev_total_seats row) ;;;
  match ev_venue row with
  | Some v => rebuild_zones d (ev_id row) (elements (venue_zones d v))
  | None => ret tt
  end.

Definition in_room_redis {A} (c : M Redis exn A) : M Site exn A := λ s,
  let '(x, m) := on_redis c (si_room s) in (x, with_room m s).

(** [publish_event], in a transaction that is not committed yet: the database is
    read as [d]; what it does to Redis and the cache stays. *)
Definition publish_event (salt : string) (d : DB) (ev : AdminEvent) : M Site exn AdminEvent :=
  let row := ae_row ev in
  if negb (bool_decide (ev_status row = DRAFT))
  then raise (Domain (EventError ("Cannot publish event with status " +:+ event_status_str (ev_status row))))
  else
    lift (check_seat_map d row) ;;;
    flush_pending (ev_version row) (published ev) ;;;
    in_room_redis (stock_event d row) ;;;
    modify (λ s, with_room (setup salt (ev_id row) (si_room s)) s) ;;;
    modify (invalidate_event_meta (ev_id row)) ;;;
    ret (published ev).

(** [publish_event_endpoint]; [racing] is what other requests commit between the
    read and the flush, [meanwhile] what they do between the flush and the commit
    (the event's row is locked then). *)
Definition publish_event_endpoint (salt : string) (racing meanwhile : Site → Site) (event_id : Z)
    : M Site exn AdminEvent :=
  let! found := gets (get_event event_id) in
  match found with
  | None => raise (Domain (EventNotFound event_id))
  | Some ev =>
      modify racing ;;;
      let! d := gets si_db in
      let! out := publish_event salt d ev in
      modify meanwhile ;;;
      flush_event (ev_version (ae_row ev)) out ;;;
      let! fresh := gets (get_event event_id) in
      ret (default out fresh)
  end.

(** ** An accepted edit is a valid event *)

Lemma not_before_ok a b r :
  not_before a b = Ok r → ∃ x y, a = Some x ∧ b = Some y ∧ r = (y <=? x).
Proof. destruct a, b; simpl; try done. intros [= <-]. eauto. Qed.

Lemma changed_nil {A} `{EqDecision A} n w (x : A) v :
  changed n w x v = [] ↔ default x v = x.
Proof.
  unfold changed. destruct v as [y|]; simpl; [|done].
  case_bool_decide as H; [by subst|]. split; [done|congruence].
Qed.

Lemma changed_differs {A} `{EqDecision A} n (w : A → jval) (x : A) v f a b :
  Inj (=) (=) w → (f, (a, b)) ∈ changed n w x v → a ≠ b.
Proof.
  intros Hw. unfold changed. destruct v as [y|]; [|intros Hin; by apply elem_of_nil in Hin].
  case_bool_decide as H; [intros Hin; by apply elem_of_nil in Hin|].
  intros Hin%list_elem_of_singleton. simplify_eq. intros Heq%Hw. done.
Qed.

#[global] Instance JInt_inj : Inj (=) (=) JInt.
Proof. by intros x y [=]. Qed.
#[global] Instance JStr_inj : Inj (=) (=) JStr.
Proof. by intros x y [=]. Qed.

(** Everything an accepted edit guarantees. *)
Lemma apply_event_update_cases s ev u ev' diff :
  apply_event_update s ev u = Ok (ev', diff) →
  let row := ae_row ev in
  let row' := ae_row ev' in
  ev_version row = eu_version u ∧ ev_status row ≠ EV_CANCELLED ∧
  (ev_id row' = ev_id row ∧ ev_venue row' = ev_venue row ∧ ev_status row' = ev_status row ∧
   ev_total_seats row' = ev_total_seats row ∧ ev_version row' = ev_version row) ∧
  (is_Some (ev_venue row) → ev_price row' = ev_price row) ∧
  (ev' ≠ ev → ev_starts row' < ev_ends row' ∧ ev_sale_starts row' < ev_sale_ends row' ∧
     (window s row').1 < (window s row').2) ∧
  (diff = [] ↔ ev' = ev) ∧ (∀ f a b, (f, (a, b)) ∈ diff → a ≠ b).
Proof.
  intros H. cbn zeta. unfold apply_event_update, require_version in H.
  destruct (ev_version (ae_row ev) =? eu_version u) eqn:Hv; [|done]. apply Z.eqb_eq in Hv.
  simpl in H. destruct (bool_decide (ev_status (ae_row ev) = EV_CANCELLED)) eqn:Hst; [done|].
  apply bool_decide_eq_false in Hst. split; [done|]. split; [done|].
  destruct (no_changes u) eqn:Hno.
  { injection H as <- <-. split_and!; try done. intros f a b Hin. by apply elem_of_nil in Hin. }
  destruct (is_some (eu_price u) && is_some (ev_venue (ae_row ev))) eqn:Hp; [done|].
  destruct (not_before _ _) as [b1|] eqn:H1 in H; [|done]. simpl in H. destruct b1; [done|].
  destruct (not_before (default (Some (ev_sale_starts _)) _) _) as [b2|] eqn:H2 in H; [|done].
  simpl in H. destruct b2; [done|].
  apply not_before_ok in H1 as (st & en & Hs1 & Hs2 & Hb1).
  apply not_before_ok in H2 as (ss & se & Hs3 & Hs4 & Hb2). rewrite Hs1, Hs2, Hs3, Hs4 in H.
  simpl in H. match type of H with (if ?b then _ else _) = _ => destruct b eqn:Hoc; [done|] end.
  injection H as <- <-. simpl. split; [done|]. split_and!.
  - intros [v Hve]. rewrite Hve in Hp. destruct (eu_price u); [done|]. done.
  - intros _. symmetry in Hb1, Hb2. apply Z.leb_gt in Hb1, Hb2, Hoc. split_and!; [done|done|exact Hoc].
  - rewrite !app_nil, !changed_nil, Hs1, Hs2, Hs3, Hs4. clear Hoc. destruct ev as [row nm vn]. simpl in *.
    destruct row; simpl in *. split; [intros; destruct_and!; simplify_eq; congruence|].
    intros [= -> -> -> -> -> -> -> -> ->]. done.
  - intros f a b. rewrite !elem_of_app. intros Hin. destruct_or!;
      eapply changed_differs in Hin; (done || apply _).
Qed.

(** An accepted edit leaves a sellable event and an exact diff.  The edit is
    made against the version the client saw, of an event that is not cancelled,
    and a seated event's price is left alone.  The merged event has its show, its
    sale and its effective registration window the right way round - under the
    very formula the waiting room runs on; identity, venue, stock, status and
    version are untouched; the diff lists only real changes and is empty exactly
    when nothing changed. *)
Theorem accepted_edit_is_valid s ev u ev' diff :
  apply_event_update s ev u = Ok (ev', diff) →
  let row := ae_row ev in
  let row' := ae_row ev' in
  ev_version row = eu_version u ∧ ev_status row ≠ EV_CANCELLED ∧
  (ev_id row' = ev_id row ∧ ev_venue row' = ev_venue row ∧ ev_status row' = ev_status row ∧
   ev_total_seats row' = ev_total_seats row ∧ ev_version row' = ev_version row) ∧
  (is_Some (ev_venue row) → ev_price row' = ev_price row) ∧
  (ev' ≠ ev → ev_starts row' < ev_ends row' ∧ ev_sale_starts row' < ev_sale_ends row' ∧
     (window s row').1 < (window s row').2) ∧
  (diff = [] ↔ ev' = ev) ∧ (∀ f a b, (f, (a, b)) ∈ diff → a ≠ b).
Proof. apply apply_event_update_cases. Qed.

(** An explicit null window crashes an edit.  The schema of the PATCH lets
    [starts_at], [ends_at], [sale_starts_at] and [sale_ends_at] be null; sent as
    null for an editable event, the comparison raises TypeError, for which there
    is no handler, instead of a rejection of the request. *)
Theorem null_window_edit_raises_type_error s ev u :
  ev_version (ae_row ev) = eu_version u → ev_status (ae_row ev) ≠ EV_CANCELLED →
  (eu_price u = None ∨ ev_venue (ae_row ev) = None) →
  eu_starts u = Some None ∨ eu_ends u = Some None →
  apply_event_update s ev u = Err TypeError.
Proof.
  intros Hv Hst Hp Hnull. unfold apply_event_update, require_version.
  rewrite Hv, Z.eqb_refl. simpl. rewrite bool_decide_eq_false_2 by done.
  assert (no_changes u = false) as ->.
  { unfold no_changes. apply negb_false_iff. destruct Hnull as [-> | ->]; simpl; by rewrite ?orb_true_r. }
  assert (is_some (eu_price u) && is_some (ev_venue (ae_row ev)) = false) as ->
    by (destruct Hp as [-> | ->]; [done|by rewrite andb_false_r]).
  destruct Hnull as [-> | ->]; simpl; [done|]. by destruct (eu_starts u) as [[]|].
Qed.

(** ** No update is lost *)

Definition site_ok (s : Site) : Prop := ∀ i ev, d_events (si_db s) !! i = Some ev → ev_id ev = i.

Lemma flush_event_cases loaded ev s :
  match flush_event loaded ev s with
  | (Ok _, s') => ∃ cur new, d_events (si_db s) !! ev_id (ae_row ev) = Some cur ∧
      ev_version cur = loaded ∧ event_violation (ae_row ev) = None ∧
      d_events (si_db s') = <[ev_id (ae_row ev) := new]> (d_events (si_db s)) ∧
      ev_version new = loaded + 1 ∧ ev_id new = ev_id (ae_row ev) ∧
      ev_status new = ev_status (ae_row ev) ∧ event_violation new = None ∧
      si_room s' = si_room s ∧ si_meta s' = si_meta s ∧ d_prices (si_db s') = d_prices (si_db s) ∧
      d_zones (si_db s') = d_zones (si_db s)
  | (Err e, s') => s' = s ∧ (e = StaleDataError ∨ ∃ c, e = IntegrityError c)
  end.
Proof.
  unfold flush_event. destruct (d_events (si_db s) !! ev_id (ae_row ev)) as [cur|] eqn:Hc; [|by auto].
  destruct (negb (ev_version cur =? loaded)) eqn:Hv; [by auto|]. zbool.
  destruct (ae_name ev), (ae_venue_name ev), (event_violation (ae_row ev)) eqn:Hx; simpl; eauto 10.
  eexists cur, _. split_and!; [done|done|done|done|..]; done.
Qed.

Lemma get_event_row event_id s ev :
  get_event event_id s = Some ev →
  ∃ row, d_events (si_db s) !! event_id = Some row ∧ ae_row ev = row ∧
    ev = mk_admin_event row (fst <$> si_text s !! event_id) (snd <$> si_text s !! event_id).
Proof.
  unfold get_event. destruct (d_events _ !! _) as [row|]; [|done].
  destruct (si_text s !! event_id) as [[]|]; intros [= <-]; by exists row.
Qed.

(** What a PATCH asks for: each value it names, and the event's own elsewhere. *)
Definition asked {A} (own : A) (named : option (option A)) : A :=
  match named with Some (Some v) => v | _ => own end.
Definition edited (u : EventUpdate) (ev : AdminEvent) : AdminEvent :=
  let row := ae_row ev in
  mk_admin_event
    (mk_event (ev_id row) (ev_venue row) (asked (ev_starts row) (eu_starts u)) (asked (ev_ends row) (eu_ends u))
       (asked (ev_sale_starts row) (eu_sale_starts u)) (asked (ev_sale_ends row) (eu_sale_ends u))
       (default (ev_queue_opens row) (eu_queue_opens u)) (default (ev_queue_closes row) (eu_queue_closes u))
       (ev_total_seats row) (default (ev_price row) (eu_price u)) (ev_status row) (ev_version row))
    (default (ae_name ev) (eu_name u)) (default (ae_venue_name ev) (eu_venue u)).

Lemma asked_default {A} (own : A) named v : default (Some own) named = Some v → asked own named = v.
Proof. destruct named as [[x|]|]; simpl; congruence. Qed.

Lemma apply_event_update_edited s ev u ev' diff : apply_event_update s ev u = Ok (ev', diff) → ev' = edited u ev.
Proof.
  unfold apply_event_update. destruct (require_version _ _ _ _) as [[]|]; [|done]. simpl.
  destruct (bool_decide (ev_status (ae_row ev) = EV_CANCELLED)); [done|].
  destruct (no_changes u) eqn:Hno.
  { intros [= <- _]. unfold no_changes in Hno. apply negb_true_iff in Hno. rewrite !orb_false_iff in Hno.
    destruct_and!. unfold edited. repeat match goal with H : is_some ?o = false |- _ =>
      let E := fresh in assert (o = None) as E by (by destruct o); rewrite E; clear H E end.
    by destruct ev as [[] ? ?]. }
  destruct (is_some (eu_price u) && is_some (ev_venue (ae_row ev))); [done|].
  destruct (not_before _ _) as [b1|] eqn:H1; [|done]. simpl. destruct b1; [done|].
  destruct (not_before (default (Some (ev_sale_starts _)) _) _) as [b2|] eqn:H2; [|done]. simpl. destruct b2; [done|].
  apply not_before_ok in H1 as (st & en & Hs1 & Hs2 & _). apply not_before_ok in H2 as (ss & se & Hs3 & Hs4 & _).
  rewrite Hs1, Hs2, Hs3, Hs4. simpl. destruct (_ <=? _); [done|]. intros [= <- _]. unfold edited.
  by rewrite (asked_default _ _ _ Hs1), (asked_default _ _ _ Hs2), (asked_default _ _ _ Hs3), (asked_default _ _ _ Hs4).
Qed.

(** The row an UPDATE commits: the version moves on by one. *)
Definition next_version (row : Event) : Event :=
  mk_event (ev_id row) (ev_venue row) (ev_starts row) (ev_ends row) (ev_sale_starts row) (ev_sale_ends row)
    (ev_queue_opens row) (ev_queue_closes row) (ev_total_seats row) (ev_price row) (ev_status row) (ev_version row + 1).

(** What the other requests owe: whoever changes the event moves its version on, as
    every flush of the mapped class does. *)
Definition version_guards (event_id : Z) (s s' : Site) : Prop :=
  ∀ row row', d_events (si_db s) !! event_id = Some row → d_events (si_db s') !! event_id = Some row' →
    ev_version row' = ev_version row → row' = row ∧ si_text s' !! event_id = si_text s !! event_id.

Lemma flush_event_ok loaded ev s s' :
  flush_event loaded ev s = (Ok tt, s') → ev_version (ae_row ev) = loaded →
  ∃ cur name venue, d_events (si_db s) !! ev_id (ae_row ev) = Some cur ∧ ev_version cur = loaded ∧
    ae_name ev = Some name ∧ ae_venue_name ev = Some venue ∧ event_violation (ae_row ev) = None ∧
    s' = mk_site (set_events (<[ev_id (ae_row ev) := next_version (ae_row ev)]> (d_events (si_db s))) (si_db s))
           (<[ev_id (ae_row ev) := (name, venue)]> (si_text s)) (si_price_version s) (si_venues s)
           (si_next_event s) (si_room s) (si_meta s).
Proof.
  unfold flush_event. destruct (d_events (si_db s) !! ev_id (ae_row ev)) as [cur|]; [|done].
  destruct (ev_version cur =? loaded) eqn:Hv; [|done]. zbool. simpl.
  destruct (ae_name ev) as [name|], (ae_venue_name ev) as [venue|], (event_violation (ae_row ev)); try done.
  intros [= <-] Hl. exists cur, name, venue. split_and!; [done..|]. unfold next_version. by rewrite Hl.
Qed.

(** The end of an edit that went through: the metadata key is deleted, the room is
    told when the window moved, and the answer is the row as it now stands. *)
Lemma after_edit event_id (pokes : bool) (old : AdminEvent) s1 row name venue :
  d_events (si_db s1) !! event_id = Some row → si_text s1 !! event_id = Some (name, venue) →
  ∃ s2, (modify (invalidate_event_meta event_id) ;;;
     (if pokes then modify (poke_event event_id) else ret tt) ;;;
     let! fresh := gets (get_event event_id) in ret (default old fresh)) s1 =
    (Ok (mk_admin_event row (Some name) (Some venue)) : result exn AdminEvent, s2) ∧
    d_events (si_db s2) = d_events (si_db s1) ∧ si_text s2 = si_text s1 ∧ si_meta s2 = delete event_id (si_meta s1).
Proof.
  intros Hrow Htext. unfold bind, modify, gets, ret.
  exists (if pokes then poke_event event_id (invalidate_event_meta event_id s1) else invalidate_event_meta event_id s1).
  destruct pokes; (split; [|done]); unfold get_event; simpl; by rewrite Hrow, Htext.
Qed.

(** C32 (no administrator's edit is lost).  Other requests commit what they like while
    an edit is under way, each moving the version of the event it changes.  When the
    edit is accepted, either it named no new value and nothing is written, or the
    event is still the one the edit was made on, at the version the client had been
    shown, and what is committed and answered is that event with every value the edit
    names, at the next version, satisfying every constraint of the table (the answer
    re-reads the row, and nobody commits between the two); no other event or text
    changed and the cached metadata of the event is deleted.  When the
    version moved on, the edit is refused with the conflict and leaves exactly what
    the others committed. *)
Theorem edit_is_never_lost st racing event_id u s :
  site_ok s → version_guards event_id s (racing s) →
  let '(out, s') := update_event_endpoint st racing event_id u s in
  match out with
  | Ok answer => ∃ ev, get_event event_id s = Some ev ∧ ev_version (ae_row ev) = eu_version u ∧
      (edited u ev = ev ∧ answer = ev ∧ s' = s ∨
       ∃ name venue, let row := next_version (ae_row (edited u ev)) in
         get_event event_id (racing s) = Some ev ∧
         ae_name (edited u ev) = Some name ∧ ae_venue_name (edited u ev) = Some venue ∧
         d_events (si_db s') = <[event_id := row]> (d_events (si_db (racing s))) ∧
         si_text s' = <[event_id := (name, venue)]> (si_text (racing s)) ∧
         ev_version row = eu_version u + 1 ∧ event_violation row = None ∧
         answer = mk_admin_event row (Some name) (Some venue) ∧
         si_meta s' = delete event_id (si_meta (racing s)))
  | Err _ => s' = s ∨ s' = racing s
  end ∧
  (∀ cur, d_events (si_db (racing s)) !! event_id = Some cur → ev_version cur ≠ eu_version u →
     s' = s ∨ s' = racing s ∧
       out = Err (Domain (ConcurrentModification "event" event_id (Some (eu_version u)) None))).
Proof.
  intros Hok Hguard. unfold update_event_endpoint, bind at 1, gets at 1.
  destruct (get_event event_id s) as [ev|] eqn:Hg; [|split; [by left|by left]].
  destruct (get_event_row _ _ _ Hg) as (row & Hrow & Her & Htext).
  assert (Hid : ev_id (ae_row ev) = event_id) by (rewrite Her; by apply Hok).
  rewrite bind_lift. destruct (apply_event_update st ev u) as [[ev' diff]|e] eqn:Ha;
    [|split; [by left|by left]].
  pose proof (apply_event_update_edited _ _ _ _ _ Ha) as ->.
  destruct (apply_event_update_cases _ _ _ _ _ Ha) as (Hv & _ & (Hid' & _ & _ & _ & Hv') & _ & _ & Hdiff & _).
  rewrite Hid in Hid'. rewrite Hv in Hv'. cbn [fst snd].
  destruct diff as [|x diff].
  { split; [|by left]. exists ev. split_and!; [done|done|]. left. split_and!; [by apply Hdiff|done|done]. }
  unfold bind at 1, modify at 1. unfold bind at 1, stale_data_as_conflict, try_catch. rewrite Hv.
  destruct (flush_event (eu_version u) (edited u ev) (racing s)) as [[[]|e] s1] eqn:Hfl.
  - destruct (flush_event_ok _ _ _ _ Hfl Hv') as (cur & name & venue & Hc & Hcv & Hn & Hvn & Hx & Hs1).
    rewrite Hid' in Hc, Hs1.
    destruct (Hguard row cur Hrow Hc) as [-> Ht]; [by rewrite Hcv, <-Her|].
    destruct (after_edit event_id (existsb (λ f, bool_decide (f ∈ WINDOW_FIELDS)) (x :: diff).*1) (edited u ev) s1
      (next_version (ae_row (edited u ev))) name venue) as (s2 & -> & Hev2 & Htext2 & Hmeta2);
      [by rewrite Hs1; apply lookup_insert_eq..|].
    rewrite Hs1 in Hev2, Htext2, Hmeta2. simpl in Hev2, Htext2, Hmeta2.
    split; [|intros c Hc2 Hne; congruence].
    exists ev. split_and!; [done|done|]. right. exists name, venue. split_and!; try done.
    + unfold get_event in Hg |- *. rewrite Hrow in Hg. by rewrite Hc, Ht.
    + simpl. lia.
  - pose proof (flush_event_cases (eu_version u) (edited u ev) (racing s)) as Hf. rewrite Hfl in Hf.
    destruct Hf as [-> [->|[c ->]]]; simpl; (split; [by right|]).
    + intros _ _ _. by right.
    + intros cur Hc Hne. exfalso. unfold flush_event in Hfl. rewrite Hid', Hc in Hfl.
      assert (negb (ev_version cur =? eu_version u) = true) as Hneg by zlia. by rewrite Hneg in Hfl.
Qed.

(** ** Publishing opens the sale *)

(** Summing zone by zone counts every block of the zones once. *)
Lemma zone_sums d zs :
  NoDup zs →
  list_sum (λ z, list_sum bk_capacity (zone_blocks d z)) zs =
  list_sum bk_capacity (filter (λ b, bk_zone b ∈ zs) (map_to_list (d_blocks d)).*2).
Proof.
  unfold zone_blocks. generalize ((map_to_list (d_blocks d)).*2). intros bs Hnd.
  induction bs as [|b bs IH]; simpl.
  { clear. induction zs; simpl; [done|]. done. }
  rewrite filter_cons.
  assert (Hstep : ∀ l, NoDup l →
    list_sum (λ z, list_sum bk_capacity (filter (λ b, bk_zone b = z) (b :: bs))) l =
    (if decide (bk_zone b ∈ l) then bk_capacity b else 0) +
    list_sum (λ z, list_sum bk_capacity (filter (λ b, bk_zone b = z) bs)) l).
  { clear. induction 1 as [|z l Hz Hl IH]; [done|]. cbn [list_sum foldr]. fold (list_sum
      (λ z, list_sum bk_capacity (filter (λ b, bk_zone b = z) (b :: bs))) l). rewrite IH.
    rewrite filter_cons. fold (list_sum (λ z, list_sum bk_capacity (filter (λ b, bk_zone b = z) bs)) l).
    destruct (decide (bk_zone b = z)) as [->|Hne].
    - rewrite (decide_False (P := z ∈ l)) by done. rewrite decide_True by left. simpl. lia.
    - destruct (decide (bk_zone b ∈ l)) as [Hin|Hin].
      + rewrite decide_True by (by right). lia.
      + rewrite decide_False; [lia|]. intros [?|?]%elem_of_cons; done. }
  rewrite Hstep, IH by done. destruct (decide (bk_zone b ∈ zs)); simpl; lia.
Qed.

(** Without holds a zone's runs are its blocks. *)
Lemma unheld_runs d e z :
  (∀ i h, d_holds d !! i = Some h → hd_event h ≠ e) →
  (∀ i b, d_blocks d !! i = Some b → 0 <= bk_capacity b) →
  list_sum run_len (zone_blocks d z ≫= block_runs d e) = list_sum bk_capacity (zone_blocks d z).
Proof.
  intros Hh Hc. rewrite list_sum_bind. apply list_sum_ext. intros b Hb.
  assert (0 <= bk_capacity b).
  { unfold zone_blocks in Hb. apply list_elem_of_filter in Hb as [_ [k Hk]%elem_of_values]. eauto. }
  unfold block_runs. assert (occupied_of d e (bk_id b) = []) as ->.
  { unfold occupied_of. rewrite filter_none; [done|].
    intros h [k Hk]%elem_of_values [He _]. by apply (Hh k h). }
  simpl. destruct (0 <? bk_capacity b) eqn:H0; simpl; zlia.
Qed.

Definition zone_empty (r : Redis) (e z : Z) : Prop := zone_maps r (e, z) = (∅, ∅).

(** A forced rebuild, in the cases a first publication meets. *)
Lemma rebuild_forced d e z r :
  blocks_ok d e → seats_inv r → (zone_blocks d z = [] → zone_empty r e z) →
  ∃ n r', rebuild_zone_runs d e z true r = (Ok n, r') ∧ seats_inv r' ∧
    r_available r' = r_available r ∧
    (∀ zk, zk ≠ (e, z) → zone_maps r' zk = zone_maps r zk) ∧
    (∀ b p, zone_free r' (e, z) b p ↔ db_free d e z b p) ∧
    default 0 (r_zone_available r' !! (e, z)) =
      list_sum run_len (zone_blocks d z ≫= block_runs d e) ∧
    (∀ zk, zk ≠ (e, z) → r_zone_available r' !! zk = r_zone_available r !! zk).
Proof.
  intros Hok Hinv Hempty. pose proof (rebuild_zone_cases d e z true r Hok) as H. cbn zeta in H.
  pose proof (λ n r', rebuild_seats_inv d e z r n r' Hinv Hok) as Hinv'.
  destruct (rebuild_zone_runs d e z true r) as [[n|ex] r'] eqn:Hr.
  2:{ by destruct H as (_ & _ & ? & _). }
  destruct H as (Hframe & _ & H). exists n, r'. split; [done|]. split; [by eapply Hinv'|].
  unfold rebuild_zone_runs in Hr. destruct (queue_depth r). simpl in Hr.
  destruct H as [(Hb & -> & ->)|(Hw & Hn & Hz & Hf)].
  - split_and!; [done|done| | |done].
    + intros b p. unfold zone_free. rewrite (Hempty Hb). split.
      * intros (x & Hx & _). apply elem_of_runs_of in Hx. simpl in Hx. by rewrite lookup_empty in Hx.
      * intros (blk & Hblk & Hzone & _). exfalso.
        assert (Hin : blk ∈ zone_blocks d z); [|rewrite Hb in Hin; by apply elem_of_nil in Hin].
        apply (elem_of_zone_blocks _ e); [done|]. by rewrite (bo_ids _ _ Hok _ _ Hblk).
    + rewrite Hb. destruct Hinv as [_ Hcount]. rewrite Hcount, (Hempty Hb). done.
  - destruct (zone_blocks d z) as [|b0 bs] eqn:Hbs; simplify_eq/=.
    + rewrite Hz. split_and!; try done.
    + split_and!; try done.
      * by rewrite lookup_insert_eq.
      * intros zk Hne. by rewrite lookup_insert_ne.
Qed.

Lemma rebuild_zones_cases d e zs r :
  blocks_ok d e → seats_inv r → NoDup zs → (∀ z, z ∈ zs → zone_empty r e z) →
  ∃ r', rebuild_zones d e zs r = (Ok tt, r') ∧ seats_inv r' ∧ r_available r' = r_available r ∧
    (∀ zk, (∀ z, z ∈ zs → zk ≠ (e, z)) →
       zone_maps r' zk = zone_maps r zk ∧ r_zone_available r' !! zk = r_zone_available r !! zk) ∧
    (∀ z, z ∈ zs → (∀ b p, zone_free r' (e, z) b p ↔ db_free d e z b p) ∧
       default 0 (r_zone_available r' !! (e, z)) =
         list_sum run_len (zone_blocks d z ≫= block_runs d e)).
Proof.
  intros Hok Hinv Hnd. revert r Hinv. induction Hnd as [|z zs Hz Hnd IH]; intros r Hinv Hempty; simpl.
  { exists r. split_and!; try done. intros z Hz. by apply elem_of_nil in Hz. }
  destruct (rebuild_forced d e z r) as (n & r1 & H1 & Hi1 & Ha1 & Hm1 & Hf1 & Hs1 & Hv1);
    [done|done|intros _; apply Hempty; left|].
  unfold bind. rewrite H1. destruct (IH r1 Hi1) as (r2 & H2 & Hi2 & Ha2 & Hm2 & Hz2).
  { intros y Hy. unfold zone_empty. rewrite Hm1; [by apply Hempty; right|]. intros [= ->]. done. }
  exists r2. split; [done|]. split; [done|]. split; [congruence|]. split.
  - intros zk Hzk. destruct (Hm2 zk) as [-> ->]; [intros y Hy; apply Hzk; by right|].
    split; [apply Hm1|apply Hv1]; apply Hzk; left.
  - intros y [->|Hy]%elem_of_cons; [|by apply Hz2].
    destruct (Hm2 (e, z)) as [Hmz Hvz]; [intros y Hy [= ->]; done|].
    unfold zone_free. rewrite Hmz, Hvz. done.
Qed.

Lemma elem_of_sorted_set z x : z ∈ sorted_set x ↔ z ∈ x.
Proof. unfold sorted_set. rewrite elem_of_isort. apply elem_of_elements. Qed.

Lemma rebuild_zones_total d e zs r : ∃ r', rebuild_zones d e zs r = (Ok tt, r').
Proof.
  revert r. induction zs as [|z zs IH]; intros r; simpl; [eauto|].
  unfold bind, rebuild_zone_runs. destruct (queue_depth r). simpl.
  by destruct (zone_blocks d z).
Qed.

Lemma stock_event_total d row r : ∃ r', stock_event d row r = (Ok tt, r').
Proof.
  unfold stock_event, bind, set_initial_stock, modify. destruct (ev_venue row); [|eauto].
  apply rebuild_zones_total.
Qed.

(** A publication either changed nothing or did the whole of it. *)
Lemma publish_event_cases salt d ev s :
  let row := ae_row ev in
  match publish_event salt d ev s with
  | (Ok ev', s') => ev' = published ev ∧ ev_status row = DRAFT ∧ check_seat_map d row = Ok tt ∧
      (∃ pend, flush_event (ev_version row) (published ev) s = (Ok tt, pend)) ∧
      ∃ r', stock_event d row (rm_redis (si_room s)) = (Ok tt, r') ∧
        s' = invalidate_event_meta (ev_id row)
               (with_room (setup salt (ev_id row) (with_redis r' (si_room s))) s)
  | (Err _, s') => s' = s
  end.
Proof.
  cbn zeta. unfold publish_event. destruct (negb _) eqn:Hst; [done|].
  apply negb_false_iff, bool_decide_eq_true in Hst. rewrite bind_lift.
  destruct (check_seat_map d (ae_row ev)) as [[]|] eqn:Hm; [|done].
  unfold bind at 1, flush_pending.
  destruct (flush_event _ _ s) as [[[]|ex] pend] eqn:Hf; [|done].
  destruct (stock_event_total d (ae_row ev) (rm_redis (si_room s))) as [r' Hr].
  unfold bind, in_room_redis, on_redis. rewrite Hr. simpl. split_and!; eauto.
Qed.

Lemma check_seat_map_ok d row v :
  check_seat_map d row = Ok tt → ev_venue row = Some v →
  venue_capacity d v = ev_total_seats row ∧
  ∀ z, z ∈ venue_zones d v → is_Some (d_prices d !! (ev_id row, z)).
Proof.
  unfold check_seat_map. intros H Hv. rewrite Hv in H.
  destruct (negb _) eqn:Hc; [done|]. zbool.
  destruct (unpriced d (ev_id row) v) as [|z l] eqn:Hu; [|done]. split; [done|].
  intros z Hz. destruct (d_prices d !! (ev_id row, z)) eqn:Hp; [by eexists|]. exfalso.
  assert (Hin : z ∈ unpriced d (ev_id row) v); [|rewrite Hu in Hin; by apply elem_of_nil in Hin].
  apply elem_of_sorted_set. by apply elem_of_filter.
Qed.

(** C31 (publishing opens exactly the seats of the venue).  A refused publication -
    wrong state, capacities that do not add up, an unpriced zone, a stale version -
    touches neither Redis nor the cache.  An accepted first publication of a
    seated event finds every zone of the venue priced, sets the stock to
    [total_seats], which is the venue's capacity, opens in every zone exactly the
    seats no hold of the event covers, leaves well-formed runs with exact
    counters and a fixed salt; and without holds the zones' counters add up to
    the stock. *)
Theorem publish_opens_the_venue salt d ev s v :
  let row := ae_row ev in
  let e := ev_id row in
  let r := rm_redis (si_room s) in
  ev_venue row = Some v → blocks_ok d e → seats_inv r → r_available r !! e = None →
  (∀ z, zone_empty r e z) →
  match publish_event salt d ev s with
  | (Err _, s') => s' = s
  | (Ok ev', s') =>
      let r' := rm_redis (si_room s') in
      ev_status row = DRAFT ∧ ev' = published ev ∧ seats_inv r' ∧ is_Some (rm_salt (si_room s') !! e) ∧
      r_available r' !! e = Some (venue_capacity d v) ∧ venue_capacity d v = ev_total_seats row ∧
      (∀ z, z ∈ venue_zones d v → is_Some (d_prices d !! (e, z)) ∧
         ∀ b p, zone_free r' (e, z) b p ↔ db_free d e z b p) ∧
      ((∀ i h, d_holds d !! i = Some h → hd_event h ≠ e) →
       (∀ i b, d_blocks d !! i = Some b → 0 <= bk_capacity b) →
       list_sum (λ z, default 0 (r_zone_available r' !! (e, z))) (elements (venue_zones d v)) =
         ev_total_seats row)
  end.
Proof.
  intros row e r Hv Hok Hinv Hav Hempty.
  pose proof (publish_event_cases salt d ev s) as H. cbn zeta in H.
  destruct (publish_event salt d ev s) as [[ev'|ex] s']; [|done]. fold row in H. fold e in H.
  destruct H as (-> & Hst & Hm & _ & r' & Hr & ->).
  destruct (check_seat_map_ok _ _ _ Hm Hv) as [Hcap Hprice]. fold e in Hprice.
  unfold stock_event, bind, set_initial_stock, modify in Hr. rewrite Hv in Hr.
  fold e r in Hr. rewrite Hav in Hr.
  set (r0 := set_available _ r) in Hr.
  destruct (rebuild_zones_cases d e (elements (venue_zones d v)) r0)
    as (r2 & Hr2 & Hi2 & Ha2 & _ & Hz2); [done|by destruct Hinv|apply NoDup_elements|intros z _; apply Hempty|].
  rewrite Hr2 in Hr. injection Hr as <-.
  assert (Hred : rm_redis (si_room (invalidate_event_meta e
    (with_room (setup salt e (with_redis r2 (si_room s))) s))) = r2).
  { simpl. unfold setup, ensure_salt. by destruct (rm_salt _ !! e). }
  cbn zeta. rewrite Hred. split_and!; try done.
  - simpl. unfold setup. pose proof (ensure_salt_cases salt e (with_redis r2 (si_room s))) as Hs.
    destruct (ensure_salt _ _ _) as [x m]. destruct Hs as [Hs _]. by exists x.
  - rewrite Ha2. unfold r0. simpl. rewrite lookup_insert_eq. by rewrite Hcap.
  - intros z Hz. split; [by apply Hprice|]. apply Hz2. by apply elem_of_elements.
  - intros Hh Hc. rewrite <-Hcap.
    rewrite (list_sum_ext _ (λ z, list_sum bk_capacity (zone_blocks d z))).
    2:{ intros z Hz. destruct (Hz2 z Hz) as [_ ->]. by apply unheld_runs. }
    rewrite zone_sums by apply NoDup_elements. unfold venue_capacity. f_equal.
    apply list_filter_iff. intros b. apply elem_of_elements.
Qed.

(** A reader between publication and commit hides the sale.  The metadata is
    invalidated inside the transaction, not after its commit: a request that
    reads it in between caches the draft again, and after the commit, for the
    minute the entry lives, the published event still reads as a draft - every
    order for it is refused as not on sale. *)
Theorem publish_can_leave_the_draft_cached salt event_id s ev s' settings link randrange others trace
    traceparent now user quantity idem zone r :
  site_ok s →
  publish_event_endpoint salt (λ s, s) (λ s, (get_event_meta event_id s).2) event_id s = (Ok ev, s') →
  (∃ row, d_events (si_db s') !! event_id = Some row ∧ ev_status row = PUBLISHED) ∧
  ∃ m, (get_event_meta event_id s').1 = Some m ∧ m_status m = DRAFT ∧
    submit_order settings link randrange others trace traceparent now (Some m) user event_id quantity
      idem zone r = (Err (Domain (EventNotOnSale event_id)), r).
Proof.
  intros Hok H. unfold publish_event_endpoint, bind at 1, gets at 1 in H.
  destruct (get_event event_id s) as [old|] eqn:Hg; [|done].
  assert (Hrow : d_events (si_db s) !! event_id = Some (ae_row old) ∧ ev_id (ae_row old) = event_id).
  { unfold get_event in Hg. destruct (d_events _ !! _) as [row|] eqn:Hr; [|done].
    destruct (si_text s !! event_id) as [[]|]; simplify_eq/=; (split; [done|by eapply Hok]). }
  destruct Hrow as [Hrow Hid]. unfold bind at 1, modify at 1 in H.
  unfold bind at 1, gets at 1 in H. unfold bind at 1 in H.
  pose proof (publish_event_cases salt (si_db s) old s) as Hp. cbn zeta in Hp.
  destruct (publish_event salt (si_db s) old s) as [[ev1|ex] s1]; [|done].
  destruct Hp as (-> & Hst & _ & _ & r' & _ & ->). rewrite Hid in *.
  set (s1 := invalidate_event_meta event_id _) in H.
  set (draft := meta_of (ae_row old) (load_zone_prices (si_db s) event_id (ev_venue (ae_row old)))).
  assert (Hmeta : (get_event_meta event_id s1).2 =
    with_meta (<[event_id := (draft, site_now s1 + 60000)]> (si_meta s1)) s1).
  { unfold get_event_meta, s1. simpl. rewrite lookup_delete_eq. unfold load_event_meta. simpl.
    by rewrite Hrow. }
  unfold bind at 1, modify at 1 in H. rewrite Hmeta in H. set (s2 := with_meta _ s1) in H.
  unfold bind at 1 in H. pose proof (flush_event_cases (ev_version (ae_row old)) (published old) s2) as Hf.
  destruct (flush_event _ _ s2) as [[[]|ex] s3]; [|done].
  destruct Hf as (cur & new & _ & _ & _ & Hev & _ & _ & Hnst & _ & Hroom & Hcache & _ & _).
  simpl in Hev, Hnst. rewrite Hid in Hev.
  unfold bind, gets, ret in H. injection H as _ <-. split.
  - exists new. split; [|done]. rewrite Hev. apply lookup_insert_eq.
  - exists draft. split.
    + unfold get_event_meta. rewrite Hcache. simpl. rewrite lookup_insert_eq.
      unfold site_now. rewrite Hroom. simpl.
      match goal with |- context [?a <? ?b] => assert ((a <? b) = true) as -> by (unfold site_now; simpl; zlia) end.
      done.
    + split; [done|]. unfold submit_order. simpl. rewrite Hst. by vm_compute.
Qed.

(** ** What is created can be published *)

Lemma insert_prices_cases event_id items s :
  NoDup items.*1 →
  match insert_prices event_id items s with
  | (Ok _, s') => (∀ z p, (z, p) ∈ items → d_prices (si_db s') !! (event_id, z) = Some p) ∧
      (∀ z, z ∉ items.*1 → d_prices (si_db s') !! (event_id, z) = d_prices (si_db s) !! (event_id, z)) ∧
      (∀ e z, e ≠ event_id → d_prices (si_db s') !! (e, z) = d_prices (si_db s) !! (e, z)) ∧
      d_events (si_db s') = d_events (si_db s) ∧ d_zones (si_db s') = d_zones (si_db s) ∧
      d_blocks (si_db s') = d_blocks (si_db s)
  | (Err _, _) => ∃ z p, (z, p) ∈ items ∧ p < 0
  end.
Proof.
  revert s. induction items as [|[z p] items IH]; intros s Hnd; simpl.
  { split_and!; try done. intros z p H. by apply elem_of_nil in H. }
  simpl in Hnd. apply NoDup_cons in Hnd as [Hz Hnd].
  destruct (negb (0 <=? p)) eqn:Hp; [exists z, p; split; [left|zlia]|].
  unfold bind, modify. match goal with |- context [insert_prices _ _ ?t] => specialize (IH t Hnd) end.
  destruct (insert_prices _ _ _) as [[[]|e] s'].
  - destruct IH as (H1 & H2 & H3 & H4 & H5 & H6). simpl in *. split_and!; try done.
    + intros y q [[= -> ->]|Hin]%elem_of_cons; [|by apply H1]. rewrite H2 by done.
      by rewrite lookup_insert_eq.
    + intros y [Hy ?]%not_elem_of_cons. rewrite H2 by done. rewrite lookup_insert_ne; [done|congruence].
    + intros e y He. rewrite H3 by done. rewrite lookup_insert_ne; [done|congruence].
  - destruct IH as (y & q & Hin & ?). exists y, q. split; [by right|done].
Qed.

Lemma insert_event_cases c n p s :
  match insert_event c n p s with
  | (Ok row, s') => ev_id row = si_next_event s ∧ ev_venue row = ec_venue_id c ∧
      ev_total_seats row = n ∧ ev_status row = DRAFT ∧ ev_version row = 1 ∧
      event_violation row = None ∧
      d_events (si_db s') = <[ev_id row := row]> (d_events (si_db s)) ∧
      d_zones (si_db s') = d_zones (si_db s) ∧ d_blocks (si_db s') = d_blocks (si_db s) ∧
      d_prices (si_db s') = d_prices (si_db s)
  | (Err _, s') => s' = s
  end.
Proof. unfold insert_event. by destruct (event_violation _) eqn:Hv. Qed.

Lemma check_seat_map_intro d row v :
  ev_venue row = Some v → venue_capacity d v = ev_total_seats row →
  (∀ z, z ∈ venue_zones d v → is_Some (d_prices d !! (ev_id row, z))) →
  check_seat_map d row = Ok tt.
Proof.
  intros Hv Hc Hp. unfold check_seat_map. rewrite Hv, Hc, Z.eqb_refl. simpl.
  destruct (unpriced d (ev_id row) v) as [|z l] eqn:Hu; [done|]. exfalso.
  assert (Hz : z ∈ unpriced d (ev_id row) v) by (rewrite Hu; left).
  apply elem_of_sorted_set, elem_of_filter in Hz as [Hn Hz]. destruct (Hp z Hz). congruence.
Qed.

(** What the API creates it can publish.  A creation that fails leaves no
    trace.  One that succeeds stores a draft at version 1 that satisfies every
    constraint of the table; a seated event takes its stock from the blocks of
    the venue and gets a price, the one of the request, for every zone of the
    venue and for no other, so that the seat map check of its publication
    passes. *)
Theorem created_event_is_publishable c s :
  match create_event_endpoint c s with
  | (Err _, s') => s' = s
  | (Ok row, s') => let d := si_db s' in
      d_events d = <[ev_id row := row]> (d_events (si_db s)) ∧
      ev_id row = si_next_event s ∧ ev_status row = DRAFT ∧ ev_version row = 1 ∧
      event_violation row = None ∧ check_seat_map d row = Ok tt ∧
      match ec_venue_id c with
      | None => ec_total_seats c = Some (ev_total_seats row)
      | Some v => v ∈ si_venues s ∧ ev_total_seats row = venue_capacity d v ∧
          dom (default ∅ (ec_zone_prices c)) = venue_zones d v ∧
          ∀ z p, default ∅ (ec_zone_prices c) !! z = Some p → d_prices d !! (ev_id row, z) = Some p
      end
  end.
Proof.
  unfold create_event_endpoint. destruct (check_shape c && check_window c) eqn:Hshape; [|done].
  apply andb_true_iff in Hshape as [Hshape _]. unfold atomically.
  destruct (create_event c s) as [[row|e] s'] eqn:H; [|done]. unfold create_event in H. cbn zeta.
  unfold check_shape in Hshape. destruct (ec_venue_id c) as [v|] eqn:Hv.
  - unfold bind at 1, gets at 1 in H. destruct (bool_decide (v ∈ si_venues s)) eqn:Hk; [|done].
    apply bool_decide_eq_true in Hk. simpl in H. unfold bind at 1, gets at 1 in H.
    destruct (bool_decide (_ ≠ _)) eqn:Hd; [done|]. apply bool_decide_eq_false, dec_stable in Hd.
    unfold bind at 1, gets at 1 in H. unfold bind at 1 in H.
    pose proof (insert_event_cases c (venue_capacity (si_db s) v) None s) as Hi.
    destruct (insert_event _ _ _ _) as [[row0|] s1]; [|done].
    destruct Hi as (Hid & Hve & Hn & Hst & Hver & Hx & Hev & Hzn & Hbk & _).
    unfold bind at 1 in H. pose proof (insert_prices_cases (ev_id row0)
      (map_to_list (default ∅ (ec_zone_prices c))) s1 (NoDup_fst_map_to_list _)) as Hp.
    destruct (insert_prices _ _ _) as [[[]|] s2]; [|done].
    injection H as <- <-. destruct Hp as (Hp & _ & _ & Hev2 & Hzn2 & Hbk2).
    assert (Hvz : venue_zones (si_db s2) v = venue_zones (si_db s) v)
      by (unfold venue_zones; congruence).
    assert (Hvc : venue_capacity (si_db s2) v = venue_capacity (si_db s) v)
      by (unfold venue_capacity; rewrite Hvz; congruence).
    assert (Hpr : ∀ z p, default ∅ (ec_zone_prices c) !! z = Some p →
      d_prices (si_db s2) !! (ev_id row0, z) = Some p).
    { intros z p Hz. apply Hp. by apply elem_of_map_to_list. }
    split_and!; try done; try congruence.
    apply (check_seat_map_intro _ _ v); [congruence|congruence|].
    intros z Hz. rewrite Hvz, <-Hd in Hz. apply elem_of_dom in Hz as [p Hz]. eexists. by apply Hpr.
  - pose proof (insert_event_cases c (default 0 (ec_total_seats c)) (ec_price c) s) as Hi.
    rewrite H in Hi. destruct Hi as (Hid & Hve & Hn & Hst & Hver & Hx & Hev & _).
    split_and!; try done; [unfold check_seat_map; by rewrite Hve, Hv|].
    destruct (ec_total_seats c) as [n|]; simpl in Hn; [by subst|].
    rewrite !andb_true_iff in Hshape. simpl in Hshape. destruct_and!. done.
Qed.

(** ** At concrete inputs *)

(** A venue of one zone and one block of four seats, and a draft event in it. *)
Definition demo_venue_db : DB :=
  mk_db ∅ {[5 := mk_event 5 (Some 1) 200 300 50 90 None None 4 None DRAFT 1]}
    {[3 := mk_zone 3 1 "A" 0 1]} {[7 := mk_block 7 3 4 1%Q 1%Q]} ∅ {[(5, 3) := 250]} ∅ 1 ∅ ∅ 1 ∅.
Definition demo_site : Site :=
  mk_site demo_venue_db {[5 := ("show", "hall")]} {[(5, 3) := 1]} {[1]} 6 empty_room ∅.
Definition demo_event : AdminEvent :=
  default (mk_admin_event (mk_event 0 None 0 0 0 0 None None 0 None DRAFT 0) None None)
    (get_event 5 demo_site).
(** Rename, and move the start of the show. *)
Definition demo_edit : EventUpdate :=
  mk_event_update 1 (Some (Some "gala")) None (Some (Some 210)) None None None None None None.
Definition demo_null_edit : EventUpdate :=
  mk_event_update 1 None None (Some None) None None None None None None.

Lemma demo_site_ok : site_ok demo_site.
Proof. intros i ev H. simpl in H. by apply lookup_singleton_Some in H as [<- <-]. Qed.

Lemma demo_blocks_ok : blocks_ok demo_venue_db 5.
Proof.
  split; simpl; [|done]. intros i b H. by apply lookup_singleton_Some in H as [<- <-].
Qed.

Lemma empty_zone e z : zone_empty empty_redis e z.
Proof. unfold zone_empty, zone_maps, hash. simpl. by rewrite !lookup_empty. Qed.

(** Another administrator raised the version in between: the edit is refused. *)
Definition demo_rival : Site → Site := λ s,
  (update_event_endpoint (default_settings "s") (λ s, s) 5 demo_edit s).2.

Lemma demo_rival_guards : version_guards 5 demo_site (demo_rival demo_site).
Proof.
  intros row row' Hr Hr' Hv. simpl in Hr. rewrite lookup_singleton_eq in Hr. injection Hr as <-.
  vm_compute in Hr'. by injection Hr' as <-.
Qed.

(** Alone, the edit is committed; behind a rival's it is refused. *)
Lemma edit_is_never_lost_witness :
  d_events (si_db (update_event_endpoint (default_settings "s") (λ s, s) 5 demo_edit demo_site).2) =
    {[5 := mk_event 5 (Some 1) 210 300 50 90 None None 4 None DRAFT 2]} ∧
  (update_event_endpoint (default_settings "s") demo_rival 5 demo_edit demo_site).1 =
    Err (Domain (ConcurrentModification "event" 5 (Some 1) None)).
Proof.
  split.
  - pose proof (edit_is_never_lost (default_settings "s") (λ s, s) 5 demo_edit demo_site demo_site_ok) as H.
    assert (Hg : version_guards 5 demo_site demo_site) by (intros r r' H1 H2 _; rewrite H1 in H2; by injection H2 as <-).
    specialize (H Hg).
    destruct (update_event_endpoint _ _ _ _ _) as [[answer|e] s'] eqn:Hrun.
    + destruct H as [(ev & Hev & _ & [(He & _)|(name & venue & _ & _ & _ & Hdb & _)]) _].
      * exfalso. vm_compute in Hev. injection Hev as <-. by vm_compute in He.
      * simpl. rewrite Hdb. vm_compute in Hev. injection Hev as <-. vm_compute. reflexivity.
    + exfalso. apply (f_equal (λ x, is_ok x.1)) in Hrun. by vm_compute in Hrun.
  - assert (Hrival : ∃ cur, d_events (si_db (demo_rival demo_site)) !! 5 = Some cur ∧ ev_version cur = 2)
      by (eexists; split; by vm_compute).
    destruct Hrival as (cur & Hc & Hv).
    pose proof (edit_is_never_lost (default_settings "s") demo_rival 5 demo_edit demo_site
      demo_site_ok demo_rival_guards) as H.
    destruct (update_event_endpoint _ _ _ _ _) as [out s'] eqn:Hrun. destruct H as [_ H].
    destruct (H cur Hc) as [Hs|[_ Ho]]; [rewrite Hv; done| |done].
    exfalso. apply (f_equal snd) in Hrun. simpl in Hrun. rewrite Hs in Hrun.
    apply (f_equal (λ s, ev_version <$> d_events (si_db s) !! 5)) in Hrun. by vm_compute in Hrun.
Defined.

Lemma publish_opens_the_venue_witness :
  let '(out, s') := publish_event "salt" demo_venue_db demo_event demo_site in
  out = Ok (published demo_event) ∧ r_available (rm_redis (si_room s')) !! 5 = Some 4 ∧
  zone_free (rm_redis (si_room s')) (5, 3) 7 0.
Proof.
  pose proof (publish_opens_the_venue "salt" demo_venue_db demo_event demo_site 1 eq_refl
    demo_blocks_ok empty_seats_inv eq_refl (empty_zone 5)) as H. cbn zeta in H.
  destruct (publish_event "salt" demo_venue_db demo_event demo_site) as [[ev'|ex] s'] eqn:Hp.
  2:{ apply (f_equal (λ x, match x.1 with Ok _ => true | Err _ => false end)) in Hp. by vm_compute in Hp. }
  destruct H as (_ & -> & _ & _ & Hav & Hcap & Hz & _). split; [done|]. split.
  - etrans; [exact Hav|by vm_compute].
  - destruct (Hz 3) as [_ Hf]; [by vm_compute|]. apply Hf.
    exists (mk_block 7 3 4 1%Q 1%Q). split_and!; try done.
Defined.

(** ** Prices change together *)

Lemma check_prices_ok e rows items :
  check_prices e rows items = Ok tt →
  ∀ i, i ∈ items → ∃ row, rows !! zp_zone i = Some row ∧ pr_version row = zp_version i.
Proof.
  induction items as [|j items IH]; simpl; intros H i Hi; [by apply elem_of_nil in Hi|].
  destruct (rows !! zp_zone j) as [row|] eqn:Hr; [|done]. unfold require_version in H.
  destruct (pr_version row =? zp_version j) eqn:Hv; [|done]. apply Z.eqb_eq in Hv.
  apply elem_of_cons in Hi as [->|Hi]; [by exists row|by apply IH].
Qed.

(** The item names a row whose price it changes. *)
Definition reprices (old : gmap Z PriceRow) (i : ZonePriceUpdate) (row : PriceRow) : Prop :=
  old !! zp_zone i = Some row ∧ pr_price row ≠ zp_price i.

Definition price_of (s : Site) (k : Z * Z) : option Z * Z :=
  (d_prices (si_db s) !! k, default 1 (si_price_version s !! k)).

Lemma flush_prices_cases e items old s :
  NoDup (zp_zone <$> items) →
  match flush_prices e items old s with
  | (Ok _, s') => (∀ i row, i ∈ items → reprices old i row →
        (price_of s (e, zp_zone i)).2 = pr_version row ∧
        price_of s' (e, zp_zone i) = (Some (zp_price i), pr_version row + 1)) ∧
      (∀ k, (∀ i row, i ∈ items → reprices old i row → k ≠ (e, zp_zone i)) →
        price_of s' k = price_of s k) ∧
      d_events (si_db s') = d_events (si_db s)
  | (Err _, _) => True
  end.
Proof.
  revert s. induction items as [|j items IH]; intros s Hnd; simpl.
  { split_and!; try done. intros i row Hi. by apply elem_of_nil in Hi. }
  apply NoDup_cons in Hnd as [Hj Hnd].
  assert (Hskip : (∀ row, ¬ reprices old j row) →
    match flush_prices e items old s with
    | (Ok _, s') => (∀ i row, i ∈ j :: items → reprices old i row →
        (price_of s (e, zp_zone i)).2 = pr_version row ∧
        price_of s' (e, zp_zone i) = (Some (zp_price i), pr_version row + 1)) ∧
      (∀ k, (∀ i row, i ∈ j :: items → reprices old i row → k ≠ (e, zp_zone i)) →
        price_of s' k = price_of s k) ∧
      d_events (si_db s') = d_events (si_db s)
    | (Err _, _) => True
    end).
  { intros Hno. specialize (IH s Hnd). destruct (flush_prices e items old s) as [[[]|] s']; [|done].
    destruct IH as (H1 & H2 & H3). split_and!; [| |done].
    - intros i row [->|Hi]%elem_of_cons Hr; [by destruct (Hno row)|by apply H1].
    - intros k Hk. apply H2. intros i row Hi Hr. apply (Hk i row); [by right|done]. }
  destruct (old !! zp_zone j) as [row|] eqn:Ho.
  2:{ apply Hskip. intros row [? _]. congruence. }
  destruct (pr_price row =? zp_price j) eqn:Hp.
  { apply Hskip. intros row' [? Hne]. zbool. congruence. }
  clear Hskip. unfold bind at 1, gets at 1. cbn [fst snd].
  destruct (negb (is_some _ && _)) eqn:Hcur; [done|].
  destruct (negb (0 <=? zp_price j)) eqn:Hneg; [done|].
  apply negb_false_iff, andb_true_iff in Hcur as [_ Hcur]. zbool.
  unfold bind, modify. match goal with |- context [flush_prices _ _ _ ?t] => set (s1 := t) end.
  specialize (IH s1 Hnd). destruct (flush_prices e items old s1) as [[[]|] s']; [|done].
  destruct IH as (H1 & H2 & H3).
  assert (Hs1 : price_of s1 (e, zp_zone j) = (Some (zp_price j), pr_version row + 1))
    by (unfold price_of, s1; simpl; by rewrite !lookup_insert_eq).
  assert (Hne : ∀ k, k ≠ (e, zp_zone j) → price_of s1 k = price_of s k)
    by (intros k Hk; unfold price_of, s1; simpl; by rewrite !lookup_insert_ne by congruence).
  assert (Hz : ∀ i, i ∈ items → (e, zp_zone i) ≠ (e, zp_zone j)).
  { intros i Hi [= Heq]. apply Hj. rewrite <-Heq. by apply list_elem_of_fmap_2. }
  split_and!; [| |by rewrite H3].
  - intros i row' [->|Hi]%elem_of_cons Hr.
    + destruct Hr as [Hr _]. simplify_eq. split; [done|]. rewrite H2; [done|].
      intros i row'' Hi _ Heq. by apply (Hz i).
    + destruct (H1 i row' Hi Hr) as [Hv Hb]. rewrite (Hne _ (Hz i Hi)) in Hv. by split.
  - intros k Hk. assert (k ≠ (e, zp_zone j)) by (apply (Hk j row); [left|done]).
    rewrite <-Hne by done. apply H2. intros i row' Hi Hr. apply (Hk i row'); [by right|done].
Qed.

Lemma set_prices_loop_nil rows items :
  (set_prices_loop rows items).2 = [] → ∀ i row, i ∈ items → ¬ reprices rows i row.
Proof.
  induction items as [|j items IH]; simpl; intros H i row Hi [Hr Hne]; [by apply elem_of_nil in Hi|].
  destruct (rows !! zp_zone j) as [rj|] eqn:Hj.
  - destruct (pr_price rj =? zp_price j) eqn:Hp; [|by destruct (set_prices_loop (<[_:=_]> rows) items)].
    apply elem_of_cons in Hi as [->|Hi]; [zbool; congruence|by destruct (IH H i row)].
  - apply elem_of_cons in Hi as [->|Hi]; [congruence|by destruct (IH H i row)].
Qed.

(** A price table changes as a whole, over nobody's change.  A change of
    zone prices that is refused leaves what the others committed.  One that is
    accepted was made against the versions the client saw; each row it repriced
    still had that version when it was written, and now has the new price at the
    next version; every other price row of the database is as the others left
    it; and the cached metadata orders are priced from is gone. *)
Theorem zone_prices_change_together racing event_id items s :
  NoDup (zp_zone <$> items) →
  let '(out, s') := update_zone_prices_endpoint racing event_id items s in
  let rows := price_rows event_id s in
  match out with
  | Err _ => s' = s ∨ s' = racing s
  | Ok _ => (∀ i, i ∈ items → ∃ row, rows !! zp_zone i = Some row ∧ pr_version row = zp_version i) ∧
      (s' = s ∧ (∀ i row, i ∈ items → ¬ reprices rows i row) ∨
       (∀ i row, i ∈ items → reprices rows i row →
          (price_of (racing s) (event_id, zp_zone i)).2 = zp_version i ∧
          price_of s' (event_id, zp_zone i) = (Some (zp_price i), zp_version i + 1)) ∧
       (∀ k, (∀ i row, i ∈ items → reprices rows i row → k ≠ (event_id, zp_zone i)) →
          price_of s' k = price_of (racing s) k) ∧
       si_meta s' !! event_id = None)
  end.
Proof.
  intros Hnd. unfold update_zone_prices_endpoint, bind at 1, gets at 1.
  destruct (get_event event_id s) as [ev|] eqn:Hg; [|by left].
  unfold bind at 1, gets at 1. rewrite bind_lift.
  assert (Hid : ev_id (ae_row ev) = ev_id (ae_row ev)) by done.
  unfold update_zone_prices. destruct (bool_decide _); [by left|].
  destruct (check_prices _ _ items) as [[]|ex] eqn:Hc; [|by left]. simpl.
  pose proof (check_prices_ok _ _ _ Hc) as Hver.
  destruct (set_prices_loop _ items).2 as [|x diff] eqn:Hd.
  { split; [done|]. left. split; [done|]. by apply set_prices_loop_nil. }
  unfold bind at 1, modify at 1. unfold bind at 1, stale_data_as_conflict, try_catch, atomically.
  pose proof (flush_prices_cases event_id items (price_rows event_id s) (racing s) Hnd) as Hf.
  destruct (flush_prices _ _ _ _) as [[[]|ex] s1]; [|by destruct ex; right].
  destruct Hf as (H1 & H2 & _). unfold bind, modify, ret. split; [done|]. right. split_and!.
  - intros i row Hi Hr. destruct (Hver i Hi) as (row' & Hr' & <-). destruct (H1 i row Hi Hr) as [Ha Hb].
    destruct Hr as [Hr _]. simplify_eq. split; [exact Ha|exact Hb].
  - intros k Hk. rewrite <-(H2 k Hk). done.
  - apply lookup_delete_eq.
Qed.
