(* ===== verification/OrderPages.v ===== *)
(** Listing a user's orders page by page (src/app/crud/order.py
    [list_orders_for_user], src/app/api/v1/orders.py [_encode_cursor],
    [_decode_cursor], [list_my_orders]).  The database's instants are milliseconds;
    a cursor carries the microseconds of [isoformat]. *)

From Stdlib Require Import Ascii String DecimalString.
From S2P Require Import Prelude Text Exceptions Keys RateLimit Calendar Base64 DB.

#[local] Open Scope string_scope.
#[local] Open Scope list_scope.
#[local] Open Scope Z_scope.

(** ** The page *)

Definition created_us (o : Order) : Z := o_created o * 1000.

(** [(created_at, id)] and the comparison of row values. *)
Definition order_key (o : Order) : Z * Z := (created_us o, o_id o).
Definition key_lt (a b : Z * Z) : bool := (a.1 <? b.1) || ((a.1 =? b.1) && (a.2 <? b.2)).

(** ORDER BY created_at DESC, id DESC. *)
Definition newer (a b : Order) : bool := negb (key_lt (order_key a) (order_key b)).

(** The user's orders in that order. *)
Definition orders_of (d : DB) (user_id : Z) : list Order :=
  isort newer (filter (λ o, o_user o = user_id) (map_to_list (d_orders d)).*2).

Definition below (cursor : option (Z * Z)) (o : Order) : bool :=
  match cursor with Some k => key_lt (order_key o) k | None => true end.

(** [list_orders_for_user] *)
Definition list_orders_for_user (d : DB) (user_id : Z) (limit : nat) (cursor : option (Z * Z)) : list Order :=
  take limit (filter (λ o, below cursor o = true) (orders_of d user_id)).

(** ** The cursor *)

(** [_encode_cursor] *)
Definition encode_cursor (o : Order) : string :=
  urlsafe_b64encode (isoformat (utc_of (created_us o)) +:+ "|" +:+ z_str (o_id o)).

(** [raw.rsplit("|", 1)], when there is a bar. *)
Fixpoint rsplit_bar (l : list ascii) : option (list ascii * list ascii) :=
  match l with
  | [] => None
  | c :: l' =>
      match rsplit_bar l' with
      | Some (a, b) => Some (c :: a, b)
      | None => if Ascii.eqb c "|" then Some ([], l') else None
      end
  end.

Definition invalid_cursor : exn := HTTPException 422 "invalid cursor".

(** [_decode_cursor] *)
Definition decode_cursor (token : string) : result exn (Z * Z) :=
  match (raw ← urlsafe_b64decode token;
         ab ← rsplit_bar (list_ascii_of_string raw);
         t ← fromisoformat (string_of_list_ascii ab.1);
         i ← z_parse (string_of_list_ascii ab.2); Some (t, i)) with
  | Some k => Ok k
  | None => Err invalid_cursor
  end.

(** [list_my_orders]: one order more than the page tells whether another follows. *)
Definition list_my_orders (d : DB) (user_id : Z) (limit : nat) (cursor : option string)
    : result exn (list Order * option string) :=
  let? decoded := match cursor with
                  | Some c => if bool_decide (c = "") then Ok None
                              else let? k := decode_cursor c in Ok (Some k)
                  | None => Ok None
                  end in
  let rows := list_orders_for_user d user_id (limit + 1) decoded in
  let page := take limit rows in
  Ok (page, if (limit <? List.length rows)%nat then encode_cursor <$> last page else None).

(** Following the cursors: the [k]-th request reads the [k]-th state. *)
Fixpoint walk (ds : list DB) (user_id : Z) (limit : nat) (cursor : option string)
    : result exn (list (list Order) * option string) :=
  match ds with
  | [] => Ok ([], cursor)
  | d :: ds' =>
      let? p := list_my_orders d user_id limit cursor in
      match p.2 with
      | None => Ok ([p.1], None)
      | Some c => let? r := walk ds' user_id limit (Some c) in Ok (p.1 :: r.1, r.2)
      end
  end.

(** ** Lemmas *)

Lemma rsplit_bar_none l : "|"%char ∉ l → rsplit_bar l = None.
Proof.
  induction l as [|c l IH]; [done|]. rewrite not_elem_of_cons. intros [Hc Hl]. simpl. rewrite IH by done.
  destruct (Ascii.eqb c "|") eqn:He; [|done]. by apply Ascii.eqb_eq in He.
Qed.

Lemma rsplit_bar_app a b : "|"%char ∉ b → rsplit_bar (a ++ "|"%char :: b) = Some (a, b).
Proof. intros Hb. induction a as [|c a IH]; simpl; [by rewrite rsplit_bar_none|]. by rewrite IH. Qed.

(** The text of a cursor is below the bar in ASCII, the bar apart. *)
Definition plain (c : ascii) : bool := (nat_of_ascii c <? 124)%nat.
Definition plain_str (s : string) : bool := forallb plain (list_ascii_of_string s).

Lemma plain_app a b : plain_str (a +:+ b) = plain_str a && plain_str b.
Proof. unfold plain_str. by rewrite list_ascii_app, forallb_app. Qed.

Lemma plain_digit z : plain (digit_char (z mod 10)) = true.
Proof.
  unfold plain, digit_char. pose proof (Z.mod_pos_bound z 10 ltac:(lia)).
  rewrite nat_ascii_embedding by lia. apply Nat.ltb_lt. lia.
Qed.

Lemma plain_pad n z : plain_str (pad n z) = true.
Proof.
  induction n as [|n IH]; [done|]. unfold plain_str in *. cbn [pad list_ascii_of_string forallb].
  by rewrite plain_digit, IH.
Qed.

Lemma plain_uint u : plain_str (NilEmpty.string_of_uint u) = true.
Proof. induction u; [done|..]; exact IHu. Qed.

Lemma plain_z_str z : plain_str (z_str z) = true.
Proof.
  assert (H : ∀ u, plain_str (NilZero.string_of_uint u) = true).
  { intros u. destruct u; [done|..]; apply (plain_uint (_ u)). }
  unfold z_str, NilZero.string_of_int. destruct (Z.to_int z); [apply H|]. exact (H d).
Qed.

Lemma plain_isoformat t : plain_str (isoformat t) = true.
Proof.
  unfold isoformat, date_iso. rewrite !plain_app, !plain_pad.
  destruct (u_micro t =? 0); [done|]. by rewrite plain_app, plain_pad.
Qed.

Lemma plain_no_bar s : plain_str s = true → "|"%char ∉ list_ascii_of_string s.
Proof. intros Hs Hin. unfold plain_str in Hs. rewrite forallb_forall in Hs. by specialize (Hs "|"%char ltac:(by apply list_elem_of_In)). Qed.

Lemma plain_ascii s : plain_str s = true → is_ascii s = true.
Proof.
  unfold plain_str, is_ascii, text_bytes. rewrite !forallb_forall. intros Hs b Hb.
  apply list_elem_of_In, list_elem_of_fmap in Hb as (c & -> & Hc). apply list_elem_of_In in Hc.
  specialize (Hs c Hc). unfold plain in Hs. apply Nat.ltb_lt in Hs. simpl. apply Z.ltb_lt. lia.
Qed.

(** A datetime Python can hold. *)
Definition datable (o : Order) : Prop := MIN_DAYS * DAY <= created_us o < (MAX_DAYS + 1) * DAY.

(** A page's cursor names its last order.  The text a page hands out - the order's
    creation instant and id, in base64 - is read back as exactly that pair,
    for every instant between the years 1 and 9999. *)
Theorem cursor_roundtrip o : datable o → decode_cursor (encode_cursor o) = Ok (order_key o).
Proof.
  intros Ho. destruct (utc_of_instant (created_us o) Ho) as [Hv Hi]. unfold decode_cursor, encode_cursor.
  set (t := isoformat (utc_of (created_us o))). set (i := z_str (o_id o)).
  rewrite urlsafe_roundtrip.
  - cbn [mbind option_bind]. rewrite list_ascii_app. change (list_ascii_of_string ("|" +:+ i)) with ("|"%char :: list_ascii_of_string i).
    rewrite rsplit_bar_app by (apply plain_no_bar, plain_z_str).
    cbn [mbind option_bind fst snd]. rewrite !string_of_list_ascii_of_string. unfold t.
    rewrite fromisoformat_isoformat by done. cbn [mbind option_bind].
    unfold i. rewrite z_parse_str. cbn [mbind option_bind]. by rewrite Hi.
  - unfold is_ascii, text_bytes. rewrite !list_ascii_app, !fmap_app, !forallb_app.
    assert (Ht : is_ascii t = true) by (apply plain_ascii, plain_isoformat).
    assert (Hid : is_ascii i = true) by (apply plain_ascii, plain_z_str).
    unfold is_ascii, text_bytes in Ht, Hid. by rewrite Ht, Hid.
Qed.

(** ** The order of the listing *)

Record listable (d : DB) : Prop := {
  li_ids : ∀ i o, d_orders d !! i = Some o → o_id o = i;
  li_dates : ∀ i o, d_orders d !! i = Some o → datable o;
}.

Definition older (a b : Order) : Prop := key_lt (order_key b) (order_key a) = true.

Lemma key_lt_spec a b : key_lt a b = true ↔ a.1 < b.1 ∨ a.1 = b.1 ∧ a.2 < b.2.
Proof. unfold key_lt. rewrite orb_true_iff, andb_true_iff, !Z.ltb_lt, Z.eqb_eq. done. Qed.

Lemma key_lt_false a b : key_lt a b = false ↔ b.1 < a.1 ∨ b.1 = a.1 ∧ b.2 <= a.2.
Proof.
  rewrite <-not_true_iff_false, key_lt_spec. split; [|lia]. intros H.
  destruct (Z.lt_trichotomy a.1 b.1) as [?|[?|?]]; lia.
Qed.

Lemma key_lt_trans a b c : key_lt a b = true → key_lt b c = true → key_lt a c = true.
Proof. rewrite !key_lt_spec. lia. Qed.

Lemma elem_of_orders_of d user o :
  o ∈ orders_of d user ↔ o_user o = user ∧ ∃ i, d_orders d !! i = Some o.
Proof.
  unfold orders_of. rewrite elem_of_isort, list_elem_of_filter, list_elem_of_fmap.
  apply and_iff_compat_l. split.
  - intros ([i o'] & -> & Hin). apply elem_of_map_to_list in Hin. eauto.
  - intros [i Hi]. exists (i, o). split; [done|]. by apply elem_of_map_to_list.
Qed.

Lemma orders_of_nodup d user : listable d → NoDup (order_key <$> orders_of d user).
Proof.
  intros Hd. unfold orders_of.
  assert (Hp : order_key <$> isort newer (filter (λ o, o_user o = user) (map_to_list (d_orders d)).*2) ≡ₚ
    order_key <$> filter (λ o, o_user o = user) (map_to_list (d_orders d)).*2).
  { apply fmap_Permutation, isort_perm. }
  rewrite Hp. clear Hp.
  assert (Hall : ∀ i o, (i, o) ∈ map_to_list (d_orders d) → (order_key o).2 = i)
    by (intros i o Hin; apply elem_of_map_to_list in Hin; by apply (li_ids _ Hd)).
  pose proof (NoDup_fst_map_to_list (d_orders d)) as Hnd. revert Hall Hnd.
  induction (map_to_list (d_orders d)) as [|[i o] l IH]; [constructor|]. csimpl. intros Hall Hnd.
  apply NoDup_cons in Hnd as [Hi Hnd].
  assert (IH' : NoDup (order_key <$> filter (λ o, o_user o = user) l.*2)).
  { apply IH; [|done]. intros j x Hx. apply Hall. by right. }
  rewrite filter_cons. destruct (decide (o_user o = user)); [|done]. csimpl. constructor; [|done].
  intros (x & Hk & Hx)%list_elem_of_fmap. apply list_elem_of_filter in Hx as [_ Hx].
  apply list_elem_of_fmap in Hx as ([j x'] & -> & Hin). simpl in *.
  assert (Hj : (order_key x').2 = j) by (apply Hall; apply list_elem_of_further; exact Hin).
  assert (Hio : (order_key o).2 = i) by (apply Hall; apply list_elem_of_here).
  rewrite Hk, Hj in Hio. apply Hi, list_elem_of_fmap. exists (j, x'). by subst.
Qed.

Lemma strictly_sorted l :
  StronglySorted (λ a b, newer a b = true) l → NoDup (order_key <$> l) → StronglySorted older l.
Proof.
  induction 1 as [|o l _ IH Ho]; [constructor|]. csimpl. intros [Hno Hnd]%NoDup_cons. constructor; [by apply IH|].
  rewrite Forall_forall in Ho |- *. intros x Hx. specialize (Ho x Hx). unfold newer in Ho. apply negb_true_iff in Ho.
  unfold older. apply key_lt_false in Ho. apply key_lt_spec. destruct Ho as [|[Heq Hle]]; [by left|]. right.
  split; [done|]. destruct (decide ((order_key x).2 = (order_key o).2)) as [Hk|]; [|lia].
  exfalso. apply Hno, list_elem_of_fmap. exists x. split; [|done].
  destruct (order_key o), (order_key x). simpl in *. by subst.
Qed.

Lemma orders_of_sorted d user : listable d → StronglySorted older (orders_of d user).
Proof.
  intros Hd. apply strictly_sorted; [|by apply orders_of_nodup]. unfold orders_of. apply isort_sorted.
  - unfold newer. intros x y. rewrite negb_false_iff, negb_true_iff, key_lt_spec, key_lt_false. lia.
  - unfold newer. intros x y z. rewrite !negb_true_iff, !key_lt_false. lia.
Qed.

Lemma sorted_app {A} (R : A → A → Prop) l1 l2 :
  StronglySorted R (l1 ++ l2) ↔ StronglySorted R l1 ∧ StronglySorted R l2 ∧ ∀ x y, x ∈ l1 → y ∈ l2 → R x y.
Proof.
  induction l1 as [|a l1 IH]; simpl.
  - split; [intros H; split_and!; [constructor|done|by intros x y Hx%elem_of_nil]|by intros (_ & ? & _)].
  - split.
    + inversion 1 as [|? ? Hs Hall]; subst. apply IH in Hs as (H1 & H2 & H3). apply Forall_app in Hall as [Ha1 Ha2].
      split_and!; [by constructor|done|]. intros x y [->|Hx]%elem_of_cons Hy; [|by apply H3].
      rewrite Forall_forall in Ha2. by apply Ha2.
    + intros (Hs & H2 & H3). inversion Hs as [|? ? Hs1 Ha1]; subst. constructor.
      * apply IH. split_and!; [done|done|]. intros x y Hx Hy. apply H3; [by right|done].
      * apply Forall_app. split; [done|]. apply Forall_forall. intros y Hy. apply H3; [by left|done].
Qed.

(** ** Walking the pages *)

(** What other requests may have done in between: orders are added and change their
    status, none of the user's goes away. *)
Definition grows (user : Z) (d d' : DB) : Prop :=
  ∀ i o, d_orders d !! i = Some o → o_user o = user →
  ∃ o', d_orders d' !! i = Some o' ∧ o_user o' = user ∧ order_key o' = order_key o.

(** The states the requests of a walk read. *)
Inductive history (user : Z) : list DB → Prop :=
  | history_one d : listable d → history user [d]
  | history_cons d d' ds : listable d → grows user d d' → history user (d' :: ds) → history user (d :: d' :: ds).

(** The cursor a page handed out, and what it stands for. *)
Inductive cursor_for : option (Z * Z) → option string → Prop :=
  | cursor_start : cursor_for None None
  | cursor_after o : datable o → cursor_for (Some (order_key o)) (Some (encode_cursor o)).

Definition remaining (d : DB) (user : Z) (cur : option (Z * Z)) : list Order :=
  filter (λ o, below cur o = true) (orders_of d user).

Lemma list_my_orders_spec d user limit cur tok :
  cursor_for cur tok →
  list_my_orders d user limit tok =
    Ok (take limit (remaining d user cur),
        if (limit <? List.length (remaining d user cur))%nat
        then encode_cursor <$> last (take limit (remaining d user cur)) else None).
Proof.
  intros Hc. unfold list_my_orders, list_orders_for_user.
  assert (Hdec : match tok with
    | Some c => if bool_decide (c = "") then Ok None else let? k := decode_cursor c in Ok (Some k)
    | None => Ok None end = Ok (E:=exn) cur).
  { destruct Hc as [|o Ho]; [done|]. case_bool_decide as He.
    - pose proof (cursor_roundtrip o Ho) as H. by rewrite He in H.
    - by rewrite cursor_roundtrip. }
  rewrite Hdec. cbn [result_bind]. fold (remaining d user cur). rewrite take_take.
  replace (Nat.min limit (limit + 1)) with limit by lia. rewrite length_take.
  destruct (limit <? List.length (remaining d user cur))%nat eqn:Hl; [apply Nat.ltb_lt in Hl|apply Nat.ltb_ge in Hl].
  - by rewrite (proj2 (Nat.ltb_lt _ _)) by lia.
  - by rewrite (proj2 (Nat.ltb_ge _ _)) by lia.
Qed.

(** A page of the walk: the orders up to some order, or all that is left. *)
Lemma page_cases d user limit cur :
  listable d → (1 <= limit)%nat →
  let L := remaining d user cur in
  let page := take limit L in
  StronglySorted older L ∧ (∀ o, o ∈ L ↔ o_user o = user ∧ below cur o = true ∧ ∃ i, d_orders d !! i = Some o) ∧
  if (limit <? List.length L)%nat
  then ∃ o, last page = Some o ∧ datable o ∧ List.length page = limit ∧ o ∈ page ∧
       (∀ x, x ∈ page → x = o ∨ older x o) ∧ (∀ x, x ∈ L → x ∈ page ∨ below (Some (order_key o)) x = true)
  else page = L.
Proof.
  intros Hd Hlim. cbv zeta. assert (HL : StronglySorted older (remaining d user cur)).
  { apply sorted_filter, orders_of_sorted, Hd. }
  assert (Hin : ∀ o, o ∈ remaining d user cur ↔ o_user o = user ∧ below cur o = true ∧ ∃ i, d_orders d !! i = Some o).
  { intros o. unfold remaining. rewrite list_elem_of_filter, elem_of_orders_of. tauto. }
  split_and!; [done|done|]. set (L := remaining d user cur) in *.
  destruct (limit <? List.length L)%nat eqn:Hl; [|apply Nat.ltb_ge in Hl; by apply take_ge].
  apply Nat.ltb_lt in Hl.
  destruct (last (take limit L)) as [o|] eqn:Ho;
    [|apply last_None in Ho; apply (f_equal List.length) in Ho; rewrite length_take in Ho; simpl in Ho; lia].
  exists o. apply last_Some in Ho as [l Ho].
  assert (Hpage : o ∈ take limit L) by (rewrite Ho; apply elem_of_app; right; by left).
  rewrite <-(take_drop limit L) in HL. apply sorted_app in HL as (Hs1 & _ & Hs2).
  split_and!; [done| |by rewrite length_take; lia|done| |].
  - assert (HoL : o ∈ L) by (by eapply elem_of_take in Hpage as (i & Hi & _); eapply list_elem_of_lookup_2).
    apply Hin in HoL as (_ & _ & i & Hi). by apply (li_dates _ Hd i).
  - intros x Hx. rewrite Ho in Hx, Hs1. apply elem_of_app in Hx as [Hx|Hx%list_elem_of_singleton]; [|by left].
    right. apply sorted_app in Hs1 as (_ & _ & Hs1). apply Hs1; [done|by left].
  - intros x Hx. rewrite <-(take_drop limit L) in Hx. apply elem_of_app in Hx as [Hx|Hx]; [by left|].
    right. by apply Hs2.
Qed.

Lemma below_older cur o x : below cur o = true → below (Some (order_key o)) x = true → below cur x = true.
Proof. destruct cur as [k|]; simpl; [|done]. intros Ho Hx. by apply (key_lt_trans _ (order_key o)). Qed.

Lemma history_inv user d d' ds : history user (d :: d' :: ds) → grows user d d' ∧ history user (d' :: ds).
Proof. by inversion 1. Qed.

Lemma history_head user d ds : history user (d :: ds) → listable d.
Proof. by inversion 1. Qed.

Lemma history_last user d ds o e :
  history user (d :: ds) → o ∈ orders_of d user → last (d :: ds) = Some e →
  ∃ o', o' ∈ orders_of e user ∧ order_key o' = order_key o.
Proof.
  revert d o. induction ds as [|d' ds IH]; intros d o Hh Ho He.
  - injection He as <-. by exists o.
  - apply history_inv in Hh as [Hg Hh]. apply elem_of_orders_of in Ho as (Hu & i & Hi).
    destruct (Hg i o Hi Hu) as (o' & Hi' & Hu' & Hk). rewrite last_cons_cons in He.
    destruct (IH d' o' Hh) as (y & Hy & Hky); [apply elem_of_orders_of; eauto|done|].
    exists y. split; [done|congruence].
Qed.

Lemma elem_of_take_in {A} n (l : list A) x : x ∈ take n l → x ∈ l.
Proof. intros (i & Hi & _)%elem_of_take. by eapply list_elem_of_lookup_2. Qed.

(** What a walk from a cursor has shown. *)
Record walked (user : Z) (limit : nat) (ds : list DB) (cur : option (Z * Z)) (pages : list (list Order))
    (c : option string) : Prop := {
  wk_sorted : StronglySorted older (concat pages);
  wk_own : ∀ x, x ∈ concat pages → o_user x = user ∧ below cur x = true;
  wk_all : c = None → ∀ d x, head ds = Some d → x ∈ orders_of d user → below cur x = true →
    order_key x ∈ order_key <$> concat pages;
  wk_real : ∀ e x, last ds = Some e → x ∈ concat pages → ∃ y, y ∈ orders_of e user ∧ order_key y = order_key x;
  wk_full : (c ≠ None → List.length (concat pages) = List.length ds * limit)%nat;
}.

Lemma elem_of_remaining d user cur x : x ∈ remaining d user cur ↔ x ∈ orders_of d user ∧ below cur x = true.
Proof. unfold remaining. rewrite list_elem_of_filter. tauto. Qed.

(** The last page. *)
Lemma walked_end user limit d ds cur :
  history user (d :: ds) → walked user limit (d :: ds) cur [remaining d user cur] None.
Proof.
  intros Hh. split; simpl; rewrite ?app_nil_r.
  - apply sorted_filter, orders_of_sorted. by eapply history_head.
  - intros x [Hx Hb]%elem_of_remaining. apply elem_of_orders_of in Hx as [Hu _]. done.
  - intros _ ? x [= <-] Hx Hb. apply list_elem_of_fmap. exists x. by rewrite elem_of_remaining.
  - intros e x He [Hx _]%elem_of_remaining. by eapply history_last.
  - done.
Qed.

(** A full page, and the walk that goes on from its last order. *)
Lemma walked_more user limit d ds cur o pages c :
  let page := take limit (remaining d user cur) in
  history user (d :: ds) → StronglySorted older (remaining d user cur) → List.length page = limit → o ∈ page →
  (∀ x, x ∈ page → x = o ∨ older x o) →
  (∀ x, x ∈ remaining d user cur → x ∈ page ∨ below (Some (order_key o)) x = true) →
  match ds with [] => pages = [] ∧ c = Some (encode_cursor o) | _ => walked user limit ds (Some (order_key o)) pages c end →
  walked user limit (d :: ds) cur (page :: pages) c.
Proof.
  cbv zeta. intros Hh HL Hlen Ho Hlast Hrest Hds.
  assert (Hob : below cur o = true) by (apply elem_of_take_in, elem_of_remaining in Ho; tauto).
  assert (Hpage : StronglySorted older (take limit (remaining d user cur)))
    by (rewrite <-(take_drop limit) in HL; by apply sorted_app in HL as (? & _)).
  assert (Hown : ∀ x, x ∈ take limit (remaining d user cur) → x ∈ orders_of d user ∧ below cur x = true)
    by (intros x Hx%elem_of_take_in; by apply elem_of_remaining).
  assert (Hown' : ∀ x, x ∈ take limit (remaining d user cur) → o_user x = user ∧ below cur x = true).
  { intros x [Hx Hb]%Hown. apply elem_of_orders_of in Hx. tauto. }
  destruct ds as [|d' ds].
  - destruct Hds as [-> ->]. split; simpl; rewrite ?app_nil_r; [done|done|done| |intros _; lia].
    intros e x He [Hx _]%Hown. by eapply history_last.
  - destruct Hds as [Hs Hu Hall Hreal Hfull]. destruct (history_inv _ _ _ _ Hh) as [Hg Hh']. split; cbn [concat].
    + apply sorted_app. split_and!; [done|done|]. intros x y Hx Hy. destruct (Hu y Hy) as [_ Hyo].
      destruct (Hlast x Hx) as [->|Hxo]; [done|]. by apply (key_lt_trans _ (order_key o)).
    + intros x [Hx|Hx]%elem_of_app; [by apply Hown'|]. destruct (Hu x Hx) as [Hux Hxo].
      split; [done|]. by apply (below_older _ o).
    + intros -> ? x [= <-] Hx Hb. rewrite fmap_app. apply elem_of_app.
      destruct (Hrest x) as [Hp|Hxo]; [by apply elem_of_remaining|left; apply list_elem_of_fmap; eauto|right].
      apply elem_of_orders_of in Hx as (Hux & i & Hi). destruct (Hg i x Hi Hux) as (x' & Hi' & Hu' & Hk).
      rewrite <-Hk. apply (Hall eq_refl d' x'); [done|apply elem_of_orders_of; eauto|]. simpl. by rewrite Hk.
    + intros e x He [[Hx _]%Hown|Hx]%elem_of_app; [by apply (history_last user d (d' :: ds))|].
      rewrite last_cons_cons in He. by apply Hreal.
    + intros Hn. rewrite length_app, Hlen, Hfull by done. simpl. lia.
Qed.

Lemma walk_spec user limit ds :
  history user ds → (1 <= limit)%nat → ∀ cur tok, cursor_for cur tok →
  ∃ pages c, walk ds user limit tok = Ok (pages, c) ∧ walked user limit ds cur pages c.
Proof.
  intros Hh Hlim. induction ds as [|d ds IH]; [by inversion Hh|]. intros cur tok Hc.
  cbn [walk]. rewrite (list_my_orders_spec d user limit cur tok Hc). cbn [result_bind fst snd].
  destruct (page_cases d user limit cur (history_head _ _ _ Hh) Hlim) as (HL & _ & Hpage).
  destruct (limit <? List.length (remaining d user cur))%nat.
  - destruct Hpage as (o & Hl & Ho & Hlen & Hop & Hlast & Hrest). rewrite Hl. cbn [fmap option_fmap option_map].
    destruct ds as [|d' ds].
    + simpl. do 2 eexists. split; [done|]. by apply (walked_more user limit d [] cur o).
    + destruct (history_inv _ _ _ _ Hh) as [_ Hh'].
      destruct (IH Hh' _ _ (cursor_after o Ho)) as (pages & c & -> & Hw). simpl. do 2 eexists. split; [done|].
      by apply (walked_more user limit d (d' :: ds) cur o).
  - rewrite Hpage. do 2 eexists. split; [done|]. by apply walked_end.
Qed.

(** C33 (walking the pages shows every order once).  A client that follows the cursors
    page by page, while orders are added to the database and change their status in
    between, is never refused; it sees its own orders only, newest first and none
    twice; when the pages end, every order the user had when the walk began has been
    shown; and they do end: after more requests than the user's orders fill pages,
    the last page has been reached. *)
Theorem pages_visit_each_order_once user limit d0 ds e :
  history user (d0 :: ds) → last (d0 :: ds) = Some e → (1 <= limit)%nat →
  ∃ pages next, walk (d0 :: ds) user limit None = Ok (pages, next) ∧
    let shown := concat pages in
    StronglySorted older shown ∧ NoDup (order_key <$> shown) ∧ (∀ o, o ∈ shown → o_user o = user) ∧
    (next = None → ∀ o, o ∈ orders_of d0 user → order_key o ∈ order_key <$> shown) ∧
    (List.length (orders_of e user) < List.length (d0 :: ds) * limit → next = None)%nat.
Proof.
  intros Hh He Hlim. destruct (walk_spec user limit _ Hh Hlim _ _ cursor_start) as (pages & c & Hw & [Hs Hu Hall Hreal Hfull]).
  exists pages, c. split; [done|]. cbv zeta.
  assert (Hnd : NoDup (order_key <$> concat pages)).
  { clear -Hs. induction Hs as [|x l _ IH Hx]; [constructor|]. csimpl. constructor; [|done].
    intros (y & Hk & Hy)%list_elem_of_fmap. rewrite Forall_forall in Hx. specialize (Hx y Hy). unfold older in Hx.
    rewrite Hk, key_lt_spec in Hx. lia. }
  split_and!; [done|done|by intros o Ho; apply Hu|by intros Hc o Ho; apply (Hall Hc d0 o)|].
  intros Hlen. destruct c as [c|]; [exfalso|done]. specialize (Hfull ltac:(done)).
  assert (Hsub : order_key <$> concat pages ⊆+ order_key <$> orders_of e user).
  { apply NoDup_submseteq; [done|]. intros k (x & -> & Hx)%list_elem_of_fmap.
    destruct (Hreal e x He Hx) as (y & Hy & <-). apply list_elem_of_fmap. eauto. }
  apply submseteq_length in Hsub. rewrite !length_fmap in Hsub. lia.
Qed.

(** ** A walk *)

#[global] Instance datable_dec o : Decision (datable o).
Proof. unfold datable. apply _. Defined.

Definition paged_order (i created : Z) : Order :=
  mk_order i 1 7 None 1 500 PENDING "k" None created None None None None.
Definition paged_db (l : list Order) : DB :=
  mk_db ∅ ∅ ∅ ∅ ∅ ∅ (list_to_map ((λ o, (o_id o, o)) <$> l)) 10 ∅ ∅ 1 ∅.
Definition paged_old : list Order := [paged_order 1 100; paged_order 2 200; paged_order 3 200].

Lemma paged_listable l :
  Forall datable l → NoDup (o_id <$> l) → listable (paged_db l).
Proof.
  intros Hl Hnd.
  assert (H : ∀ i o, d_orders (paged_db l) !! i = Some o → o_id o = i ∧ o ∈ l).
  { intros i o Ho. simpl in Ho. apply elem_of_list_to_map_2, list_elem_of_fmap in Ho as (x & [= -> ->] & Hx). done. }
  rewrite Forall_forall in Hl. split; intros i o Ho; destruct (H i o Ho); [done|by apply Hl].
Qed.

Lemma pages_visit_each_order_once_witness :
  ∃ pages, walk [paged_db paged_old; paged_db (paged_order 4 300 :: paged_old)] 1 2 None = Ok (pages, None) ∧
    NoDup (order_key <$> concat pages) ∧ o_id <$> concat pages = [3; 2; 1].
Proof.
  destruct (pages_visit_each_order_once 1 2 (paged_db paged_old) [paged_db (paged_order 4 300 :: paged_old)]
    (paged_db (paged_order 4 300 :: paged_old))) as (pages & next & Hw & _ & Hnd & _).
  - constructor; [|intros i o Hi Hu|constructor].
    + apply paged_listable; [apply (bool_decide_eq_true_1 _); by vm_compute|apply (bool_decide_eq_true_1 _); by vm_compute].
    + exists o. split_and!; [|done|done]. simpl in *. rewrite lookup_insert_ne; [done|]. intros <-.
      by vm_compute in Hi.
    + apply paged_listable; [apply (bool_decide_eq_true_1 _); by vm_compute|apply (bool_decide_eq_true_1 _); by vm_compute].
  - done.
  - lia.
  - assert (Hc : walk [paged_db paged_old; paged_db (paged_order 4 300 :: paged_old)] 1 2 None =
      Ok ([[paged_order 3 200; paged_order 2 200]; [paged_order 1 100]], None)) by by vm_compute.
    rewrite Hc in Hw. injection Hw as <- <-.
    exists [[paged_order 3 200; paged_order 2 200]; [paged_order 1 100]]. split_and!; [exact Hc|exact Hnd|reflexivity].
Defined.

Example cursor_text :
  encode_cursor (paged_order 3 200) = "MTk3MC0wMS0wMVQwMDowMDowMC4yMDAwMDArMDA6MDB8Mw==" ∧
  decode_cursor "x" = Err invalid_cursor ∧ decode_cursor (urlsafe_b64encode "1970-01-01|") = Err invalid_cursor.
Proof. by vm_compute. Qed.
