(* ===== verification/Http.v ===== *)
(** The HTTP guards around every request (src/app/api/middleware.py, their assembly
    in main.py, log_context of core/logging.py): trace ids and the access log, the
    body limit, the request timeout.  An ASGI application is a tree of the actions
    it takes; a middleware is a function on trees, and [play] plays a tree against a
    clock and the messages of one client.  Instants are milliseconds. *)

From Stdlib Require Import Ascii String QArith Qround.
From S2P Require Import Prelude Text Exceptions Config Keys Auth.

#[local] Open Scope string_scope.
#[local] Open Scope list_scope.
#[local] Open Scope Z_scope.

(** ** ASGI *)

(** [http.request] may come without its [body]. *)
Inductive request_message : Type :=
  | HttpRequest (body : option string) (more_body : bool)
  | HttpDisconnect.

Inductive response_message : Type :=
  | ResponseStart (status : Z) (headers : list (string * string))
  | ResponseBody (body : string) (more_body : bool).

(** What an application can raise: the two the guards use, a cancellation, the
    error of a timer that has fired already, anything else by its name. *)
Inductive app_exn : Type :=
  | BodyTooLarge
  | TimeoutError
  | CancelledError
  | RuntimeError
  | AppError (name : string).
#[global] Instance app_exn_eq_dec : EqDecision app_exn.
Proof. solve_decision. Defined.

(** The structured log records of this module, without their durations. *)
Inductive log_record : Type :=
  | LogUnhandled (path : string)
  | LogRequest (method path : string) (endpoint : option string) (status : Z) (client_ip : string)
  | LogBodyTooLarge (path : string) (limit_bytes : Z) (declared_bytes : option Z)
  | LogTimeout (path method : string) (timeout_ms : Z).

(** The actions of an application that ends on every input.  A wait may carry the
    instant at which it is cut short; an awaited call gives back its value or the
    exception it raised. *)
Inductive asgi_app : Type :=
  | Return
  | Raise (e : app_exn)
  | Now (k : Z → asgi_app)
  | Receive (cut : option Z) (k : request_message + app_exn → asgi_app)
  | Sleep (cut : option Z) (duration : Z) (k : option app_exn → asgi_app)
  | Send (m : response_message) (k : option app_exn → asgi_app)
  | Log (context : gmap string string) (r : log_record) (k : asgi_app).

Record Scope : Type := mk_scope {
  sc_type : string;
  sc_method : string;
  sc_path : string;
  sc_headers : list (string * string);   (* names in lower case *)
  sc_endpoint : option string;           (* the name of the routed function *)
  sc_client : option string;
}.

(** [Headers(scope=scope).get(name)] *)
Definition header (s : Scope) (name : string) : option string :=
  match list_find (λ h : string * string, h.1 = name) (sc_headers s) with
  | Some (_, (_, v)) => Some v
  | None => None
  end.

Definition is_http (s : Scope) : bool := bool_decide (sc_type s = "http").

(** An awaited [send] whose exception is not caught. *)
Definition send_then (m : response_message) (k : asgi_app) : asgi_app :=
  Send m (λ o, match o with Some e => Raise e | None => k end).

(** [try: a / except e: h(e)], for the exceptions [h] takes. *)
Fixpoint on_exception (h : app_exn → option asgi_app) (a : asgi_app) : asgi_app :=
  match a with
  | Return => Return
  | Raise e => default (Raise e) (h e)
  | Now k => Now (λ t, on_exception h (k t))
  | Receive c k => Receive c (λ m, on_exception h (k m))
  | Sleep c d k => Sleep c d (λ o, on_exception h (k o))
  | Send m k => Send m (λ o, on_exception h (k o))
  | Log c r k => Log c r (on_exception h k)
  end.

(** ** Errors the guards answer themselves *)

Definition dquote : ascii := ascii_of_nat 34.
(** [json.dumps] of text that needs no escape. *)
Definition json_text (s : string) : string := String dquote (s +:+ String dquote "").
Definition json_detail (detail : string) : string :=
  "{" +:+ json_text "detail" +:+ ": " +:+ json_text detail +:+ "}".

(** [_send_json] *)
Definition send_json (status : Z) (detail : string) : asgi_app :=
  let body := json_detail detail in
  send_then (ResponseStart status [("content-type", "application/json");
                                   ("content-length", z_str (Z.of_nat (String.length body)))])
    (send_then (ResponseBody body false) Return).

(** ** The trace id *)

Definition RESPONSE_HEADER : string := "X-Request-Id".
Definition ALB_TRACE_HEADER : string := "x-amzn-trace-id".
Definition ALB_TRACE_MAX_LEN : nat := 64.
Definition ACCESS_LOG_EXCLUDED : list string := ["/health"; "/health/deps"; "/metrics"].

(** [_alb_trace_id] *)
Definition alb_trace_id (settings : Settings) (s : Scope) : option string :=
  if TRUSTED_PROXY_COUNT settings <=? 0 then None
  else
    match header s ALB_TRACE_HEADER with
    | None => None
    | Some raw =>
        match List.filter isprintable (take ALB_TRACE_MAX_LEN (list_ascii_of_string raw)) with
        | [] => None
        | cleaned => Some (string_of_list_ascii cleaned)
        end
    end.

(** [log_context(fields)] around an application: what it logs carries [fields], but
    for what is bound closer by. *)
Fixpoint log_context (fields : gmap string string) (a : asgi_app) : asgi_app :=
  match a with
  | Return => Return
  | Raise e => Raise e
  | Now k => Now (λ t, log_context fields (k t))
  | Receive c k => Receive c (λ m, log_context fields (k m))
  | Sleep c d k => Sleep c d (λ o, log_context fields (k o))
  | Send m k => Send m (λ o, log_context fields (k o))
  | Log c r k => Log (c ∪ fields) r (log_context fields k)
  end.

(** [_log_access] *)
Definition log_access (settings : Settings) (s : Scope) (status_code : option Z) (k : asgi_app) : asgi_app :=
  if bool_decide (sc_path s ∈ ACCESS_LOG_EXCLUDED) then k
  else
    Log ∅ (LogRequest (sc_method s) (sc_path s) (sc_endpoint s) (default 500 status_code)
             (client_ip settings (mk_request (sc_client s) (header s "x-forwarded-for") None None None))) k.

(** [except Exception] does not see a cancellation. *)
Definition is_exception (e : app_exn) : bool := bool_decide (e ≠ CancelledError).

(** [MutableHeaders.append]: the name in lower case. *)
Definition append_header (name value : string) (headers : list (string * string)) : list (string * string) :=
  headers ++ [(string_of_list_ascii (lower <$> list_ascii_of_string name), value)].

(** [send_wrapper] and the [try] around the application. *)
Fixpoint trace_requests (settings : Settings) (s : Scope) (trace_id : string) (status_code : option Z)
    (a : asgi_app) : asgi_app :=
  match a with
  | Return => log_access settings s status_code Return
  | Raise e =>
      let ends := log_access settings s status_code (Raise e) in
      if is_exception e then Log ∅ (LogUnhandled (sc_path s)) ends else ends
  | Now k => Now (λ t, trace_requests settings s trace_id status_code (k t))
  | Receive c k => Receive c (λ m, trace_requests settings s trace_id status_code (k m))
  | Sleep c d k => Sleep c d (λ o, trace_requests settings s trace_id status_code (k o))
  | Send (ResponseStart status headers) k =>
      Send (ResponseStart status (append_header RESPONSE_HEADER trace_id headers))
        (λ o, trace_requests settings s trace_id (Some status) (k o))
  | Send m k => Send m (λ o, trace_requests settings s trace_id status_code (k o))
  | Log c r k => Log c r (trace_requests settings s trace_id status_code k)
  end.

(** [TraceIdMiddleware]; [otel] is the id of the current span, [fresh] a new uuid. *)
Definition trace_id_middleware (settings : Settings) (otel : option string) (fresh : string) (s : Scope)
    (a : asgi_app) : asgi_app :=
  if negb (is_http s) then a
  else
    let trace_id := match otel with Some i => if bool_decide (i = "") then fresh else i | None => fresh end in
    let fields : gmap string string := {["trace_id" := trace_id]} in
    let fields := match alb_trace_id settings s with
                  | Some i => <["alb_trace_id" := i]> fields
                  | None => fields
                  end in
    log_context fields (trace_requests settings s trace_id None a).

(** ** The body limit *)

(** [receive_counting] *)
Fixpoint receive_counting (max_bytes received : Z) (a : asgi_app) : asgi_app :=
  match a with
  | Return => Return
  | Raise e => Raise e
  | Now k => Now (λ t, receive_counting max_bytes received (k t))
  | Receive c k =>
      Receive c (λ m,
        match m with
        | inl (HttpRequest body _) =>
            let received := received + Z.of_nat (String.length (default "" body)) in
            receive_counting max_bytes received
              (k (if max_bytes <? received then inr BodyTooLarge else m))
        | _ => receive_counting max_bytes received (k m)
        end)
  | Sleep c d k => Sleep c d (λ o, receive_counting max_bytes received (k o))
  | Send m k => Send m (λ o, receive_counting max_bytes received (k o))
  | Log c r k => Log c r (receive_counting max_bytes received k)
  end.

(** [_reject] *)
Definition reject (max_bytes : Z) (s : Scope) (declared : option Z) : asgi_app :=
  Log ∅ (LogBodyTooLarge (sc_path s) max_bytes declared)
    (send_json 413 ("request body exceeds " +:+ z_str max_bytes +:+ " bytes")).

(** [BodySizeLimitMiddleware] *)
Definition body_size_limit (max_bytes : Z) (s : Scope) (a : asgi_app) : asgi_app :=
  if negb (is_http s) then a
  else
    let counted :=
      on_exception (λ e, if bool_decide (e = BodyTooLarge) then Some (reject max_bytes s None) else None)
        (receive_counting max_bytes 0 a) in
    match header s "content-length" ≫= py_int with
    | Some declared => if max_bytes <? declared then reject max_bytes s (Some declared) else counted
    | None => counted
    end.

(** ** The request timeout *)

(** The states of [asyncio.timeout]: running, [reschedule(None)], fired. *)
Inductive timer : Type := Armed | Disarmed | Expired.

Definition cut_at (timer_state : timer) (deadline : Z) (cut : option Z) : option Z :=
  match timer_state with
  | Armed => Some (match cut with Some c => Z.min c deadline | None => deadline end)
  | _ => cut
  end.

(** A wait that was cut short was cut by the timer, unless the cut of the
    application came first. *)
Definition after_cut (timer_state : timer) (deadline : Z) (cut : option Z) : timer :=
  match timer_state, cut with
  | Armed, Some c => if deadline <=? c then Expired else Armed
  | Armed, None => Expired
  | _, _ => timer_state
  end.

(** [async with asyncio.timeout(...)], [send_wrapper] and [except TimeoutError].
    Once the timer has fired, [reschedule] raises, before the message is sent. *)
Fixpoint with_timer (s : Scope) (timeout_ms deadline : Z) (timer_state : timer) (response_started : bool)
    (a : asgi_app) : asgi_app :=
  match a with
  | Return => Return
  | Raise e =>
      if bool_decide (e = TimeoutError) ||
         match timer_state with Expired => bool_decide (e = CancelledError) | _ => false end
      then
        Log ∅ (LogTimeout (sc_path s) (sc_method s) timeout_ms)
          (if response_started then Return else send_json 504 "request timed out")
      else Raise e
  | Now k => Now (λ t, with_timer s timeout_ms deadline timer_state response_started (k t))
  | Receive c k =>
      Receive (cut_at timer_state deadline c) (λ m,
        with_timer s timeout_ms deadline
          (match m with inr CancelledError => after_cut timer_state deadline c | _ => timer_state end)
          response_started (k m))
  | Sleep c d k =>
      Sleep (cut_at timer_state deadline c) d (λ o,
        with_timer s timeout_ms deadline
          (match o with Some CancelledError => after_cut timer_state deadline c | _ => timer_state end)
          response_started (k o))
  | Send (ResponseStart status headers) k =>
      match timer_state with
      | Expired => with_timer s timeout_ms deadline Expired true (k (Some RuntimeError))
      | _ => Send (ResponseStart status headers) (λ o, with_timer s timeout_ms deadline Disarmed true (k o))
      end
  | Send m k => Send m (λ o, with_timer s timeout_ms deadline timer_state response_started (k o))
  | Log c r k => Log c r (with_timer s timeout_ms deadline timer_state response_started k)
  end.

(** [RequestTimeoutMiddleware] *)
Definition request_timeout (timeout_ms : Z) (s : Scope) (a : asgi_app) : asgi_app :=
  if negb (is_http s) then a
  else Now (λ started, with_timer s timeout_ms (started + timeout_ms) Armed false a).

(** ** CORS and the assembly *)

(** The arguments [configure_cors] gives Starlette's middleware. *)
Record CorsConfig : Type := mk_cors {
  allow_origins : list string;
  allow_credentials : bool;
  allow_methods : list string;
  allow_headers : list string;
  expose_headers : list string;
}.

(** [configure_cors]: nothing is mounted when there are no origins. *)
Definition configure_cors (origins : list string) : option CorsConfig :=
  match origins with
  | [] => None
  | _ => Some (mk_cors origins true ["GET"; "POST"; "OPTIONS"]
           ["Authorization"; "Content-Type"; "Idempotency-Key"; "Admission-Token"; "X-CSRF-Token"]
           [RESPONSE_HEADER; "Retry-After"])
  end.

Definition timeout_ms (settings : Settings) : Z := Qfloor (REQUEST_TIMEOUT_SECONDS settings * 1000).

(** The stack of main.py, from the inside out; [cors_middleware] is Starlette's, and
    [router] all that is below the timeout. *)
Definition http_stack (cors_middleware : CorsConfig → Scope → asgi_app → asgi_app) (settings : Settings)
    (otel : option string) (fresh : string) (s : Scope) (router : asgi_app) : asgi_app :=
  let a := if Qle_bool (REQUEST_TIMEOUT_SECONDS settings) 0 then router
           else request_timeout (timeout_ms settings) s router in
  let a := body_size_limit (MAX_REQUEST_BODY_BYTES settings) s a in
  let a := match configure_cors (cors_allow_origins settings) with
           | Some c => cors_middleware c s a
           | None => a
           end in
  trace_id_middleware settings otel fresh s a.

(** ** Running an application *)

Inductive event : Type :=
  | Sent (at_ : Z) (m : response_message)
  | Logged (context : gmap string string) (r : log_record).

Inductive outcome : Type := Returned | Raised (e : app_exn) | Blocked.
#[global] Instance outcome_eq_dec : EqDecision outcome.
Proof. solve_decision. Defined.

(** The events, how the run ended, and when. *)
Record trace : Type := mk_trace {
  tr_events : list event;
  tr_outcome : outcome;
  tr_end : Z;
}.

Definition emit (e : event) (t : trace) : trace :=
  mk_trace (e :: tr_events t) (tr_outcome t) (tr_end t).

(** Whether a wait until [until_] is cut short. *)
Definition cut_before (cut : option Z) (until_ : Z) : option Z :=
  match cut with Some c => if c <? until_ then Some c else None | None => None end.

(** [incoming] are the messages with their instants of arrival; a [receive] with
    nothing left to come and no cut waits for ever. *)
Fixpoint play (a : asgi_app) (now : Z) (incoming : list (Z * (request_message + app_exn))) : trace :=
  match a with
  | Return => mk_trace [] Returned now
  | Raise e => mk_trace [] (Raised e) now
  | Now k => play (k now) now incoming
  | Receive cut k =>
      match incoming with
      | (arrival, m) :: incoming' =>
          let at_ := Z.max now arrival in
          match cut_before cut at_ with
          | Some c => play (k (inr CancelledError)) (Z.max now c) incoming
          | None => play (k m) at_ incoming'
          end
      | [] =>
          match cut with
          | Some c => play (k (inr CancelledError)) (Z.max now c) []
          | None => mk_trace [] Blocked now
          end
      end
  | Sleep cut d k =>
      let at_ := Z.max now (now + d) in
      match cut_before cut at_ with
      | Some c => play (k (Some CancelledError)) (Z.max now c) incoming
      | None => play (k None) at_ incoming
      end
  | Send m k => emit (Sent now m) (play (k None) now incoming)
  | Log c r k => emit (Logged c r) (play k now incoming)
  end.

(** ** Observing a run *)

Definition prepend (es : list event) (t : trace) : trace :=
  mk_trace (es ++ tr_events t) (tr_outcome t) (tr_end t).

Definition is_start (e : event) : bool :=
  match e with Sent _ (ResponseStart _ _) => true | _ => false end.

(** The instant of the first response start, and the status of the last. *)
Fixpoint first_start (es : list event) : option Z :=
  match es with
  | Sent t (ResponseStart _ _) :: _ => Some t
  | _ :: es' => first_start es'
  | [] => None
  end.
Fixpoint last_status (status : option Z) (es : list event) : option Z :=
  match es with
  | Sent _ (ResponseStart c _) :: es' => last_status (Some c) es'
  | _ :: es' => last_status status es'
  | [] => status
  end.
Definition starts (es : list event) : Z := list_sum (λ e, if is_start e then 1 else 0) es.

Lemma prepend_nil t : prepend [] t = t.
Proof. by destruct t. Qed.
Lemma prepend_emit e es t : emit e (prepend es t) = prepend (e :: es) t.
Proof. done. Qed.

Lemma send_json_run status detail now incoming :
  play (send_json status detail) now incoming =
  mk_trace [Sent now (ResponseStart status
              [("content-type", "application/json");
               ("content-length", z_str (Z.of_nat (String.length (json_detail detail))))]);
            Sent now (ResponseBody (json_detail detail) false)] Returned now.
Proof. done. Qed.

Lemma reject_run max_bytes s declared now incoming :
  play (reject max_bytes s declared) now incoming = play (reject max_bytes s declared) now [].
Proof. done. Qed.

(** [try/except] around an application is that on its outcome, for handlers that
    read nothing. *)
Lemma run_on_exception h a now incoming :
  (∀ e b, h e = Some b → ∀ t i i', play b t i = play b t i') →
  play (on_exception h a) now incoming =
  let r := play a now incoming in
  match tr_outcome r with
  | Raised e => match h e with
                | Some b => prepend (tr_events r) (play b (tr_end r) [])
                | None => r
                end
  | _ => r
  end.
Proof.
  intros Hh. revert now incoming.
  induction a as [|e|k IH|c k IH|c d k IH|m k IH|c r k IH]; intros now incoming; cbn zeta in *.
  - done.
  - simpl. destruct (h e) as [b|] eqn:He; simpl; [|done]. rewrite prepend_nil. by eapply Hh.
  - apply IH.
  - simpl. destruct incoming as [|[arr m] inc].
    + destruct c as [c|]; [apply IH|done].
    + destruct (cut_before c _) as [c'|]; apply IH.
  - simpl. destruct (cut_before c _) as [c'|]; apply IH.
  - simpl. rewrite IH. destruct (play (k None) now incoming) as [es o t]. simpl.
    destruct o as [|e|]; try done. by destruct (h e).
  - simpl. rewrite IH. destruct (play k now incoming) as [es o t]. simpl.
    destruct o as [|e|]; try done. by destruct (h e).
Qed.

(** ** The body limit *)

Abbreviation Incoming := (list (Z * (request_message + app_exn))).

Definition body_bytes (m : request_message + app_exn) : Z :=
  match m with inl (HttpRequest body _) => Z.of_nat (String.length (default "" body)) | _ => 0 end.
Definition total_body (incoming : Incoming) : Z := list_sum (λ p, body_bytes p.2) incoming.

(** What the application gets to see: from the message that crosses the limit on,
    an exception for every piece of the body. *)
Fixpoint clamp (max_bytes received : Z) (incoming : Incoming) : Incoming :=
  match incoming with
  | (t, inl (HttpRequest body more)) :: incoming' =>
      let received := received + Z.of_nat (String.length (default "" body)) in
      (t, if max_bytes <? received then inr BodyTooLarge else inl (HttpRequest body more))
        :: clamp max_bytes received incoming'
  | p :: incoming' => p :: clamp max_bytes received incoming'
  | [] => []
  end.

Lemma total_body_nonneg incoming : 0 <= total_body incoming.
Proof. induction incoming as [|[t [[b ?|]|e]] l IH]; simpl in *; unfold total_body in *; simpl; lia. Qed.

Lemma clamp_over max_bytes received incoming :
  max_bytes < received → total_body (clamp max_bytes received incoming) = 0.
Proof.
  revert received. induction incoming as [|[t [[b more|]|e]] l IH]; intros n Hn; simpl; [done| |by apply IH..].
  unfold total_body in *. destruct (max_bytes <? _) eqn:He; [|zlia]. simpl. apply IH. lia.
Qed.

Lemma clamp_bound max_bytes received incoming :
  received <= max_bytes → total_body (clamp max_bytes received incoming) <= max_bytes - received.
Proof.
  revert received. induction incoming as [|[t [[b more|]|e]] l IH]; intros n Hn; simpl;
    [unfold total_body; simpl; lia| |unfold total_body in *; simpl; specialize (IH n Hn); lia..].
  destruct (max_bytes <? _) eqn:He; zbool.
  - pose proof (clamp_over max_bytes _ l He). unfold total_body in *. simpl. lia.
  - specialize (IH _ He). unfold total_body in *. simpl. lia.
Qed.

Lemma clamp_id max_bytes received incoming :
  received + total_body incoming <= max_bytes → clamp max_bytes received incoming = incoming.
Proof.
  revert received. induction incoming as [|[t [[b more|]|e]] l IH]; intros n Hn; simpl; [done| |f_equal; by apply IH..].
  pose proof (total_body_nonneg l). unfold total_body in Hn, H. simpl in Hn, H.
  destruct (max_bytes <? _) eqn:He; zbool; [lia|]. f_equal. apply IH. unfold total_body. lia.
Qed.

Lemma run_counting max_bytes received a now incoming :
  play (receive_counting max_bytes received a) now incoming = play a now (clamp max_bytes received incoming).
Proof.
  revert received now incoming.
  induction a as [|e|k IH|c k IH|c d k IH|m k IH|c r k IH]; intros n now incoming; try done; simpl.
  - apply IH.
  - destruct incoming as [|[arr [[b more|]|e]] inc]; simpl.
    + destruct c as [c|]; [|done]. by rewrite IH.
    + destruct (cut_before c _) as [c'|]; by rewrite IH.
    + destruct (cut_before c _) as [c'|]; by rewrite IH.
    + destruct (cut_before c _) as [c'|]; by rewrite IH.
  - destruct (cut_before c _) as [c'|]; by rewrite IH.
  - by rewrite IH.
  - by rewrite IH.
Qed.

(** C39 (no application sees more than the limit).  An HTTP request that declares a
    longer body is answered 413 without running the application at all.  Any other
    runs it on the messages of the client with every piece of the body from the one
    that crosses the limit on replaced by an exception, whatever Content-Length
    said: at most [max_bytes] bytes reach it, bodies within the limit reach it
    unchanged, and if it lets the exception through the guard sends its 413. *)
Theorem body_never_exceeds_limit max_bytes s a now incoming :
  0 <= max_bytes → is_http s = true →
  let seen := clamp max_bytes 0 incoming in
  let r := play a now seen in
  let guarded := play (body_size_limit max_bytes s a) now incoming in
  match header s "content-length" ≫= py_int with
  | Some declared =>
      if max_bytes <? declared then guarded = play (reject max_bytes s (Some declared)) now []
      else True
  | None => True
  end ∧
  (match header s "content-length" ≫= py_int with Some declared => declared <= max_bytes | None => True end →
   guarded = if bool_decide (tr_outcome r = Raised BodyTooLarge)
             then prepend (tr_events r) (play (reject max_bytes s None) (tr_end r) []) else r) ∧
  total_body seen <= max_bytes ∧
  (total_body incoming <= max_bytes → seen = incoming).
Proof.
  intros Hmax Hs seen r guarded.
  assert (Hcounted : play (on_exception (λ e, if bool_decide (e = BodyTooLarge)
                            then Some (reject max_bytes s None) else None)
                            (receive_counting max_bytes 0 a)) now incoming =
    if bool_decide (tr_outcome r = Raised BodyTooLarge)
    then prepend (tr_events r) (play (reject max_bytes s None) (tr_end r) []) else r).
  { rewrite run_on_exception; [|by intros e b Hb t i i'; case_bool_decide; simplify_eq].
    cbn zeta. rewrite run_counting. fold seen r. destruct (tr_outcome r) as [|e|]; [done| |done].
    destruct (decide (e = BodyTooLarge)) as [->|He]; [by rewrite !bool_decide_true|].
    rewrite !bool_decide_false; [done|congruence..]. }
  unfold guarded, body_size_limit. rewrite Hs. simpl negb. cbv iota. split; [|split; [|split]].
  - destruct (_ ≫= py_int) as [declared|]; [|done]. by destruct (max_bytes <? declared) eqn:?.
  - destruct (_ ≫= py_int) as [declared|]; [|done]. intros Hd.
    destruct (max_bytes <? declared) eqn:?; [zlia|done].
  - pose proof (clamp_bound max_bytes 0 incoming). unfold seen. lia.
  - intros Ht. apply clamp_id. lia.
Qed.

(** A handler that reads its body to the end and answers 200. *)
Fixpoint read_all (fuel : nat) : asgi_app :=
  match fuel with
  | O => Return
  | S n =>
      Receive None (λ m,
        match m with
        | inl (HttpRequest _ true) => read_all n
        | inl _ => send_then (ResponseStart 200 []) (send_then (ResponseBody "ok" false) Return)
        | inr e => Raise e
        end)
  end.
Definition sample_scope : Scope := mk_scope "http" "POST" "/v1/orders/" [] (Some "create") (Some "10.0.0.1").
Definition chunks : Incoming :=
  [(1, inl (HttpRequest (Some "xxxxx") true)); (2, inl (HttpRequest (Some "xxxxx") false))].

Lemma body_never_exceeds_limit_witness :
  last_status None (tr_events (play (body_size_limit 8 sample_scope (read_all 3)) 0 chunks)) = Some 413 ∧
  last_status None (tr_events (play (body_size_limit 10 sample_scope (read_all 3)) 0 chunks)) = Some 200 ∧
  total_body (clamp 8 0 chunks) <= 8.
Proof.
  split; [done|]. split; [done|].
  apply (body_never_exceeds_limit 8 sample_scope (read_all 3) 0 chunks); [lia|done].
Defined.

(** Nothing keeps the guard from answering twice: an application that has started
    its response when the body crosses the limit gets a second response start. *)
Definition answers_first : asgi_app :=
  send_then (ResponseStart 200 []) (Receive None (λ m, match m with inr e => Raise e | _ => Return end)).

Theorem late_overflow_starts_twice :
  starts (tr_events (play (body_size_limit 3 sample_scope answers_first) 0 chunks)) = 2.
Proof. done. Qed.

(** ** The request timeout *)

(** An application that sets no timer of its own and lets a cancellation through. *)
Fixpoint cancellable (a : asgi_app) : Prop :=
  match a with
  | Return | Raise _ => True
  | Now k => ∀ t, cancellable (k t)
  | Receive c k => c = None ∧ k (inr CancelledError) = Raise CancelledError ∧ ∀ m, cancellable (k m)
  | Sleep c _ k => c = None ∧ k (Some CancelledError) = Raise CancelledError ∧ ∀ o, cancellable (k o)
  | Send _ k => ∀ o, cancellable (k o)
  | Log _ _ k => cancellable k
  end.

(** It sends at most one response start. *)
Fixpoint starts_once (started : bool) (a : asgi_app) : Prop :=
  match a with
  | Return | Raise _ => True
  | Now k => ∀ t, starts_once started (k t)
  | Receive _ k => ∀ m, starts_once started (k m)
  | Sleep _ _ k => ∀ o, starts_once started (k o)
  | Send (ResponseStart _ _) k => started = false ∧ ∀ o, starts_once true (k o)
  | Send _ k => ∀ o, starts_once started (k o)
  | Log _ _ k => starts_once started k
  end.

(** The messages of a client, no exceptions among them. *)
Definition genuine (incoming : Incoming) : Prop := ∀ p, p ∈ incoming → ∃ m, p.2 = inl m.

Lemma genuine_cons p incoming : genuine (p :: incoming) ↔ (∃ m, p.2 = inl m) ∧ genuine incoming.
Proof.
  unfold genuine. split.
  - intros H. split; [apply H; left|]. intros q Hq. apply H. by right.
  - intros [Hp H] q [->|Hq]%elem_of_cons; [done|by apply H].
Qed.

(** The run of a guarded application whose wait was cut at the deadline. *)
Lemma expired_run s T dl now incoming :
  play (with_timer s T dl Expired false (Raise CancelledError)) now incoming =
  prepend [Logged ∅ (LogTimeout (sc_path s) (sc_method s) T)] (play (send_json 504 "request timed out") now []).
Proof. done. Qed.

Definition answered_by (deadline : Z) (t : trace) : Prop :=
  match first_start (tr_events t) with
  | Some at_ => at_ <= deadline
  | None => tr_outcome t ≠ Blocked ∧ tr_end t <= deadline
  end.

Lemma expired_answered s T dl now incoming :
  now <= dl → answered_by dl (play (with_timer s T dl Expired false (Raise CancelledError)) now incoming).
Proof. intros H. rewrite expired_run. done. Qed.

Lemma armed_answered s T dl a now incoming :
  cancellable a → now <= dl → answered_by dl (play (with_timer s T dl Armed false a) now incoming).
Proof.
  revert now incoming. induction a as [|e|k IH|c k IH|c d k IH|m k IH|c r k IH];
    intros now incoming Ha Hn; simpl in Ha; cbn [play with_timer].
  - done.
  - destruct (bool_decide (e = TimeoutError) || false) eqn:He; [|done]. done.
  - by apply IH.
  - destruct Ha as (-> & Hc & Ha). simpl. destruct incoming as [|[arr m] inc].
    + rewrite Z.max_r, Hc by lia. by apply expired_answered.
    + destruct (dl <? Z.max now arr) eqn:Hlt.
      * rewrite Z.max_r, Hc by lia. by apply expired_answered.
      * zbool. destruct m as [m|[]]; try by apply IH.
        rewrite Hc. by apply expired_answered.
  - destruct Ha as (-> & Hc & Ha). simpl. destruct (dl <? Z.max now (now + d)) eqn:Hlt.
    + rewrite Z.max_r, Hc by lia. by apply expired_answered.
    + zbool. by apply IH.
  - destruct m as [st hs|b more]; simpl; [done|]. apply (IH None); [apply Ha|done].
  - simpl. by apply IH.
Qed.

(** A run never goes back in time. *)
Lemma first_start_after a now incoming at_ :
  first_start (tr_events (play a now incoming)) = Some at_ → now <= at_.
Proof.
  revert now incoming. induction a as [|e|k IH|c k IH|c d k IH|m k IH|c r k IH];
    intros now incoming; cbn [play]; try done.
  - apply IH.
  - destruct incoming as [|[arr m] inc].
    + destruct c as [c|]; [|done]. intros H%IH. lia.
    + destruct (cut_before c _) as [c'|]; intros H%IH; lia.
  - destruct (cut_before c _) as [c'|]; intros H%IH; lia.
  - destruct m as [st hs|b more]; simpl; [intros [= <-]; lia|apply IH].
  - simpl. apply IH.
Qed.

(** An exception named [TimeoutError] of the application's own, after the start of
    its response, is logged and swallowed. *)
Definition swallow_timeout (s : Scope) (T : Z) (t : trace) : trace :=
  if bool_decide (tr_outcome t = Raised TimeoutError)
  then mk_trace (tr_events t ++ [Logged ∅ (LogTimeout (sc_path s) (sc_method s) T)]) Returned (tr_end t)
  else t.

Lemma swallow_emit s T e t : swallow_timeout s T (emit e t) = emit e (swallow_timeout s T t).
Proof. unfold swallow_timeout. simpl. by case_bool_decide. Qed.

Lemma disarmed_run s T dl a now incoming :
  play (with_timer s T dl Disarmed true a) now incoming = swallow_timeout s T (play a now incoming).
Proof.
  revert now incoming. induction a as [|e|k IH|c k IH|c d k IH|m k IH|c r k IH];
    intros now incoming; cbn [play with_timer].
  - done.
  - unfold swallow_timeout. simpl. rewrite orb_false_r.
    destruct (decide (e = TimeoutError)) as [->|He]; [done|].
    rewrite !bool_decide_false; [done|congruence..].
  - apply IH.
  - simpl. destruct incoming as [|[arr m] inc].
    + destruct c as [c|]; [apply (IH (inr CancelledError))|done].
    + destruct (cut_before c _) as [c'|]; [apply (IH (inr CancelledError))|].
      destruct m as [m|[]]; apply IH.
  - simpl. destruct (cut_before c _) as [c'|]; apply IH.
  - destruct m as [st hs|b more]; simpl; rewrite swallow_emit; by rewrite IH.
  - by rewrite swallow_emit, <-IH.
Qed.

Lemma in_time_run s T dl a now incoming at_ :
  cancellable a → genuine incoming →
  first_start (tr_events (play a now incoming)) = Some at_ → at_ <= dl →
  play (with_timer s T dl Armed false a) now incoming = swallow_timeout s T (play a now incoming).
Proof.
  revert now incoming. induction a as [|e|k IH|c k IH|c d k IH|m k IH|c r k IH];
    intros now incoming Ha Hg Hf Hat; simpl in Ha; cbn [play with_timer] in *; try done.
  - by apply IH.
  - destruct Ha as (-> & Hc & Ha). simpl. destruct incoming as [|[arr m] inc]; [done|].
    apply genuine_cons in Hg as [[m' Hm] Hg]. simpl in Hm. subst m.
    simpl in Hf. pose proof (first_start_after _ _ _ _ Hf).
    destruct (dl <? Z.max now arr) eqn:Hlt; [zlia|]. by apply IH.
  - destruct Ha as (-> & Hc & Ha). simpl. simpl in Hf. pose proof (first_start_after _ _ _ _ Hf).
    destruct (dl <? Z.max now (now + d)) eqn:Hlt; [zlia|]. by apply IH.
  - destruct m as [st hs|b more]; simpl; rewrite swallow_emit.
    + by rewrite disarmed_run.
    + f_equal. by apply IH.
  - rewrite swallow_emit. simpl. f_equal. by apply IH.
Qed.

Lemma end_after a now incoming : now <= tr_end (play a now incoming).
Proof.
  revert now incoming. induction a as [|e|k IH|c k IH|c d k IH|m k IH|c r k IH];
    intros now incoming; cbn [play]; [done|done|apply IH| | |apply IH|apply IH].
  - destruct incoming as [|[arr m] inc].
    + destruct c as [c|]; [|done]. etrans; [|apply IH]. lia.
    + destruct (cut_before c _) as [c'|]; (etrans; [|apply IH]); lia.
  - destruct (cut_before c _) as [c'|]; (etrans; [|apply IH]); lia.
Qed.

(** What the guard writes when it gives up on an application. *)
Definition timeout_answer (s : Scope) (T at_ : Z) : list event :=
  [Logged ∅ (LogTimeout (sc_path s) (sc_method s) T);
   Sent at_ (ResponseStart 504 [("content-type", "application/json");
     ("content-length", z_str (Z.of_nat (String.length (json_detail "request timed out"))))]);
   Sent at_ (ResponseBody (json_detail "request timed out") false)].

(** An exception named [TimeoutError] of the application's own, before any response
    started, is answered as a timeout. *)
Definition answer_timeout (s : Scope) (T : Z) (t : trace) : trace :=
  if bool_decide (tr_outcome t = Raised TimeoutError)
  then mk_trace (tr_events t ++ timeout_answer s T (tr_end t)) Returned (tr_end t)
  else t.

Lemma answer_emit s T e t : answer_timeout s T (emit e t) = emit e (answer_timeout s T t).
Proof. unfold answer_timeout. simpl. by case_bool_decide. Qed.

(** An application that ends before the deadline without a response is not touched. *)
Lemma ended_run s T dl a now incoming :
  cancellable a → genuine incoming →
  let own := play a now incoming in
  first_start (tr_events own) = None → tr_outcome own ≠ Blocked → tr_end own <= dl →
  play (with_timer s T dl Armed false a) now incoming = answer_timeout s T own.
Proof.
  cbn zeta. revert now incoming. induction a as [|e|k IH|c k IH|c d k IH|m k IH|c r k IH];
    intros now incoming Ha Hg Hf Ho Hend; simpl in Ha; cbn [play with_timer] in *.
  - done.
  - unfold answer_timeout. simpl. rewrite orb_false_r.
    destruct (decide (e = TimeoutError)) as [->|He]; [done|]. rewrite !bool_decide_false; [done|congruence..].
  - by apply IH.
  - destruct Ha as (-> & Hc & Ha). simpl. destruct incoming as [|[arr m] inc]; [done|].
    apply genuine_cons in Hg as [[m' Hm] Hg]. simpl in Hm. subst m. simpl in *.
    pose proof (end_after (k (inl m')) (Z.max now arr) inc).
    destruct (dl <? Z.max now arr) eqn:Hlt; [zlia|]. by apply IH.
  - destruct Ha as (-> & Hc & Ha). simpl in *. pose proof (end_after (k None) (Z.max now (now + d)) incoming).
    destruct (dl <? Z.max now (now + d)) eqn:Hlt; [zlia|]. by apply IH.
  - destruct m as [st hs|b more]; [done|]. simpl. rewrite answer_emit. f_equal. by apply IH.
  - rewrite answer_emit. simpl. f_equal. by apply IH.
Qed.

(** An application that has neither started a response nor ended by the deadline is
    cut there, and the 504 follows. *)
Lemma cut_run s T dl a now incoming :
  cancellable a → genuine incoming → now <= dl → ¬ answered_by dl (play a now incoming) →
  ∃ before, before `prefix_of` tr_events (play a now incoming) ∧ first_start before = None ∧
    play (with_timer s T dl Armed false a) now incoming = mk_trace (before ++ timeout_answer s T dl) Returned dl.
Proof.
  revert now incoming. induction a as [|e|k IH|c k IH|c d k IH|m k IH|c r k IH];
    intros now incoming Ha Hg Hn Hno; simpl in Ha; cbn [play with_timer] in *; try (by destruct Hno).
  - by apply IH.
  - destruct Ha as (-> & Hc & Ha). simpl in *. destruct incoming as [|[arr m] inc].
    { exists []. split_and!; [apply prefix_nil|done|]. by rewrite Z.max_r, Hc by lia. }
    apply genuine_cons in Hg as [[m' Hm] Hg]. simpl in Hm. subst m.
    destruct (dl <? Z.max now arr) eqn:Hlt; [|zbool; by apply IH].
    exists []. split_and!; [apply prefix_nil|done|]. by rewrite Z.max_r, Hc by lia.
  - destruct Ha as (-> & Hc & Ha). simpl in *. destruct (dl <? Z.max now (now + d)) eqn:Hlt; [|zbool; by apply IH].
    exists []. split_and!; [apply prefix_nil|done|]. by rewrite Z.max_r, Hc by lia.
  - destruct m as [st hs|b more]; [by destruct Hno|].
    destruct (IH None now incoming (Ha None) Hg Hn Hno) as (before & Hp & Hf & Hr).
    exists (Sent now (ResponseBody b more) :: before). simpl. rewrite Hr. split_and!; [by apply prefix_cons|done|done].
  - destruct (IH now incoming Ha Hg Hn Hno) as (before & Hp & Hf & Hr).
    exists (Logged c r :: before). simpl. rewrite Hr. split_and!; [by apply prefix_cons|done|done].
Qed.

Lemma starts_prepend es t : starts (tr_events (prepend es t)) = starts es + starts (tr_events t).
Proof. apply list_sum_app. Qed.

(** A guarded application starts at most one response, whatever state its timer is in. *)
Lemma with_timer_starts s T dl a ts now incoming started :
  starts_once started a → (started = true → ts ≠ Armed) →
  starts (tr_events (play (with_timer s T dl ts started a) now incoming)) <= if started then 0 else 1.
Proof.
  revert now incoming started ts. induction a as [|e|k IH|c k IH|c d k IH|m k IH|c r k IH];
    intros now incoming started ts Ha Hts; simpl in Ha; cbn [play with_timer].
  - unfold starts; simpl. destruct started; lia.
  - match goal with |- context [if ?b then _ else _] => destruct b end; destruct started; done.
  - apply IH; [apply Ha|done].
  - assert (Hcut : started = true → after_cut ts dl c ≠ Armed) by (intros Hx; specialize (Hts Hx); by destruct ts).
    destruct incoming as [|[arr m] inc].
    + destruct (cut_at ts dl c) as [c'|]; [by apply IH|unfold starts; simpl; destruct started; lia].
    + destruct (cut_before _ _) as [c'|]; (apply IH; [apply Ha|]); [done|].
      by destruct m as [m|[]].
  - assert (Hcut : started = true → after_cut ts dl c ≠ Armed) by (intros Hx; specialize (Hts Hx); by destruct ts).
    destruct (cut_before _ _) as [c'|]; by apply IH.
  - destruct m as [st hs|b more]; simpl.
    + destruct Ha as [-> Ha].
      assert (Hrest : ∀ o ts', ts' ≠ Armed →
        starts (tr_events (play (with_timer s T dl ts' true (k o)) now incoming)) <= 0) by (intros; by apply (IH _ _ _ true)).
      destruct ts; cbn [play].
      * specialize (Hrest None Disarmed ltac:(done)). unfold starts in *. simpl in *. lia.
      * specialize (Hrest None Disarmed ltac:(done)). unfold starts in *. simpl in *. lia.
      * specialize (Hrest (Some RuntimeError) Expired ltac:(done)). unfold starts in *. simpl in *. lia.
    + unfold starts. simpl. apply IH; [apply Ha|done].
  - unfold starts. simpl. by apply IH.
Qed.

(** C40 (every request is answered by its deadline).  Let an application set no timer of
    its own and let a cancellation through, and compare its run under the timeout with
    the run it would have alone, whatever the client sends and however slowly.  When
    alone it has not started a response by the deadline and is still running then, the
    guarded run stops exactly at the deadline: what had happened so far, then the log
    record and the 504.  When alone it starts its response in time, however long the
    body then streams, or ends in time without one, the guarded run is the same, unless
    it ends in an exception named [TimeoutError]: that is answered 504 on the spot
    when no response has started, and only logged when one has.  An application that
    starts one response never makes the guard start another. *)
Theorem answered_by_deadline s timeout a now incoming :
  is_http s = true → 0 <= timeout →
  let own := play a now incoming in
  let guarded := play (request_timeout timeout s a) now incoming in
  let deadline := now + timeout in
  (cancellable a → genuine incoming →
   (¬ answered_by deadline own → ∃ before, before `prefix_of` tr_events own ∧ first_start before = None ∧
      guarded = mk_trace (before ++ timeout_answer s timeout deadline) Returned deadline) ∧
   (answered_by deadline own → tr_outcome own ≠ Raised TimeoutError → guarded = own) ∧
   (answered_by deadline own → tr_outcome own = Raised TimeoutError →
      guarded = mk_trace (tr_events own ++
        match first_start (tr_events own) with
        | None => timeout_answer s timeout (tr_end own)
        | Some _ => [Logged ∅ (LogTimeout (sc_path s) (sc_method s) timeout)]
        end) Returned (tr_end own))) ∧
  (cancellable a → answered_by deadline guarded) ∧
  (starts_once false a → starts (tr_events guarded) <= 1).
Proof.
  intros Hs Ht. unfold request_timeout. rewrite Hs. simpl. split_and!.
  - intros Ha Hg.
    assert (Hin : answered_by (now + timeout) (play a now incoming) →
      play (with_timer s timeout (now + timeout) Armed false a) now incoming =
        match first_start (tr_events (play a now incoming)) with
        | None => answer_timeout s timeout (play a now incoming)
        | Some _ => swallow_timeout s timeout (play a now incoming)
        end).
    { unfold answered_by. destruct (first_start _) as [at_|] eqn:Hf; [intros Hat; by eapply in_time_run|].
      intros [Ho Hend]. by apply ended_run. }
    split_and!; [intros Hno; apply cut_run; [done..|lia|done]| |]; intros Hyes Ho; rewrite (Hin Hyes);
      unfold answer_timeout, swallow_timeout; destruct (first_start _);
      first [by rewrite bool_decide_false | by rewrite bool_decide_true].
  - intros Ha. apply armed_answered; [done|lia].
  - intros Ha. by apply (with_timer_starts _ _ _ _ _ _ _ false).
Qed.

(** A handler that waits and answers, then streams for a while. *)
Definition slow_stream (before during : Z) : asgi_app :=
  let await d k := Sleep None d (λ o, match o with Some e => Raise e | None => k end) in
  await before (send_then (ResponseStart 200 [])
    (await during (send_then (ResponseBody "last" false) Return))).

Lemma slow_stream_cancellable b d : cancellable (slow_stream b d).
Proof. unfold slow_stream, send_then. simpl. split_and!; [done..|]. intros [e|]; [done|].
  intros [e|]; [done|]. split_and!; [done..|]. intros [e|]; [done|]. by intros [e|]. Qed.

Lemma answered_by_deadline_witness :
  play (request_timeout 50 sample_scope (slow_stream 999 0)) 0 [] =
    mk_trace (timeout_answer sample_scope 50 50) Returned 50 ∧
  play (request_timeout 50 sample_scope (slow_stream 10 300)) 0 [] = play (slow_stream 10 300) 0 [].
Proof.
  assert (Hg : genuine []) by (intros p Hp; by apply elem_of_nil in Hp). split.
  - destruct (answered_by_deadline sample_scope 50 (slow_stream 999 0) 0 []) as (H & _); [done|done|].
    destruct (H (slow_stream_cancellable _ _) Hg) as (Hlate & _).
    destruct Hlate as (before & Hp & Hf & ->); [unfold answered_by; simpl; lia|].
    simpl in Hp. destruct before as [|e before]; [done|]. apply prefix_cons_inv_1 in Hp as ->. done.
  - destruct (answered_by_deadline sample_scope 50 (slow_stream 10 300) 0 []) as (H & _); [done|done|].
    destruct (H (slow_stream_cancellable _ _) Hg) as (_ & Hin & _). by apply Hin.
Defined.

(** The handler of [TimeoutError] also takes one the application raised itself, after
    its response started: it is logged as a request without a response, and lost. *)
Definition fails_late : asgi_app := send_then (ResponseStart 200 []) (Raise TimeoutError).

Theorem late_timeout_is_swallowed :
  play (request_timeout 50 sample_scope fails_late) 0 [] =
  mk_trace [Sent 0 (ResponseStart 200 []); Logged ∅ (LogTimeout "/v1/orders/" "POST" 50)] Returned 0.
Proof. done. Qed.

(** ** The trace id and the access log *)

Definition add_fields (fields : gmap string string) (e : event) : event :=
  match e with Logged c r => Logged (c ∪ fields) r | _ => e end.
Definition stamp (trace_id : string) (e : event) : event :=
  match e with
  | Sent t (ResponseStart c hs) => Sent t (ResponseStart c (append_header RESPONSE_HEADER trace_id hs))
  | _ => e
  end.

Lemma run_log_context fields a now incoming :
  play (log_context fields a) now incoming =
  let r := play a now incoming in mk_trace (add_fields fields <$> tr_events r) (tr_outcome r) (tr_end r).
Proof.
  revert now incoming. induction a as [|e|k IH|c k IH|c d k IH|m k IH|c r k IH];
    intros now incoming; cbn [play log_context]; cbn zeta in *; try done.
  - destruct incoming as [|[arr m] inc].
    + destruct c as [c|]; [apply IH|done].
    + destruct (cut_before c _) as [c'|]; apply IH.
  - destruct (cut_before c _) as [c'|]; apply IH.
  - by rewrite IH.
  - by rewrite IH.
Qed.

(** What the middleware writes to the log once the application has ended. *)
Definition access_entry (settings : Settings) (s : Scope) (status : option Z) : list event :=
  if bool_decide (sc_path s ∈ ACCESS_LOG_EXCLUDED) then []
  else [Logged ∅ (LogRequest (sc_method s) (sc_path s) (sc_endpoint s) (default 500 status)
          (client_ip settings (mk_request (sc_client s) (header s "x-forwarded-for") None None None)))].
Definition closing (settings : Settings) (s : Scope) (status : option Z) (o : outcome) : list event :=
  match o with
  | Blocked => []
  | Returned => access_entry settings s status
  | Raised e => (if is_exception e then [Logged ∅ (LogUnhandled (sc_path s))] else []) ++
                access_entry settings s status
  end.

Lemma closing_logged settings s status o e :
  e ∈ closing settings s status o → ∃ c r, e = Logged c r.
Proof.
  unfold closing, access_entry. intros Hin%list_elem_of_In.
  destruct o as [|e'|]; [|destruct (is_exception e')|]; try destruct (bool_decide _);
    simpl in Hin; intuition (subst; eauto).
Qed.

Lemma log_access_run settings s status k now incoming :
  play (log_access settings s status k) now incoming =
  prepend (access_entry settings s status) (play k now incoming).
Proof. unfold log_access, access_entry. case_bool_decide; [by destruct (play k now incoming)|done]. Qed.

Lemma run_trace_requests settings s id status a now incoming :
  play (trace_requests settings s id status a) now incoming =
  let r := play a now incoming in
  mk_trace ((stamp id <$> tr_events r) ++ closing settings s (last_status status (tr_events r)) (tr_outcome r))
    (tr_outcome r) (tr_end r).
Proof.
  revert status now incoming. induction a as [|e|k IH|c k IH|c d k IH|m k IH|c r k IH];
    intros status now incoming; cbn [play trace_requests]; cbn zeta in *.
  - rewrite log_access_run. unfold prepend. simpl. by rewrite app_nil_r.
  - simpl. destruct (is_exception e); cbn [play]; rewrite log_access_run; unfold prepend, emit; simpl;
      by rewrite app_nil_r.
  - apply IH.
  - destruct incoming as [|[arr m] inc].
    + destruct c as [c|]; [apply IH|done].
    + destruct (cut_before c _) as [c'|]; apply IH.
  - destruct (cut_before c _) as [c'|]; apply IH.
  - destruct m as [st hs|b more]; cbn [play]; by rewrite IH.
  - by rewrite IH.
Qed.

Lemma last_status_stamp id status es : last_status status (stamp id <$> es) = last_status status es.
Proof. revert status. induction es as [|[t [c hs|b m]|c r] es IH]; intros status; simpl; by rewrite ?IH. Qed.

Lemma last_status_closing settings s st o status es :
  last_status status (es ++ closing settings s st o) = last_status status es.
Proof.
  revert status. induction es as [|[t [c hs|b m]|c r] es IH]; intros status; simpl; try by rewrite IH.
  unfold closing, access_entry. destruct o; repeat case_match; done.
Qed.

Lemma last_status_fields f status es : last_status status (add_fields f <$> es) = last_status status es.
Proof. revert status. induction es as [|[t [c hs|b m]|c r] es IH]; intros status; simpl; by rewrite ?IH. Qed.

(** Every response and every log line carry the trace id.  Through the whole
    stack, whatever the router and the CORS layer do: every response start that
    leaves the process, the 413 and 504 of the inner guards included, ends with the
    X-Request-Id header; everything logged below carries a trace_id, the
    middleware's own unless bound closer by; and unless the path is excluded the
    last record of a request that ended is its access log, with that id and with
    the status the client got, or 500 when no response was started. *)
Theorem every_response_is_traced cors_middleware settings otel fresh s router now incoming :
  is_http s = true →
  ∃ id, (otel = Some id ∧ id ≠ "" ∨ id = fresh) ∧
  let r := play (http_stack cors_middleware settings otel fresh s router) now incoming in
  (∀ t c hs, Sent t (ResponseStart c hs) ∈ tr_events r → last hs = Some ("x-request-id", id)) ∧
  (∀ c rec, Logged c rec ∈ tr_events r → is_Some (c !! "trace_id")) ∧
  ((sc_path s ∉ ACCESS_LOG_EXCLUDED) → tr_outcome r ≠ Blocked →
   ∃ c, last (tr_events r) = Some (Logged c (LogRequest (sc_method s) (sc_path s) (sc_endpoint s)
          (default 500 (last_status None (tr_events r)))
          (client_ip settings (mk_request (sc_client s) (header s "x-forwarded-for") None None None)))) ∧
        c !! "trace_id" = Some id).
Proof.
  intros Hs. unfold http_stack, trace_id_middleware. rewrite Hs. simpl negb. cbv iota.
  set (id := match otel with Some i => _ | None => _ end). exists id. split.
  { unfold id. destruct otel as [i|]; [|by right]. case_bool_decide; [by right|by left]. }
  set (fields := match alb_trace_id settings s with Some _ => _ | None => _ end).
  assert (Hf : fields !! "trace_id" = Some id).
  { unfold fields. destruct (alb_trace_id settings s); [|apply lookup_singleton_eq].
    rewrite lookup_insert_ne by done. apply lookup_singleton_eq. }
  match goal with |- context [trace_requests settings s id None ?b] => set (a := b) end.
  rewrite run_log_context, run_trace_requests. cbn zeta.
  destruct (play a now incoming) as [es o te]. simpl. split; [|split].
  - intros t c hs ([t' [c' hs'|b m]|c' r'] & He & Hin)%list_elem_of_fmap; simpl in He; try done.
    injection He as -> -> ->. apply elem_of_app in Hin as [Hin|Hin].
    + apply list_elem_of_fmap in Hin as ([t'' [c'' hs''|b m]|c'' r''] & He & _); try done.
      injection He as -> -> ->. unfold append_header. by rewrite last_snoc.
    + by apply closing_logged in Hin as (? & ? & ?).
  - intros c rec ([t' m|c' r'] & He & Hin)%list_elem_of_fmap; [done|]. injection He as -> ->.
    apply lookup_union_is_Some. right. by rewrite Hf.
  - intros Hex Ho. rewrite last_status_fields, last_status_closing, last_status_stamp.
    assert (Hcl : ∃ l, closing settings s (last_status None es) o =
      l ++ access_entry settings s (last_status None es)) by (destruct o; [by exists []|by eexists|done]).
    destruct Hcl as [l ->]. unfold access_entry. rewrite bool_decide_false by done.
    rewrite (assoc_L (++)), fmap_app. cbn [fmap list_fmap]. rewrite last_snoc. eexists. split; [done|].
    by rewrite (left_id_L ∅ (∪)).
Qed.

(** ** The load balancer's id *)

(** The id of the load balancer is read only behind a proxy of ours, and what is
    kept of it is short, not empty and printable. *)
Theorem alb_trace_id_is_sanitised settings s :
  match alb_trace_id settings s with
  | Some i => 0 < TRUSTED_PROXY_COUNT settings ∧
      let l := list_ascii_of_string i in
      l ≠ [] ∧ (List.length l <= 64)%nat ∧ Forall (λ c, isprintable c = true) l
  | None => True
  end.
Proof.
  unfold alb_trace_id. destruct (_ <=? 0) eqn:Hp; [done|].
  destruct (header s _) as [raw|]; [|done].
  destruct (List.filter isprintable _) as [|c l] eqn:Hf; [done|]. zbool.
  rewrite list_ascii_of_string_of_list_ascii. split; [done|]. split; [done|]. rewrite <-Hf. split.
  - etrans; [apply filter_length_le|]. rewrite length_take. unfold ALB_TRACE_MAX_LEN. lia.
  - apply Forall_forall. intros x Hx%list_elem_of_In%filter_In. apply Hx.
Qed.

(** Printable is more than ASCII: a latin-1 letter stays. *)
Definition accented : string := String (ascii_of_nat 233) "".

Theorem alb_trace_id_keeps_latin1 settings :
  0 < TRUSTED_PROXY_COUNT settings →
  alb_trace_id settings (mk_scope "http" "GET" "/" [("x-amzn-trace-id", accented)] None None) = Some accented.
Proof. intros H. unfold alb_trace_id. destruct (_ <=? 0) eqn:?; [zlia|done]. Qed.
