(* ===== verification/Drift.v ===== *)
(** The jobs of src/app/worker.py that watch over Redis: the audit of the stock
    counters and quotas, which rebuilds what Redis has lost; the audit of the seat
    runs and the scripts that repair what it reports (src/app/scripts/
    rebuild_seat_runs.py, reconcile_inventory.py); the purge of the keys of finished
    events; the signal before a sale.  Alerts are the drifts a job returns.
    Instants are milliseconds. *)

From Stdlib Require Import String QArith.
From S2P Require Import Prelude Exceptions Config Keys Redis DB Seating Inventory SeatRuns WaitingRoom.

#[local] Open Scope Z_scope.

(** ** Which events are watched *)

Definition QUOTA_AUDIT_SLOTS : Z := 6.
Definition EVENT_KEY_RETENTION_DAYS : Z := 7.
Definition EVENT_KEY_PURGE_WINDOW_DAYS : Z := 30.
Definition days_ms (d : Z) : Z := d * 86400000.

(** The events of a statement's WHERE clause. *)
Definition select_events (P : Event → bool) (d : DB) : list Z :=
  fst <$> filter (λ p : Z * Event, P p.2 = true) (map_to_list (d_events d)).

Definition horizon (now : Z) : Z := now - days_ms EVENT_KEY_RETENTION_DAYS.

(** Published, and not so long over that its keys may be gone. *)
Definition keys_expected (now : Z) (ev : Event) : bool :=
  bool_decide (ev_status ev = PUBLISHED) && (horizon now <=? ev_ends ev).

(** ** The audit of counters and quotas *)

(** [now.minute] *)
Definition minute_of (now : Z) : Z := now / 60000 mod 60.

(** [_quota_audit_due] *)
Definition quota_audit_due (event_id now : Z) : bool :=
  event_id mod QUOTA_AUDIT_SLOTS =? minute_of now / 5 mod QUOTA_AUDIT_SLOTS.

Inductive inventory_drift : Type :=
  | Lost (event_id expected : Z)
  | Mismatch (event_id expected actual : Z)
  | QuotaDrift (event_id users : Z) (sample : list (Z * (Z * Z))).

(** [mismatched]: what Redis holds and what the orders say, where they differ. *)
Definition quota_difference (actual expected : option Z) : option (Z * Z) :=
  let a := default 0 actual in
  let e := default 0 expected in
  if a =? e then None else Some (a, e).
Definition mismatched (actual expected : gmap Z Z) : gmap Z (Z * Z) := base.merge quota_difference actual expected.

(** The comparison of one event's counter; only a missing one is repaired. *)
Definition audit_stock (settings : Settings) (d : DB) (event_id : Z) : M Redis exn (list inventory_drift) :=
  let! expected := lift (compute_expected_available d event_id) in
  let! actual := gets (read_available event_id) in
  match actual with
  | None =>
      (if AUTO_HEAL_LOST_REDIS_STATE settings
       then reconcile_inventory d event_id false ;;; ret tt
       else ret tt) ;;;
      ret [Lost event_id expected]
  | Some a => ret (if expected =? a then [] else [Mismatch event_id expected a])
  end.

Definition audit_quotas (d : DB) (event_id now : Z) : M Redis exn (list inventory_drift) :=
  if negb (quota_audit_due event_id now) then ret []
  else
    let! actual := gets (read_purchase_quotas event_id) in
    let m := mismatched actual (compute_expected_quotas d event_id) in
    ret (if decide (m = ∅) then []
         else [QuotaDrift event_id (Z.of_nat (size m)) (take 5 (map_to_list m))]).

(** The loop; [others e] is what the rest of the system does to Redis before the
    event [e] is looked at. *)
Fixpoint audit_events (settings : Settings) (others : Z → Redis → Redis) (d : DB) (now : Z) (event_ids : list Z)
    : M Redis exn (list inventory_drift) :=
  match event_ids with
  | [] => ret []
  | event_id :: rest =>
      modify (others event_id) ;;;
      let! stock := audit_stock settings d event_id in
      let! quotas := audit_quotas d event_id now in
      let! drifts := audit_events settings others d now rest in
      ret (stock ++ quotas ++ drifts)
  end.

(** [detect_inventory_drift] *)
Definition detect_inventory_drift (settings : Settings) (others : Z → Redis → Redis) (d : DB) (now : Z)
    : M Redis exn (list inventory_drift) :=
  let! depth := gets queue_depth in
  if negb (depth.1 =? 0) then ret []
  else audit_events settings others d now (select_events (keys_expected now) d).

(** ** The audit of the seat runs *)

Inductive seat_drift : Type :=
  | IndexDrift (event_id zone_id : Z)
  | CounterDrift (event_id zone_id expected actual : Z)
  | ComplementDrift (event_id zone_id : Z)
  | EventTotalDrift (event_id expected actual : Z).

Definition zones_of_venue (d : DB) (venue : option Z) : list Z :=
  fst <$> filter (λ p : Z * Zone, Some (zn_venue p.2) = venue) (map_to_list (d_zones d)).

(** The blocks of the venue, by their zone: [blocks_by_zone\[zone_id\]]. *)
Definition blocks_by_zone (d : DB) (venue : option Z) (zone_id : Z) : list SeatBlock :=
  filter (λ b, bk_zone b = zone_id ∧ bk_zone b ∈ zones_of_venue d venue) (map_to_list (d_blocks d)).*2.

(** The cursor loop over each block: [expected_runs]. *)
Definition expected_runs (d : DB) (venue : option Z) (event_id zone_id : Z) : gmap (Z * Z) Z :=
  runs_map (blocks_by_zone d venue zone_id ≫= λ b,
    gap_runs (bk_id b) (bk_capacity b) 0 (isort pair_le (occupied_of d event_id (bk_id b)))).

Definition audit_zone (backlog : Z) (d : DB) (venue : option Z) (r : Redis) (event_id zone_id : Z) : list seat_drift :=
  let runs_raw := hash (r_runs r) (event_id, zone_id) in
  let ends_raw := hash (r_ends r) (event_id, zone_id) in
  let counter := r_zone_available r !! (event_id, zone_id) in
  let total := list_sum run_len (runs_of runs_raw) in
  (if decide (ends_raw = ends_map (runs_of runs_raw)) then [] else [IndexDrift event_id zone_id]) ++
  match counter with
  | Some c => if c =? total then [] else [CounterDrift event_id zone_id total c]
  | None => []
  end ++
  (if negb (backlog =? 0) then []
   else if decide (runs_raw = expected_runs d venue event_id zone_id) then []
   else [ComplementDrift event_id zone_id]).

(** One event: its rows [d] are read first, its keys [r] in one pipeline after. *)
Definition audit_seats (backlog : Z) (d : DB) (r : Redis) (event_id : Z) : list seat_drift :=
  let venue := d_events d !! event_id ≫= ev_venue in
  let zone_ids := zones_of_venue d venue in
  let zone_sum := list_sum (λ z, default 0 (r_zone_available r !! (event_id, z))) zone_ids in
  (zone_ids ≫= audit_zone backlog d venue r event_id) ++
  match r_available r !! event_id with
  | Some c => if c =? zone_sum then [] else [EventTotalDrift event_id zone_sum c]
  | None => []
  end.

Definition seats_expected (now : Z) (ev : Event) : bool :=
  bool_decide (is_Some (ev_venue ev)) && keys_expected now ev.

(** [detect_seat_structure_drift]: the queue depth is read from [r0], the list of
    events from [d0], each event from the snapshots of its own session. *)
Definition detect_seat_structure_drift (r0 : Redis) (d0 : DB) (snapshot : Z → DB * Redis) (now : Z)
    : list seat_drift :=
  let backlog := (queue_depth r0).1 in
  select_events (seats_expected now) d0 ≫= λ e, audit_seats backlog (snapshot e).1 (snapshot e).2 e.

(** ** The repair scripts *)

(** [main] of rebuild_seat_runs.py; [sys.exit] of an event without a seat map is the
    [None]. *)
Definition zone_order (d : DB) (z : Z) : Z := match d_zones d !! z with Some row => zn_order row | None => 0 end.
Fixpoint rebuild_in_order (d : DB) (event_id : Z) (force : bool) (zone_ids : list Z) : M Redis exn unit :=
  match zone_ids with
  | [] => ret tt
  | z :: rest => rebuild_zone_runs d event_id z force ;;; rebuild_in_order d event_id force rest
  end.
Definition rebuild_seat_runs_main (d : DB) (event_id : Z) (zone_id : option Z) (force : bool)
    : M Redis exn (option unit) :=
  match d_events d !! event_id with
  | None => raise (Domain (EventNotFound event_id))
  | Some ev =>
      match ev_venue ev with
      | None => ret None
      | Some venue =>
          let zone_ids := match zone_id with
                          | Some z => [z]
                          | None => isort (λ a b, zone_order d a <=? zone_order d b) (zones_of_venue d (Some venue))
                          end in
          rebuild_in_order d event_id force zone_ids ;;; ret (Some tt)
      end
  end.

(** ** The purge of finished events *)

(** The outer join: an event without zones gives one row without a zone. *)
Definition purge_rows (d : DB) (lower upper : Z) : list (Z * option Z) :=
  let finished ev := (ev_ends ev <? upper) && (lower <=? ev_ends ev) in
  select_events finished d ≫= λ e,
    match zones_of_venue d (d_events d !! e ≫= ev_venue) with
    | [] => [(e, None)]
    | zs => (λ z, (e, Some z)) <$> zs
    end.

Definition row_keys (row : Z * option Z) : list redis_key :=
  let '(e, zone) := row in
  [KEvent e EAvailable; KEvent e EPurchased; KSalt e; KDraw e] ++
  match zone with
  | Some z => [KEvent e (EZone z ZRuns); KEvent e (EZone z ZEnds); KEvent e (EZone z ZGeom);
               KEvent e (EZone z ZAvailable); KEvent e (EZone z ZRelaxed)]
  | None => []
  end.

(** [DEL] on a keyspace given by its names: how many there were, and what is left. *)
Definition redis_delete (names : list string) (keys : gset string) : Z * gset string :=
  (Z.of_nat (size (keys ∩ list_to_set names)), keys ∖ list_to_set names).

Definition DELETE_BATCH : nat := 500.

(** Batches of 500; [fuel] bounds their number. *)
Fixpoint delete_batches (fuel : nat) (names : list string) (keys : gset string) : Z * gset string :=
  match fuel, names with
  | S fuel', _ :: _ =>
      let '(n, keys) := redis_delete (take DELETE_BATCH names) keys in
      let '(m, keys) := delete_batches fuel' (drop DELETE_BATCH names) keys in
      (n + m, keys)
  | _, _ => (0, keys)
  end.

(** [purge_finished_event_keys] *)
Definition purge_finished_event_keys (d : DB) (now retention_days window_days : Z) (keys : gset string)
    : Z * gset string :=
  let rows := purge_rows d (now - days_ms window_days) (now - days_ms retention_days) in
  let unique := isort String.leb (remove_dups (key_str <$> (rows ≫= row_keys))) in
  delete_batches (length unique) unique keys.

(** ** The signal before a sale *)

Definition imminent (now lead tail : Z) (ev : Event) : bool :=
  bool_decide (ev_status ev = PUBLISHED) && (ev_sale_starts ev <=? now + lead) && (now - tail <=? ev_sale_starts ev).

(** [find_imminent_sale]: the first by [sale_starts_at]. *)
Definition find_imminent_sale (d : DB) (now lead tail : Z) : option Z :=
  let starts e := match d_events d !! e with Some ev => ev_sale_starts ev | None => 0 end in
  head (isort (λ a b, starts a <=? starts b) (select_events (imminent now lead tail) d)).

(** [publish_prewarm_signal]: the gauge it sends, zero included. *)
Definition publish_prewarm_signal (settings : Settings) (d : DB) (now : Z) : Z :=
  match find_imminent_sale d now (PREWARM_LEAD_MINUTES settings * 60000) (PREWARM_TAIL_MINUTES settings * 60000) with
  | Some _ => 1
  | None => 0
  end.

(** ** Selecting *)

Lemma elem_of_select P d e : e ∈ select_events P d ↔ ∃ ev, d_events d !! e = Some ev ∧ P ev = true.
Proof.
  unfold select_events. rewrite list_elem_of_fmap. split.
  - intros ([e' ev] & -> & [HP Hin%elem_of_map_to_list]%list_elem_of_filter). by exists ev.
  - intros (ev & He & HP). exists (e, ev). split; [done|]. apply list_elem_of_filter. split; [done|].
    by apply elem_of_map_to_list.
Qed.

Lemma fst_filter_nodup {A} (f : Z * A → Prop) `{∀ p, Decision (f p)} (m : gmap Z A) :
  NoDup (fst <$> filter f (map_to_list m)).
Proof.
  apply NoDup_fmap_2_strong; [|apply NoDup_filter, NoDup_map_to_list].
  intros [i x] [j y] [_ Hi%elem_of_map_to_list]%list_elem_of_filter
    [_ Hj%elem_of_map_to_list]%list_elem_of_filter Hij. simpl in Hij. subst j. congruence.
Qed.

Lemma select_nodup P d : NoDup (select_events P d).
Proof. apply fst_filter_nodup. Qed.

(** ** The audit of counters and quotas *)

(** What the job reports of an event and what it leaves, as functions of what it
    found: [Lost] when the counter is missing, [Mismatch] when it is wrong, and
    [QuotaDrift] when the quotas, healed or not, differ from the orders. *)
Definition expected_stock (d : DB) (e : Z) : Z :=
  match compute_expected_available d e with Ok n => n | Err _ => 0 end.
Definition after_available (settings : Settings) (d : DB) (r : Redis) (e : Z) : option Z :=
  match r_available r !! e with
  | Some v => Some v
  | None => if AUTO_HEAL_LOST_REDIS_STATE settings then Some (expected_stock d e) else None
  end.
Definition after_quotas (settings : Settings) (d : DB) (r : Redis) (e : Z) : gmap Z Z :=
  match r_available r !! e with
  | Some _ => read_purchase_quotas e r
  | None => if AUTO_HEAL_LOST_REDIS_STATE settings then compute_expected_quotas d e else read_purchase_quotas e r
  end.
Definition report (settings : Settings) (d : DB) (now : Z) (r : Redis) (e : Z) : list inventory_drift :=
  match r_available r !! e with
  | None => [Lost e (expected_stock d e)]
  | Some a => if expected_stock d e =? a then [] else [Mismatch e (expected_stock d e) a]
  end ++
  (if quota_audit_due e now
   then let m := mismatched (after_quotas settings d r e) (compute_expected_quotas d e) in
        if decide (m = ∅) then [] else [QuotaDrift e (Z.of_nat (size m)) (take 5 (map_to_list m))]
   else []).

(** Only the stock and the quotas may change. *)
Definition only_stock (r r' : Redis) : Prop :=
  r' = set_available (r_available r') (set_purchased (r_purchased r') r).

#[global] Instance only_stock_preorder : PreOrder only_stock.
Proof. split; [by intros []|]. intros [] [] [] H1 H2. injection H1 as ->. injection H2 as ->. by subst. Qed.

Lemma reconcile_drained d e ev r :
  xlen (r_stream r) = 0 → d_events d !! e = Some ev →
  reconcile_inventory d e false r =
  (Ok (expected_stock d e),
   set_purchased (<[e := compute_expected_quotas d e]> (r_purchased r))
     (set_available (<[e := expected_stock d e]> (r_available r)) r)).
Proof.
  intros Hx He. unfold reconcile_inventory, queue_depth, expected_stock, compute_expected_available.
  by rewrite Hx, He.
Qed.

(** One event, nobody else writing. *)
Lemma audit_one settings d now e ev r :
  xlen (r_stream r) = 0 → d_events d !! e = Some ev →
  ∃ r', (let! stock := audit_stock settings d e in
         let! quotas := audit_quotas d e now in ret (stock ++ quotas)) r = (Ok (report settings d now r e), r') ∧
    only_stock r r' ∧
    r_available r' !! e = after_available settings d r e ∧
    read_purchase_quotas e r' = after_quotas settings d r e ∧
    (∀ e', e' ≠ e → r_available r' !! e' = r_available r !! e' ∧
                    read_purchase_quotas e' r' = read_purchase_quotas e' r).
Proof.
  intros Hx He.
  assert (∃ r', audit_stock settings d e r = (Ok (match r_available r !! e with
      | None => [Lost e (expected_stock d e)]
      | Some a => if expected_stock d e =? a then [] else [Mismatch e (expected_stock d e) a]
      end), r') ∧ only_stock r r' ∧ r_available r' !! e = after_available settings d r e ∧
    read_purchase_quotas e r' = after_quotas settings d r e ∧
    (∀ e', e' ≠ e → r_available r' !! e' = r_available r !! e' ∧
                    read_purchase_quotas e' r' = read_purchase_quotas e' r)) as (r' & Hs & Hrest).
  { unfold audit_stock. rewrite bind_lift.
    replace (compute_expected_available d e) with (Ok (E:=exn) (expected_stock d e))
      by (unfold expected_stock, compute_expected_available; by rewrite He).
    unfold bind at 1, gets. unfold read_available, after_available, after_quotas.
    destruct (r_available r !! e) as [a|] eqn:Ha.
    - exists r. by split_and!.
    - destruct (AUTO_HEAL_LOST_REDIS_STATE settings); [|exists r; by split_and!].
      unfold bind, ret. erewrite reconcile_drained by eauto. eexists. split; [done|].
      split; [by destruct r|]. unfold read_purchase_quotas. simpl. rewrite lookup_insert_eq, hash_insert_eq.
      split_and!; [done..|]. intros e' Hne. by rewrite lookup_insert_ne, hash_insert_ne by done. }
  exists r'. split; [|done]. destruct Hrest as (_ & _ & Hq & _). unfold bind at 1. rewrite Hs.
  unfold audit_quotas, report. destruct (quota_audit_due e now); [|done].
  simpl. unfold bind, gets, ret. by rewrite Hq.
Qed.

Lemma audit_events_exact settings d now es r :
  NoDup es → (∀ e, e ∈ es → is_Some (d_events d !! e)) → xlen (r_stream r) = 0 →
  let '(res, r') := audit_events settings (λ _ r, r) d now es r in
  res = Ok (es ≫= report settings d now r) ∧ only_stock r r' ∧
  (∀ e, r_available r' !! e = (if decide (e ∈ es) then after_available settings d r e else r_available r !! e) ∧
        read_purchase_quotas e r' =
          (if decide (e ∈ es) then after_quotas settings d r e else read_purchase_quotas e r)).
Proof.
  intros Hnd. revert r. induction Hnd as [|e es Hne Hnd IH]; intros r Hes Hx.
  - by split_and!.
  - destruct (Hes e) as [ev He]; [left|].
    destruct (audit_one settings d now e ev r Hx He) as (r1 & Hone & Hos & Ha & Hq & Hother).
    assert (Hrun : audit_events settings (λ _ r, r) d now (e :: es) r =
      (let! drifts := audit_events settings (λ _ r, r) d now es in
       ret (report settings d now r e ++ drifts)) r1).
    { revert Hone. cbn [audit_events]. unfold modify, bind, ret.
      destruct (audit_stock settings d e r) as [[s|] x]; [|done].
      destruct (audit_quotas d e now x) as [[q|] y]; [|done]. intros [= <- <-].
      destruct (audit_events _ _ _ _ es y) as [[l|] z]; [|done]. by rewrite (assoc_L (++)). }
    rewrite Hrun. unfold bind. specialize (IH r1).
    assert (Hx1 : xlen (r_stream r1) = 0) by (rewrite Hos; done).
    destruct (audit_events settings (λ _ r, r) d now es r1) as [res r2].
    destruct IH as (-> & Hos2 & H2); [intros; apply Hes; by right|done|].
    assert (Hsame : ∀ e', e' ∈ es → r_available r1 !! e' = r_available r !! e' ∧
      read_purchase_quotas e' r1 = read_purchase_quotas e' r).
    { intros e' He'. apply Hother. by intros ->. }
    split; [|split; [by etrans|]].
    + unfold ret. cbn [mbind list_bind]. do 2 f_equal. apply Forall_bind_ext, Forall_forall.
      intros e' He'. unfold report, after_quotas. destruct (Hsame e' He') as [-> ->]. done.
    + intros e'. destruct (H2 e') as [-> ->]. destruct (decide (e' = e)) as [->|Hn].
      * rewrite !(decide_False (P := e ∈ es)), !decide_True by (done || left). done.
      * destruct (decide (e' ∈ es)) as [Hin|Hin].
        { rewrite !decide_True by by right. unfold after_available, after_quotas.
          by destruct (Hsame e' Hin) as [-> ->]. }
        rewrite !decide_False by (intros [?|?]%elem_of_cons; done). by apply Hother.
Qed.

(** C17 (the stock audit heals what is lost and only reports what is wrong).  While
    intents are in flight it does nothing.  Otherwise, nobody else writing, its answer
    is, event by event over those published and not over for more than a week, the
    report of what it found; a counter that is there is never changed, right or wrong,
    nor the quotas beside it; a missing one comes back, with the quotas, at what the
    orders say, if healing is on; and no other event and no other key changes. *)
Theorem inventory_audit_exact settings d now r :
  let watched := select_events (keys_expected now) d in
  let '(res, r') := detect_inventory_drift settings (λ _ r, r) d now r in
  if xlen (r_stream r) =? 0 then
    res = Ok (watched ≫= report settings d now r) ∧ only_stock r r' ∧
    (∀ e, r_available r' !! e =
            (if decide (e ∈ watched) then after_available settings d r e else r_available r !! e) ∧
          read_purchase_quotas e r' =
            (if decide (e ∈ watched) then after_quotas settings d r e else read_purchase_quotas e r))
  else res = Ok [] ∧ r' = r.
Proof.
  cbn zeta. unfold detect_inventory_drift, bind at 1, gets. simpl.
  destruct (xlen (r_stream r) =? 0) eqn:Hx; [|done]. simpl. zbool.
  apply audit_events_exact; [apply select_nodup| |done].
  intros e (ev & He & _)%elem_of_select. by exists ev.
Qed.

(** Everyone's quotas are audited, once in any six rounds of five minutes. *)
Theorem quotas_audited_once_in_six_rounds event_id now :
  ∃ k, 0 <= k < QUOTA_AUDIT_SLOTS ∧
    ∀ j, 0 <= j < QUOTA_AUDIT_SLOTS → quota_audit_due event_id (now + j * 300000) = true ↔ j = k.
Proof.
  unfold quota_audit_due, QUOTA_AUDIT_SLOTS, minute_of. set (m := now / 60000).
  assert (Hm : ∀ j, (now + j * 300000) / 60000 mod 60 / 5 mod 6 = (m / 5 + j) mod 6).
  { intros j. replace (now + j * 300000) with (now + (5 * j) * 60000) by lia.
    rewrite Z.div_add by done. fold m. Z.to_euclidean_division_equations. lia. }
  exists ((event_id - m / 5) mod 6). split; [apply Z.mod_pos_bound; lia|]. intros j Hj.
  rewrite Hm, Z.eqb_eq. Z.to_euclidean_division_equations. lia.
Qed.

(** ** Interference *)

(** What may happen to Redis while the job runs: the rest of the system, or one
    reconciliation of an event whose counter is missing while no intent is in flight. *)
Inductive drift_step (others : Z → Redis → Redis) (d : DB) : Redis → Redis → Prop :=
  | step_others e r : drift_step others d r (others e r)
  | step_heal e r n r' :
      r_available r !! e = None → xlen (r_stream r) = 0 →
      reconcile_inventory d e false r = (Ok n, r') → drift_step others d r r'.

Lemma reconcile_refused d e r x r' :
  is_Some (d_events d !! e) → reconcile_inventory d e false r = (Err x, r') →
  r' = r ∧ xlen (r_stream r) ≠ 0 ∧ ∃ b dead, x = Domain (InventoryNotReconcilable e b dead).
Proof.
  intros [ev He]. unfold reconcile_inventory, queue_depth. rewrite He. simpl.
  destruct (xlen (r_stream r) =? 0) eqn:?; simpl; [done|]. intros [= <- <-]. zbool. eauto.
Qed.

Lemma audit_stock_steps settings others d e r :
  is_Some (d_events d !! e) →
  let '(res, r') := audit_stock settings d e r in
  rtc (drift_step others d) r r' ∧
  match res with
  | Ok _ => True
  | Err x => r' = r ∧ xlen (r_stream r) ≠ 0 ∧ ∃ b dead, x = Domain (InventoryNotReconcilable e b dead)
  end.
Proof.
  intros He. unfold audit_stock. rewrite bind_lift.
  destruct (compute_expected_available d e) as [x|x] eqn:Hc.
  2:{ unfold compute_expected_available in Hc. destruct He as [ev He]. by rewrite He in Hc. }
  unfold bind at 1, gets, read_available. destruct (r_available r !! e) as [a|] eqn:Ha; [done|].
  destruct (AUTO_HEAL_LOST_REDIS_STATE settings); [|done].
  unfold bind, ret. destruct (reconcile_inventory d e false r) as [[n|y] r'] eqn:Hr.
  - split; [|done]. destruct (decide (xlen (r_stream r) = 0)) as [Hx|Hx].
    + apply rtc_once. by eapply step_heal.
    + unfold reconcile_inventory, queue_depth in Hr. simpl in Hr.
      destruct (xlen (r_stream r) =? 0) eqn:?; [zlia|]. done.
  - apply reconcile_refused in Hr as (-> & ? & ?); done.
Qed.

Lemma audit_events_steps settings others d now es r :
  (∀ e, e ∈ es → is_Some (d_events d !! e)) →
  let '(res, r') := audit_events settings others d now es r in
  rtc (drift_step others d) r r' ∧
  match res with
  | Ok _ => True
  | Err x => xlen (r_stream r') ≠ 0 ∧ ∃ e b dead, e ∈ es ∧ x = Domain (InventoryNotReconcilable e b dead)
  end.
Proof.
  revert r. induction es as [|e es IH]; intros r Hes; [done|].
  cbn [audit_events]. unfold modify, bind.
  pose proof (audit_stock_steps settings others d e (others e r)) as Hs.
  destruct (audit_stock settings d e (others e r)) as [[s|x] r1].
  2:{ destruct Hs as (Hst & -> & ? & b & dead & ?); [apply Hes; left|].
      split; [by eapply rtc_l; [apply step_others|]|]. split; [done|]. exists e, b, dead. split; [left|done]. }
  destruct Hs as [Hst _]; [apply Hes; left|].
  assert (Hq : ∃ q, audit_quotas d e now r1 = (Ok q, r1)).
  { unfold audit_quotas. destruct (negb _); by eexists. }
  destruct Hq as [q ->]. specialize (IH r1).
  destruct (audit_events settings others d now es r1) as [[l|x] r2].
  - destruct IH as [Hst2 _]; [intros; apply Hes; by right|]. split; [|done].
    eapply rtc_l; [apply step_others|]. by etrans.
  - destruct IH as (Hst2 & Hx & e' & b & dead & ? & ?); [intros; apply Hes; by right|].
    split; [eapply rtc_l; [apply step_others|by etrans]|]. split; [done|]. exists e', b, dead. split; [by right|done].
Qed.

(** However the rest of the system runs in between, the job itself only ever
    reconciles an event whose counter is missing while no intent is in flight; and it
    fails only by refusing to do so because intents have arrived since it began. *)
Theorem audit_heals_under_interference settings others d now r :
  let '(res, r') := detect_inventory_drift settings others d now r in
  rtc (drift_step others d) r r' ∧
  match res with
  | Ok _ => True
  | Err x => xlen (r_stream r') ≠ 0 ∧ ∃ e b dead, x = Domain (InventoryNotReconcilable e b dead)
  end.
Proof.
  unfold detect_inventory_drift, bind at 1, gets.
  destruct (negb _); [done|].
  pose proof (audit_events_steps settings others d now (select_events (keys_expected now) d) r) as H.
  destruct (audit_events settings others d now _ r) as [[l|x] r'].
  - apply H. intros e (ev & ? & _)%elem_of_select. by exists ev.
  - destruct H as (? & ? & e & b & dead & ? & ?); [intros e (ev & ? & _)%elem_of_select; by exists ev|].
    eauto 10.
Qed.

(** ** The audit of the seat runs *)

Lemma elem_of_zones_of_venue d venue z :
  z ∈ zones_of_venue d venue ↔ ∃ row, d_zones d !! z = Some row ∧ Some (zn_venue row) = venue.
Proof.
  unfold zones_of_venue. rewrite list_elem_of_fmap. split.
  - intros ([z' row] & -> & [Hv Hin%elem_of_map_to_list]%list_elem_of_filter). by exists row.
  - intros (row & Hz & Hv). exists (z, row). split; [done|]. apply list_elem_of_filter. split; [done|].
    by apply elem_of_map_to_list.
Qed.

Lemma blocks_by_zone_eq d venue z : z ∈ zones_of_venue d venue → blocks_by_zone d venue z = zone_blocks d z.
Proof.
  intros Hz. unfold blocks_by_zone, zone_blocks. apply list_filter_iff. intros b. split; [by intros []|].
  intros <-. done.
Qed.

Lemma expected_runs_eq d venue e z :
  z ∈ zones_of_venue d venue → expected_runs d venue e z = runs_map (zone_blocks d z ≫= block_runs d e).
Proof. intros Hz. unfold expected_runs. by rewrite blocks_by_zone_eq. Qed.

Lemma bind_nil {A B} (f : A → list B) l : l ≫= f = [] ↔ ∀ x, x ∈ l → f x = [].
Proof.
  induction l as [|x l IH]; [split; [|done]; by intros _ x ?%elem_of_nil|].
  cbn [mbind list_bind]. rewrite app_nil, IH. setoid_rewrite elem_of_cons. split.
  - intros [H1 H2] y [->|Hy]; auto.
  - intros H. split; [|intros y Hy]; apply H; auto.
Qed.

Lemma runs_map_of m : runs_map (runs_of m) = m.
Proof.
  unfold runs_map, runs_of. rewrite <-list_fmap_compose. etrans; [|apply list_to_map_to_list].
  f_equal. etrans; [|apply list_fmap_id]. apply list_fmap_ext. by intros i [[b s] l] _.
Qed.

Lemma ends_map_perm l1 l2 : wf_runs l1 → l1 ≡ₚ l2 → ends_map l1 = ends_map l2.
Proof.
  intros Hw Hp. apply map_eq. intros [b x]. apply option_eq. intros s.
  rewrite !ends_map_lookup by (done || by eapply wf_runs_perm). by rewrite Hp.
Qed.

Lemma runs_map_perm_eq l1 l2 : wf_runs l1 → l1 ≡ₚ l2 → runs_map l1 = runs_map l2.
Proof.
  intros Hw Hp. apply map_eq. intros [b x]. apply option_eq. intros s.
  rewrite !runs_map_lookup by (done || by eapply wf_runs_perm). by rewrite Hp.
Qed.

(** Index and complement together are the zone invariant with the free seats of the
    database: both compare with the one canonical form. *)
Lemma index_and_complement d e z (m : zmaps) :
  blocks_ok d e →
  m.2 = ends_map (runs_of m.1) ∧ m.1 = runs_map (zone_blocks d z ≫= block_runs d e) ↔
  zone_wf m ∧ ∀ b p, free (runs_of m.1) b p ↔ db_free d e z b p.
Proof.
  intros Hok. destruct (zone_runs_spec d e z Hok) as [Hw Hf].
  set (runs := zone_blocks d z ≫= block_runs d e) in *. destruct m as [m1 m2]. simpl. split.
  - intros [-> ->]. pose proof (runs_map_perm runs Hw) as Hp. split.
    + rewrite (ends_map_perm (runs_of (runs_map runs)) runs); [by apply rebuilt_zone_wf| |done].
      by eapply wf_runs_perm.
    + intros b p. by rewrite (free_perm _ _ b p Hp).
  - intros [[Hwm He] Hfm]. simpl in *.
    assert (Hp : runs_of m1 ≡ₚ runs).
    { apply wf_free_perm; [done..|]. intros b p. by rewrite Hfm, Hf. }
    split; [|by rewrite <-(runs_map_of m1) at 1; apply runs_map_perm_eq].
    apply map_eq. intros [b x]. apply option_eq. intros s.
    rewrite ends_map_lookup by done. rewrite elem_of_runs_of. simpl. apply He.
Qed.

(** A counter that is there is compared, one that is not is let be. *)
Lemma counter_report {A} (o : option Z) (total : Z) (x : Z → A) :
  match o with Some c => if c =? total then [] else [x c] | None => [] end = [] ↔
  ∀ c, o = Some c → c = total.
Proof.
  destruct o as [c|]; [|done]. destruct (c =? total) eqn:Hc; zbool; split; try done.
  - by intros _ ? [= <-].
  - intros H. by destruct Hc; apply H.
Qed.

(** What a drained audit of one zone looks for. *)
Definition zone_sound (d : DB) (r : Redis) (e z : Z) : Prop :=
  zone_wf (zone_maps r (e, z)) ∧
  (∀ b p, zone_free r (e, z) b p ↔ db_free d e z b p) ∧
  (∀ c, r_zone_available r !! (e, z) = Some c → c = seats_in (zone_maps r (e, z)).1).

Lemma audit_zone_exact d venue r e z :
  blocks_ok d e → z ∈ zones_of_venue d venue → audit_zone 0 d venue r e z = [] ↔ zone_sound d r e z.
Proof.
  intros Hok Hz. unfold audit_zone, zone_sound. rewrite expected_runs_eq by done.
  pose proof (index_and_complement d e z (zone_maps r (e, z)) Hok) as Hic.
  unfold zone_maps in *. simpl in *. unfold zone_free, zone_maps. simpl. unfold seats_in.
  set (runs := hash (r_runs r) (e, z)) in *. set (ends := hash (r_ends r) (e, z)) in *.
  rewrite (assoc (∧)), <-Hic, <-(counter_report _ _ (CounterDrift e z (list_sum run_len (runs_of runs)))).
  clear Hic. destruct (decide (ends = ends_map (runs_of runs))); [|split; [done|by intros [[? _] _]]].
  destruct (decide (runs = runs_map _)); simpl; [|split; [by intros [_ H]%app_nil|by intros [[_ ?] _]]].
  rewrite app_nil_r. split; [done|]. by intros [].
Qed.

(** C18 (a silent seat audit means the seat map is right).  With no intent in flight,
    the audit of an event reports nothing exactly when, in every zone of its venue,
    the runs are maximal and disjoint with their exact reverse index, the free seats
    are those no hold of the event covers, and a counter that is there counts them;
    and the event's own counter, if there, is the sum of its zones'. *)
Theorem seat_audit_exact d r event_id :
  blocks_ok d event_id →
  let zones := zones_of_venue d (d_events d !! event_id ≫= ev_venue) in
  audit_seats 0 d r event_id = [] ↔
  (∀ z, z ∈ zones → zone_sound d r event_id z) ∧
  ∀ c, r_available r !! event_id = Some c →
    c = list_sum (λ z, default 0 (r_zone_available r !! (event_id, z))) zones.
Proof.
  intros Hok zones. unfold audit_seats. fold zones.
  rewrite app_nil, bind_nil, counter_report. apply and_iff_compat_r.
  split; intros H z Hz; specialize (H z Hz); by apply (audit_zone_exact d (d_events d !! event_id ≫= ev_venue)).
Qed.

(** In flight, the complement is not looked at: a drift reported then is one of the
    structure itself. *)
Theorem busy_audit_sees_redis_only backlog d d' r event_id :
  backlog ≠ 0 →
  (∀ venue z, audit_zone backlog d venue r event_id z = audit_zone backlog d' venue r event_id z) ∧
  ∀ venue z, ComplementDrift event_id z ∉ audit_zone backlog d venue r event_id z.
Proof.
  intros Hb. apply Z.eqb_neq in Hb. unfold audit_zone. rewrite Hb. split; [done|]. intros venue z Hin.
  apply list_elem_of_In in Hin. rewrite !in_app_iff in Hin.
  destruct Hin as [Hin|[Hin|[]]].
  - by case_hyp Hin; simpl in Hin; [|destruct Hin].
  - destruct (r_zone_available r !! _) as [c|]; [|done].
    by case_hyp Hin; simpl in Hin; [|destruct Hin].
Qed.

(** ** Repair *)

Lemma rebuild_zone_sound d e z force r n r' :
  blocks_ok d e → zone_blocks d z ≠ [] → rebuild_zone_runs d e z force r = (Ok n, r') →
  zone_sound d r' e z ∧ r_available r' = r_available r ∧ r_stream r' = r_stream r ∧
  ∀ z', z' ≠ z → zone_maps r' (e, z') = zone_maps r (e, z') ∧
                 r_zone_available r' !! (e, z') = r_zone_available r !! (e, z').
Proof.
  intros Hok Hb Hr. pose proof (rebuild_zone_cases d e z force r Hok) as Hc. cbn zeta in Hc.
  rewrite Hr in Hc. destruct Hc as (Ho & _ & [(? & _)|(Hw & Hn & Hz & Hf)]); [done|].
  split; [|].
  - split; [done|]. split; [done|]. intros c. rewrite Hz. by intros [= <-].
  - unfold rebuild_zone_runs, queue_depth in Hr.
    destruct (negb force && _); [done|]. destruct (zone_blocks d z) as [|b bs]; [done|].
    injection Hr as _ <-. simpl. split_and!; [done..|]. intros z' Hz'. split.
    + unfold zone_maps. simpl. by rewrite !hash_insert_ne by congruence.
    + apply lookup_insert_ne. congruence.
Qed.

Lemma zone_sound_frame d r r' e z :
  zone_maps r' (e, z) = zone_maps r (e, z) → r_zone_available r' !! (e, z) = r_zone_available r !! (e, z) →
  zone_sound d r e z → zone_sound d r' e z.
Proof. unfold zone_sound, zone_free. intros -> ->. done. Qed.

Lemma rebuild_in_order_sound d e force zs r r' :
  blocks_ok d e → (∀ z, z ∈ zs → zone_blocks d z ≠ []) →
  rebuild_in_order d e force zs r = (Ok tt, r') →
  (∀ z, z ∈ zs → zone_sound d r' e z) ∧ r_available r' = r_available r ∧
  ∀ z, z ∉ zs → zone_sound d r e z → zone_sound d r' e z.
Proof.
  intros Hok. revert r. induction zs as [|z zs IH]; intros r Hzs Hr.
  - injection Hr as <-. split_and!; [|done..]. by intros z ?%elem_of_nil.
  - cbn [rebuild_in_order] in Hr. apply bind_inv_ok in Hr as (n & r1 & H1 & H2).
    apply rebuild_zone_sound in H1 as (Hs & Ha & _ & Ho); [|done|apply Hzs; left].
    apply IH in H2 as (Hin & Ha2 & Hout); [|intros; apply Hzs; by right].
    split_and!; [|congruence|].
    + intros z' [->|Hz']%elem_of_cons; [|by apply Hin].
      destruct (decide (z ∈ zs)); [by apply Hin|by apply Hout].
    + intros z' [Hne Hz']%not_elem_of_cons Hsz. apply Hout; [done|].
      destruct (Ho z' Hne). by eapply zone_sound_frame.
Qed.

(** The rebuild script silences the audit.  When the script has rebuilt an event
    whose zones all have blocks, the drained audit can only still report that the
    event's own counter is not the sum of its zones', which the script leaves alone. *)
Theorem rebuild_silences_the_audit d event_id force r r' :
  blocks_ok d event_id →
  (∀ z, z ∈ zones_of_venue d (d_events d !! event_id ≫= ev_venue) → zone_blocks d z ≠ []) →
  rebuild_seat_runs_main d event_id None force r = (Ok (Some tt), r') →
  r_available r' = r_available r ∧
  ∀ drift, drift ∈ audit_seats 0 d r' event_id → ∃ expected actual, drift = EventTotalDrift event_id expected actual.
Proof.
  intros Hok Hb Hr. unfold rebuild_seat_runs_main in Hr.
  destruct (d_events d !! event_id) as [ev|] eqn:He; [|done]. simpl in Hb.
  destruct (ev_venue ev) as [venue|] eqn:Hv; [|done].
  apply bind_inv_ok in Hr as ([] & r1 & Hr & [= ->]).
  apply rebuild_in_order_sound in Hr as (Hs & Ha & _); [|done|].
  2:{ intros z Hz%elem_of_isort. by apply Hb. }
  split; [done|]. intros drift. unfold audit_seats. rewrite He. simpl. rewrite Hv.
  intros [Hin|Hin]%elem_of_app.
  - exfalso. apply list_elem_of_bind in Hin as (z & Hin & Hz).
    assert (audit_zone 0 d (Some venue) r' event_id z = []) as Hnil.
    { apply audit_zone_exact; [done..|]. apply Hs. by apply elem_of_isort. }
    rewrite Hnil in Hin. by apply elem_of_nil in Hin.
  - destruct (r_available r' !! event_id) as [c|]; [|by apply elem_of_nil in Hin].
    destruct (c =? _); [by apply elem_of_nil in Hin|]. apply list_elem_of_singleton in Hin. eauto.
Qed.

(** ** The purge of finished events *)

Lemma size_split (X Y : gset string) : size X = (size (X ∩ Y) + size (X ∖ Y))%nat.
Proof.
  rewrite <-size_union by (intros k; rewrite elem_of_intersection, elem_of_difference; naive_solver).
  f_equal. apply set_eq. intros k. rewrite elem_of_union, elem_of_intersection, elem_of_difference.
  destruct (decide (k ∈ Y)); naive_solver.
Qed.

Lemma delete_batches_spec fuel names keys :
  NoDup names → (length names <= fuel)%nat →
  delete_batches fuel names keys = redis_delete names keys.
Proof.
  revert names keys. induction fuel as [|fuel IH]; intros names keys Hnd Hlen.
  - destruct names; [|simpl in Hlen; lia]. unfold redis_delete. simpl. f_equal; [|set_solver].
    by rewrite (right_absorb_L ∅ (∩)), size_empty.
  - destruct names as [|x names0] eqn:Hn.
    { unfold redis_delete. simpl. f_equal; [|set_solver]. by rewrite (right_absorb_L ∅ (∩)), size_empty. }
    cbn [delete_batches]. rewrite <-Hn in *. unfold redis_delete at 1.
    assert (Hd : (length (drop DELETE_BATCH names) <= fuel)%nat).
    { rewrite length_drop. unfold DELETE_BATCH. rewrite Hn in *. simpl in *. lia. }
    assert (Hnd' : NoDup (take DELETE_BATCH names ++ drop DELETE_BATCH names)) by by rewrite take_drop.
    apply NoDup_app in Hnd' as (_ & Hdisj & Hnd2).
    rewrite IH by done. unfold redis_delete.
    assert (Hset : (list_to_set names : gset string) =
      list_to_set (take DELETE_BATCH names) ∪ list_to_set (drop DELETE_BATCH names)).
    { by rewrite <-list_to_set_app_L, take_drop. }
    rewrite Hset. f_equal; [|set_solver].
    rewrite <-Nat2Z.inj_add, <-size_union.
    + do 2 f_equal. apply set_eq. intros k. rewrite elem_of_union, !elem_of_intersection, elem_of_difference,
        elem_of_union, !elem_of_list_to_set. destruct (decide (k ∈ take DELETE_BATCH names)); naive_solver.
    + apply elem_of_disjoint. intros k. rewrite !elem_of_intersection, elem_of_difference, !elem_of_list_to_set.
      naive_solver.
Qed.

(** Every key of an event that the purge lists, zones included. *)
Definition event_key (d : DB) (e : Z) (k : redis_key) : Prop :=
  k ∈ row_keys (e, None) ∨ ∃ z, z ∈ zones_of_venue d (d_events d !! e ≫= ev_venue) ∧ k ∈ row_keys (e, Some z).

Lemma elem_of_purge_keys d lower upper k :
  k ∈ purge_rows d lower upper ≫= row_keys ↔
  ∃ e ev, d_events d !! e = Some ev ∧ lower <= ev_ends ev < upper ∧ event_key d e k.
Proof.
  unfold purge_rows. rewrite list_elem_of_bind. setoid_rewrite list_elem_of_bind. setoid_rewrite elem_of_select.
  assert (Hfin : ∀ ev, (ev_ends ev <? upper) && (lower <=? ev_ends ev) = true ↔ lower <= ev_ends ev < upper)
    by (intros ev; rewrite andb_true_iff, Z.ltb_lt, Z.leb_le; lia).
  setoid_rewrite Hfin. clear Hfin. unfold event_key. split.
  - intros (row & Hk & e & Hrow & ev & He & Hends). exists e, ev. split; [done|]. split; [done|].
    destruct (zones_of_venue d _) as [|z zs]; [apply list_elem_of_singleton in Hrow as ->; by left|].
    apply list_elem_of_fmap in Hrow as (z' & -> & Hz). right. by exists z'.
  - intros (e & ev & He & Hends & Hk). destruct (zones_of_venue d (d_events d !! e ≫= ev_venue)) as [|z zs] eqn:Hzs.
    + destruct Hk as [Hk|(z & Hz & _)]; [|by apply elem_of_nil in Hz].
      exists (e, None). split; [done|]. exists e. rewrite Hzs. split; [by left|]. by exists ev.
    + destruct Hk as [Hk|(z' & Hz & Hk)].
      * exists (e, Some z). split; [unfold row_keys in *; apply elem_of_app; by left; rewrite app_nil_r in Hk|].
        exists e. rewrite Hzs. split; [left|]. by exists ev.
      * exists (e, Some z'). split; [done|]. exists e. rewrite Hzs. split; [|by exists ev].
        apply list_elem_of_fmap. by exists z'.
Qed.

(** The purge deletes the keys of finished events and nothing else.  In batches
    of five hundred, it deletes of the keyspace exactly the stock, quota, draw and
    salt keys and the seat-map keys, zone by zone, of the events that ended within its
    window, and counts those that existed; every other key, of these events or not,
    stays; and no event it touches is audited at that time or later, so the audit
    never takes a purged event for one that Redis has lost. *)
Theorem purge_deletes_finished_events_only d now window_days keys :
  let purged e := ∃ ev, d_events d !! e = Some ev ∧
    now - days_ms window_days <= ev_ends ev < now - days_ms EVENT_KEY_RETENTION_DAYS in
  let '(n, left_) := purge_finished_event_keys d now EVENT_KEY_RETENTION_DAYS window_days keys in
  left_ ⊆ keys ∧ n = Z.of_nat (size keys) - Z.of_nat (size left_) ∧
  (∀ k, key_str k ∈ keys → (key_str k ∉ left_) ↔ ∃ e, purged e ∧ event_key d e k) ∧
  (∀ e now', purged e → now <= now' → e ∉ select_events (keys_expected now') d).
Proof.
  intros purged. unfold purge_finished_event_keys.
  set (names := isort String.leb _).
  assert (Hnd : NoDup names) by (unfold names; rewrite isort_perm; apply NoDup_remove_dups).
  rewrite delete_batches_spec by done. unfold redis_delete. split; [set_solver|]. split; [|split].
  - rewrite (size_split keys (list_to_set names)). lia.
  - intros k Hk. rewrite elem_of_difference, elem_of_list_to_set.
    assert (Hin : key_str k ∈ names ↔ ∃ e, purged e ∧ event_key d e k).
    { unfold names. rewrite elem_of_isort, elem_of_remove_dups, list_elem_of_fmap. split.
      - intros (k' & ->%key_str_injective & (e & ev & ? & ? & ?)%elem_of_purge_keys). exists e. split; [by exists ev|done].
      - intros (e & (ev & ? & ?) & ?). exists k. split; [done|]. apply elem_of_purge_keys. by exists e, ev. }
    rewrite <-Hin. destruct (decide (key_str k ∈ names)); naive_solver.
  - intros e now' (ev & He & Hends) Hnow (ev' & He' & Hx)%elem_of_select. simplify_eq.
    unfold keys_expected, horizon in Hx. rewrite andb_true_iff, Z.leb_le in Hx. lia.
Qed.

(** ** The signal before a sale *)

(** The signal is 1 exactly while a published event's sale is near; and with settings
    that load, it has been on since before the waiting room opens at its default
    time. *)
Theorem prewarm_covers_the_queue s0 s d now :
  load_settings s0 = Ok s →
  (publish_prewarm_signal s d now = 1 ↔ ∃ e ev, d_events d !! e = Some ev ∧ ev_status ev = PUBLISHED ∧
     ev_sale_starts ev - PREWARM_LEAD_MINUTES s * 60000 <= now <= ev_sale_starts ev + PREWARM_TAIL_MINUTES s * 60000) ∧
  (∀ e ev, d_events d !! e = Some ev → ev_status ev = PUBLISHED → ev_queue_opens ev = None →
     (WaitingRoom.window s ev).1 <= now <= ev_sale_starts ev → publish_prewarm_signal s d now = 1).
Proof.
  intros (_ & Hb & Hg)%load_settings_guards.
  assert (Hlead : QUEUE_LEAD_TIME_SECONDS s < PREWARM_LEAD_MINUTES s * 60 ∧ 1 <= PREWARM_TAIL_MINUTES s).
  { unfold guards in Hg. rewrite !andb_true_iff in Hg. destruct_and!.
    unfold field_bounds in Hb. rewrite !andb_true_iff in Hb. destruct_and!.
    unfold guard_prewarm_covers_the_queue in *. zbool. lia. }
  clear Hb Hg s0.
  assert (Hsig : publish_prewarm_signal s d now = 1 ↔ ∃ e ev, d_events d !! e = Some ev ∧ ev_status ev = PUBLISHED ∧
     ev_sale_starts ev - PREWARM_LEAD_MINUTES s * 60000 <= now <= ev_sale_starts ev + PREWARM_TAIL_MINUTES s * 60000).
  { unfold publish_prewarm_signal, find_imminent_sale. set (l := isort _ _).
    assert (Hl : ∀ e, e ∈ l ↔ ∃ ev, d_events d !! e = Some ev ∧ ev_status ev = PUBLISHED ∧
      ev_sale_starts ev - PREWARM_LEAD_MINUTES s * 60000 <= now <= ev_sale_starts ev + PREWARM_TAIL_MINUTES s * 60000).
    { intros e. unfold l. rewrite elem_of_isort, elem_of_select. unfold imminent.
      setoid_rewrite andb_true_iff. setoid_rewrite andb_true_iff. setoid_rewrite bool_decide_eq_true.
      setoid_rewrite Z.leb_le.
      split; intros (ev & He & Hx); exists ev; destruct_and!; split_and!; (done || lia). }
    clearbody l. destruct l as [|e l']; simpl.
    - split; [done|]. intros (e & ev & H). exfalso. apply (not_elem_of_nil e), Hl. by exists ev.
    - split; [|done]. intros _. exists e. apply Hl. left. }
  split; [done|]. intros e ev He Hp Hq [Hopen Hstart]. apply Hsig. exists e, ev. split; [done|]. split; [done|].
  unfold WaitingRoom.window, effective_window in Hopen. rewrite Hq in Hopen. simpl in Hopen. lia.
Qed.

(** ** Witnesses *)

(** One published event in a hall of one block of six seats, two of them held. *)
Definition hall_event (ends : Z) : Event :=
  mk_event 7 (Some 1) (ends - 2) ends (ends - 9) (ends - 5) None None 6 None PUBLISHED 1.
Definition hall_db (ends : Z) : DB :=
  mk_db ∅ {[7 := hall_event ends]} {[3 := mk_zone 3 1 "A" 0 1]} {[1 := mk_block 1 3 6 1 0]} ∅ ∅ ∅ 1
    {[9 := mk_hold 7 3 1 9 2 2 None]} ∅ 1 ∅.
Definition hall_redis : Redis := (rebuild_zone_runs (hall_db 100) 7 3 true empty_redis).2.

Lemma hall_blocks_ok : blocks_ok (hall_db 100) 7.
Proof.
  split.
  - intros i b. simpl. by intros [<- <-]%lookup_singleton_Some.
  - intros i h b. simpl. intros [<- <-]%lookup_singleton_Some _. simpl.
    intros [_ <-]%lookup_singleton_Some. simpl. lia.
Defined.

Lemma seat_audit_exact_witness :
  audit_seats 0 (hall_db 100) hall_redis 7 = [] ∧
  audit_seats 0 (hall_db 100) empty_redis 7 = [ComplementDrift 7 3] ∧
  zone_sound (hall_db 100) hall_redis 7 3.
Proof.
  split; [by vm_compute|]. split; [by vm_compute|].
  destruct (proj1 (seat_audit_exact (hall_db 100) hall_redis 7 hall_blocks_ok)) as [H _];
    [by vm_compute|]. apply H. vm_compute. left.
Defined.

Example audit_heals_the_hall :
  let r := set_available {[8 := 1]} empty_redis in
  let '(res, r') := detect_inventory_drift (default_settings "whsec") (λ _ r, r) (hall_db 100) 0 r in
  res = Ok [Lost 7 6] ∧ r_available r' !! 7 = Some 6 ∧ r_available r' !! 8 = Some 1.
Proof. by vm_compute. Qed.

(** An intent accepted after the job looked at the queue ends the whole round: the
    reconciliation refuses, and the events that come after are not audited. *)
Definition one_intent : Redis → Redis := λ r, set_stream (xadd 1 ∅ (r_stream r)).2 r.

Theorem new_intent_aborts_the_audit :
  (detect_inventory_drift (default_settings "whsec") (λ _, one_intent) (hall_db 100) 0 empty_redis).1 =
  Err (Domain (InventoryNotReconcilable 7 1 0)).
Proof. by vm_compute. Qed.
