(* ===== verification/Ledger.v ===== *)
(** The books of one sale, across every part that moves stock: the reservation
    script (Inventory.v), the seat script of the other events (SeatRuns.v), the
    consumer, the recovery and the relay (Worker.v), the transitions of orders and
    their releases (Orders.v) and the reconciliation.  [sys_step] is any action of
    any part, with no guard but the code's own; [disorder] names the actions that the
    code does not rule out and the books do not survive - a key reserved again after
    its claim has lapsed, an intent persisted after it was given back as a dead
    letter, a reconciliation while a release is due - and the end of the window of one
    day, the default time to live, after which claims and markers lapse.  For an event
    sold from the counter, whatever order the other actions come in: what is left in
    Redis, what is reserved in the stream and what the orders hold add up to the
    event's seats; and once nothing is in flight, Redis holds exactly what the audit of
    Drift.v expects.  The last section shows, for each of the three disorders, that it
    does break the books. *)

From S2P Require Import Prelude Exceptions Keys Uuid Redis Streams DB World Inventory SeatRuns.
From S2P Require Import Config Orders Payments Worker Drift.

#[local] Open Scope string_scope.
#[local] Open Scope list_scope.
#[local] Open Scope Z_scope.

(** ** Sums where one term changes *)

Lemma list_sum_change {A} (f g : A → Z) l x :
  NoDup l → x ∈ l → (∀ y, y ∈ l → y ≠ x → f y = g y) →
  list_sum g l = list_sum f l - f x + g x.
Proof.
  intros Hn Hx Hfg. apply list_elem_of_split in Hx as (l1 & l2 & ->).
  apply NoDup_app in Hn as (_ & Hn1 & Hn2). apply NoDup_cons in Hn2 as [Hn2 _].
  rewrite !list_sum_app. cbn [list_sum foldr]. fold (list_sum f l2) (list_sum g l2).
  rewrite (list_sum_ext f g l1), (list_sum_ext f g l2); [lia|..]; intros y Hy; apply Hfg.
  - apply elem_of_app. right. by right.
  - intros ->. done.
  - apply elem_of_app. by left.
  - intros ->. apply (Hn1 x Hy). left.
Qed.

(** What a filter drops counts for nothing. *)
Lemma list_sum_filter {A} (f : A → Z) (P : A → Prop) `{∀ x, Decision (P x)} l :
  (∀ x, x ∈ l → ¬ P x → f x = 0) → list_sum f (filter P l) = list_sum f l.
Proof.
  induction l as [|x l IH]; intros Hz; [done|]. rewrite filter_cons.
  assert (IH' : list_sum f (filter P l) = list_sum f l)
    by (apply IH; intros y Hy; apply Hz; by right).
  destruct (decide (P x)); cbn [list_sum foldr]; fold (list_sum f l);
    fold (list_sum f (filter P l)); rewrite IH'; [done|]. rewrite (Hz x); [lia|left|done].
Qed.

Section map_sums.
Context `{Countable K} {V : Type}.
Implicit Types (m : gmap K V) (f g : V → Z).

Lemma map_sum_ext f g m :
  (∀ i v, m !! i = Some v → f v = g v) → map_sum f m = map_sum g m.
Proof.
  induction m as [|i v m Hi IH] using map_ind; intros Hfg; [by rewrite !map_sum_empty|].
  rewrite !map_sum_insert by done. rewrite (Hfg i v) by apply lookup_insert_eq.
  f_equal. apply IH. intros j w Hj. apply (Hfg j). rewrite lookup_insert_ne; congruence.
Qed.

Lemma map_sum_change f g m i v w :
  m !! i = Some v → (∀ j x, j ≠ i → m !! j = Some x → f x = g x) →
  map_sum g (<[i := w]> m) = map_sum f m - f v + g w.
Proof.
  intros Hi Hfg. rewrite <-insert_delete_eq, map_sum_insert by apply lookup_delete_eq.
  rewrite <-(map_sum_ext f g (delete i m)).
  - rewrite (map_sum_delete _ _ _ _ Hi). lia.
  - intros j x [Hj Hx]%lookup_delete_Some. by apply (Hfg j).
Qed.

Lemma map_sum_list f m : map_sum f m = list_sum f (map_to_list m).*2.
Proof.
  unfold map_sum. rewrite map_fold_foldr. induction (map_to_list m) as [|[i v] l IH]; [done|].
  cbn [foldr fmap list_fmap list_sum uncurry snd]. unfold list_sum in IH. simpl. by rewrite IH.
Qed.
End map_sums.

(** ** Keys and markers *)

(** The database has an order under the key. *)
Definition known (d : DB) (k : string) : bool := is_some (order_by_key d k).

Lemma known_spec d k : known d k = true ↔ ∃ i o, d_orders d !! i = Some o ∧ o_idem o = k.
Proof.
  unfold known. split.
  - destruct (order_by_key d k) as [o|] eqn:Ho; [|done]. intros _.
    apply order_by_key_some in Ho as (i & ? & ?). by exists i, o.
  - intros (i & o & Hi & Hk). by destruct (key_known d k i o Hi Hk) as [x ->].
Qed.

Lemma uuid_str_inj u v : is_uuid u → is_uuid v → uuid_str u = uuid_str v → u = v.
Proof. intros Hu Hv Heq. apply uuid_of_str in Hu, Hv. congruence. Qed.

Lemma dead_marker_inj s t : dead_marker s = dead_marker t → s = t.
Proof. unfold dead_marker. intros ?. by join_step. Qed.
Lemma order_marker_inj i j : order_marker i = order_marker j → i = j.
Proof. unfold order_marker. intros ?. repeat join_step. done. Qed.
Lemma markers_differ s i : dead_marker s ≠ order_marker i.
Proof. unfold dead_marker, order_marker. intros ?. by repeat join_step. Qed.

(** ** The intents of the stream *)

Section sale.
(* the event, its seats, the tickets a person may buy, and the end of the window:
   nothing set with the default time to live during the window lapses in it *)
Context (E T Lim H : Z).

(** What the two scripts append to the stream, under the client's key [u]; the
    event itself has no seat map. *)
Inductive intent : string → fields → Prop :=
  | intent_counter a u :
      is_uuid u → va_idem a = uuid_str u → 0 < va_quantity a → intent u (counter_intent a)
  | intent_seats a u :
      is_uuid u → ca_idem a = uuid_str u → ca_event a ≠ E → intent u (seat_intent a).

(** The quantity the intent still holds: nothing once it is an order, or was given
    back as a dead letter. *)
Definition open_entry (d : DB) (r : Redis) (f : fields) : bool :=
  match int_field f "event_id", key_field f, f !! "idempotency_key" with
  | Ok ev, Ok k, Some s =>
      (ev =? E) && negb (known d k) && negb (released_exists r (dead_marker s))
  | _, _, _ => false
  end.
Definition open_quantity (d : DB) (r : Redis) (f : fields) : Z :=
  if open_entry d r f then match int_field f "quantity" with Ok q => q | Err _ => 0 end else 0.
(** The buyers counted: everybody, or one. *)
Definition everybody : Z → bool := λ _, true.
Definition only (u : Z) : Z → bool := λ v, v =? u.

Definition buyer_in (P : Z → bool) (f : fields) : bool :=
  match int_field f "user_id" with Ok u => P u | Err _ => false end.
Definition open_term (P : Z → bool) (d : DB) (r : Redis) (e : sid * fields) : Z :=
  if buyer_in P e.2 then open_quantity d r e.2 else 0.
Definition open_total (P : Z → bool) (d : DB) (r : Redis) : Z :=
  list_sum (open_term P d r) (s_entries (r_stream r)).

(** The quantity the order holds, until its release. *)
Definition owed_quantity (r : Redis) (o : Order) : Z :=
  if (o_event o =? E) && negb (released_exists r (order_marker (o_id o)))
  then o_quantity o else 0.
Definition owed_term (P : Z → bool) (r : Redis) (o : Order) : Z :=
  if P (o_user o) then owed_quantity r o else 0.
Definition owed_total (P : Z → bool) (d : DB) (r : Redis) : Z :=
  map_sum (owed_term P r) (d_orders d).

(** ** The books *)

(** A key that is claimed to the end of the window. *)
Definition claimed (r : Redis) (s : string) : Prop :=
  ∃ v y, r_claims r !! s = Some (v, y) ∧ H <= y.

(** A marker that is over already, or lasts to the end of the window. *)
Definition lasting (r : Redis) (x : Z) : Prop := x <= r_now r ∨ H <= x.

Record queue_ok (r : Redis) : Prop := {
  q_entries : ∀ e, e ∈ s_entries (r_stream r) → ∃ u, intent u e.2 ∧ claimed r (uuid_str u);
  q_ids : NoDup (s_entries (r_stream r)).*1;
  q_last : ∀ e, e ∈ s_entries (r_stream r) → sid_ltb (s_last (r_stream r)) e.1 = false;
  q_keys : ∀ e1 e2, e1 ∈ s_entries (r_stream r) → e2 ∈ s_entries (r_stream r) →
    key_field e1.2 = key_field e2.2 → e1 = e2;
  q_dead : ∀ s x, r_released r !! dead_marker s = Some x →
    x <= r_now r ∨ (H <= x ∧ claimed r s);
}.

Definition ended (o : Order) : Prop := held_status (o_status o) = false.

(** A release of the order [i] that the relay still has to make. *)
Definition release_due (d : DB) (i : Z) : Prop :=
  ∃ j e, d_outbox d !! j = Some e ∧ ob_type e = SEAT_RELEASE ∧ ob_aggregate e = i ∧
         ob_processed e = None.

Record orders_ok (d : DB) (r : Redis) : Prop := {
  b_rows : ∀ i o, d_orders d !! i = Some o → o_event o = E →
    o_zone o = None ∧ (∀ x, r_released r !! order_marker i = Some x → lasting r x) ∧
    (released_exists r (order_marker i) = true → ended o) ∧
    (ended o → released_exists r (order_marker i) = false → release_due d i);
  b_fresh : ∀ i, d_next_order d <= i → released_exists r (order_marker i) = false;
  b_due : ∀ j e, d_outbox d !! j = Some e → ob_type e = SEAT_RELEASE →
    ob_aggregate e < d_next_order d ∧
    ∀ o, d_orders d !! ob_aggregate e = Some o → o_event o = E → ended o;
}.

(** Reserved and not yet given back. *)
Definition taken (P : Z → bool) (d : DB) (r : Redis) : Z := open_total P d r + owed_total P d r.

(** What is left and what is taken make up the seats; what a buyer has taken is the
    quota used up, within the limit. *)
Record balanced (d : DB) (r : Redis) : Prop := {
  bal_stock : ∃ n, r_available r !! E = Some n ∧ 0 <= n ∧ n + taken everybody d r = T;
  bal_quota : ∀ u, quota r E u = taken (only u) d r;
  bal_limit : ∀ u, taken (only u) d r <= Z.max 0 Lim;
}.

Record ledger (w : World) : Prop := {
  l_db : db_ok (w_db w);
  l_outbox : outbox_inv (w_db w);
  l_event : ∃ ev, d_events (w_db w) !! E = Some ev ∧ ev_total_seats ev = T;
  l_window : r_now (w_redis w) < H <= expiry_after (w_redis w) DEFAULT_TTL_SECONDS;
  l_queue : queue_ok (w_redis w);
  l_orders : orders_ok (w_db w) (w_redis w);
  l_balance : balanced (w_db w) (w_redis w);
}.

(** The intent was given back as a dead letter. *)
Definition refunded (r : Redis) (f : fields) : bool :=
  match f !! "idempotency_key" with
  | Some s => released_exists r (dead_marker s)
  | None => false
  end.

(** Whatever else the system does: it leaves the stock of the event, the stream's
    entries, claims, markers, orders and outbox alone, and time passes. *)
Record unrelated (w w' : World) : Prop := {
  un_db : db_ok (w_db w');
  un_orders : d_orders (w_db w') = d_orders (w_db w);
  un_next : d_next_order (w_db w') = d_next_order (w_db w);
  un_outbox : d_outbox (w_db w') = d_outbox (w_db w);
  un_events : d_events (w_db w') !! E = d_events (w_db w) !! E;
  un_stock : r_available (w_redis w') !! E = r_available (w_redis w) !! E;
  un_quota : ∀ u, quota (w_redis w') E u = quota (w_redis w) E u;
  un_claims : r_claims (w_redis w') = r_claims (w_redis w);
  un_released : r_released (w_redis w') = r_released (w_redis w);
  un_entries : s_entries (r_stream (w_redis w')) = s_entries (r_stream (w_redis w));
  un_last : s_last (r_stream (w_redis w')) = s_last (r_stream (w_redis w));
  un_now : r_now (w_redis w) <= r_now (w_redis w');
}.

(** [XREADGROUP] by a consumer. *)
Definition read_step (consumer : string) (count : nat) (w : World) : World :=
  let r := w_redis w in
  mk_world (w_db w) (set_stream (xreadgroup (r_now r) consumer count (r_stream r)).2 r).

(** An entry that some consumer or recovery holds: it is in the stream, or it has
    left it because it was persisted or given back. *)
Definition held_entry (w : World) (e : sid * fields) : Prop :=
  e ∈ s_entries (r_stream (w_redis w)) ∨
  (e.1 ∉ (s_entries (r_stream (w_redis w))).*1) ∧ (∃ u, intent u e.2) ∧
    (recorded e.2 (w_db w) ∨ refunded (w_redis w) e.2 = true).

(** What the parts of the system do, one transaction or script at a time. *)
Inductive action : Type :=
  | ac_reserve (a : reserve_args)
  | ac_claim_seats (a : claim_args)
  | ac_read (consumer : string) (count : nat)
  | ac_consume (x : faults) (tx : Z) (e : sid * fields)
  | ac_reclaim (x : faults) (tx min_idle max_deliveries excess : Z) (p : sid * pending)
  | ac_dead_letter (excess : Z) (e : sid * fields)     (* and a crash before the acknowledgement *)
  | ac_paid (now : Z) (order : Order)
  | ac_confirmed (now tx : Z) (order : Order)
  | ac_cancel (now tx : Z) (order : Order)
  | ac_expire (now tx : Z) (order : Order)
  | ac_release (order : Order)
  | ac_lease (locked : gset Z) (now : Z)
  | ac_relay (now : Z) (e : OutboxEntry)
  | ac_purge (now : Z)
  | ac_reconcile
  | ac_other (w' : World).

Definition perform (t : action) (w : World) : World :=
  match t with
  | ac_reserve a => (in_redis (reserve_and_enqueue a) w).2
  | ac_claim_seats a => mk_world (w_db w) (claim_seats_lua a (w_redis w)).2
  | ac_read consumer count => read_step consumer count w
  | ac_consume x tx e => (consume_entry x tx e w).2
  | ac_reclaim x tx min_idle max_deliveries excess p =>
      (reclaim_entry x tx min_idle max_deliveries excess p w).2
  | ac_dead_letter excess e => (dead_letter_intent excess e.1 e.2 w).2
  | ac_paid now order => (transaction (mark_paid now order) w).2
  | ac_confirmed now tx order => (transaction (mark_confirmed now tx order) w).2
  | ac_cancel now tx order => (transaction (cancel_order now tx order) w).2
  | ac_expire now tx order => (transaction (expire_order now tx order) w).2
  | ac_release order => (release_order_seat order w).2
  | ac_lease locked now => (transaction (claim_outbox locked now) w).2
  | ac_relay now e => (process_row now e w).2
  | ac_purge now => (transaction (purge_processed_outbox now) w).2
  | ac_reconcile => (in_redis (reconcile_inventory (w_db w) E false) w).2
  | ac_other w' => w'
  end.

(** What the callers of an action see to: a key is a UUID, a quantity positive, the
    claims last the default time, the limit is the configured one; a worker holds
    entries of the stream and rows of the outbox; an order is given back after it was
    cancelled or has expired. *)
Definition possible (w : World) (t : action) : Prop :=
  match t with
  | ac_reserve a => (∃ u, is_uuid u ∧ va_idem a = uuid_str u) ∧ 0 < va_quantity a ∧
      va_ttl a = DEFAULT_TTL_SECONDS ∧ (va_event a = E → va_limit a = Lim)
  | ac_claim_seats a => (∃ u, is_uuid u ∧ ca_idem a = uuid_str u) ∧ ca_event a ≠ E ∧
      ca_ttl a = DEFAULT_TTL_SECONDS
  | ac_consume _ _ e | ac_dead_letter _ e => held_entry w e
  | ac_release order => ∃ row, d_orders (w_db w) !! o_id order = Some row ∧
      same_purchase row order ∧ (o_event row = E → ended row)
  | ac_relay _ e => row_of w e
  | ac_other w' => unrelated w w'
  | _ => True
  end.

(** Any step of the system, and any of its histories. *)
Definition sys_step (w w' : World) : Prop := ∃ t, possible w t ∧ w' = perform t w.

(** What the code does not rule out and the books do not survive (the examples at the
    end): a key is reserved again after its claim has lapsed, though there is an order
    under it; a consumer or a retry takes up an intent that was given back as a dead
    letter; the stock is reconciled while a release is due.  And the end of the
    window, after which claims and markers lapse. *)
Inductive disorder (w : World) : action → Prop :=
  | dis_lapsed_key a u :
      va_event a = E → is_uuid u → va_idem a = uuid_str u → known (w_db w) u = true →
      claim_exists (w_redis w) (va_idem a) = false → disorder w (ac_reserve a)
  | dis_late_consumer x tx e :
      refunded (w_redis w) e.2 = true → disorder w (ac_consume x tx e)
  | dis_late_retry x tx min_idle max_deliveries excess p f :
      (p.1, f) ∈ s_entries (r_stream (w_redis w)) → p_count p.2 < max_deliveries →
      refunded (w_redis w) f = true →
      disorder w (ac_reclaim x tx min_idle max_deliveries excess p)
  | dis_early_reconcile i o :
      d_orders (w_db w) !! i = Some o → o_event o = E → ended o →
      released_exists (w_redis w) (order_marker i) = false → disorder w ac_reconcile
  | dis_window w' : H <= r_now (w_redis w') → disorder w (ac_other w').

(** A step without disorder. *)
Definition orderly_step (w w' : World) : Prop :=
  ∃ t, possible w t ∧ ¬ disorder w t ∧ w' = perform t w.

Lemma orderly_is_step w w' : orderly_step w w' → sys_step w w'.
Proof. intros (t & ? & _ & ?). by exists t. Qed.

(** ** What the intents say *)

Lemma intent_reads u f :
  intent u f →
  is_uuid u ∧ f !! "idempotency_key" = Some (uuid_str u) ∧ key_field f = Ok u ∧
  ∃ ev q us, int_field f "event_id" = Ok ev ∧ int_field f "quantity" = Ok q ∧
    int_field f "user_id" = Ok us ∧ (ev = E → 0 < q ∧ optional_field f "block_id" = None).
Proof.
  destruct 1 as [a u Hu Hk Hq|a u Hu Hk Hev].
  - destruct (counter_intent_fields a) as (H1 & H2 & H3 & _ & H5 & _ & H7). rewrite Hk in H5.
    split_and!; [done..|by apply key_field_uuid|].
    exists (va_event a), (va_quantity a), (va_user a). split_and!; try by apply int_field_str.
    intros _. split; [done|]. unfold optional_field. by rewrite H7.
  - destruct (seat_intent_fields a) as (H1 & H2 & H3 & _ & H5 & _). rewrite Hk in H5.
    split_and!; [done..|by apply key_field_uuid|].
    exists (ca_event a), (ca_len a), (ca_user a). by split_and!; try by apply int_field_str.
Qed.

Lemma open_entry_intent u f d r ev :
  intent u f → int_field f "event_id" = Ok ev →
  open_entry d r f =
    (ev =? E) && negb (known d u) && negb (released_exists r (dead_marker (uuid_str u))).
Proof.
  intros Hi Hev. destruct (intent_reads u f Hi) as (_ & Hs & Hk & _).
  unfold open_entry. by rewrite Hev, Hk, Hs.
Qed.

(** An entry counts for nothing where its key is known or its marker lives. *)
Lemma open_quantity_settled u f d r :
  intent u f → known d u = true ∨ released_exists r (dead_marker (uuid_str u)) = true →
  open_quantity d r f = 0.
Proof.
  intros Hi Hs. destruct (intent_reads u f Hi) as (_ & _ & _ & ev & q & us & Hev & _).
  unfold open_quantity. rewrite (open_entry_intent u f d r ev Hi Hev).
  destruct Hs as [->| ->]; destruct (ev =? E); simpl; try done. by destruct (negb _).
Qed.

(** Two worlds count an entry alike where its key and its marker are alike. *)
Lemma open_quantity_alike u f d d' r r' :
  intent u f → known d' u = known d u →
  released_exists r' (dead_marker (uuid_str u)) = released_exists r (dead_marker (uuid_str u)) →
  open_quantity d' r' f = open_quantity d r f.
Proof.
  intros Hi Hd Hr. destruct (intent_reads u f Hi) as (_ & _ & _ & ev & q & us & Hev & _).
  unfold open_quantity. by rewrite !(open_entry_intent u f _ _ ev Hi Hev), Hd, Hr.
Qed.

Lemma open_total_ext P d d' r r' :
  s_entries (r_stream r') = s_entries (r_stream r) →
  (∀ e u, e ∈ s_entries (r_stream r) → intent u e.2 → known d' u = known d u ∧
     released_exists r' (dead_marker (uuid_str u)) = released_exists r (dead_marker (uuid_str u))) →
  (∀ e, e ∈ s_entries (r_stream r) → ∃ u, intent u e.2 ∧ claimed r (uuid_str u)) →
  open_total P d' r' = open_total P d r.
Proof.
  intros He Hsame Hin. unfold open_total. rewrite He. apply list_sum_ext. intros e Hx.
  destruct (Hin e Hx) as (u & Hi & _). destruct (Hsame e u Hx Hi) as [Hd Hr].
  unfold open_term. by rewrite (open_quantity_alike u e.2 d d' r r').
Qed.

Lemma queue_intent r e u :
  queue_ok r → e ∈ s_entries (r_stream r) → key_field e.2 = Ok u →
  intent u e.2 ∧ claimed r (uuid_str u).
Proof.
  intros Hq He Hk. destruct (q_entries _ Hq e He) as (v & Hi & Hc).
  destruct (intent_reads v e.2 Hi) as (_ & _ & Hk' & _).
  assert (v = u) as -> by congruence. done.
Qed.

(** ** Time passes *)

Lemma released_later r r' m :
  r_released r' !! m = r_released r !! m → r_now r <= r_now r' < H →
  (∀ x, r_released r !! m = Some x → lasting r x) → released_exists r' m = released_exists r m.
Proof.
  intros Hm Hn Hl. unfold released_exists. rewrite Hm. destruct (r_released r !! m) as [x|]; [|done].
  specialize (Hl x eq_refl). unfold live, lasting in *. apply eq_true_iff_eq. rewrite !Z.ltb_lt. lia.
Qed.

Lemma dead_lasting r s x : queue_ok r → r_released r !! dead_marker s = Some x → lasting r x.
Proof. intros Hq Hx. destruct (q_dead _ Hq s x Hx) as [|[? _]]; [by left|by right]. Qed.

Lemma unrelated_ledger w w' :
  unrelated w w' → r_now (w_redis w') < H → ledger w → ledger w'.
Proof.
  intros [Hdb Ho Hn Hob Hev Hst Hqt Hc Hr He Hl Ht] HtH [L1 L2 L3 L4 L5 L6 L7].
  destruct w as [d r], w' as [d' r']. simpl in *.
  assert (Hlast : ∀ x, lasting r x → lasting r' x) by (unfold lasting; intros x [|]; lia).
  assert (Hcl : ∀ s, claimed r s → claimed r' s) by (intros s (v & y & ? & ?); exists v, y; by rewrite Hc).
  assert (Hdead : ∀ s, released_exists r' (dead_marker s) = released_exists r (dead_marker s)).
  { intros s. apply released_later; [by rewrite Hr|done|]. intros x. by apply dead_lasting. }
  assert (Hord : ∀ i o, d_orders d !! i = Some o → o_event o = E →
    released_exists r' (order_marker i) = released_exists r (order_marker i)).
  { intros i o Hi HE. apply released_later; [by rewrite Hr|done|]. apply (b_rows _ _ L6 i o Hi HE). }
  assert (Hkn : ∀ k, known d' k = known d k) by (intros k; unfold known, order_by_key; by rewrite Ho).
  split; simpl.
  - done.
  - intros i e. rewrite Hob. apply L2.
  - by rewrite Hev.
  - unfold expiry_after in *. lia.
  - destruct L5 as [Q1 Q2 Q3 Q4 Q5]. split; rewrite ?He, ?Hl, ?Hr; try done.
    + intros e Hin. destruct (Q1 e Hin) as (u & ? & ?). exists u. auto.
    + intros s x Hx. destruct (Q5 s x Hx) as [|[]]; [left; lia|right; auto].
  - destruct L6 as [B1 B2 B3]. split; rewrite ?Ho, ?Hn, ?Hob; try done.
    + intros i o Hi HE. destruct (B1 i o Hi HE) as (? & Hx & Hm & Hd).
      rewrite (Hord i o Hi HE), Hr. split_and!; [done|auto|done|].
      intros Hend Hf. destruct (Hd Hend Hf) as (j & e & ?). exists j, e. by rewrite Hob.
    + intros i Hi. specialize (B2 i Hi). unfold released_exists, live in *. rewrite Hr.
      destruct (r_released r !! _); [|done]. zlia.
  - assert (Htk : ∀ P, taken P d' r' = taken P d r).
    { intros P. unfold taken, owed_total. rewrite Ho. f_equal.
      - apply open_total_ext; [done|by intros; auto|apply L5].
      - apply map_sum_ext. intros i o Hi. unfold owed_term, owed_quantity.
        destruct (ok_order_checks _ L1 i o Hi) as [-> _].
        destruct (o_event o =? E) eqn:HE; [|done]. zbool. by rewrite (Hord i o Hi HE). }
    destruct L7 as [B1 B2 B3]. split; [by rewrite Hst, Htk|intros u; by rewrite Hqt, Htk|].
    intros u. by rewrite Htk.
Qed.

(** ** A reservation *)

Lemma claimed_exists r s : r_now r < H → claimed r s → claim_exists r s = true.
Proof.
  intros Hn (v & y & Hc & Hy). unfold claim_exists, claim_state, live. rewrite Hc.
  replace (r_now r <? y) with true by (symmetry; zlia). by apply bool_decide_eq_true_2.
Qed.

Lemma next_sid_after now s : sid_ltb (s_last s) (next_sid now s) = true.
Proof.
  unfold next_sid, sid_ltb. destruct (s_last s) as [ms sq].
  destruct (ms <? now) eqn:?; simpl; rewrite orb_true_iff, ?andb_true_iff, !Z.ltb_lt, ?Z.eqb_eq; zlia.
Qed.

(** An intent appended under a key nobody had claimed. *)
Record appended (u : string) (f : fields) (r r' : Redis) : Prop := {
  ad_intent : intent u f;
  ad_fresh : claim_exists r (uuid_str u) = false;
  ad_stream : ∃ i, (i, r_stream r') = xadd (r_now r) f (r_stream r);
  ad_claims : ∃ v, r_claims r' = <[uuid_str u := (v, expiry_after r DEFAULT_TTL_SECONDS)]> (r_claims r);
  ad_released : r_released r' = r_released r;
  ad_now : r_now r' = r_now r;
  ad_stock : ∃ ev q us, int_field f "event_id" = Ok ev ∧ int_field f "quantity" = Ok q ∧
    int_field f "user_id" = Ok us ∧
    r_available r' = incrby ev (- q) (r_available r) ∧
    r_purchased r' = hincrby ev us q (r_purchased r) ∧
    (ev = E → (∀ n, r_available r !! E = Some n → q <= n) ∧ quota r E us + q <= Lim);
}.

Lemma appended_queue u f r r' :
  r_now r < H <= expiry_after r DEFAULT_TTL_SECONDS → queue_ok r → appended u f r r' → queue_ok r'.
Proof.
  intros Hw Hq [Hi Hf [i Hs] [v Hc] Hr Hn _]. unfold xadd in Hs. injection Hs as -> Hs.
  set (i := next_sid (r_now r) (r_stream r)) in *.
  assert (Hnew : i ∉ (s_entries (r_stream r)).*1).
  { intros (e & He & Hin)%list_elem_of_fmap. pose proof (q_last _ Hq e Hin) as Hl.
    rewrite <-He in Hl. unfold i in Hl. by rewrite next_sid_after in Hl. }
  assert (Hcl : ∀ s, claimed r s → claimed r' s).
  { intros s (w & y & Hy & ?). destruct (decide (s = uuid_str u)) as [->|Hne].
    - exists v, (expiry_after r DEFAULT_TTL_SECONDS). rewrite Hc, lookup_insert_eq. split; [done|lia].
    - exists w, y. by rewrite Hc, lookup_insert_ne. }
  assert (Hmine : claimed r' (uuid_str u))
    by (exists v, (expiry_after r DEFAULT_TTL_SECONDS); rewrite Hc, lookup_insert_eq; split; [done|lia]).
  assert (Hother : ∀ e, e ∈ s_entries (r_stream r) → key_field e.2 ≠ key_field f).
  { intros e He Heq. destruct (intent_reads u f Hi) as (_ & _ & Hk & _). rewrite Hk in Heq.
    destruct (queue_intent _ _ _ Hq He Heq) as [_ Hcu].
    apply claimed_exists in Hcu; [congruence|lia]. }
  split; rewrite ?Hs; simpl.
  - intros e [He| ->%list_elem_of_singleton]%elem_of_app; [|by exists u].
    destruct (q_entries _ Hq e He) as (w & ? & ?). exists w. auto.
  - rewrite fmap_app. apply NoDup_app. split; [apply Hq|]. split; [|apply NoDup_singleton].
    by intros x Hx ->%list_elem_of_singleton.
  - intros e [He| ->%list_elem_of_singleton]%elem_of_app; [|apply sid_ltb_irrefl].
    apply not_true_iff_false. intros Hlt. pose proof (q_last _ Hq e He) as Hl.
    assert (sid_ltb (s_last (r_stream r)) e.1 = true); [|congruence].
    eapply sid_ltb_trans; [apply next_sid_after|exact Hlt].
  - intros e1 e2 [H1| ->%list_elem_of_singleton]%elem_of_app
      [H2| ->%list_elem_of_singleton]%elem_of_app Heq; try done; [by apply Hq| |].
    + by destruct (Hother e1 H1).
    + by destruct (Hother e2 H2).
  - intros s x. rewrite Hr, Hn. intros Hx. destruct (q_dead _ Hq s x Hx) as [|[]]; auto.
Qed.

(** The markers alone decide [orders_ok] and what is owed. *)
Lemma same_markers_exists r r' m :
  r_released r' = r_released r → r_now r' = r_now r → released_exists r' m = released_exists r m.
Proof. unfold released_exists, live. by intros -> ->. Qed.

Lemma same_markers_orders d r r' :
  r_released r' = r_released r → r_now r' = r_now r → orders_ok d r → orders_ok d r'.
Proof.
  intros Hr Hn [B1 B2 B3]. split; [|intros i; rewrite (same_markers_exists r r') by done; apply B2|done].
  intros i o Hi HE. rewrite (same_markers_exists r r') by done. unfold lasting. rewrite Hr, Hn.
  by apply B1.
Qed.

Lemma same_markers_owed P d r r' :
  r_released r' = r_released r → r_now r' = r_now r → owed_total P d r' = owed_total P d r.
Proof.
  intros Hr Hn. apply map_sum_ext. intros i o _. unfold owed_term, owed_quantity.
  by rewrite (same_markers_exists r r').
Qed.

Lemma appended_ledger u f d r r' :
  ledger (mk_world d r) → appended u f r r' →
  (int_field f "event_id" = Ok E → known d u = false) → ledger (mk_world d r').
Proof.
  intros [L1 L2 L3 L4 L5 L6 L7] Ha Hkn. simpl in *.
  pose proof (appended_queue u f r r' L4 L5 Ha) as Hq.
  destruct Ha as [Hi Hf [i Hs] _ Hr Hn (ev & q & us & Hev & Hqt & Hus & Hav & Hpu & Hle)].
  split; simpl; try done.
  - unfold expiry_after in *. by rewrite Hn.
  - by apply (same_markers_orders d r).
  - assert (Hopen : ∀ P, open_total P d r' = open_total P d r +
      if decide (ev = E ∧ P us = true) then q else 0).
    { intros P. unfold open_total. unfold xadd in Hs. injection Hs as _ ->. simpl.
      rewrite list_sum_app. simpl. f_equal.
      - apply list_sum_ext. intros e He. destruct (q_entries _ L5 e He) as (v & Hv & _). unfold open_term.
        erewrite open_quantity_alike; [done..|]. by apply same_markers_exists.
      - unfold open_term, buyer_in, open_quantity. cbn [snd].
        rewrite Hus, (open_entry_intent u f _ _ ev Hi Hev), Hqt.
        destruct (P us); [|rewrite decide_False by (by intros [_ ?]); lia].
        destruct (decide (ev = E ∧ true = true)) as [[-> _]|Hne].
        + rewrite Z.eqb_refl, (Hkn Hev), (same_markers_exists r r') by done.
          destruct (released_exists r (dead_marker (uuid_str u))) eqn:Hx; simpl; [|lia].
          exfalso. unfold released_exists in Hx. destruct (r_released r !! _) as [x|] eqn:Hx'; [|done].
          destruct (q_dead _ L5 _ _ Hx') as [?|[_ Hc]]; [unfold live in Hx; zlia|].
          apply claimed_exists in Hc; [congruence|lia].
        + destruct (ev =? E) eqn:HE; [zbool; by destruct Hne|]. simpl. lia. }
    assert (Htk : ∀ P, taken P d r' = taken P d r + if decide (ev = E ∧ P us = true) then q else 0).
    { intros P. unfold taken. rewrite Hopen, (same_markers_owed P d r r') by done. lia. }
    destruct L7 as [(n & Hn0 & Hpos & Hsum) B2 B3].
    assert (Hquota : ∀ v, quota r' E v = taken (only v) d r').
    { intros v. rewrite Htk, <-B2. unfold quota. rewrite Hpu, quota_hincrby. f_equal. unfold only.
      apply decide_ext. rewrite Z.eqb_eq. split; by intros [-> ->]. }
    split; [|done|].
    + rewrite Htk, Hav. destruct (decide _) as [[-> _]|Hne].
      * destruct (Hle eq_refl) as [Hqn _]. specialize (Hqn n Hn0).
        exists (n - q). unfold incrby. rewrite lookup_insert_eq, Hn0. simpl.
        split_and!; [f_equal; lia|lia|lia].
      * assert (ev ≠ E) by (intros ->; by apply Hne). exists n. rewrite incrby_ne by done.
        split_and!; [done..|lia].
    + intros v. specialize (B3 v). rewrite Htk. destruct (decide _) as [[-> Hv]|_]; [|lia].
      destruct (Hle eq_refl) as [_ Hlim]. unfold only in Hv. zbool. subst us. rewrite B2 in Hlim. lia.
Qed.

Lemma poke_ledger d e r : ledger (mk_world d r) → ledger (mk_world d (poke e r)).
Proof.
  intros L. apply (unrelated_ledger (mk_world d r)); [|apply L|done]. destruct L as [L1 _ _ _ _ _ _].
  split; simpl in *; done.
Qed.

Lemma reserve_ledger a u w :
  is_uuid u → va_idem a = uuid_str u → 0 < va_quantity a → va_ttl a = DEFAULT_TTL_SECONDS →
  (va_event a = E → va_limit a = Lim ∧
     (known (w_db w) u = true → claim_exists (w_redis w) (va_idem a) = true)) →
  ledger w → ledger (in_redis (reserve_and_enqueue a) w).2.
Proof.
  intros Hu Hk Hq Ht Hkn L. destruct w as [d r]. unfold in_redis, reserve_and_enqueue. simpl in *.
  pose proof (reserve_lua_cases a r) as Hc.
  destruct (reserve_lua a r) as [[|n|h l|i n] r']; simpl; [by destruct Hc as [-> _]..|].
  assert (L' : ledger (mk_world d r')).
  { apply (appended_ledger u (counter_intent a) d r); [done| |].
    - destruct Hc as [Hf (av & Hav & Hle & _) Hquota Ha Hp Hs Hcl Hr Hn]. rewrite Hk, ?Ht in *.
      split; [by apply intent_counter|exact Hf|by exists i|by eexists|exact Hr|exact Hn|].
      exists (va_event a), (va_quantity a), (va_user a).
      destruct (counter_intent_fields a) as (H1 & H2 & H3 & _).
      split_and!; [by apply int_field_str..|done|done|]. intros HE. destruct (Hkn HE) as [HL _].
      rewrite HE, HL in *. split; [|done]. intros m Hm. simplify_eq. lia.
    - intros HE. destruct (counter_intent_fields a) as (_ & H2 & _).
      rewrite (int_field_str _ _ _ H2) in HE. injection HE as HE.
      apply not_true_iff_false. intros Hx. pose proof (ve_fresh _ _ _ _ _ Hc).
      destruct (Hkn HE) as [_ Hkn']. by rewrite Hkn' in *. }
  destruct (n =? 0); [by apply poke_ledger|done].
Qed.

Lemma claim_seats_ledger a u w :
  is_uuid u → ca_idem a = uuid_str u → ca_event a ≠ E → ca_ttl a = DEFAULT_TTL_SECONDS →
  ledger w → ledger (mk_world (w_db w) (claim_seats_lua a (w_redis w)).2).
Proof.
  intros Hu Hk HE Ht L. destruct w as [d r]. simpl in *.
  destruct (claim_seats_lua a r) as [res r'] eqn:Hc. pose proof (claim_rejected _ _ _ _ Hc) as Hrej.
  destruct res; simpl; [by subst..|]. apply claim_accepted in Hc.
  destruct (seat_intent_fields a) as (H1 & H2 & H3 & _).
  apply (appended_ledger u (seat_intent a) d r); [done| |].
  - destruct Hc as [Hf _ _ _ _ _ _ _ Ha Hp Hs Hcl Hn _ Hr]. rewrite Hk, Ht in *.
    split; [by apply intent_seats|exact Hf|by eexists|by eexists|exact Hr|exact Hn|].
    exists (ca_event a), (ca_len a), (ca_user a). by split_and!; [by apply int_field_str..|done|done|].
  - rewrite (int_field_str _ _ _ H2). congruence.
Qed.

(** ** An entry leaves the stream *)

Lemma ack_ledger i d r :
  ledger (mk_world d r) →
  (∀ e, e ∈ s_entries (r_stream r) → e.1 = i → open_quantity d r e.2 = 0) →
  ledger (mk_world d (set_stream (ack_entry i (r_stream r)) r)).
Proof.
  intros [L1 L2 L3 L4 L5 L6 L7] Hz. split; simpl in *; try done.
  - destruct L5 as [Q1 Q2 Q3 Q4 Q5]. split; simpl; try done.
    + intros e [_ He]%list_elem_of_filter. by apply Q1.
    + eapply sublist_NoDup; [exact Q2|]. apply fmap_sublist, sublist_filter.
    + intros e [_ He]%list_elem_of_filter. by apply Q3.
    + intros e1 e2 [_ H1]%list_elem_of_filter [_ H2]%list_elem_of_filter. by apply Q4.
  - by apply (same_markers_orders d r).
  - assert (Htk : ∀ P, taken P d (set_stream (ack_entry i (r_stream r)) r) = taken P d r).
    { intros P. unfold taken. f_equal. unfold open_total. simpl. apply list_sum_filter.
      intros e He Hi. unfold open_term. destruct (decide (e.1 = i)) as [Heq|]; [|done].
      rewrite (Hz e He Heq). by destruct (buyer_in _ _). }
    destruct L7 as [B1 B2 B3].
    split; [by rewrite Htk|intros u; rewrite Htk; apply B2|intros u; rewrite Htk; apply B3].
Qed.

(** ** An intent becomes an order *)

Lemma persist_tx_events x tx f z b e : keeps (λ d, d_events d !! E = e) (persist_tx x tx f z b).
Proof.
  unfold persist_tx, create_order.
  assert (Hio : ∀ o, keeps (λ d, d_events d !! E = e) (first_statement x (insert_order o))).
  { intros o d Hd. assert (Hk : d_events (insert_order o d).2 !! E = e).
    { unfold insert_order. destruct (negb _); [done|]. by destruct (opt_or _ _). }
    unfold first_statement. by destruct x as [|[]| |]. }
  assert (Hih : ∀ h, keeps (λ d, d_events d !! E = e) (insert_hold h)).
  { intros h d Hd. unfold insert_hold. destruct (negb _); [done|].
    destruct (hold_violation _ _); [done|]. by destruct (negb _). }
  repeat (apply keeps_bind; [auto with prog|intros]). destruct b; [|auto with prog].
  repeat (apply keeps_bind; [auto with prog|intros]). auto.
Qed.

Lemma persist_intent_events x tx f w :
  d_events (w_db (persist_intent x tx f w).2) !! E = d_events (w_db w) !! E.
Proof.
  unfold persist_intent. destruct (negb _); [done|]. unfold try_catch, bind at 1.
  pose proof (persist_tx_events x tx f (optional_field f "zone_id") (optional_field f "block_id")
    (d_events (w_db w) !! E) (w_db w) eq_refl) as H1.
  unfold faulty_transaction at 1.
  destruct (persist_tx _ _ _ _ _ (w_db w)) as [[u|ex] d]; simpl in *; [by destruct x as [| |[]|]|].
  destruct ex; try done. unfold bind, lift. destruct (key_field f); [|done]. by destruct x.
Qed.

Lemma known_insert d d' i o k :
  d_orders d !! i = None → d_orders d' = <[i := o]> (d_orders d) →
  known d' k = bool_decide (k = o_idem o) || known d k.
Proof.
  intros Hi Ho. apply eq_true_iff_eq. rewrite orb_true_iff, bool_decide_eq_true, !known_spec, Ho. split.
  - intros (j & x & Hx & <-). apply lookup_insert_Some in Hx as [[_ <-]|[_ Hx]]; eauto.
  - intros [->|(j & x & Hx & <-)]; [exists i, o; by rewrite lookup_insert_eq|].
    exists j, x. split; [|done]. rewrite lookup_insert_ne by congruence. done.
Qed.

(** What is open goes down by the one entry that is settled. *)
Lemma open_total_settle P u e d d' r r' :
  queue_ok r → s_entries (r_stream r') = s_entries (r_stream r) → e ∈ s_entries (r_stream r) →
  intent u e.2 → known d' u = true ∨ released_exists r' (dead_marker (uuid_str u)) = true →
  (∀ v, is_uuid v → v ≠ u → known d' v = known d v ∧
     released_exists r' (dead_marker (uuid_str v)) = released_exists r (dead_marker (uuid_str v))) →
  open_total P d' r' = open_total P d r - open_term P d r e.
Proof.
  intros Hq Hs He Hi Hset Hsame. destruct (intent_reads u e.2 Hi) as (_ & _ & Hk & _).
  unfold open_total. rewrite Hs.
  rewrite (list_sum_change (open_term P d r) _ _ e); [|apply (NoDup_fmap_1 fst), Hq|done|].
  - unfold open_term at 3. rewrite (open_quantity_settled u e.2 d' r' Hi Hset).
    by destruct (buyer_in _ _); lia.
  - intros y Hy Hne. symmetry. destruct (q_entries _ Hq y Hy) as (v & Hv & _). unfold open_term.
    destruct (intent_reads v y.2 Hv) as (Hv' & _ & Hkv & _).
    destruct (Hsame v Hv') as [Hd Hr]; [|by erewrite open_quantity_alike].
    intros ->. apply Hne, (q_keys _ Hq); [done..|]. by rewrite Hk.
Qed.

Lemma orders_ok_insert d d' r o :
  orders_ok d r → o_id o = d_next_order d → d_next_order d < d_next_order d' →
  d_orders d' = <[o_id o := o]> (d_orders d) → d_outbox d' = d_outbox d →
  held_status (o_status o) = true → (o_event o = E → o_zone o = None) → orders_ok d' r.
Proof.
  intros [B1 B2 B3] Hid Hnext Hor Hob Hst Hz. split.
  - intros i x Hx HE. rewrite Hor in Hx. unfold release_due. rewrite Hob.
    apply lookup_insert_Some in Hx as [[<- <-]|[_ Hx]]; [|by apply B1].
    assert (Hm : released_exists r (order_marker (o_id o)) = false) by (apply B2; lia).
    rewrite Hm. split_and!; [by apply Hz| |done|unfold ended; congruence].
    intros x Hx. left. unfold released_exists, live in Hm. rewrite Hx in Hm. zlia.
  - intros i Hge. apply B2. lia.
  - rewrite Hob, Hor. intros j x Hx Hty. destruct (B3 j x Hx Hty) as [Hlt Hend].
    split; [lia|]. intros y Hy. rewrite lookup_insert_ne in Hy by lia. by apply Hend.
Qed.

(** The order takes over what the entry held. *)
Lemma recorded_ledger tx e d d' r :
  ledger (mk_world d r) → e ∈ s_entries (r_stream r) → refunded r e.2 = false → ¬ recorded e.2 d →
  intent_written e.2 tx d d' → db_ok d' → d_events d' !! E = d_events d !! E →
  ledger (mk_world d' r).
Proof.
  intros [L1 L2 L3 L4 L5 L6 L7] He Hal0 Hnr Hw Hd' Hev. simpl in *.
  assert (Hal : ∀ s, e.2 !! "idempotency_key" = Some s → released_exists r (dead_marker s) = false)
    by (intros s Hs; unfold refunded in Hal0; by rewrite Hs in Hal0).
  destruct (q_entries _ L5 e He) as (u & Hi & _).
  destruct (intent_reads u e.2 Hi) as (Hu & Hs & Hk & ev & q & us & Hevf & Hqf & Husf & Hown).
  destruct Hw as (o & zone & _ & (Hou & Hoe & Hoq & _ & Hok & Hoz & Host & _) & _ & Hid & Hor & Hob & _ & Hh).
  assert (o_event o = ev) as Eev by congruence. assert (o_quantity o = q) as Eq by congruence.
  assert (o_idem o = u) as Eu by congruence. assert (o_user o = us) as Eus by congruence.
  assert (Hfresh : d_orders d !! o_id o = None).
  { apply eq_None_not_Some. intros Hx. pose proof (ok_order_ids _ L1 _ Hx). lia. }
  assert (Hnext : d_next_order d < d_next_order d').
  { rewrite <-Hid. apply (ok_order_ids _ Hd'). rewrite Hor, lookup_insert_eq. by eexists. }
  assert (Hun : known d u = false).
  { apply not_true_iff_false. unfold known. intros Hx. apply Hnr. exists u.
    destruct (order_by_key d u) as [x|] eqn:Ho; [|done]. by exists x. }
  assert (Hkn : ∀ k, known d' k = bool_decide (k = u) || known d k)
    by (intros k; rewrite <-Eu; by apply (known_insert d d' (o_id o) o)).
  split; simpl; try done.
  - intros i x. rewrite Hob. apply L2.
  - by rewrite Hev.
  - apply (orders_ok_insert d d' r o); [done..|by rewrite Host|].
    intros HE. rewrite Eev in HE. destruct (Hown HE) as [_ Hb]. rewrite Hb in Hh. rewrite Hoz. apply Hh.
  - assert (Hopen : ∀ P, open_total P d' r = open_total P d r - open_term P d r e).
    { intros P. apply (open_total_settle P u); [done|done|done|done| |].
      - left. by rewrite Hkn, bool_decide_eq_true_2.
      - intros v _ Hv. by rewrite Hkn, bool_decide_eq_false_2. }
    assert (Howed : ∀ P, owed_total P d' r = owed_total P d r + owed_term P r o).
    { intros P. unfold owed_total. rewrite Hor, map_sum_insert by done. lia. }
    assert (Htk : ∀ P, taken P d' r = taken P d r).
    { intros P. unfold taken. rewrite Hopen, Howed. unfold open_term, owed_term, buyer_in.
      rewrite Husf, Eus. destruct (P us); [|lia]. unfold open_quantity, owed_quantity.
      rewrite (open_entry_intent u e.2 d r ev Hi Hevf), Hun, (Hal _ Hs), Hqf, Eev, Eq.
      rewrite (b_fresh _ _ L6 (o_id o)) by lia. destruct (ev =? E); simpl; lia. }
    destruct L7 as [B1 B2 B3].
    split; [by rewrite Htk|intros v; by rewrite Htk|intros v; by rewrite Htk].
Qed.

(** The same tables and more: the sequences do not count. *)
Lemma same_tables_ledger d d' r :
  ledger (mk_world d r) → same_tables d d' → db_ok d' → d_next_order d <= d_next_order d' →
  ledger (mk_world d' r).
Proof.
  intros [L1 L2 L3 L4 L5 L6 L7] [So _ Sb Se _ _] Hd' Hn. simpl in *.
  assert (Hkn : ∀ k, known d' k = known d k) by (intros k; unfold known, order_by_key; by rewrite So).
  split; simpl; try done.
  - intros i x. rewrite Sb. apply L2.
  - by rewrite Se.
  - destruct L6 as [B1 B2 B3]. split.
    + rewrite So. intros i o Hi HE. destruct (B1 i o Hi HE) as (? & ? & ? & Hdue).
      split_and!; [done..|]. intros Hend Hm. destruct (Hdue Hend Hm) as (j & x & ?).
      exists j, x. by rewrite Sb.
    + intros i Hi. apply B2. lia.
    + rewrite So, Sb. intros j x Hx Hty. destruct (B3 j x Hx Hty). split; [lia|done].
  - assert (Htk : ∀ P, taken P d' r = taken P d r).
    { intros P. unfold taken, owed_total. rewrite So. f_equal.
      apply open_total_ext; [done|by intros|apply L5]. }
    destruct L7 as [B1 B2 B3].
    split; [by rewrite Htk|intros u; by rewrite Htk|intros u; by rewrite Htk].
Qed.

(** ** Giving back *)

(** A release under the marker [m], run for the first time. *)
Record given_back (m : string) (ev us q : Z) (r r' : Redis) : Prop := {
  gb_fresh : released_exists r m = false;
  gb_stock : r_available r' = incrby ev q (r_available r);
  gb_quota : r_purchased r' = refund_quota ev us q (r_purchased r);
  gb_released : r_released r' = <[m := expiry_after r DEFAULT_TTL_SECONDS]> (r_released r);
  gb_stream : r_stream r' = r_stream r;
  gb_claims : r_claims r' = r_claims r;
  gb_now : r_now r' = r_now r;
}.

Lemma given_back_exists m ev us q r r' k :
  given_back m ev us q r r' → released_exists r' k = bool_decide (k = m) || released_exists r k.
Proof.
  intros [_ _ _ Hr _ _ Hn]. unfold released_exists. rewrite Hr.
  destruct (decide (k = m)) as [->|Hne].
  - rewrite lookup_insert_eq, bool_decide_eq_true_2 by done. simpl.
    unfold live, expiry_after, DEFAULT_TTL_SECONDS. rewrite Hn. zlia.
  - rewrite lookup_insert_ne, bool_decide_eq_false_2 by done. simpl. unfold live. by rewrite Hn.
Qed.

Lemma given_back_stock m ev us q r r' n :
  given_back m ev us q r r' → r_available r !! E = Some n →
  r_available r' !! E = Some (n + if decide (ev = E) then q else 0).
Proof.
  intros Hg Hn. rewrite (gb_stock _ _ _ _ _ _ Hg). destruct (decide (ev = E)) as [->|Hne].
  - unfold incrby. by rewrite lookup_insert_eq, Hn.
  - rewrite incrby_ne by done. rewrite Hn. f_equal. lia.
Qed.

(** The markers of the two kinds that a release leaves as they were. *)
Lemma given_back_queue s ev us q r r' m :
  m = dead_marker s ∧ claimed r s ∨ (∀ t, dead_marker t ≠ m) →
  H <= expiry_after r DEFAULT_TTL_SECONDS → queue_ok r → given_back m ev us q r r' → queue_ok r'.
Proof.
  intros Hm Hw [Q1 Q2 Q3 Q4 Q5] [_ _ _ Hr Hs Hc Hn].
  assert (Hcl : ∀ t, claimed r t → claimed r' t) by (unfold claimed; by rewrite Hc).
  split; rewrite ?Hs; try done.
  - intros e He. destruct (Q1 e He) as (u & ? & ?). exists u. auto.
  - intros t x. rewrite Hr, Hn. intros Hx.
    assert (Hold : r_released r !! dead_marker t = Some x → x <= r_now r ∨ H <= x ∧ claimed r' t).
    { intros Hx'. destruct (Q5 t x Hx') as [|[]]; auto. }
    apply lookup_insert_Some in Hx as [[Heq <-]|[_ Hx]]; [|auto].
    destruct Hm as [[-> Hcs]|Hd]; [|by destruct (Hd t)].
    apply dead_marker_inj in Heq as ->. auto.
Qed.

Lemma given_back_orders m ev us q d r r' :
  (∀ i, order_marker i = m → i < d_next_order d ∧
     ∀ o, d_orders d !! i = Some o → o_event o = E → ended o) →
  H <= expiry_after r DEFAULT_TTL_SECONDS → orders_ok d r → given_back m ev us q r r' → orders_ok d r'.
Proof.
  intros Hm Hw [B1 B2 B3] Hg. pose proof (λ k, given_back_exists m ev us q r r' k Hg) as Hx.
  destruct Hg as [Hf Hst _ Hr Hs Hc Hn]. split; [| |done].
  - intros i o Hi HE. destruct (B1 i o Hi HE) as (Hz & Hl & Hmk & Hd). unfold lasting.
    rewrite (Hx (order_marker i)), Hr, Hn. split_and!; [done|..].
    + intros x [[_ <-]|[_ Hx']]%lookup_insert_Some; [by right|by apply Hl].
    + intros [Heq%bool_decide_eq_true|?]%orb_true_iff; [|by apply Hmk].
      destruct (Hm i Heq) as [_ He]. by apply (He o).
    + intros Hend [_ Hfr]%orb_false_iff. by apply Hd.
  - intros i Hi. rewrite Hx, B2 by done. rewrite orb_false_r.
    apply bool_decide_eq_false_2. intros Heq. destruct (Hm i Heq). lia.
Qed.

Lemma refund_other_quota (p : gmap Z (gmap Z Z)) ev us q u :
  ev ≠ E → default 0 (hget (refund_quota ev us q p) E u) = default 0 (hget p E u).
Proof.
  intros HE. unfold refund_quota, hget. destruct (_ <=? 0); [rewrite hash_hdel_ne by done|];
    unfold hincrby; by rewrite hash_hset_ne.
Qed.

(** The books after a release: what was taken goes down by what comes back. *)
Lemma given_back_balance m ev us q d r r' :
  balanced d r → given_back m ev us q r r' → (∀ P, 0 <= taken P d r') → (ev = E → 0 <= q) →
  (∀ P, taken P d r' = taken P d r - if decide (ev = E ∧ P us = true) then q else 0) →
  balanced d r'.
Proof.
  intros [(n & Hn & Hn0 & Hsum) B2 B3] Hg Hpos Hq Htk. split.
  - eexists. split; [by eapply given_back_stock|]. rewrite Htk. change (everybody us) with true.
    destruct (decide (ev = E)) as [->|Hne].
    + rewrite (decide_True (P := E = E ∧ true = true)) by done. specialize (Hq eq_refl).
      split; lia.
    + rewrite (decide_False (P := ev = E ∧ true = true)) by (by intros [? _]). lia.
  - intros u. rewrite Htk, <-B2. unfold quota. rewrite (gb_quota _ _ _ _ _ _ Hg).
    destruct (decide (ev = E)) as [->|Hne].
    + rewrite quota_refund.
      * f_equal. apply decide_ext. unfold only. rewrite Z.eqb_eq. split; by intros [_ ->].
      * specialize (B2 us). unfold quota in B2. rewrite B2. specialize (Hpos (only us)).
        rewrite Htk, decide_True in Hpos by (unfold only; by rewrite Z.eqb_refl). lia.
    + rewrite refund_other_quota by done. rewrite decide_False by (by intros [? _]). lia.
  - intros u. specialize (B3 u). rewrite Htk. destruct (decide _) as [[HE _]|_]; [|lia].
    specialize (Hq HE). lia.
Qed.

Lemma open_quantity_nonneg d r u f : intent u f → 0 <= open_quantity d r f.
Proof.
  intros Hi. destruct (intent_reads u f Hi) as (_ & _ & _ & ev & q & us & Hev & Hqt & _ & Hpos).
  unfold open_quantity. rewrite (open_entry_intent u f d r ev Hi Hev), Hqt.
  destruct (ev =? E) eqn:HE; simpl; [|lia]. zbool. destruct (Hpos HE). by case_goal; lia.
Qed.

Lemma list_sum_nonneg {A} (f : A → Z) l : (∀ x, x ∈ l → 0 <= f x) → 0 <= list_sum f l.
Proof.
  induction l as [|x l IH]; intros Hf; simpl; [lia|]. pose proof (Hf x ltac:(left)).
  enough (0 <= list_sum f l) by (unfold list_sum in *; lia). apply IH. intros y Hy. apply Hf. by right.
Qed.

Lemma taken_nonneg P d r : db_ok d → queue_ok r → 0 <= taken P d r.
Proof.
  intros Hd Hq. unfold taken.
  assert (0 <= open_total P d r).
  { apply list_sum_nonneg. intros e He. unfold open_term. destruct (buyer_in _ _); [|lia].
    destruct (q_entries _ Hq e He) as (u & Hi & _). by eapply open_quantity_nonneg. }
  assert (0 <= owed_total P d r); [|lia]. apply map_sum_nonneg. intros i o Hi.
  unfold owed_term, owed_quantity. destruct (ok_order_checks _ Hd i o Hi) as [_ Hchk].
  unfold order_violation in Hchk. destruct (0 <? o_quantity o) eqn:?; [|done]. case_goal; zlia.
Qed.

(** The refund of a dead letter. *)
Lemma refund_ledger u e ev us q d r r' :
  ledger (mk_world d r) → e ∈ s_entries (r_stream r) → intent u e.2 →
  int_field e.2 "event_id" = Ok ev → int_field e.2 "quantity" = Ok q →
  int_field e.2 "user_id" = Ok us →
  known d u = false → given_back (dead_marker (uuid_str u)) ev us q r r' → ledger (mk_world d r').
Proof.
  intros [L1 L2 L3 L4 L5 L6 L7] He Hi Hev Hq Hus Hkn Hg. simpl in *.
  destruct (intent_reads u e.2 Hi) as (Hu & _ & Hk & ev' & q' & _ & Hev' & Hq' & _ & Hpos).
  assert (ev' = ev) as -> by congruence. assert (q' = q) as -> by congruence.
  assert (Hqueue : queue_ok r').
  { eapply (given_back_queue (uuid_str u)); [left|apply L4|done|done]. split; [done|].
    by destruct (queue_intent r e u L5 He Hk). }
  split; simpl; try done.
  - unfold expiry_after in *. by rewrite (gb_now _ _ _ _ _ _ Hg).
  - eapply given_back_orders; [|apply L4|done|done]. intros i Heq. by destruct (markers_differ (uuid_str u) i).
  - eapply given_back_balance; [done|done|intros; by apply taken_nonneg|intros HE; destruct (Hpos HE); lia|].
    intros P.
    assert (Howed : owed_total P d r' = owed_total P d r).
    { apply map_sum_ext. intros i o _. unfold owed_term, owed_quantity.
      rewrite (given_back_exists _ _ _ _ _ _ _ Hg).
      rewrite bool_decide_eq_false_2; [done|]. intros Heq. by destruct (markers_differ (uuid_str u) (o_id o)). }
    assert (Hopen : open_total P d r' = open_total P d r - open_term P d r e).
    { apply (open_total_settle P u); [done|by rewrite (gb_stream _ _ _ _ _ _ Hg)|done|done| |].
      - right. by rewrite (given_back_exists _ _ _ _ _ _ _ Hg), bool_decide_eq_true_2.
      - intros v Hv Hvu. rewrite (given_back_exists _ _ _ _ _ _ _ Hg).
        rewrite bool_decide_eq_false_2; [done|]. by intros ?%dead_marker_inj%uuid_str_inj. }
    unfold taken. rewrite Hopen, Howed. unfold open_term, buyer_in, open_quantity.
    rewrite Hus, (open_entry_intent u e.2 d r ev Hi Hev), Hkn, (gb_fresh _ _ _ _ _ _ Hg), Hq'.
    destruct (P us); [|rewrite decide_False by (by intros [_ ?]); lia].
    destruct (decide (ev = E ∧ true = true)) as [[-> _]|Hne]; [rewrite Z.eqb_refl; simpl; lia|].
    destruct (ev =? E) eqn:HE; [zbool; by destruct Hne|]. simpl. lia.
Qed.

(** The release of an order that is over. *)
Lemma release_ledger i o ev us q d r r' :
  ledger (mk_world d r) → d_orders d !! i = Some o → (o_event o = E → ended o) → o_event o = ev →
  (ev = E → q = o_quantity o ∧ us = o_user o) → given_back (order_marker i) ev us q r r' → ledger (mk_world d r').
Proof.
  intros [L1 L2 L3 L4 L5 L6 L7] Hi Hend Hev Hq Hg. simpl in *.
  assert (Hm : ∀ t, dead_marker t ≠ order_marker i) by (intros t; apply markers_differ).
  assert (Hqueue : queue_ok r') by (eapply (given_back_queue ""); [by right|apply L4|done|done]).
  destruct (ok_order_checks _ L1 i o Hi) as [Hid Hchk].
  assert (Hpos : 0 < o_quantity o).
  { unfold order_violation in Hchk. destruct (0 <? o_quantity o) eqn:?; [zlia|done]. }
  split; simpl; try done.
  - unfold expiry_after in *. by rewrite (gb_now _ _ _ _ _ _ Hg).
  - eapply given_back_orders; [|apply L4|done|done]. intros j ->%order_marker_inj. split.
    + apply (ok_order_ids _ L1). by exists o.
    + intros x Hx. by simplify_eq.
  - eapply given_back_balance; [done|done|intros; by apply taken_nonneg|intros HE; destruct (Hq HE); lia|].
    intros P.
    assert (Hopen : open_total P d r' = open_total P d r).
    { apply open_total_ext; [by rewrite (gb_stream _ _ _ _ _ _ Hg)| |apply L5]. intros e u _ _.
      split; [done|]. rewrite (given_back_exists _ _ _ _ _ _ _ Hg). by rewrite bool_decide_eq_false_2. }
    assert (Howed : owed_total P d r' = owed_total P d r - owed_term P r o).
    { unfold owed_total. rewrite <-(insert_id _ _ _ Hi) at 1.
      rewrite (map_sum_change (owed_term P r) _ _ _ _ _ Hi).
      - unfold owed_term at 3, owed_quantity at 1. rewrite (given_back_exists _ _ _ _ _ _ _ Hg), Hid.
        rewrite bool_decide_eq_true_2 by done. rewrite andb_false_r. destruct (P _); lia.
      - intros j x Hj Hx. unfold owed_term, owed_quantity. rewrite (given_back_exists _ _ _ _ _ _ _ Hg).
        destruct (ok_order_checks _ L1 j x Hx) as [-> _].
        rewrite bool_decide_eq_false_2; [done|]. by intros ?%order_marker_inj. }
    unfold taken. rewrite Hopen, Howed. unfold owed_term, owed_quantity.
    rewrite Hid, (gb_fresh _ _ _ _ _ _ Hg), Hev.
    destruct (decide (ev = E)) as [->|Hne].
    + rewrite Z.eqb_refl. destruct (Hq eq_refl) as [-> ->].
      destruct (P (o_user o)); [rewrite decide_True by done|rewrite decide_False by (by intros [_ ?])]; simpl; lia.
    + rewrite decide_False by (by intros [? _]). apply Z.eqb_neq in Hne. rewrite Hne.
      destruct (P (o_user o)); simpl; lia.
Qed.

(** ** The consumer *)

Lemma persist_intent_next x tx f w :
  db_ok (w_db w) → d_next_order (w_db w) <= d_next_order (w_db (persist_intent x tx f w).2).
Proof.
  intros Hd. unfold persist_intent. destruct (negb _); [simpl; lia|]. unfold try_catch, bind at 1.
  destruct (safe_persist x tx f (optional_field f "zone_id") (optional_field f "block_id") (w_db w) Hd)
    as [_ [Hn _]].
  unfold faulty_transaction at 1.
  destruct (persist_tx _ _ _ _ _ (w_db w)) as [[u|ex] d]; simpl in *; [destruct x as [| |[]|]; simpl; lia|].
  destruct ex; simpl; try lia. unfold bind, lift. destruct (key_field f); [|simpl; lia].
  destruct x; simpl; lia.
Qed.

Lemma recorded_known u f d : key_field f = Ok u → recorded f d → known d u = true.
Proof. intros Hk (k & o & Hk' & Ho). assert (k = u) as -> by congruence. unfold known. by rewrite Ho. Qed.

Lemma consume_ledger x tx e w :
  held_entry w e → refunded (w_redis w) e.2 = false → ledger w → ledger (consume_entry x tx e w).2.
Proof.
  intros He Hal L. pose proof L as [L1 _ _ _ L5 _ _].
  pose proof (persist_intent_cases (x e.1) tx e.2 w) as Hc.
  pose proof (persist_intent_ok (x e.1) tx e.2 w L1) as Hok.
  pose proof (persist_intent_events (x e.1) tx e.2 w) as Hev.
  pose proof (persist_intent_next (x e.1) tx e.2 w L1) as Hn.
  unfold consume_entry, try_catch, bind.
  destruct (persist_intent (x e.1) tx e.2 w) as [res w1], w as [d r], w1 as [d1 r1].
  unfold held_entry in He. simpl in *.
  assert (Hnew : intent_written e.2 tx d d1 → ¬ recorded e.2 d → ledger (mk_world d1 r)).
  { intros Hw Hnr. destruct He as [He|(_ & _ & [Hr|Hr])]; [|done|congruence].
    by eapply recorded_ledger. }
  assert (Hack : ledger (mk_world d1 r) → recorded e.2 d1 →
    ledger (mk_world d1 (set_stream (ack_entry e.1 (r_stream r)) r))).
  { intros L' Hr. apply ack_ledger; [done|]. intros y Hx Hxe. pose proof L' as [_ _ _ _ L5' _ _].
    simpl in L5'. destruct He as [He|[He _]].
    - assert (y = e) as -> by (eapply nodup_fst_unique; [apply L5'|done..]).
      destruct (q_entries _ L5' e He) as (u & Hi & _). apply (open_quantity_settled u); [done|left].
      eapply recorded_known; [|done]. by apply intent_reads in Hi as (_ & _ & ? & _).
    - destruct He. rewrite <-Hxe. by apply list_elem_of_fmap_2. }
  destruct res as [[]|ex]; simpl.
  - destruct Hc as (Hw & -> & Hnr). apply Hack; [by apply Hnew|by eapply written_recorded].
  - destruct Hc as (Hs & -> & Hr). apply Hack; [by eapply same_tables_ledger|].
    by eapply recorded_grown; [apply same_tables_grown|].
  - destruct Hc as (Hs & -> & _). by eapply same_tables_ledger.
  - destruct Hc as (-> & [[Hs _]|(_ & _ & [Hs|(_ & Hw & Hnr)])]); [by eapply same_tables_ledger..|by apply Hnew].
Qed.

(** ** Dead letters *)

(** What a release did, whatever its answer. *)
Definition release_outcome (m : string) (ev us q : Z) (r r' : Redis) : Prop :=
  r' = r ∨ ∃ r1, given_back m ev us q r r1 ∧ (r' = r1 ∨ r' = poke ev r1).

Lemma release_outcome_marks m ev us q r r' :
  (r' = r → released_exists r m = true) → release_outcome m ev us q r r' → released_exists r' m = true.
Proof.
  intros Hs [->|(r1 & Hg & Hr')]; [by apply Hs|].
  assert (Hm : released_exists r1 m = true)
    by (by rewrite (given_back_exists _ _ _ _ _ _ _ Hg), bool_decide_eq_true_2).
  destruct Hr' as [->| ->]; [done|]. by rewrite poke_markers.
Qed.

Lemma counter_release_outcome ev us q m r :
  ∃ b r', Inventory.release ev us q m DEFAULT_TTL_SECONDS r = (Ok b, r') ∧
    release_outcome m ev us q r r' ∧ released_exists r' m = true.
Proof.
  unfold Inventory.release. destruct (released_exists r m) eqn:Hm.
  { rewrite release_lua_replay by done. exists false, r. split_and!; [done|by left|done]. }
  destruct (release_lua_fresh ev us q m DEFAULT_TTL_SECONDS r Hm)
    as (n & r1 & -> & Ha & _ & Hp & Hr & Hn & Hs & Hc).
  assert (Hg : given_back m ev us q r r1) by (split; [exact Hm|exact Ha|exact Hp|exact Hr|exact Hs|exact Hc|exact Hn]).
  do 2 eexists. split; [done|].
  assert (Ho : release_outcome m ev us q r
    (if (n - q <=? 0) && (0 <? n) then poke ev r1 else r1)).
  { right. exists r1. split; [done|]. destruct (_ && _); auto. }
  split; [done|]. eapply release_outcome_marks; [|done]. intros Heq.
  pose proof (given_back_exists m ev us q r r1 m Hg) as Hx. rewrite bool_decide_eq_true_2 in Hx by done.
  rewrite <-Heq. by destruct (_ && _).
Qed.

Lemma seats_release_outcome ev z us b s l m r :
  let '(out, r') := release_seats ev z us b s l m DEFAULT_TTL_SECONDS r in
  release_outcome m ev us l r r' ∧ (is_ok out = true → released_exists r' m = true).
Proof.
  pose proof (release_seats_cases ev z us b s l m DEFAULT_TTL_SECONDS r) as H0.
  assert (Hgb : ∀ n r1, release_effect (mk_release_args ev z m b s l DEFAULT_TTL_SECONDS us) r n r1 →
    given_back m ev us l r r1).
  { intros n r1 [F1 _ _ _ _ _ _ F2 F0 F3 F4 F5 F6 _].
    split; [exact F1|exact F2|exact F0|exact F3|exact F4|exact F5|exact F6]. }
  destruct (release_seats _ _ _ _ _ _ _ _ r) as [[[]|ex] r'].
  - destruct H0 as (n & [H0|(r1 & H0 & ->)]); apply Hgb in H0.
    + assert (Ho : release_outcome m ev us l r r') by (right; exists r'; auto). split; [done|].
      intros _. by rewrite (given_back_exists _ _ _ _ _ _ _ H0), bool_decide_eq_true_2.
    + split; [right; exists r1; auto|]. intros _.
      by rewrite poke_markers, (given_back_exists _ _ _ _ _ _ _ H0), bool_decide_eq_true_2.
  - destruct H0 as [-> Hm]. split; [by left|done].
  - destruct H0 as [-> _]. split; [by left|done].
Qed.

Lemma refund_outcome u f r :
  intent u f →
  let '(out, r') := dead_letter_refund f (uuid_str u) r in
  ∃ ev us q, int_field f "event_id" = Ok ev ∧ int_field f "quantity" = Ok q ∧
    int_field f "user_id" = Ok us ∧ release_outcome (dead_marker (uuid_str u)) ev us q r r' ∧
    (is_ok out = true → released_exists r' (dead_marker (uuid_str u)) = true).
Proof.
  destruct 1 as [a u Hu Hk Hq|a u Hu Hk HE]; unfold dead_letter_refund.
  - destruct (counter_intent_fields a) as (H1 & H2 & H3 & _ & _ & _ & H7).
    unfold optional_field at 1. rewrite H7.
    rewrite (int_field_str _ _ _ H1), (int_field_str _ _ _ H2), (int_field_str _ _ _ H3).
    rewrite !bind_lift. unfold bind.
    destruct (counter_release_outcome (va_event a) (va_user a) (va_quantity a)
      (dead_marker (uuid_str u)) r) as (b & r' & -> & Ho & Hm).
    by exists (va_event a), (va_user a), (va_quantity a).
  - destruct (seat_intent_fields a) as (H1 & H2 & H3 & _ & _ & H6 & H7 & H8).
    rewrite (optional_field_str _ _ _ H7), (optional_field_str _ _ _ H6).
    rewrite (int_field_str _ _ _ H1), (int_field_str _ _ _ H2), (int_field_str _ _ _ H3),
      (int_field_str _ _ _ H8), !int_str_z. rewrite !bind_lift. unfold bind.
    pose proof (seats_release_outcome (ca_event a) (ca_zone a) (ca_user a) (ca_block a) (ca_start a)
      (ca_len a) (dead_marker (uuid_str u)) r) as Ho.
    destruct (release_seats _ _ _ _ _ _ _ _ r) as [[b|ex] r'];
      by exists (ca_event a), (ca_user a), (ca_len a).
Qed.

(** A claim written again lasts longer. *)
Lemma fail_claim_ledger s d r :
  ledger (mk_world d r) → ledger (mk_world d (set_claim s "FAILED" DEFAULT_TTL_SECONDS r)).
Proof.
  intros [L1 L2 L3 L4 L5 L6 L7]. simpl in *.
  assert (Hcl : ∀ t, claimed r t → claimed (set_claim s "FAILED" DEFAULT_TTL_SECONDS r) t).
  { intros t (v & y & Hc & Hy). unfold claimed. simpl. destruct (decide (t = s)) as [->|Hne].
    - do 2 eexists. rewrite lookup_insert_eq. split; [done|apply L4].
    - exists v, y. by rewrite lookup_insert_ne. }
  split; simpl; try done; [|by apply (same_markers_orders d r)|by destruct L7; split].
  destruct L5 as [Q1 Q2 Q3 Q4 Q5]. split; try done.
  - intros e He. destruct (Q1 e He) as (u & ? & ?). exists u. auto.
  - intros t x Hx. destruct (Q5 t x Hx) as [|[]]; auto.
Qed.

Lemma release_outcome_ledger m ev us q d r r' :
  release_outcome m ev us q r r' → ledger (mk_world d r) →
  (∀ r1, given_back m ev us q r r1 → ledger (mk_world d r1)) → ledger (mk_world d r').
Proof.
  intros [->|(r1 & Hg & [->| ->])] L Hl; [done|by apply Hl|]. by apply poke_ledger, Hl.
Qed.

(** A dead letter of an intent without an order raises when its refund does. *)
Lemma dead_letter_refunded excess i f w idem k :
  f !! "idempotency_key" = Some idem → key_field f = Ok k → known (w_db w) k = false →
  is_ok (dead_letter_intent excess i f w).1 = true →
  is_ok (dead_letter_refund f idem
           (xadd_dead excess (<["original_id" := sid_str i]> f) (w_redis w))).1 = true.
Proof.
  intros Hi Hk Hkn. unfold dead_letter_intent. rewrite bind_lift, Hi, bind_lift, Hk.
  unfold bind at 1, transaction, get_order_by_idempotency_key, gets. simpl.
  unfold bind at 1. unfold in_redis at 1, modify. simpl. unfold known in Hkn. rewrite Hkn.
  unfold bind, in_redis. simpl. by destruct (dead_letter_refund _ _ _) as [[b|e] r2].
Qed.

(** One dead letter: the books stay, and one that did not raise left its entry
    counting for nothing. *)
Lemma dead_letter_ledger excess e w :
  e ∈ s_entries (r_stream (w_redis w)) → ledger w →
  let '(out, w') := dead_letter_intent excess e.1 e.2 w in
  ledger w' ∧ r_stream (w_redis w') = r_stream (w_redis w) ∧
  (is_ok out = true → open_quantity (w_db w') (w_redis w') e.2 = 0).
Proof.
  intros He L. pose proof (dead_letter_cases excess e.1 e.2 w) as Hc.
  pose proof (dead_letter_stream excess e.1 e.2 w) as Hst.
  pose proof L as [_ _ _ _ L5 _ _]. destruct (q_entries _ L5 e He) as (u & Hi & _).
  destruct (intent_reads u e.2 Hi) as (_ & Hs & Hk & _).
  pose proof (dead_letter_refunded excess e.1 e.2 w (uuid_str u) u Hs Hk) as Hran.
  destruct (dead_letter_intent excess e.1 e.2 w) as [out w'].
  destruct w as [d r], w' as [d' r']. simpl in *.
  set (r1 := xadd_dead excess (<["original_id":=sid_str e.1]> e.2) r) in *.
  assert (L1 : ledger (mk_world d r1)).
  { apply (unrelated_ledger (mk_world d r)); [|apply L|done]. destruct L as [L1 _ _ L4 _ _ _].
    split; simpl in *; done. }
  assert (Hrefund : known d u = false → ledger (mk_world d (dead_letter_refund e.2 (uuid_str u) r1).2)).
  { intros Hkn. pose proof (refund_outcome u e.2 r1 Hi) as Ho.
    destruct (dead_letter_refund _ _ r1) as [x r2]. destruct Ho as (ev & us & q & Hev & Hq & Hus & Ho & _).
    eapply release_outcome_ledger; [done..|]. intros r3. by eapply (refund_ledger u e). }
  destruct out as [[]|ex].
  - destruct Hc as (idem & k & Hidem & Hk' & -> & ->).
    assert (k = u) as -> by congruence. assert (idem = uuid_str u) as -> by congruence.
    change (is_some (order_by_key d u)) with (known d u) in *.
    destruct (known d u) eqn:Hkn.
    + split_and!; [by apply fail_claim_ledger|done|]. intros _. apply (open_quantity_settled u); auto.
    + split_and!; [by apply fail_claim_ledger, Hrefund|done|]. intros Hok.
      apply (open_quantity_settled u); [done|right].
      rewrite (same_markers_exists (dead_letter_refund e.2 (uuid_str u) r1).2) by done.
      pose proof (refund_outcome u e.2 r1 Hi) as Ho. specialize (Hran eq_refl Hok).
      destruct (dead_letter_refund _ _ r1) as [x r2]. destruct Ho as (ev & us & q & _ & _ & _ & _ & Hm).
      by apply Hm.
  - destruct Hc as [-> [[-> Hno]|(idem & k & Hidem & Hk' & Hno & ->)]]; [by destruct (Hno u)|].
    assert (k = u) as -> by congruence. assert (idem = uuid_str u) as -> by congruence.
    split_and!; [|done|done]. apply Hrefund. unfold known. by rewrite Hno.
Qed.

(** A dead letter of an entry that was settled already, by whoever else held it. *)
Lemma late_dead_letter_ledger excess e w u :
  intent u e.2 → known (w_db w) u = true ∨ refunded (w_redis w) e.2 = true → ledger w →
  ledger (dead_letter_intent excess e.1 e.2 w).2.
Proof.
  intros Hi Hset L. pose proof (dead_letter_cases excess e.1 e.2 w) as Hc.
  destruct (intent_reads u e.2 Hi) as (_ & Hs & Hk & _).
  destruct (dead_letter_intent excess e.1 e.2 w) as [out w']. destruct w as [d r], w' as [d' r']. simpl in *.
  set (r1 := xadd_dead excess (<["original_id":=sid_str e.1]> e.2) r) in *.
  assert (L1 : ledger (mk_world d r1)).
  { apply (unrelated_ledger (mk_world d r)); [|apply L|done]. destruct L as [L1 _ _ L4 _ _ _].
    split; simpl in *; done. }
  assert (Hrefund : known d u = false → ledger (mk_world d (dead_letter_refund e.2 (uuid_str u) r1).2)).
  { intros Hkn. destruct Hset as [?|Hm]; [congruence|]. pose proof (refund_outcome u e.2 r1 Hi) as Ho.
    unfold refunded in Hm. rewrite Hs in Hm.
    destruct (dead_letter_refund _ _ r1) as [x r2]. destruct Ho as (ev & us & q & _ & _ & _ & Ho & _).
    eapply release_outcome_ledger; [done..|]. intros r3 Hg.
    pose proof (gb_fresh _ _ _ _ _ _ Hg) as Hf.
    change (released_exists r1 (dead_marker (uuid_str u))) with (released_exists r (dead_marker (uuid_str u))) in Hf.
    congruence. }
  destruct out as [[]|ex].
  - destruct Hc as (idem & k & Hidem & Hk' & -> & ->).
    assert (k = u) as -> by congruence. assert (idem = uuid_str u) as -> by congruence.
    change (is_some (order_by_key d u)) with (known d u) in *.
    destruct (known d u) eqn:Hkn; [by apply fail_claim_ledger|by apply fail_claim_ledger, Hrefund].
  - destruct Hc as [-> [[-> Hno]|(idem & k & Hidem & Hk' & Hno & ->)]]; [by destruct (Hno u)|].
    assert (k = u) as -> by congruence. assert (idem = uuid_str u) as -> by congruence.
    apply Hrefund. unfold known. by rewrite Hno.
Qed.

Lemma pel_ledger s' d r :
  s_entries s' = s_entries (r_stream r) → s_last s' = s_last (r_stream r) →
  ledger (mk_world d r) → ledger (mk_world d (set_stream s' r)).
Proof.
  intros He Hl L. apply (unrelated_ledger (mk_world d r)); [|apply L|done]. destruct L as [L1 _ _ _ _ _ _].
  split; simpl in *; done.
Qed.

Lemma xclaim_keeps now idle c i s :
  s_entries (xclaim now idle c i s).2 = s_entries s ∧ s_last (xclaim now idle c i s).2 = s_last s.
Proof. unfold xclaim. by case_goal. Qed.

Lemma reclaim_ledger x tx idle maxd excess p w :
  (∀ f, (p.1, f) ∈ s_entries (r_stream (w_redis w)) → p_count p.2 < maxd →
    refunded (w_redis w) f = false) →
  ledger w → ledger (reclaim_entry x tx idle maxd excess p w).2.
Proof.
  intros Ha L. unfold reclaim_entry. destruct w as [d r]. simpl in *.
  pose proof (xclaim_keeps (r_now r) idle ORDER_CONSUMER_NAME p.1 (r_stream r)) as [Hk1 Hk2].
  destruct (xclaim _ _ _ _ (r_stream r)) as [[f|] s] eqn:Hx; simpl in *; [|by apply pel_ledger].
  apply xclaim_some in Hx as (Hin & _ & _ & _).
  assert (Ls : ledger (mk_world d (set_stream s r))) by (by apply pel_ledger).
  destruct (maxd <=? p_count p.2) eqn:Hm.
  2:{ zbool. apply (consume_ledger x tx (p.1, f)); [|by apply (Ha f)|done].
      left. simpl. by rewrite Hk1. }
  unfold bind.
  pose proof (dead_letter_ledger excess (p.1, f) (mk_world d (set_stream s r))) as Hd. simpl in Hd.
  rewrite Hk1 in Hd. specialize (Hd Hin Ls).
  destruct (dead_letter_intent excess p.1 f _) as [[u|ex] [d' r']]; simpl in *; [|apply Hd].
  destruct Hd as (L' & Hs & Hz). apply ack_ledger; [done|]. rewrite Hs. simpl. rewrite Hk1.
  intros e He Hid. assert (e = (p.1, f)) as ->; [|by apply Hz].
  eapply nodup_fst_unique; [apply (q_ids _ (l_queue _ L))|done..].
Qed.

(** ** Orders move *)

(** A statement over the orders and the outbox: every order keeps its purchase,
    one that was over stays over, and one that ends is owed its release. *)
Record order_move (d d' : DB) : Prop := {
  om_db : db_ok d';
  om_inv : outbox_inv d';
  om_next : d_next_order d' = d_next_order d;
  om_events : d_events d' = d_events d;
  om_orders : (d_orders d' = d_orders d) ∨ ∃ i o o', d_orders d !! i = Some o ∧
    d_orders d' = <[i := o']> (d_orders d) ∧ same_purchase o o' ∧
    (ended o → ended o') ∧ (ended o' → ended o ∨ release_due d' i);
  om_rows : ∀ j e, d_outbox d' !! j = Some e →
    (∃ e', d_outbox d !! j = Some e' ∧ ob_type e = ob_type e' ∧ ob_aggregate e = ob_aggregate e') ∨
    (∃ o, d_orders d' !! ob_aggregate e = Some o ∧ ended o);
}.

(** The releases due stay due, or are made. *)
Definition debts_kept (d d' : DB) (r : Redis) : Prop :=
  ∀ i o, d_orders d !! i = Some o → o_event o = E → release_due d i →
    released_exists r (order_marker i) = false → release_due d' i.

Lemma order_move_row d d' i o' :
  order_move d d' → d_orders d' !! i = Some o' →
  ∃ o, d_orders d !! i = Some o ∧ same_purchase o o' ∧ (ended o → ended o') ∧
    (ended o' → ended o ∨ release_due d' i).
Proof.
  intros [_ _ _ _ [Ho|(j & o & x & Hj & Ho & ?)] _] Hi.
  - exists o'. rewrite <-Ho. split_and!; [done|reflexivity|done|by left].
  - rewrite Ho in Hi. apply lookup_insert_Some in Hi as [[<- <-]|[_ Hi]]; [by exists o|].
    exists o'. split_and!; [done|reflexivity|done|by left].
Qed.

Lemma order_move_ledger d d' r :
  order_move d d' → debts_kept d d' r → ledger (mk_world d r) → ledger (mk_world d' r).
Proof.
  intros Hm Hdebt [L1 L2 L3 L4 L5 L6 L7]. simpl in *.
  pose proof (order_move_row d d') as Hrow. pose proof Hm as [Mdb Minv Mnext Mev Mor Mrows].
  assert (Hfwd : ∀ i o, d_orders d !! i = Some o → ∃ o', d_orders d' !! i = Some o' ∧
    same_purchase o o' ∧ (ended o → ended o')).
  { intros i o Hi. destruct Mor as [Ho|(j & x & x' & Hj & Ho & ? & ? & _)]; rewrite Ho.
    - exists o. split_and!; [done|reflexivity|done].
    - destruct (decide (j = i)) as [->|Hne].
      + exists x'. rewrite lookup_insert_eq. assert (x = o) as -> by congruence. done.
      + exists o. rewrite lookup_insert_ne by done. split_and!; [done|reflexivity|done]. }
  assert (Hkn : ∀ k, known d' k = known d k).
  { intros k. apply eq_true_iff_eq. rewrite !known_spec. split; intros (i & o & Hi & <-).
    - destruct (Hrow i o Hm Hi) as (x & Hx & (_ & _ & _ & _ & _ & _ & ? & _) & _). by exists i, x.
    - destruct (Hfwd i o Hi) as (x & Hx & (_ & _ & _ & _ & _ & _ & ? & _) & _). by exists i, x. }
  split; simpl; try done.
  - by rewrite Mev.
  - destruct L6 as [B1 B2 B3]. split.
    + intros i o' Hi HE. destruct (Hrow i o' Hm Hi) as (o & Ho & Hp & Hend & Hnew).
      destruct Hp as (_ & _ & Eev & Ez & _). destruct (B1 i o Ho) as (? & ? & ? & Hdue); [congruence|].
      split_and!; [congruence|done|auto|]. intros He Hf. destruct (Hnew He) as [Hold|]; [|done].
      apply (Hdebt i o Ho); [congruence|by apply Hdue|done].
    + by rewrite Mnext.
    + intros j e He Hty. rewrite Mnext. destruct (Mrows j e He) as [(e' & He' & Et & Ea)|(o & Ho & Hend)].
      * destruct (B3 j e' He') as [Hlt Hend]; [congruence|]. rewrite Ea. split; [done|].
        intros o' Ho' HE. destruct (Hrow _ o' Hm Ho') as (o & Ho & Hp & Hk & _).
        apply Hk, (Hend o Ho). destruct Hp as (_ & _ & Eev & _). congruence.
      * split; [|intros o' Ho' _; by simplify_eq]. rewrite <-Mnext. apply (ok_order_ids _ Mdb). by exists o.
  - assert (Htk : ∀ P, taken P d' r = taken P d r).
    { intros P. unfold taken.
      rewrite (open_total_ext P d d' r r) by (try done; apply L5). f_equal.
      unfold owed_total. destruct Mor as [->|(i & o & o' & Hi & -> & Hp & _)]; [done|].
      rewrite (map_sum_update _ _ _ _ _ Hi). unfold owed_term, owed_quantity.
      destruct Hp as (-> & -> & -> & _ & -> & _). lia. }
    destruct L7 as [B1 B2 B3].
    split; [by rewrite Htk|intros u; by rewrite Htk|intros u; by rewrite Htk].
Qed.

(** What the four transitions do to the tables, whatever object they start from. *)
Definition transits (order : Order) (s : OrderStatus) (m : M DB exn (bool * Order)) : Prop :=
  safe m ∧ ∀ d, db_ok d → match m d with
    | (Ok _, d') => d' = d ∨ ∃ now o' d1, applied now order s d o' d1 ∧
        d_orders d' = d_orders d1 ∧ d_next_order d' = d_next_order d ∧ d_events d' = d_events d ∧
        if held_status s then d_outbox d' = d_outbox d
        else ∃ now', d_outbox d' = <[d_next_outbox d := mk_outbox (d_next_outbox d) SEAT_RELEASE
                                   (o_id order) 0 now' None]> (d_outbox d)
    | (Err _, d') => d' = d
    end.

Lemma paid_transits now order : transits order PAID (mark_paid now order).
Proof.
  split; [apply safe_transition|]. intros d _. unfold mark_paid.
  pose proof (transition_cases now order PAID d) as Hc.
  destruct (transition_order_status now order PAID d) as [[[[] o']|e] d'].
  - right. exists now, o', d'. split; [done|]. by rewrite (ap_db _ _ _ _ _ _ Hc).
  - left. apply Hc.
  - apply Hc.
Qed.

Lemma confirmed_transits now tx order : transits order CONFIRMED (mark_confirmed now tx order).
Proof.
  split; [apply safe_mark_confirmed|]. intros d _. unfold mark_confirmed, bind at 1.
  pose proof (transition_cases now order CONFIRMED d) as Hc.
  destruct (transition_order_status now order CONFIRMED d) as [[[[] o']|e] d']; simpl;
    [|left; apply Hc|apply Hc].
  assert (Hf : ∀ i, d_orders (freeze_hold i tx d') = d_orders d' ∧
    d_next_order (freeze_hold i tx d') = d_next_order d' ∧ d_events (freeze_hold i tx d') = d_events d' ∧
    d_outbox (freeze_hold i tx d') = d_outbox d') by (intros i; unfold freeze_hold; by case_goal).
  destruct (o_zone o') as [z|]; simpl; right; exists now, o', d'.
  - destruct (Hf (o_id o')) as (-> & -> & -> & ->). split; [done|]. by rewrite (ap_db _ _ _ _ _ _ Hc).
  - split; [done|]. by rewrite (ap_db _ _ _ _ _ _ Hc).
Qed.

Lemma applied_id now order s d o' d' : db_ok d → applied now order s d o' d' → o_id o' = o_id order.
Proof.
  intros Hd [_ (row & Hrow & _ & Hs) _ _]. apply stamped_facts in Hs as (_ & (-> & _) & _).
  by destruct (ok_order_checks _ Hd _ _ Hrow).
Qed.

Lemma owing_transits now tx order s :
  held_status s = false → transits order s (transition_owing_release now tx order s).
Proof.
  intros Hs. split; [apply safe_owing_release|]. intros d Hd. unfold transition_owing_release, bind at 1.
  pose proof (transition_cases now order s d) as Hc.
  destruct (transition_order_status now order s d) as [[[[] o']|e] d']; simpl; [|left; apply Hc|apply Hc].
  right. exists now, o', d'. split; [done|]. rewrite Hs, (applied_id _ _ _ _ _ _ Hd Hc).
  rewrite (ap_db _ _ _ _ _ _ Hc). simpl. split_and!; [done..|]. by exists tx.
Qed.

Lemma transit_move order s m w :
  transits order s m → ledger w →
  order_move (w_db w) (w_db (transaction m w).2) ∧
  (∀ i, release_due (w_db w) i → release_due (w_db (transaction m w).2) i).
Proof.
  intros [Hsafe Hm] L. destruct w as [d r]. pose proof L as [L1 L2 _ _ _ _ _]. simpl in *.
  pose proof (transaction_safe m (mk_world d r) Hsafe L1) as Hok. unfold transaction in *. simpl in *.
  specialize (Hm d L1).
  assert (Hid : order_move d d).
  { split; try done; [by left|]. intros j e He. left. by exists e. }
  destruct (m d) as [[a|e] d']; simpl in *; [|by subst; rewrite rollback_self].
  destruct Hm as [->|(now & o' & d1 & Ha & Ho & Hn & He & Hob)]; [done|].
  destruct Ha as [Hl (row & Hrow & Hst & Hs) Hv ->]. simpl in Ho.
  apply stamped_facts in Hs as (Es & Hp & _).
  assert (Hrows : d_outbox d' = d_outbox d ∨ held_status s = false ∧ ∃ x,
    ob_id x = d_next_outbox d ∧ ob_attempts x = 0 ∧ ob_type x = SEAT_RELEASE ∧
    ob_aggregate x = o_id order ∧ ob_processed x = None ∧
    d_outbox d' = <[d_next_outbox d := x]> (d_outbox d)).
  { destruct (held_status s); [by left|right]. destruct Hob as [tx Hob].
    split; [done|]. eexists. split_and!; [..|exact Hob]; done. }
  assert (Hfresh : d_outbox d !! d_next_outbox d = None).
  { apply eq_None_not_Some. intros Hx. pose proof (ok_outbox_ids _ L1 _ Hx). lia. }
  split; [split|]; try done.
  - destruct Hrows as [Hob'|(_ & x & Hid' & Hat & _ & _ & _ & Hob')]; intros j e Hj; rewrite Hob' in Hj;
      [by apply L2|]. apply lookup_insert_Some in Hj as [[<- <-]|[_ Hj]]; [|by apply L2].
    split; [done|]. rewrite Hat. done.
  - right. exists (o_id order), row, o'. split_and!; [done..| |].
    + unfold ended. intros Hend. unfold legal in Hl. rewrite <-Hst in Hl.
      destruct (o_status row); try done; by apply not_elem_of_nil in Hl.
    + unfold ended. rewrite Es. intros Hend. right. destruct Hrows as [Hx|(_ & x & _ & _ & ? & ? & ? & Hx)].
      * rewrite Hend in Hob. destruct Hob as [tx Hob]. rewrite Hx in Hob.
        assert (d_outbox d !! d_next_outbox d ≠ None); [|done]. rewrite Hob, lookup_insert_eq. done.
      * exists (d_next_outbox d), x. rewrite Hx, lookup_insert_eq. done.
  - intros j e Hj. destruct Hrows as [Hx|(Hend & x & _ & _ & _ & Hagg & _ & Hx)]; rewrite Hx in Hj.
    + left. by exists e.
    + apply lookup_insert_Some in Hj as [[<- <-]|[_ Hj]]; [|left; by exists e].
      right. rewrite Hagg, Ho. exists o'. rewrite lookup_insert_eq. split; [done|].
      unfold ended. by rewrite Es.
  - intros i (j & e & Hj & ? & ? & ?). destruct Hrows as [Hx|(_ & x & _ & _ & _ & _ & _ & Hx)];
      exists j, e; rewrite Hx; [done|]. rewrite lookup_insert_ne; [done|]. congruence.
Qed.

Lemma transit_ledger order s m w : transits order s m → ledger w → ledger (transaction m w).2.
Proof.
  intros Hm L. destruct (transit_move order s m w Hm L) as [Hmove Hdue].
  pose proof (transaction_redis m w) as Hr. destruct w as [d r], (transaction m _).2 as [d' r'].
  simpl in *. subst r'. eapply order_move_ledger; [done| |done]. intros i o _ _ ? _. auto.
Qed.

(** ** The outbox *)

Lemma outbox_move d ob n :
  db_ok d → d_next_outbox d <= n → outbox_inv (set_outbox ob n d) →
  (∀ j e, ob !! j = Some e → ∃ e', d_outbox d !! j = Some e' ∧ ob_type e = ob_type e' ∧
     ob_aggregate e = ob_aggregate e') →
  order_move d (set_outbox ob n d).
Proof.
  intros [D1 D2 D3 D4 D5 D6] Hn Hinv Hrows. split; try done.
  - split; try done. simpl. intros j [e He]. destruct (Hrows j e He) as (e' & He' & _).
    assert (j < d_next_outbox d) by (apply D6; by exists e'). lia.
  - by left.
  - intros j e He. left. destruct (Hrows j e He) as (e' & ? & ? & ?). by exists e'.
Qed.

Lemma lease_ledger locked now w : ledger w → ledger (transaction (claim_outbox locked now) w).2.
Proof.
  intros L. destruct w as [d r]. pose proof L as [L1 L2 _ _ _ _ _]. simpl in *.
  pose proof (outbox_claim_leases locked now d L2) as Hinv.
  destruct (claim_outbox_keeps locked now d L2) as (d' & Hd' & _ & _ & Hkeep).
  destruct (outbox_batch_spec locked now d L2) as (_ & Hnd & Hrows & _).
  unfold transaction, claim_outbox in *. simpl in *. injection Hd' as <-. simpl in *.
  destruct Hinv as (rows & _ & Hinv & _).
  eapply order_move_ledger; [|intros i o _ _ (j & e & He & ? & ? & ?) _|exact L].
  - apply outbox_move; [done|lia|done|]. intros j e He. rewrite foldr_leased in He by done.
    destruct (list_find _ _) as [[k x]|] eqn:Hf; [|by exists e]. injection He as <-.
    apply list_find_Some in Hf as (Hl & <- & _). apply list_elem_of_lookup_2 in Hl.
    destruct (Hrows x Hl) as (Hx & _). by exists x.
  - destruct (Hkeep j e He) as (e' & He' & _ & Ht & Ha & Hp). exists j, e'. split_and!; [exact He'|congruence..].
Qed.

Lemma purge_ledger now w : ledger w → ledger (transaction (purge_processed_outbox now) w).2.
Proof.
  intros L. destruct w as [d r]. pose proof L as [L1 L2 _ _ _ _ _]. simpl in *.
  unfold transaction, purge_processed_outbox. simpl.
  eapply order_move_ledger; [|intros i o _ _ (j & e & He & ? & ? & Hp) _|exact L].
  - apply outbox_move; [done|lia| |].
    + intros i e He. simpl in He. apply map_lookup_filter_Some in He as [He _]. by apply L2.
    + intros i e [He _]%map_lookup_filter_Some. by exists e.
  - exists j, e. split_and!; [|done..]. apply map_lookup_filter_Some. split; [done|].
    unfold purgeable. simpl. by rewrite Hp.
Qed.

(** Stamping a row whose release is made, or whose order is not there. *)
Lemma mark_ledger id now d r :
  (∀ e o, d_outbox d !! id = Some e → d_orders d !! ob_aggregate e = Some o → o_event o = E →
     released_exists r (order_marker (ob_aggregate e)) = true) →
  ledger (mk_world d r) → ledger (transaction (mark_processed id now) (mk_world d r)).2.
Proof.
  intros Hpaid L. pose proof L as [L1 L2 _ _ _ _ _]. simpl in *.
  unfold transaction, mark_processed, modify. simpl.
  destruct (d_outbox d !! id) as [x|] eqn:Hx; [|done].
  eapply order_move_ledger; [|intros i o Hi HE (j & e & He & ? & Hagg & ?) Hm|exact L].
  - apply outbox_move; [done|lia| |].
    + intros i e He. simpl in He. apply lookup_insert_Some in He as [[<- <-]|[_ He]]; [|by apply L2].
      apply (L2 _ _ Hx).
    + intros i e He. apply lookup_insert_Some in He as [[<- <-]|[_ He]]; [by exists x|by exists e].
  - destruct (decide (j = id)) as [->|Hne].
    + assert (x = e) as -> by congruence. subst i. by rewrite (Hpaid e o) in Hm.
    + exists j, e. simpl. by rewrite lookup_insert_ne.
Qed.

(** ** Releases *)

Lemma take_hold_ledger i d r : ledger (mk_world d r) → ledger (mk_world (take_hold i d).2 r).
Proof.
  intros L. pose proof L as [L1 L2 _ _ _ _ _]. simpl in *.
  destruct (safe_take_hold i d L1) as [Hok _]. unfold take_hold in *.
  destruct (d_holds d !! i) as [h|]; simpl in *; [|done].
  apply (order_move_ledger d); [|by intros j o _ _ ? _|exact L].
  split; simpl; try done; [by left|]. intros j e He. left. by exists e.
Qed.

Lemma release_order_seat_ledger order row w :
  d_orders (w_db w) !! o_id order = Some row → same_purchase row order →
  (o_event row = E → ended row) → ledger w → ledger (release_order_seat order w).2.
Proof.
  intros Hrow (Eid & Eus & Eev & Ez & Eq & _) Hend L. unfold release_order_seat. destruct w as [d r].
  simpl in *. destruct (o_zone order) as [z|] eqn:Hz.
  - assert (HE : o_event row ≠ E).
    { intros HE. destruct (b_rows _ _ (l_orders _ L) _ _ Hrow HE) as [Hn _]. congruence. }
    pose proof (take_hold_ledger (o_id order) d r L) as L'.
    unfold bind, transaction. simpl. unfold take_hold in *.
    destruct (d_holds d !! o_id order) as [h|] eqn:Hh; simpl in *; [|done].
    unfold in_redis, give_back. simpl.
    pose proof (seats_release_outcome (o_event order) z (o_user order) (hd_block h) (hd_start h)
      (hd_len h) (order_marker (o_id order)) r) as Ho.
    destruct (release_seats _ _ _ _ _ _ _ _ r) as [b r']. destruct Ho as [Ho _]. simpl.
    eapply release_outcome_ledger; [done..|]. intros r1 Hg.
    eapply (release_ledger _ row); [exact L'|exact Hrow|done|done| |exact Hg]. intros ?. destruct HE. congruence.
  - unfold in_redis. simpl.
    destruct (counter_release_outcome (o_event order) (o_user order) (o_quantity order)
      (order_marker (o_id order)) r) as (b & r' & -> & Ho & _). simpl.
    eapply release_outcome_ledger; [done..|]. intros r1 Hg.
    eapply (release_ledger _ row); [exact L|exact Hrow|done|done| |exact Hg]. done.
Qed.

Lemma relay_ledger now e w : row_of w e → ledger w → ledger (process_row now e w).2.
Proof.
  intros (x & Hx & Hty & Hagg) L. unfold process_row, outbox_handler.
  destruct (bool_decide _) eqn:Hsr; [|done]. apply bool_decide_eq_true in Hsr.
  rewrite bind_try, handle_seat_release_eq.
  destruct (d_orders (w_db w) !! ob_aggregate e) as [o|] eqn:Ho.
  2:{ destruct w as [d r]. apply mark_ledger; [|done]. simpl in *. intros y o Hy Hoy _.
      assert (y = x) as -> by congruence. by rewrite Hagg, Ho in Hoy. }
  destruct (ok_order_checks _ (l_db _ L) _ _ Ho) as [Hid _].
  destruct (b_due _ _ (l_orders _ L) _ _ Hx) as [_ Hend]; [congruence|].
  assert (L' : ledger (release_order_seat o w).2).
  { apply (release_order_seat_ledger o o); [by rewrite Hid|reflexivity| |done].
    intros HE. apply (Hend o); [by rewrite Hagg|done]. }
  destruct (release_order_seat_cases o w) as [[Hro Hrb _ _] Hpaid].
  unfold bind. destruct (release_order_seat o w) as [[b|ex] [d' r']]; simpl in *; [|done].
  apply mark_ledger; [|done]. intros y o' Hy Ho' HE. rewrite Hrb in Hy. rewrite Hro in Ho'.
  assert (y = x) as -> by congruence. rewrite Hagg in *. assert (o' = o) as -> by congruence.
  destruct (b_rows _ _ (l_orders _ L) _ _ Ho HE) as [Hz _]. specialize (Hpaid eq_refl).
  rewrite Hz, Hid in Hpaid. exact Hpaid.
Qed.

(** ** The reconciliation *)

(** With every release made, what the orders hold is what is sold. *)
Lemma owed_held P d r :
  db_ok d → orders_ok d r →
  (∀ i o, d_orders d !! i = Some o → o_event o = E → ended o →
     released_exists r (order_marker i) = true) →
  owed_total P d r = list_sum (λ o : Order, if P (o_user o) then o_quantity o else 0) (held_orders d E).
Proof.
  intros Hd Hb Hpaid. unfold owed_total, held_orders. rewrite map_sum_list.
  rewrite <-(list_sum_filter (owed_term P r) (λ o, o_event o = E ∧ held_status (o_status o) = true)).
  - apply list_sum_ext. intros o [[HE Hs] Hin]%list_elem_of_filter.
    apply list_elem_of_fmap in Hin as ([i x] & -> & Hi%elem_of_map_to_list). simpl in *.
    destruct (ok_order_checks _ Hd i x Hi) as [Hid _]. unfold owed_term, owed_quantity.
    rewrite HE, Z.eqb_refl, Hid. destruct (released_exists r (order_marker i)) eqn:Hm; [|done].
    destruct (b_rows _ _ Hb i x Hi HE) as (_ & _ & He & _). specialize (He Hm). unfold ended in He. congruence.
  - intros o Hin Hno. apply list_elem_of_fmap in Hin as ([i x] & -> & Hi%elem_of_map_to_list). simpl in *.
    destruct (ok_order_checks _ Hd i x Hi) as [Hid _]. unfold owed_term, owed_quantity.
    destruct (o_event x =? E) eqn:HE; [|by destruct (P _)]. zbool.
    rewrite Hid, (Hpaid i x Hi HE); [by destruct (P _)|].
    unfold ended. destruct (held_status (o_status x)); [|done]. by destruct Hno.
Qed.

(** With nothing in the stream either, the books are the database's. *)
Lemma settled_books d r :
  ledger (mk_world d r) → s_entries (r_stream r) = [] →
  (∀ i o, d_orders d !! i = Some o → o_event o = E → ended o →
     released_exists r (order_marker i) = true) →
  taken everybody d r = sold d E ∧
  ∀ u, taken (only u) d r = default 0 (quotas_by_user (held_orders d E) !! u).
Proof.
  intros [L1 _ _ _ _ L6 _] Hnil Hpaid. simpl in *.
  assert (Hz : ∀ P, open_total P d r = 0) by (intros P; unfold open_total; by rewrite Hnil).
  split; [|intros u]; unfold taken; rewrite Hz, owed_held by done; [done|].
  rewrite quotas_by_user_sum. apply list_sum_ext. intros o _. unfold only.
  destruct (o_user o =? u) eqn:Hu, (decide (o_user o = u)); zbool; congruence.
Qed.

Lemma reconcile_ledger w :
  (∀ i o, d_orders (w_db w) !! i = Some o → o_event o = E → ended o →
     released_exists (w_redis w) (order_marker i) = true) →
  ledger w → ledger (in_redis (reconcile_inventory (w_db w) E false) w).2.
Proof.
  intros Hpaid L. destruct w as [d r]. pose proof L as [L1 _ (ev & Hev & HT) L4 _ _ [(n & Hn & _ & Hsum) B2 _]].
  simpl in *. unfold in_redis, reconcile_inventory, queue_depth. simpl.
  destruct (xlen (r_stream r) =? 0) eqn:Hx; simpl; [|done]. rewrite Hev. simpl.
  unfold xlen in Hx. zbool.
  assert (Hnil : s_entries (r_stream r) = []) by (apply nil_length_inv; lia).
  destruct (settled_books d r L Hnil Hpaid) as [Hs Hq].
  apply (unrelated_ledger (mk_world d r)); [|apply L|done]. split; simpl; try done.
  - rewrite lookup_insert_eq, Hn. f_equal. lia.
  - intros u. rewrite B2, Hq. unfold quota, hget, hash. simpl. by rewrite lookup_insert_eq.
Qed.

(** ** Every step keeps the books *)

Lemma read_ledger c n w : ledger w → ledger (read_step c n w).
Proof.
  intros L. destruct w as [d r]. unfold read_step. simpl.
  unfold xreadgroup. simpl. by apply pel_ledger.
Qed.

(** The actions that are never a disorder by themselves. *)
Lemma orderly_action t w :
  possible w t → ¬ disorder w t → orderly_step w (perform t w).
Proof. intros. by exists t. Qed.

#[local] Ltac orderly t := apply (orderly_action t); [|intros Hdis; by inversion Hdis].

Lemma st_consume x tx e w :
  held_entry w e → refunded (w_redis w) e.2 = false → orderly_step w (consume_entry x tx e w).2.
Proof.
  intros He Hr. apply (orderly_action (ac_consume x tx e)); [done|]. intros Hd.
  inversion Hd. congruence.
Qed.

Lemma orderly_step_ledger w w' : orderly_step w w' → ledger w → ledger w'.
Proof.
  intros (t & Hp & Hd & ->) L. destruct t as [a|a|c n|x tx e|x tx idle maxd excess q|excess e|now o|now tx o
    |now tx o|now tx o|o|locked now|now e|now| |w']; simpl in *.
  - destruct Hp as ((u & Hu & Hk) & Hq & Ht & HE). eapply reserve_ledger; [exact Hu|exact Hk|done|done| |done].
    intros Hev. split; [by apply HE|]. intros Hkn. apply not_false_iff_true. intros Hc.
    by destruct (Hd (dis_lapsed_key w a u Hev Hu Hk Hkn Hc)).
  - destruct Hp as ((u & Hu & Hk) & HE & Ht). by eapply claim_seats_ledger.
  - by apply read_ledger.
  - apply consume_ledger; [done| |done]. apply not_true_iff_false. intros Hr. by destruct (Hd (dis_late_consumer w x tx e Hr)).
  - apply reclaim_ledger; [|done]. intros f Hin Hc. apply not_true_iff_false. intros Hr.
    by destruct (Hd (dis_late_retry w x tx idle maxd excess q f Hin Hc Hr)).
  - destruct Hp as [Hin|(_ & [u Hi] & Hset)].
    + pose proof (dead_letter_ledger excess e w Hin L) as Hdl.
      destruct (dead_letter_intent excess e.1 e.2 w) as [out w']. by apply Hdl.
    + eapply late_dead_letter_ledger; [exact Hi| |done]. destruct Hset as [Hr|Hr]; [left|by right].
      eapply recorded_known; [|done]. by apply intent_reads in Hi as (_ & _ & ? & _).
  - eapply transit_ledger; [apply paid_transits|done].
  - eapply transit_ledger; [apply confirmed_transits|done].
  - eapply transit_ledger; [by apply owing_transits|done].
  - eapply transit_ledger; [by apply owing_transits|done].
  - destruct Hp as (row & Hrow & Hsame & Hend). by eapply release_order_seat_ledger.
  - by apply lease_ledger.
  - by apply relay_ledger.
  - by apply purge_ledger.
  - apply reconcile_ledger; [|done]. intros i o Hi HE Hend. apply not_false_iff_true. intros Hm.
    by destruct (Hd (dis_early_reconcile w i o Hi HE Hend Hm)).
  - eapply unrelated_ledger; [exact Hp| |done]. apply Z.lt_nge. intros Ht. by destruct (Hd (dis_window w w' Ht)).
Qed.

Lemma history_ledger w w' : rtc orderly_step w w' → ledger w → ledger w'.
Proof. induction 1 as [|w w1 w2 H1 _ IH]; intros L; [done|]. apply IH. by eapply orderly_step_ledger. Qed.





(** ** The jobs are sequences of steps *)

Lemma consume_all_steps x tx l w :
  db_ok (w_db w) → NoDup l.*1 →
  (∀ e, e ∈ l → e ∈ s_entries (r_stream (w_redis w)) ∧ refunded (w_redis w) e.2 = false) →
  rtc orderly_step w (consume_all x tx l w).2.
Proof.
  revert w. induction l as [|e l IH]; intros w Hd Hn Hl; simpl; [done|].
  apply NoDup_cons in Hn as [Hne Hn].
  destruct (consume_entry_cases x tx e w Hd) as (w1 & H1 & Hd1 & _ & Hc). unfold bind. rewrite H1.
  apply rtc_l with w1.
  { destruct (Hl e ltac:(left)) as [Hin Hal].
    pose proof (st_consume x tx e w (or_introl Hin) Hal) as Hstep. by rewrite H1 in Hstep. }
  apply IH; [done|done|]. intros y Hy. destruct (Hl y ltac:(by right)) as [Hin Hal].
  destruct Hc as [->|[-> _]]; [done|]. simpl. split; [|done]. apply list_elem_of_filter. split; [|done].
  intros Heq. apply Hne. rewrite <-Heq. by apply list_elem_of_fmap_2.
Qed.

(** A consumer's batch, while nothing in the stream was given back. *)
Lemma consume_batch_steps x tx consumer w :
  ledger w → (∀ e, e ∈ s_entries (r_stream (w_redis w)) → refunded (w_redis w) e.2 = false) →
  rtc orderly_step w (consume_batch x tx consumer w).2.
Proof.
  intros L Hal. unfold consume_batch.
  assert (Hread : orderly_step w (read_step consumer READ_COUNT w)) by (by orderly (ac_read consumer READ_COUNT)).
  unfold read_step in Hread.
  assert (Hsub : sublist (xreadgroup (r_now (w_redis w)) consumer READ_COUNT (r_stream (w_redis w))).1
    (s_entries (r_stream (w_redis w)))).
  { unfold xreadgroup. simpl. etrans; [apply sublist_take|apply sublist_filter]. }
  assert (Hent : s_entries (xreadgroup (r_now (w_redis w)) consumer READ_COUNT (r_stream (w_redis w))).2 =
    s_entries (r_stream (w_redis w))) by done.
  destruct (xreadgroup _ _ _ _) as [l s]. simpl in *.
  assert (Hrest : rtc orderly_step w (consume_all x tx l (mk_world (w_db w) (set_stream s (w_redis w)))).2).
  { eapply rtc_l; [exact Hread|]. apply consume_all_steps; [apply L| |].
    - eapply sublist_NoDup; [apply (q_ids _ (l_queue _ L))|by apply fmap_sublist].
    - simpl. rewrite Hent. intros e He.
      assert (e ∈ s_entries (r_stream (w_redis w))) by (by eapply elem_of_submseteq; [|apply sublist_submseteq]).
      split; [done|]. by apply Hal. }
  destruct l as [|e l]; [exact Hrest|]. unfold bind.
  by destruct (consume_all x tx (e :: l) _) as [[[]|ex] w'].
Qed.

Lemma process_rows_steps now rows w :
  (∀ e, e ∈ rows → row_of w e) → rtc orderly_step w (process_rows now rows w).2.
Proof.
  revert w. induction rows as [|e rows IH]; intros w Hrows; simpl; [done|].
  assert (Hstep : orderly_step w (process_row now e w).2)
    by (orderly (ac_relay now e); apply Hrows; left).
  destruct (process_row_cases now e w) as (w1 & H1 & R1); [apply Hrows; left|].
  unfold bind. rewrite H1 in *. eapply rtc_l; [exact Hstep|]. apply IH.
  intros x Hx. eapply row_of_relayed; [exact R1|]. apply Hrows. by right.
Qed.

(** A pass of the relay. *)
Lemma process_outbox_steps locked now w :
  ledger w → rtc orderly_step w (process_outbox locked now w).2.
Proof.
  intros L. destruct w as [d r]. pose proof (l_outbox _ L) as Hinv. simpl in Hinv.
  assert (Hlease : orderly_step (mk_world d r) (transaction (claim_outbox locked now) (mk_world d r)).2)
    by (by orderly (ac_lease locked now)).
  destruct (claim_outbox_keeps locked now d Hinv) as (d' & Hd' & _ & _ & Hk).
  destruct (outbox_batch_spec locked now d Hinv) as (_ & _ & Hrows & _).
  unfold process_outbox, bind, transaction in *. cbn [w_db w_redis] in *. rewrite Hd' in Hlease |- *.
  cbn [snd] in Hlease.
  assert (Hrun : rtc orderly_step (mk_world d' r) (process_rows now (outbox_batch locked now d) (mk_world d' r)).2).
  { apply process_rows_steps. intros e He. destruct (Hrows e He) as (Hi & _).
    destruct (Hk _ _ Hi) as (x & Hx & _ & ? & ? & _). by exists x. }
  destruct (process_rows_cases now (outbox_batch locked now d) (mk_world d' r)) as (w2 & H2 & _).
  { intros e He. destruct (Hrows e He) as (Hi & _). destruct (Hk _ _ Hi) as (x & Hx & _ & ? & ? & _). by exists x. }
  rewrite H2 in Hrun |- *. eapply rtc_l; [exact Hlease|]. by destruct w2.
Qed.

(** One order of the first payment timeout, whatever it looked like when it was read. *)
Lemma expire_one_steps t seen i w :
  ledger w → rtc orderly_step w (expire_one t seen i w).2.
Proof.
  intros L. unfold expire_one, expire_tx.
  destruct (d_orders seen !! i) as [order|]; [|destruct w; done].
  destruct (negb _); [destruct w; done|].
  assert (Hstep : orderly_step w (transaction (expire_order (now_expired t) (now_tx t) order) w).2)
    by (by orderly (ac_expire (now_expired t) (now_tx t) order)).
  unfold transaction, bind, try_catch in *.
  destruct (expire_order (now_expired t) (now_tx t) order (w_db w)) as [[[b o']|e] d'] eqn:He; simpl in *;
    [|by apply rtc_once].
  destruct b; simpl; [|by apply rtc_once]. eapply rtc_l; [exact Hstep|].
  assert (Hrow : d_orders d' !! o_id o' = Some o' ∧ ended o').
  { revert He. unfold expire_order, transition_owing_release, bind.
    pose proof (transition_cases (now_expired t) order EXPIRED (w_db w)) as Hc.
    destruct (transition_order_status _ _ _ (w_db w)) as [[[[] x]|ex] d1]; simpl; intros He; simplify_eq/=.
    injection He as -> <-. simpl. rewrite (applied_id _ _ _ _ _ _ (l_db _ L) Hc). destruct Hc as [_ (row & _ & _ & Hs) _ ->]. simpl.
    apply stamped_facts in Hs as (Es & _). rewrite lookup_insert_eq. split; [done|].
    unfold ended. by rewrite Es. }
  destruct Hrow as [Hrow Hend].
  assert (Hrel : orderly_step (mk_world d' (w_redis w)) (release_order_seat o' (mk_world d' (w_redis w))).2)
    by (orderly (ac_release o'); by exists o').
  destruct (release_order_seat o' _) as [[b|e] w2]; by apply rtc_once.
Qed.

(** The whole job of the first payment timeout. *)
Lemma expire_all_steps t seen ids w : ledger w → rtc orderly_step w (expire_all t seen ids w).2.
Proof.
  revert w. induction ids as [|i ids IH]; intros w L; simpl; [done|].
  pose proof (expire_one_steps t (seen i) i w L) as H1. unfold bind.
  destruct (expire_one t (seen i) i w) as [[[]|ex] w1]; [|done].
  etrans; [exact H1|]. apply IH. by eapply history_ledger.
Qed.

(** ** The sale as a whole *)



End sale.

(** ** Witnesses: one sale of four seats *)

Definition counter_event : Event :=
  mk_event 7 None 0 0 0 9000 None None 4 (Some 100) PUBLISHED 1.
Definition counter_db : DB :=
  mk_db {[5; 6]} {[7 := counter_event]} ∅ ∅ ∅ ∅ ∅ 1 ∅ ∅ 1 ∅.
Definition counter_world : World := mk_world counter_db (set_available {[7 := 4]} empty_redis).
Definition window_end : Z := 86400000.

(** The database answers. *)
Definition calm : faults := λ _, DbUp.

Definition second_key : string := "fedcba9876543210fedcba9876543210".
Definition third_key : string := "00112233445566778899aabbccddeeff".

Definition buys (user quantity : Z) (u : string) : reserve_args :=
  mk_reserve_args 7 user quantity 100 (uuid_str u) None DEFAULT_TTL_SECONDS 4 "" "".
Definition first_entry : sid * fields := ((0, 1), counter_intent (buys 5 4 demo_key)).



(** The first buyer takes all four seats, does not pay, and the relay gives them back. *)
Definition sold_out : World := (in_redis (reserve_and_enqueue (buys 5 4 demo_key)) counter_world).2.
Definition ordered : World := (consume_entry calm 10 first_entry sold_out).2.
Definition first_order : Order := reserve_order 1 10 (buys 5 4 demo_key) demo_key.
Definition expired_unpaid : World := (transaction (expire_order 20 20 first_order) ordered).2.
Definition due_row : OutboxEntry := mk_outbox 1 SEAT_RELEASE 1 0 20 None.






(** ** The disorders break the books *)

(** A consumer that still has an intent in hand after its dead letter gave the seats
    back persists it all the same: [_persist_intent] asks neither for the marker nor
    whether the entry is still its own.  The seats, meanwhile sold to somebody else,
    are sold twice. *)
Definition stuck_sale : World :=
  mk_world counter_db (set_now 400000 (set_available {[7 := 0]} (set_stream
    (mk_stream [first_entry] (0, 1) (0, 1) {[(0, 1) := mk_pending "worker" 0 5]}) empty_redis))).

Lemma late_consumer_oversells :
  let p := ((0, 1), mk_pending "worker" 0 5) in
  let w1 := (reclaim_entry calm 400 60000 5 0 p stuck_sale).2 in
  let w2 := (in_redis (reserve_and_enqueue (buys 6 4 second_key)) w1).2 in
  let w3 := (consume_entry calm 500 ((400000, 0), counter_intent (buys 6 4 second_key)) w2).2 in
  let w4 := (consume_entry calm 600 first_entry w3).2 in
  r_available (w_redis w1) !! 7 = Some 4 ∧ s_entries (r_stream (w_redis w1)) = [] ∧
  sold (w_db w3) 7 = 4 ∧ sold (w_db w4) 7 = 8 ∧ ev_total_seats counter_event = 4.
Proof. by vm_compute. Qed.

(** A reconciliation while an expired order's release is due counts its seats as free
    already; the relay then adds them a second time, and they are sold twice.  The
    guard looks at the backlog of intents alone. *)
Lemma reconciled_before_release_oversells :
  let w1 := (in_redis (reconcile_inventory (w_db expired_unpaid) 7 false) expired_unpaid).2 in
  let w2 := (process_row 30 due_row w1).2 in
  let w3 := (in_redis (reserve_and_enqueue (buys 6 4 second_key)) w2).2 in
  let w4 := (in_redis (reserve_and_enqueue (buys 5 4 third_key)) w3).2 in
  let w5 := (consume_entry calm 40 ((0, 2), counter_intent (buys 6 4 second_key)) w4).2 in
  let w6 := (consume_entry calm 50 ((0, 3), counter_intent (buys 5 4 third_key)) w5).2 in
  r_available (w_redis w1) !! 7 = Some 4 ∧ r_available (w_redis w2) !! 7 = Some 8 ∧
  compute_expected_available (w_db w2) 7 = Ok 4 ∧
  r_available (w_redis w4) !! 7 = Some 0 ∧ sold (w_db w6) 7 = 8 ∧ ev_total_seats counter_event = 4.
Proof. by vm_compute. Qed.

(** A key sent again after its claim has lapsed reserves a second time; its intent is
    taken for a duplicate and acknowledged, and what it reserved is lost to the sale
    until somebody reconciles. *)
Definition half_sold : World :=
  (consume_entry calm 10 ((0, 1), counter_intent (buys 5 2 demo_key))
    (in_redis (reserve_and_enqueue (buys 5 2 demo_key)) counter_world).2).2.

Lemma lapsed_key_leaks_stock :
  let w1 := mk_world (w_db half_sold) (set_now window_end (w_redis half_sold)) in
  let w2 := (in_redis (reserve_and_enqueue (buys 5 2 demo_key)) w1).2 in
  let w3 := (consume_entry calm 20 ((window_end, 0), counter_intent (buys 5 2 demo_key)) w2).2 in
  sold (w_db half_sold) 7 = 2 ∧ r_available (w_redis w1) !! 7 = Some 2 ∧
  sold (w_db w3) 7 = 2 ∧ r_available (w_redis w3) !! 7 = Some 0 ∧
  s_entries (r_stream (w_redis w3)) = [] ∧ compute_expected_available (w_db w3) 7 = Ok 2.
Proof. by vm_compute. Qed.

(** So the orderliness of a history is no idle hypothesis: from the same opening, a
    history of possible actions with one early reconciliation sells eight of four
    seats. *)
Definition late_entry (i : Z) (user : Z) (u : string) : sid * fields :=
  ((0, i), counter_intent (buys user 4 u)).
Definition disorderly_actions : list action :=
  [ac_reserve (buys 5 4 demo_key); ac_consume calm 10 first_entry; ac_expire 20 20 first_order;
   ac_reconcile; ac_relay 30 due_row; ac_reserve (buys 6 4 second_key);
   ac_reserve (buys 5 4 third_key); ac_consume calm 40 (late_entry 2 6 second_key);
   ac_consume calm 50 (late_entry 3 5 third_key)].
Definition run_actions (ts : list action) (w : World) : World :=
  foldl (λ w t, perform 7 t w) w ts.

Fixpoint all_possible (ts : list action) (w : World) : Prop :=
  match ts with
  | [] => True
  | t :: ts => possible 7 4 w t ∧ all_possible ts (perform 7 t w)
  end.

Lemma all_possible_steps ts w : all_possible ts w → rtc (sys_step 7 4) w (run_actions ts w).
Proof.
  revert w. induction ts as [|t ts IH]; intros w; [done|]. intros [Ht Hts].
  apply rtc_l with (perform 7 t w); [by exists t|]. by apply IH.
Qed.

Lemma possible_buy w user u : is_uuid u → possible 7 4 w (ac_reserve (buys user 4 u)).
Proof. intros Hu. split; [by exists u|done]. Qed.

Lemma possible_consume w tx e :
  s_entries (r_stream (w_redis w)) !! 0%nat = Some e → possible 7 4 w (ac_consume calm tx e).
Proof. intros H. left. by apply (list_elem_of_lookup_2 _ 0). Qed.

Lemma disorderly_possible : all_possible disorderly_actions counter_world.
Proof.
  unfold disorderly_actions. cbn [all_possible].
  split; [apply possible_buy, demo_key_uuid|].
  split; [apply possible_consume; vm_compute; reflexivity|].
  split; [exact I|]. split; [exact I|].
  split; [exists due_row; vm_compute; split_and!; reflexivity|].
  split; [apply possible_buy; split; [by vm_compute|repeat constructor]|].
  split; [apply possible_buy; split; [by vm_compute|repeat constructor]|].
  split; [apply possible_consume; vm_compute; reflexivity|].
  split; [apply possible_consume|exact I]. vm_compute; reflexivity.
Qed.

Lemma unguarded_history_oversells :
  rtc (sys_step 7 4) counter_world (run_actions disorderly_actions counter_world) ∧
  sold (w_db (run_actions disorderly_actions counter_world)) 7 = 8.
Proof. split; [apply all_possible_steps, disorderly_possible|by vm_compute]. Qed.
