(* ===== verification/Pii.v ===== *)
(** Personal data: envelope encryption with versioned keys (src/app/services/pii.py
    over src/ticket_secrets/src/lib.rs), the key settings (core/config.py), the
    registration of a buyer (services/buyer_info.py, crud/buyer_info.py, api/v1/
    buyer_info.py) and the job that moves old rows to the active key (worker.py).
    AES-256-GCM is an interface; random bytes are arguments; text is ASCII. *)

From Stdlib Require Import Ascii String.
From S2P Require Import Prelude Text Exceptions Base64 Sha256.

#[local] Open Scope string_scope.
#[local] Open Scope list_scope.
#[local] Open Scope Z_scope.

(** ** The primitives *)

Abbreviation bytes := (list Z).

(** What an authenticated cipher promises: it opens what it sealed under the same
    32-byte key and 12-byte nonce, and adds a tag of 16 bytes. *)
Class Aead := {
  seal : bytes → bytes → bytes → bytes;              (* key, nonce, plaintext *)
  open_sealed : bytes → bytes → bytes → option bytes;
  open_seal : ∀ key nonce p, List.length key = 32%nat → List.length nonce = 12%nat →
    open_sealed key nonce (seal key nonce p) = Some p;
  seal_length : ∀ key nonce p, List.length (seal key nonce p) = (List.length p + 16)%nat;
}.

(** A value of [json.loads], as far as [_parse_retired_keks] looks into it. *)
Inductive json : Type :=
  | JObject (fields : list (string * json))
  | JText (s : string)
  | JOther.

Section pii.
Context `{Aead}.

(** [ticket_secrets.aes_gcm_encrypt]: the nonce it generates goes in front. *)
Definition aes_gcm_encrypt (nonce key plaintext : bytes) : result exn bytes :=
  if negb (List.length key =? 32)%nat then Err ValueError else Ok (nonce ++ seal key nonce plaintext).

(** [ticket_secrets.aes_gcm_decrypt] *)
Definition aes_gcm_decrypt (key data : bytes) : result exn bytes :=
  if negb (List.length key =? 32)%nat then Err ValueError
  else if (List.length data <? 12 + 16)%nat then Err ValueError
  else match open_sealed key (take 12 data) (drop 12 data) with
       | Some p => Ok p
       | None => Err ValueError
       end.

(** ** The key settings *)

Context (json_loads : string → option json).

Record PiiSettings : Type := mk_pii_settings {
  PII_KEK_BASE64 : string;
  PII_LOOKUP_KEY_BASE64 : string;
  PII_KEK_VERSION : Z;
  PII_KEK_RETIRED : string;
}.

(** [base64.b64decode]: unlike the URL-safe form, it skips [-] and [_] as it skips
    everything outside its alphabet. *)
Definition std_b64decode (v : string) : option bytes :=
  if is_ascii v
  then b64decode (List.filter (λ c, negb (Ascii.eqb c "-" || Ascii.eqb c "_")) (list_ascii_of_string v))
  else None.

(** [_decode_32_byte_key] *)
Definition decode_32_byte_key (v : string) : option bytes :=
  match std_b64decode v with
  | Some decoded => if (List.length decoded =? 32)%nat then Some decoded else None
  | None => None
  end.

(** One entry of the retired keys: a version in digits, at least 1, and its key. *)
Definition retired_entry (version : string) (key : json) : option (Z * bytes) :=
  match nat_digits (list_ascii_of_string version) with
  | Some v =>
      if negb (forallb is_digit (list_ascii_of_string version)) || (v <? 1) then None
      else match key with
           | JText k => k' ← decode_32_byte_key k; Some (v, k')
           | _ => None
           end
  | None => None
  end.

Fixpoint retired_entries (keyring : gmap Z bytes) (fields : list (string * json)) : option (gmap Z bytes) :=
  match fields with
  | [] => Some keyring
  | (version, key) :: fields' =>
      match retired_entry version key with
      | Some (v, k) => retired_entries (<[v := k]> keyring) fields'
      | None => None
      end
  end.

(** [_parse_retired_keks] *)
Definition parse_retired_keks (raw : string) : option (gmap Z bytes) :=
  match json_loads (if bool_decide (raw = "") then "{}" else raw) with
  | Some (JObject fields) => retired_entries ∅ fields
  | _ => None
  end.

(** The field validators and [_active_kek_is_not_retired]. *)
Definition load_pii_settings (s : PiiSettings) : result exn PiiSettings :=
  match decode_32_byte_key (PII_KEK_BASE64 s), decode_32_byte_key (PII_LOOKUP_KEY_BASE64 s),
        parse_retired_keks (PII_KEK_RETIRED s) with
  | Some _, Some _, Some retired =>
      if (PII_KEK_VERSION s <? 1) || bool_decide (is_Some (retired !! PII_KEK_VERSION s))
      then Err ValueError else Ok s
  | _, _, _ => Err ValueError
  end.

(** [pii_keyring]: the retired keys are spread last. *)
Definition pii_keyring (s : PiiSettings) : gmap Z bytes :=
  match decode_32_byte_key (PII_KEK_BASE64 s), parse_retired_keks (PII_KEK_RETIRED s) with
  | Some k, Some retired => retired ∪ {[PII_KEK_VERSION s := k]}
  | _, _ => ∅
  end.

(** ** Envelopes *)

Record EncryptedPII : Type := mk_envelope {
  ciphertext : bytes;
  dek_encrypted : bytes;
  kek_version : Z;
}.

(** [active_kek_version] *)
Definition active_kek_version (s : PiiSettings) : Z := PII_KEK_VERSION s.

(** [_kek] *)
Definition kek (s : PiiSettings) (version : Z) : result exn bytes :=
  match pii_keyring s !! version with
  | Some k => Ok k
  | None => Err (PiiKeyVersionUnknown version)
  end.

(** The random bytes of one call: a data key and the nonces of the two layers. *)
Record Randoms : Type := mk_randoms { rnd_dek : bytes; rnd_nonce : bytes; rnd_nonce' : bytes }.

(** [encrypt_pii] *)
Definition encrypt_pii (s : PiiSettings) (rnd : Randoms) (plaintext : string) : result exn EncryptedPII :=
  let version := active_kek_version s in
  let? c := aes_gcm_encrypt (rnd_nonce rnd) (rnd_dek rnd) (text_bytes plaintext) in
  let? k := kek s version in
  let? d := aes_gcm_encrypt (rnd_nonce' rnd) k (rnd_dek rnd) in
  Ok (mk_envelope c d version).

(** [decrypt_pii] *)
Definition decrypt_pii (s : PiiSettings) (c d : bytes) (version : Z) : result exn string :=
  let? k := kek s version in
  let? dek := aes_gcm_decrypt k d in
  let? p := aes_gcm_decrypt dek c in
  match bytes_text p with Some t => Ok t | None => Err ValueError end.

(** [rewrap_dek] *)
Definition rewrap_dek (s : PiiSettings) (nonce d : bytes) (version : Z) : result exn (bytes * Z) :=
  let active := active_kek_version s in
  let? k := kek s version in
  let? dek := aes_gcm_decrypt k d in
  let? k' := kek s active in
  let? d' := aes_gcm_encrypt nonce k' dek in
  Ok (d', active).

(** [lookup_hash] *)
Definition lookup_hash (s : PiiSettings) (plaintext : string) : bytes :=
  match std_b64decode (PII_LOOKUP_KEY_BASE64 s) with
  | Some key => hmac_sha256 key (text_bytes plaintext)
  | None => []
  end.

(** ** The table and the registration *)

Record BuyerInfo : Type := mk_buyer {
  bi_real_name : string;
  bi_ciphertext : bytes;
  bi_dek : bytes;
  bi_hash : bytes;
  bi_version : Z;
}.
Abbreviation BuyerTable := (gmap Z BuyerInfo).

(** A SMALLINT column. *)
Definition smallint (v : Z) : bool := (-32768 <=? v) && (v <=? 32767).

(** [^\[A-Z\]\[12\]\d{8}$], ten characters. *)
Definition national_id_ok (v : string) : bool :=
  match list_ascii_of_string v with
  | a :: b :: rest =>
      let n := nat_of_ascii a in
      ((65 <=? n) && (n <=? 90))%nat && (Ascii.eqb b "1" || Ascii.eqb b "2") &&
      forallb is_digit rest && (List.length rest =? 8)%nat
  | _ => false
  end.

(** [RealName]: stripped, then 1 to 64 characters. *)
Definition real_name (v : string) : option string :=
  let l := strip (list_ascii_of_string v) in
  if (1 <=? List.length l)%nat && (List.length l <=? 64)%nat then Some (string_of_list_ascii l) else None.

(** The constraints an INSERT meets; which unique index PostgreSQL looks at first is
    the order they were created in. *)
Definition hash_taken (t : BuyerTable) (h : bytes) : bool :=
  existsb (λ p : Z * BuyerInfo, bool_decide (bi_hash p.2 = h)) (map_to_list t).
Definition PK_CONSTRAINT : string := "buyer_info_pkey".
Definition LOOKUP_HASH_INDEX : string := "ix_buyer_info_national_id_lookup_hash".
Definition unique_violation (pk_first : bool) (t : BuyerTable) (user : Z) (h : bytes) : option string :=
  let pk := if bool_decide (is_Some (t !! user)) then Some PK_CONSTRAINT else None in
  let ix := if hash_taken t h then Some LOOKUP_HASH_INDEX else None in
  if pk_first then opt_or pk ix else opt_or ix pk.

(** [create_buyer_info]: the INSERT at the flush. *)
Definition create_buyer_info (pk_first : bool) (users : gset Z) (user : Z) (row : BuyerInfo) : M BuyerTable exn BuyerInfo :=
  λ t,
    if negb (smallint (bi_version row)) then (Err DataError, t)
    else
      match unique_violation pk_first t user (bi_hash row) with
      | Some c => (Err (IntegrityError c), t)
      | None =>
          if bool_decide (user ∉ users) then (Err (IntegrityError "fk_buyer_info_user_id"), t)
          else (Ok row, <[user := row]> t)
      end.

(** [register_buyer_info]; [seen] is the table at the time of the first look, which
    may be older than the one the INSERT runs on. *)
Definition register_buyer_info (s : PiiSettings) (rnd : Randoms) (pk_first : bool) (users : gset Z) (seen : BuyerTable)
    (user : Z) (name national_id : string) : M BuyerTable exn BuyerInfo :=
  if bool_decide (is_Some (seen !! user)) then raise (Domain (BuyerInfoAlreadyExists user))
  else
    let! envelope := lift (encrypt_pii s rnd national_id) in
    let lookup := lookup_hash s national_id in
    try_catch
      (create_buyer_info pk_first users user
         (mk_buyer name (ciphertext envelope) (dek_encrypted envelope) lookup (kek_version envelope)))
      (λ e,
        match e with
        | IntegrityError detail =>
            if bool_decide (detail = LOOKUP_HASH_INDEX) then raise (Domain NationalIdAlreadyRegistered)
            else if bool_decide (detail = PK_CONSTRAINT) then raise (Domain (BuyerInfoAlreadyExists user))
            else raise e
        | _ => raise e
        end).

(** [create_my_buyer_info]: [BuyerInfoCreate] is validated first. *)
Definition create_my_buyer_info (s : PiiSettings) (rnd : Randoms) (pk_first : bool) (users : gset Z) (seen : BuyerTable)
    (user : Z) (name national_id : string) : M BuyerTable exn (string * string) :=
  match real_name name with
  | Some name' =>
      if negb (national_id_ok national_id) then raise (HTTPException 422 "validation")
      else
        let! info := register_buyer_info s rnd pk_first users seen user name' national_id in
        ret (bi_real_name info, national_id)
  | None => raise (HTTPException 422 "validation")
  end.

(** [get_my_buyer_info] *)
Definition read_row (s : PiiSettings) (row : BuyerInfo) : result exn string :=
  decrypt_pii s (bi_ciphertext row) (bi_dek row) (bi_version row).
Definition get_my_buyer_info (s : PiiSettings) (t : BuyerTable) (user : Z) : result exn (string * string) :=
  match t !! user with
  | None => Err (Domain (BuyerInfoNotFound user))
  | Some info => let? national_id := read_row s info in Ok (bi_real_name info, national_id)
  end.

(** ** The rotation job *)

Definition PII_REWRAP_BATCH : nat := 500.
Definition PII_REWRAP_MAX_BATCHES : nat := 20.

Definition set_wrapping (row : BuyerInfo) (dek : bytes) (version : Z) : BuyerInfo :=
  mk_buyer (bi_real_name row) (bi_ciphertext row) dek (bi_hash row) version.

(** [kek_version != active], not one of the versions known to be unknown, and not
    locked by someone else (SKIP LOCKED). *)
Definition stale (s : PiiSettings) (unknown : gset Z) (locked : gset Z) (t : BuyerTable) (user : Z) : Prop :=
  match t !! user with
  | Some row => bi_version row ≠ active_kek_version s ∧ (bi_version row ∉ unknown) ∧ (user ∉ locked)
  | None => False
  end.
#[global] Instance stale_dec s unknown locked t user : Decision (stale s unknown locked t user).
Proof. unfold stale. destruct (t !! user); apply _. Defined.

(** One batch: [heap] is the order in which the table is scanned, no ORDER BY being
    given. *)
Definition select_stale (batch : nat) (s : PiiSettings) (unknown locked : gset Z) (heap : list Z) (t : BuyerTable)
    : list Z := take batch (filter (stale s unknown locked t) heap).

(** The loop over the rows of a batch; the exceptions it does not catch end the
    job, and the batch is rolled back. *)
Fixpoint rewrap_rows (s : PiiSettings) (nonces : Z → bytes) (rows : list Z) (unknown : gset Z) (changed : nat)
    (t : BuyerTable) : result exn (gset Z * nat * BuyerTable) :=
  match rows with
  | [] => Ok (unknown, changed, t)
  | user :: rows' =>
      match t !! user with
      | None => rewrap_rows s nonces rows' unknown changed t
      | Some row =>
          match rewrap_dek s (nonces user) (bi_dek row) (bi_version row) with
          | Ok (d, v) => rewrap_rows s nonces rows' unknown (S changed) (<[user := set_wrapping row d v]> t)
          | Err (PiiKeyVersionUnknown v) => rewrap_rows s nonces rows' ({[v]} ∪ unknown) changed t
          | Err e => Err e
          end
      end
  end.

(** The batches, at most [fuel] of them; [others k] is what the rest of the system
    does to the table before the k-th, [locked k] the rows it holds meanwhile. *)
Fixpoint rewrap_batches (fuel : nat) (k : nat) (batch : nat) (s : PiiSettings) (nonces : Z → bytes) (heap : list Z)
    (locked : nat → gset Z) (others : nat → BuyerTable → BuyerTable) (unknown : gset Z) (done : nat)
    : M BuyerTable exn (nat * gset Z) := λ t,
  match fuel with
  | O => (Ok (done, unknown), t)
  | S fuel' =>
      let t := others k t in
      match select_stale batch s unknown (locked k) heap t with
      | [] => (Ok (done, unknown), t)
      | rows =>
          match rewrap_rows s nonces rows unknown 0 t with
          | Err e => (Err e, t)
          | Ok (unknown, changed, t') =>
              if negb (smallint (active_kek_version s)) && negb (changed =? 0)%nat then (Err DataError, t)
              else if (changed =? 0)%nat then (Ok (done, unknown), t')
              else rewrap_batches fuel' (S k) batch s nonces heap locked others unknown (done + changed)%nat t'
          end
      end
  end.

(** [rewrap_pii_keks]: the rows changed, and the versions the alert names. *)
Definition rewrap_pii_keks (batch max_batches : nat) (s : PiiSettings) (nonces : Z → bytes) (heap : list Z)
    (locked : nat → gset Z) (others : nat → BuyerTable → BuyerTable) : M BuyerTable exn (nat * gset Z) :=
  rewrap_batches max_batches 0 batch s nonces heap locked others ∅ 0%nat.

(** ** The envelope *)

Lemma aes_decrypt_encrypt nonce key p :
  List.length key = 32%nat → List.length nonce = 12%nat →
  aes_gcm_encrypt nonce key p = Ok (nonce ++ seal key nonce p) ∧
  aes_gcm_decrypt key (nonce ++ seal key nonce p) = Ok p.
Proof.
  intros Hk Hn. unfold aes_gcm_encrypt, aes_gcm_decrypt. rewrite Hk. simpl. split; [done|].
  rewrite length_app, seal_length, Hn. destruct (_ <? _)%nat eqn:Hl; [apply Nat.ltb_lt in Hl; lia|].
  rewrite (take_app_length' nonce) by done. rewrite (drop_app_length' nonce) by done. by rewrite open_seal.
Qed.

Lemma decoded_length v k : decode_32_byte_key v = Some k → List.length k = 32%nat.
Proof.
  unfold decode_32_byte_key. destruct (std_b64decode v) as [l|]; [|done].
  destruct (_ =? _)%nat eqn:Hl; [|done]. intros [= <-]. by apply Nat.eqb_eq.
Qed.

Lemma retired_entries_length keyring fields m :
  (∀ v k, keyring !! v = Some k → List.length k = 32%nat) → retired_entries keyring fields = Some m →
  ∀ v k, m !! v = Some k → List.length k = 32%nat.
Proof.
  revert keyring. induction fields as [|[version key] fields IH]; intros keyring Hk; simpl.
  { by intros [= <-]. }
  destruct (retired_entry version key) as [[v0 k0]|] eqn:He; [|done]. apply IH.
  intros v k [[<- <-]|[_ Hv]]%lookup_insert_Some; [|by eapply Hk].
  unfold retired_entry in He. destruct (nat_digits _); [|done]. destruct (_ || _); [done|].
  destruct key as [|t|]; try done. destruct (decode_32_byte_key t) as [k'|] eqn:Hd; [|done].
  injection He as _ <-. by eapply decoded_length.
Qed.

(** Settings that load have the active key, apart from the retired ones, and every
    key has 32 bytes. *)
Lemma loaded_keyring s s' :
  load_pii_settings s = Ok s' →
  s' = s ∧ 1 <= PII_KEK_VERSION s ∧
  (∃ k, pii_keyring s !! PII_KEK_VERSION s = Some k ∧ decode_32_byte_key (PII_KEK_BASE64 s) = Some k) ∧
  ∀ v k, pii_keyring s !! v = Some k → List.length k = 32%nat.
Proof.
  unfold load_pii_settings, pii_keyring.
  destruct (decode_32_byte_key (PII_KEK_BASE64 s)) as [k|] eqn:Hk; [|done].
  destruct (decode_32_byte_key (PII_LOOKUP_KEY_BASE64 s)); [|done].
  destruct (parse_retired_keks _) as [retired|] eqn:Hr; [|done].
  destruct (_ <? 1) eqn:Hv; [done|]. simpl. case_bool_decide as Hret; [done|]. intros [= <-].
  apply eq_None_not_Some in Hret. zbool. split; [done|]. split; [done|]. split.
  - exists k. split; [|done]. rewrite lookup_union_r by done. apply lookup_singleton_eq.
  - intros v k' [Hl|[_ Hl]]%lookup_union_Some_raw.
    + unfold parse_retired_keks in Hr. destruct (json_loads _) as [[fields| |]|]; try done.
      eapply retired_entries_length; [|exact Hr|exact Hl]. by intros ? ? ?%lookup_empty_Some.
    + apply lookup_singleton_Some in Hl as [_ <-]. by eapply decoded_length.
Qed.

Lemma kek_loaded s v k : load_pii_settings s = Ok s → kek s v = Ok k → List.length k = 32%nat.
Proof.
  intros (_ & _ & _ & Hl)%loaded_keyring. unfold kek. destruct (pii_keyring s !! v) eqn:Hk; [|done].
  intros [= <-]. by eapply Hl.
Qed.

Definition randoms_ok (rnd : Randoms) : Prop :=
  List.length (rnd_dek rnd) = 32%nat ∧ List.length (rnd_nonce rnd) = 12%nat ∧ List.length (rnd_nonce' rnd) = 12%nat.

Lemma encrypt_ok s rnd p :
  load_pii_settings s = Ok s → randoms_ok rnd → is_ascii p = true →
  ∃ env, encrypt_pii s rnd p = Ok env ∧ kek_version env = PII_KEK_VERSION s ∧
    ∀ s', pii_keyring s' !! PII_KEK_VERSION s = pii_keyring s !! PII_KEK_VERSION s →
      decrypt_pii s' (ciphertext env) (dek_encrypted env) (kek_version env) = Ok p.
Proof.
  intros Hs (Hd & Hn & Hn') Hp. pose proof (loaded_keyring s s Hs) as (_ & _ & (k & Hk & _) & Hl).
  pose proof (Hl _ _ Hk) as Hk32.
  destruct (aes_decrypt_encrypt (rnd_nonce rnd) (rnd_dek rnd) (text_bytes p) Hd Hn) as [He Ho].
  destruct (aes_decrypt_encrypt (rnd_nonce' rnd) k (rnd_dek rnd) Hk32 Hn') as [He' Ho'].
  eexists. split; [|split].
  - unfold encrypt_pii, active_kek_version, kek. rewrite He, Hk. simpl. by rewrite He'.
  - done.
  - intros s' Hs'. unfold decrypt_pii, kek. simpl. unfold active_kek_version. rewrite Hs', Hk. simpl.
    rewrite Ho'. simpl. rewrite Ho. simpl. by rewrite bytes_text_bytes.
Qed.

(** C24 (what is encrypted is read back, after rotations too).  With settings that
    load, an ASCII text is encrypted under the active key version; and any process
    whose keyring has, active or retired, that version's key decrypts the envelope
    to the text.  A process that does not have it says which version is missing. *)
Theorem pii_survives_rotation s rnd p :
  load_pii_settings s = Ok s → randoms_ok rnd → is_ascii p = true →
  ∃ env, encrypt_pii s rnd p = Ok env ∧ kek_version env = PII_KEK_VERSION s ∧
    ∀ s', let read := decrypt_pii s' (ciphertext env) (dek_encrypted env) (kek_version env) in
      (pii_keyring s' !! PII_KEK_VERSION s = pii_keyring s !! PII_KEK_VERSION s → read = Ok p) ∧
      (pii_keyring s' !! PII_KEK_VERSION s = None → read = Err (PiiKeyVersionUnknown (PII_KEK_VERSION s))).
Proof.
  intros Hs Hr Hp. destruct (encrypt_ok s rnd p Hs Hr Hp) as (env & He & Hv & Hd).
  exists env. split; [done|]. split; [done|]. intros s' read. split; [by apply Hd|]. intros Hn. unfold read, decrypt_pii, kek. by rewrite Hv, Hn.
Qed.

(** The data key behind a wrapping: what the key of its version opens it to. *)
Definition unwrap_dek (s : PiiSettings) (d : bytes) (version : Z) : result exn bytes :=
  let? k := kek s version in aes_gcm_decrypt k d.

Lemma rewrap_unwraps s nonce d v d' v' :
  load_pii_settings s = Ok s → List.length nonce = 12%nat → rewrap_dek s nonce d v = Ok (d', v') →
  v' = active_kek_version s ∧ ∃ dek, unwrap_dek s d v = Ok dek ∧ unwrap_dek s d' v' = Ok dek.
Proof.
  intros Hs Hn. unfold rewrap_dek, unwrap_dek.
  destruct (kek s v) as [k|e] eqn:Hk; [|done]. simpl.
  destruct (aes_gcm_decrypt k d) as [dek|e] eqn:Hd; [|done]. simpl.
  destruct (kek s (active_kek_version s)) as [k'|e] eqn:Hk'; [|done]. simpl.
  destruct (aes_decrypt_encrypt nonce k' dek (kek_loaded _ _ _ Hs Hk') Hn) as [He Ho]. rewrite He. simpl.
  intros [= <- <-]. split; [done|]. exists dek. split; [done|]. rewrite Hk'. simpl. by rewrite Ho.
Qed.

Lemma decrypt_unwraps s c d v :
  decrypt_pii s c d v =
    let? dek := unwrap_dek s d v in
    let? p := aes_gcm_decrypt dek c in
    match bytes_text p with Some t => Ok t | None => Err ValueError end.
Proof. unfold decrypt_pii, unwrap_dek. by destruct (kek s v). Qed.

Lemma rewrap_inv s nonce d v d' v' :
  load_pii_settings s = Ok s → List.length nonce = 12%nat → rewrap_dek s nonce d v = Ok (d', v') →
  v' = active_kek_version s ∧ ∀ c, decrypt_pii s c d' v' = decrypt_pii s c d v.
Proof.
  intros Hs Hn Hr. destruct (rewrap_unwraps _ _ _ _ _ _ Hs Hn Hr) as (-> & dek & H1 & H2). split; [done|].
  intros c. by rewrite !decrypt_unwraps, H1, H2.
Qed.

(** ** The rotation job *)

(** What may happen to the table while the job runs: the rest of the system, or one
    row wrapped anew. *)
Inductive rewrap_step (s : PiiSettings) (nonces : Z → bytes) (others : nat → BuyerTable → BuyerTable)
    : BuyerTable → BuyerTable → Prop :=
  | step_else k t : rewrap_step s nonces others t (others k t)
  | step_row t user row d v :
      t !! user = Some row → rewrap_dek s (nonces user) (bi_dek row) (bi_version row) = Ok (d, v) →
      rewrap_step s nonces others t (<[user := set_wrapping row d v]> t).

Lemma rewrap_rows_steps s nonces others rows unknown changed t unknown' changed' t' :
  rewrap_rows s nonces rows unknown changed t = Ok (unknown', changed', t') →
  rtc (rewrap_step s nonces others) t t' ∧ (changed' = changed → t' = t) ∧ (changed <= changed')%nat.
Proof.
  revert unknown changed t. induction rows as [|user rows IH]; intros unknown changed t; simpl.
  { by intros [= <- <- <-]. }
  destruct (t !! user) as [row|] eqn:Hu; [|apply IH].
  destruct (rewrap_dek s (nonces user) (bi_dek row) (bi_version row)) as [[d v]|e] eqn:Hr.
  - intros (Hst & _ & Hle)%IH. split; [|lia]. eapply rtc_l; [by eapply step_row|done].
  - destruct e; try done. apply IH.
Qed.

Lemma rewrap_batches_steps fuel k batch s nonces heap locked others unknown done_ t :
  rtc (rewrap_step s nonces others) t
    (rewrap_batches fuel k batch s nonces heap locked others unknown done_ t).2.
Proof.
  revert k unknown done_ t. induction fuel as [|fuel IH]; intros k unknown n t; cbn [rewrap_batches]; [done|].
  apply (rtc_l _ _ (others k t)); [by apply step_else|].
  destruct (select_stale _ _ _ _ _ _) as [|u us]; [done|].
  destruct (rewrap_rows _ _ _ _ _ _) as [[[unknown' changed] t']|e] eqn:Hr; [|done].
  apply (rewrap_rows_steps _ _ others) in Hr as (Hst & _).
  destruct (_ && _); [done|]. destruct (_ =? _)%nat; [done|]. by etrans.
Qed.

(** What a user reads, and the parts of a row no rotation touches. *)
Definition same_reading (s : PiiSettings) (user : Z) (t t' : BuyerTable) : Prop :=
  get_my_buyer_info s t' user = get_my_buyer_info s t user ∧
  bi_ciphertext <$> t' !! user = bi_ciphertext <$> t !! user ∧ bi_hash <$> t' !! user = bi_hash <$> t !! user.

#[global] Instance same_reading_preorder s user : PreOrder (same_reading s user).
Proof.
  split; [done|]. intros t1 t2 t3 (H1 & H2 & H3) (H4 & H5 & H6). repeat split; by etrans.
Qed.

Lemma row_keeps_reading s nonces user t u row d v :
  load_pii_settings s = Ok s → (∀ u, List.length (nonces u) = 12%nat) →
  t !! u = Some row → rewrap_dek s (nonces u) (bi_dek row) (bi_version row) = Ok (d, v) →
  same_reading s user t (<[u := set_wrapping row d v]> t).
Proof.
  intros Hs Hn Hu (_ & Hd)%rewrap_inv; [|done..]. unfold same_reading, get_my_buyer_info.
  destruct (decide (user = u)) as [->|Hne]; [|by rewrite lookup_insert_ne by done].
  rewrite lookup_insert_eq, Hu. split; [|done]. unfold read_row. simpl. by rewrite Hd.
Qed.

(** A rotation never changes what is read.  Whatever batches it takes, whichever
    rows are locked, and however it ends, an exception included: the job changes what
    no user reads, and no ciphertext or lookup hash, beyond what the rest of the
    system changes meanwhile; it only wraps single rows anew. *)
Theorem rotation_keeps_readings s nonces batch max_batches heap locked others user t :
  load_pii_settings s = Ok s → (∀ u, List.length (nonces u) = 12%nat) →
  (∀ k t, same_reading s user t (others k t)) →
  let t' := (rewrap_pii_keks batch max_batches s nonces heap locked others t).2 in
  rtc (rewrap_step s nonces others) t t' ∧ same_reading s user t t'.
Proof.
  intros Hs Hn Ho t'.
  assert (Hst : rtc (rewrap_step s nonces others) t t') by apply rewrap_batches_steps.
  split; [done|]. clearbody t'. induction Hst as [|t1 t2 t3 Hstep _ IH]; [done|]. etrans; [|exact IH].
  destruct Hstep; [apply Ho|by eapply row_keeps_reading].
Qed.

(** *** Progress *)

Lemma filter_not_taken {A} `{EqDecision A} (n : nat) (l : list A) :
  NoDup l → filter (λ x, x ∉ take n l) l = drop n l.
Proof.
  intros Hnd. rewrite <-(take_drop n l) in Hnd at 1. apply NoDup_app in Hnd as (_ & Hdisj & _).
  transitivity (filter (λ x, x ∉ take n l) (take n l ++ drop n l)); [by rewrite take_drop|].
  rewrite filter_app.
  assert (filter (λ x, x ∉ take n l) (take n l) = []) as ->.
  { apply filter_none. intros x Hx Hn. by apply Hn. }
  assert (Hall : ∀ k : list A, (∀ x, x ∈ k → x ∉ take n l) → filter (λ x, x ∉ take n l) k = k).
  { intros k. induction k as [|x k IH]; intros Hk; [done|]. rewrite filter_cons. rewrite decide_True; [|apply Hk; left].
    f_equal. apply IH. intros y Hy. apply Hk. by right. }
  apply Hall. intros x Hx Hin. by apply (Hdisj x).
Qed.

Lemma rewrap_rows_all s nonces rows unknown changed t :
  NoDup rows →
  (∀ u, u ∈ rows → ∃ row d v, t !! u = Some row ∧
     rewrap_dek s (nonces u) (bi_dek row) (bi_version row) = Ok (d, v) ∧ v = active_kek_version s) →
  ∃ t', rewrap_rows s nonces rows unknown changed t = Ok (unknown, (changed + List.length rows)%nat, t') ∧
    (∀ u, u ∈ rows → ∃ row, t' !! u = Some row ∧ bi_version row = active_kek_version s) ∧
    (∀ u, u ∉ rows → t' !! u = t !! u).
Proof.
  intros Hnd. revert changed t. induction Hnd as [|u rows Hu Hnd IH]; intros changed t Hrows.
  - exists t. simpl. rewrite Nat.add_0_r. split_and!; [done| |done]. by intros u ?%elem_of_nil.
  - destruct (Hrows u) as (row & d & v & Ht & Hr & Hv); [left|]. simpl. rewrite Ht, Hr.
    destruct (IH (S changed) (<[u := set_wrapping row d v]> t)) as (t' & He & Hin & Hout).
    { intros u' Hu'. rewrite lookup_insert_ne by (by intros ->). apply Hrows. by right. }
    exists t'. rewrite He. split_and!; [do 3 f_equal; lia| |].
    + intros u' [->|Hu']%elem_of_cons; [|by apply Hin].
      destruct (decide (u ∈ rows)); [by apply Hin|]. rewrite Hout, lookup_insert_eq by done. by eexists.
    + intros u' [Hne Hu']%not_elem_of_cons. rewrite Hout by done. by apply lookup_insert_ne.
Qed.

(** The stale rows of the table, in scan order. *)
Definition stale_rows (s : PiiSettings) (heap : list Z) (t : BuyerTable) : list Z :=
  filter (stale s ∅ ∅ t) heap.

(** Every stale row can be wrapped anew. *)
Definition all_open (s : PiiSettings) (nonces : Z → bytes) (t : BuyerTable) : Prop :=
  ∀ u row, t !! u = Some row → bi_version row ≠ active_kek_version s →
    ∃ d, rewrap_dek s (nonces u) (bi_dek row) (bi_version row) = Ok (d, active_kek_version s).

Lemma stale_empty s t u :
  stale s ∅ ∅ t u ↔ ∃ row, t !! u = Some row ∧ bi_version row ≠ active_kek_version s.
Proof. unfold stale. destruct (t !! u) as [row|]; [set_solver|]. split; [done|]. by intros (? & ? & _). Qed.

Lemma rewrap_batch_progress s nonces batch heap t :
  NoDup heap → all_open s nonces t →
  let rows := select_stale batch s ∅ ∅ heap t in
  ∃ t', rewrap_rows s nonces rows ∅ 0 t = Ok (∅, List.length rows, t') ∧ all_open s nonces t' ∧
    stale_rows s heap t' = drop batch (stale_rows s heap t) ∧
    (∀ u, (u ∉ take batch (stale_rows s heap t)) → t' !! u = t !! u).
Proof.
  intros Hnd Hopen rows.
  assert (Hrows : ∀ u, u ∈ rows → stale s ∅ ∅ t u).
  { intros u Hu. unfold rows, select_stale in Hu.
    apply elem_of_take in Hu as (i & Hi & _). by apply list_elem_of_lookup_2, list_elem_of_filter in Hi as [? _]. }
  assert (Hndl : NoDup (stale_rows s heap t)) by by apply NoDup_filter.
  destruct (rewrap_rows_all s nonces rows ∅ 0 t) as (t' & He & Hin & Hout).
  { unfold rows, select_stale. apply (NoDup_app (take batch (stale_rows s heap t)) (drop batch (stale_rows s heap t))).
    by rewrite take_drop. }
  { intros u Hu. apply Hrows, stale_empty in Hu as (row & Ht & Hv). destruct (Hopen u row Ht Hv) as [d Hd].
    by exists row, d, (active_kek_version s). }
  exists t'. split; [done|]. split.
  - intros u row Ht Hv. destruct (decide (u ∈ rows)) as [Hu|Hu].
    + destruct (Hin u Hu) as (row' & ? & ?). congruence.
    + rewrite Hout in Ht by done. by eapply Hopen.
  - split; [|exact Hout]. rewrite <-(filter_not_taken batch (stale_rows s heap t)) by done.
    change (take batch (stale_rows s heap t)) with rows. unfold stale_rows.
    rewrite list_filter_filter. apply list_filter_iff. intros u. rewrite !stale_empty.
    destruct (decide (u ∈ rows)) as [Hu|Hu].
    + destruct (Hin u Hu) as (row' & Hr & Hv). split; [|by intros [? _]]. intros (row & ? & ?). congruence.
    + rewrite Hout by done. naive_solver.
Qed.

Lemma batches_progress fuel k batch s nonces heap n t :
  NoDup heap → all_open s nonces t → smallint (active_kek_version s) = true → (0 < batch)%nat →
  let stale0 := stale_rows s heap t in
  ∃ t', rewrap_batches fuel k batch s nonces heap (λ _, ∅) (λ _ t, t) ∅ n t =
      (Ok ((n + Nat.min (List.length stale0) (batch * fuel))%nat, ∅), t') ∧
    stale_rows s heap t' = drop (batch * fuel) stale0 ∧
    (∀ u, (u ∉ take (batch * fuel) stale0) → t' !! u = t !! u).
Proof.
  intros Hnd Hopen Hv Hb. revert k n t Hopen. induction fuel as [|fuel IH]; intros k n t Hopen; cbn [rewrap_batches].
  { exists t. by rewrite Nat.mul_0_r, Nat.min_0_r, Nat.add_0_r. }
  destruct (rewrap_batch_progress s nonces batch heap t Hnd Hopen) as (t1 & He & Hopen1 & Hs1 & Hk1). cbn zeta in *.
  assert (Hlen : List.length (select_stale batch s ∅ ∅ heap t) = Nat.min batch (List.length (stale_rows s heap t)))
    by apply length_take.
  destruct (select_stale batch s ∅ ∅ heap t) as [|u us] eqn:Hsel.
  - exists t. simpl in Hlen. assert (stale_rows s heap t = []) as ->.
    { apply nil_length_inv. lia. }
    by rewrite drop_nil, Nat.min_0_l, Nat.add_0_r.
  - rewrite <-Hsel in *. rewrite He. rewrite Hv. simpl.
    assert (Hpos : (0 < List.length (select_stale batch s ∅ ∅ heap t))%nat) by (rewrite Hsel; simpl; lia).
    destruct (List.length (select_stale batch s ∅ ∅ heap t) =? 0)%nat eqn:Hz; [apply Nat.eqb_eq in Hz; lia|].
    destruct (IH (S k) (n + List.length (select_stale batch s ∅ ∅ heap t))%nat t1 Hopen1) as (t2 & He2 & Hs2 & Hk2).
    exists t2. rewrite He2, Hs2, Hs1, drop_drop, length_drop, Hlen. split; [do 3 f_equal; lia|].
    split; [f_equal; lia|]. intros u'. rewrite Nat.mul_succ_r, Nat.add_comm, <-take_take_drop, not_elem_of_app.
    intros [Hu1 Hu2]. rewrite Hk2 by by rewrite Hs1. by apply Hk1.
Qed.

(** Two wrappings of the same row: the same person, the same sealed text and hash,
    and the same data key behind the wrapping. *)
Definition same_data (s : PiiSettings) (row row' : BuyerInfo) : Prop :=
  bi_real_name row' = bi_real_name row ∧ bi_ciphertext row' = bi_ciphertext row ∧ bi_hash row' = bi_hash row ∧
  unwrap_dek s (bi_dek row') (bi_version row') = unwrap_dek s (bi_dek row) (bi_version row).

Lemma rewrap_steps_data s nonces t t' :
  load_pii_settings s = Ok s → (∀ u, List.length (nonces u) = 12%nat) →
  rtc (rewrap_step s nonces (λ _ t, t)) t t' →
  ∀ u, option_Forall2 (same_data s) (t !! u) (t' !! u).
Proof.
  intros Hs Hn Hst u. induction Hst as [t|t t1 t' Hstep _ IH]; [by destruct (t !! u); constructor|].
  destruct Hstep as [|t u' row d v Hu Hr]; [done|].
  destruct (decide (u' = u)) as [->|Hne]; [|by rewrite lookup_insert_ne in IH by done].
  rewrite lookup_insert_eq in IH. rewrite Hu. inversion IH as [? row' (H1 & H2 & H3 & H4)|]; subst. constructor.
  destruct (rewrap_unwraps _ _ _ _ _ _ Hs (Hn u) Hr) as (_ & dek & Ho & Ho').
  simpl in *. repeat split; [done..|]. by rewrite H4, Ho, Ho'.
Qed.

(** C25 (a rotation completes).  With settings that load, nobody interfering, every
    stale row openable and the active version one its column holds: the job moves the
    first batch * max_batches stale rows in scan order and leaves every other row as it
    was.  A moved row keeps its name, its sealed text and its lookup hash, its version
    is the active one, and the active key opens its new wrapping to the very data key
    the old key opened the old one to.  When the stale rows are no more than
    batch * max_batches, every row of the table ends on the active version. *)
Theorem rotation_completes batch max_batches s nonces heap t :
  load_pii_settings s = Ok s → (∀ u, List.length (nonces u) = 12%nat) →
  NoDup heap → (∀ u, is_Some (t !! u) → u ∈ heap) → all_open s nonces t →
  smallint (active_kek_version s) = true → (0 < batch)%nat →
  let before := stale_rows s heap t in
  let moved := take (batch * max_batches) before in
  ∃ t', rewrap_pii_keks batch max_batches s nonces heap (λ _, ∅) (λ _ t, t) t =
      (Ok (List.length moved, ∅), t') ∧
    stale_rows s heap t' = drop (batch * max_batches) before ∧
    (∀ u, (u ∉ moved) → t' !! u = t !! u) ∧
    (∀ u, u ∈ moved → ∃ row row' dek, t !! u = Some row ∧ t' !! u = Some row' ∧ same_data s row row' ∧
       bi_version row' = active_kek_version s ∧
       unwrap_dek s (bi_dek row) (bi_version row) = Ok dek ∧
       unwrap_dek s (bi_dek row') (active_kek_version s) = Ok dek) ∧
    ((List.length before <= batch * max_batches)%nat →
     ∀ u row, t' !! u = Some row → bi_version row = active_kek_version s).
Proof.
  intros Hs Hn Hnd Hheap Hopen Hv Hb before moved.
  destruct (batches_progress max_batches 0 batch s nonces heap 0 t Hnd Hopen Hv Hb) as (t' & He & Hst & Hk).
  pose proof (rewrap_batches_steps max_batches 0 batch s nonces heap (λ _, ∅) (λ _ t, t) ∅ 0 t) as Hsteps.
  rewrite He in Hsteps. pose proof (rewrap_steps_data s nonces t t' Hs Hn Hsteps) as Hdata.
  assert (Hactive : ∀ u row, t' !! u = Some row → (u ∉ drop (batch * max_batches) before) →
    bi_version row = active_kek_version s).
  { intros u row Hu Hd. destruct (decide (bi_version row = active_kek_version s)) as [|Hne]; [done|].
    destruct Hd. unfold before. rewrite <-Hst. unfold stale_rows. apply list_elem_of_filter. split; [apply stale_empty; by exists row|].
    apply Hheap. specialize (Hdata u). rewrite Hu in Hdata. by inversion Hdata. }
  exists t'. split; [unfold moved; by rewrite length_take, Nat.min_comm|]. split; [done|]. split; [done|]. split.
  - intros u Hu. assert (stale s ∅ ∅ t u) as (row & Hrow & Hne)%stale_empty.
    { apply elem_of_take in Hu as (i & Hi & _). by apply list_elem_of_lookup_2, list_elem_of_filter in Hi as [? _]. }
    pose proof (Hdata u) as Hd. rewrite Hrow in Hd. inversion Hd as [? row' Hsame Hx Hrow'|]; subst.
    destruct (Hopen u row Hrow Hne) as [d Hr].
    destruct (rewrap_unwraps _ _ _ _ _ _ Hs (Hn u) Hr) as (_ & dek & Ho & _).
    assert (Hact : bi_version row' = active_kek_version s).
    { apply (Hactive u); [done|]. intros Hdrop.
      assert (Hndb : NoDup before) by by apply NoDup_filter. rewrite <-(take_drop (batch * max_batches) before) in Hndb.
      apply NoDup_app in Hndb as (_ & Hdis & _). by apply (Hdis u). }
    exists row, row', dek. split_and!; [done|done|done|done|done|].
    destruct Hsame as (_ & _ & _ & Hsame). by rewrite <-Hact, Hsame.
  - intros Hle u row Hu. apply (Hactive u); [done|]. rewrite drop_ge by done. by intros ?%elem_of_nil.
Qed.

(** *** Where it does not *)

(** A full first batch of rows on versions this process does not hold ends the job:
    nothing is changed, whatever lies behind them, so the next run does the same. *)
Theorem unopenable_batch_starves_the_rest batch max_batches s nonces heap t :
  (∀ u, u ∈ select_stale batch s ∅ ∅ heap t → ∃ row, t !! u = Some row ∧ pii_keyring s !! bi_version row = None) →
  ∃ versions, rewrap_pii_keks batch max_batches s nonces heap (λ _, ∅) (λ _ t, t) t = (Ok (0%nat, versions), t).
Proof.
  intros Hsel. unfold rewrap_pii_keks. destruct max_batches as [|fuel]; cbn [rewrap_batches]; [by eexists|].
  assert (Hall : ∀ rows unknown, (∀ u, u ∈ rows → ∃ row, t !! u = Some row ∧ pii_keyring s !! bi_version row = None) →
    ∃ versions, rewrap_rows s nonces rows unknown 0 t = Ok (versions, 0%nat, t)).
  { intros rows. induction rows as [|u rows IH]; intros unknown Hr; simpl; [by eexists|].
    destruct (Hr u) as (row & Hu & Hk); [left|]. rewrite Hu. unfold rewrap_dek, kek. rewrite Hk. simpl.
    apply IH. intros; apply Hr. by right. }
  destruct (Hall _ ∅ Hsel) as [versions He].
  destruct (select_stale batch s ∅ ∅ heap t) as [|u us]; [by eexists|]. rewrite He.
  rewrite andb_false_r. simpl. by eexists.
Qed.

(** A row whose data key does not open under the key of its version ends the job with
    an error as soon as it leads a batch, and no other row is moved either. *)
Theorem corrupt_row_stops_the_rotation batch fuel s nonces heap t u us row k :
  select_stale batch s ∅ ∅ heap t = u :: us → t !! u = Some row →
  kek s (bi_version row) = Ok k → aes_gcm_decrypt k (bi_dek row) = Err ValueError →
  rewrap_pii_keks batch (S fuel) s nonces heap (λ _, ∅) (λ _ t, t) t = (Err ValueError, t).
Proof.
  intros Hsel Hu Hk Hd. unfold rewrap_pii_keks. cbn [rewrap_batches]. rewrite Hsel. simpl. rewrite Hu.
  unfold rewrap_dek. rewrite Hk. simpl. by rewrite Hd.
Qed.

(** ** Registration *)

Lemma hash_taken_spec t h : hash_taken t h = true ↔ ∃ u row, t !! u = Some row ∧ bi_hash row = h.
Proof.
  unfold hash_taken. rewrite existsb_exists. split.
  - intros ([u row] & Hin & Hh%bool_decide_eq_true). exists u, row. split; [|done].
    by apply elem_of_map_to_list, list_elem_of_In.
  - intros (u & row & Hu & Hh). exists (u, row). split; [|by apply bool_decide_eq_true].
    by apply list_elem_of_In, elem_of_map_to_list.
Qed.

(** Every row opens to the number its hash was taken of, and no two rows share a
    hash. *)
Definition registered (s : PiiSettings) (t : BuyerTable) : Prop :=
  (∀ u row, t !! u = Some row → ∃ p, read_row s row = Ok p ∧ bi_hash row = lookup_hash s p) ∧
  (∀ u u' row row', t !! u = Some row → t !! u' = Some row' → bi_hash row = bi_hash row' → u = u').

Lemma registered_one_account s t u u' n n' p :
  registered s t → get_my_buyer_info s t u = Ok (n, p) → get_my_buyer_info s t u' = Ok (n', p) → u = u'.
Proof.
  intros [Hread Huniq]. unfold get_my_buyer_info.
  destruct (t !! u) as [row|] eqn:Hu; [|done]. destruct (t !! u') as [row'|] eqn:Hu'; [|done].
  destruct (Hread _ _ Hu) as (q & Hq & Hh), (Hread _ _ Hu') as (q' & Hq' & Hh'). rewrite Hq, Hq'.
  intros [= _ <-] [= _ <-]. eapply Huniq; [done..|by rewrite Hh, Hh'].
Qed.

Lemma registered_insert s t user row p :
  registered s t → read_row s row = Ok p → bi_hash row = lookup_hash s p →
  hash_taken t (bi_hash row) = false → registered s (<[user := row]> t).
Proof.
  intros [Hread Huniq] Hp Hh Hfree.
  assert (Hnew : ∀ u row', t !! u = Some row' → bi_hash row' ≠ bi_hash row).
  { intros u row' Hu He. rewrite (proj2 (hash_taken_spec t (bi_hash row))) in Hfree; [done|]. by exists u, row'. }
  split.
  - intros u row' [[<- <-]|[_ Hu]]%lookup_insert_Some; [by exists p|by eapply Hread].
  - intros u u' row1 row2 [[<- <-]|[_ Hu]]%lookup_insert_Some [[<- <-]|[_ Hu']]%lookup_insert_Some He;
      [done|by edestruct Hnew; eauto..|by eapply Huniq].
Qed.

Lemma national_id_ascii v : national_id_ok v = true → is_ascii v = true.
Proof.
  intros Hv. unfold is_ascii, text_bytes. apply forallb_forall. intros x Hx.
  apply in_map_iff in Hx as (c & <- & Hc). unfold compose.
  apply Z.ltb_lt. unfold national_id_ok in Hv. destruct (list_ascii_of_string v) as [|a [|b rest]]; [done..|].
  apply andb_true_iff in Hv as [(((_ & Ha%Nat.leb_le)%andb_true_iff & Hb)%andb_true_iff & Hd)%andb_true_iff _].
  destruct Hc as [<-|[<-|Hc]]; [lia| |].
  - by apply orb_true_iff in Hb as [->%Ascii.eqb_eq | ->%Ascii.eqb_eq].
  - eapply forallb_forall in Hd; [|exact Hc]. unfold is_digit in Hd. apply andb_true_iff in Hd as [_ Hd%Nat.leb_le]. lia.
Qed.

(** C26 (a national id belongs to one account).  A valid registration is refused, the table
    untouched, when the user is on file or the number's hash is taken, the row being
    looked for first and the constraints deciding, in the order PostgreSQL has them,
    what the look missed; otherwise the user reads back the stripped name and the
    number and no other row changed.  No two accounts ever read the same number. *)
Theorem national_id_belongs_to_one_account s rnd pk_first users seen user raw name national_id t :
  load_pii_settings s = Ok s → randoms_ok rnd → national_id_ok national_id = true → real_name raw = Some name →
  smallint (PII_KEK_VERSION s) = true → user ∈ users → registered s t →
  let '(r, t') := create_my_buyer_info s rnd pk_first users seen user raw national_id t in
  let here := bool_decide (is_Some (t !! user)) in
  let taken := hash_taken t (lookup_hash s national_id) in
  (is_Some (seen !! user) ∨ (here && (pk_first || negb taken)) = true →
     r = Err (Domain (BuyerInfoAlreadyExists user)) ∧ t' = t) ∧
  (seen !! user = None → (taken && (negb here || negb pk_first)) = true →
     r = Err (Domain NationalIdAlreadyRegistered) ∧ t' = t) ∧
  (seen !! user = None → here = false → taken = false →
     r = Ok (name, national_id) ∧ get_my_buyer_info s t' user = Ok (name, national_id) ∧
     ∀ u, u ≠ user → t' !! u = t !! u) ∧
  registered s t' ∧
  ∀ u u' n n' p, get_my_buyer_info s t' u = Ok (n, p) → get_my_buyer_info s t' u' = Ok (n', p) → u = u'.
Proof.
  intros Hs Hr Hp Hname Hv Hu Ht. destruct (create_my_buyer_info _ _ _ _ _ _ _ _ t) as [r t'] eqn:Hc. intros here taken.
  destruct (encrypt_ok s rnd national_id Hs Hr (national_id_ascii _ Hp)) as (env & He & Hkv & Hd).
  pose (row := mk_buyer name (ciphertext env) (dek_encrypted env) (lookup_hash s national_id) (kek_version env)).
  assert (Hread : read_row s row = Ok national_id) by by apply Hd.
  unfold create_my_buyer_info in Hc. rewrite Hname, Hp in Hc. unfold register_buyer_info, bind, raise in Hc. simpl in Hc.
  case_bool_decide as Hseen.
  { injection Hc as <- <-. rewrite eq_None_not_Some. split_and!; try done. intros. by eapply registered_one_account. }
  rewrite He in Hc. unfold lift, try_catch, create_buyer_info, raise in Hc. fold row in Hc. simpl in Hc.
  rewrite Hkv, Hv in Hc. simpl in Hc. unfold unique_violation in Hc. fold here taken in Hc.
  assert (Hins : taken = false → registered s (<[user := row]> t)).
  { intros Hfree. by apply (registered_insert s t user row national_id). }
  assert (Hrow : bi_real_name row = name) by done. clearbody row. subst name.
  destruct taken, here, pk_first; simpl in Hc.
  all: try (rewrite bool_decide_false in Hc by (intros Hx; by apply Hx)); simpl in Hc; injection Hc as <- <-.
  all: split_and!; try done; try (by intros [?|?]); try (by apply Hins); intros.
  all: try (eapply registered_one_account; [|eassumption..]; first [done|by apply Hins]).
  all: split_and!; [done| |intros; by apply lookup_insert_ne].
  all: unfold get_my_buyer_info; by rewrite lookup_insert_eq, Hread.
Qed.
End pii.

(** ** Concrete settings and rows *)

(** A cipher that only authenticates: the laws of the interface can hold. *)
Definition toy_tag (key nonce p : bytes) : bytes :=
  replicate 16 (foldr Z.add 0 (key ++ nonce ++ p) mod 256).
Definition toy_seal (key nonce p : bytes) : bytes := p ++ toy_tag key nonce p.
Definition toy_open (key nonce c : bytes) : option bytes :=
  let p := take (List.length c - 16) c in
  if bool_decide (drop (List.length c - 16) c = toy_tag key nonce p) then Some p else None.
Lemma toy_open_seal key nonce p : toy_open key nonce (toy_seal key nonce p) = Some p.
Proof.
  unfold toy_open, toy_seal. rewrite length_app. change (List.length (toy_tag key nonce p)) with 16%nat.
  rewrite Nat.add_sub, take_app_length, drop_app_length. by rewrite bool_decide_true.
Qed.
#[local] Instance toy_aead : Aead := {
  seal := toy_seal; open_sealed := toy_open;
  open_seal key nonce p _ _ := toy_open_seal key nonce p;
  seal_length key nonce p := length_app p (toy_tag key nonce p);
}.

Definition demo_key (c : ascii) : string := string_of_list_ascii (replicate 42 c ++ ["A"; "="]%char).
Definition demo_json (raw : string) : option json :=
  if bool_decide (raw = "{}") then Some (JObject [])
  else if bool_decide (raw = "{1: A}") then Some (JObject [("1", JText (demo_key "A"))]) else None.
Definition old_settings : PiiSettings := mk_pii_settings (demo_key "A") (demo_key "C") 1 "".
Definition new_settings : PiiSettings := mk_pii_settings (demo_key "B") (demo_key "C") 2 "{1: A}".
Definition demo_randoms : Randoms := mk_randoms (replicate 32 7) (replicate 12 1) (replicate 12 2).
Definition demo_id : string := "A123456789".
Definition demo_row (s : PiiSettings) : BuyerInfo :=
  match encrypt_pii demo_json s demo_randoms demo_id with
  | Ok env => mk_buyer "Lin" (ciphertext env) (dek_encrypted env) (lookup_hash s demo_id) (kek_version env)
  | Err _ => mk_buyer "" [] [] [] 0
  end.
Definition demo_table : gmap Z BuyerInfo := {[10 := demo_row old_settings]}.
Definition demo_nonces (u : Z) : bytes := replicate 12 3.

Lemma demo_open : all_open demo_json new_settings demo_nonces demo_table.
Proof.
  intros u row Hu _. unfold demo_table in Hu. apply lookup_singleton_Some in Hu as [<- <-].
  exists (match rewrap_dek demo_json new_settings (demo_nonces 10) (bi_dek (demo_row old_settings)) 1 with
     | Ok (d, _) => d | Err _ => [] end).
  vm_compute. reflexivity.
Qed.

Lemma demo_registered : registered demo_json old_settings demo_table.
Proof.
  unfold demo_table. split.
  - intros u row [<- <-]%lookup_singleton_Some. exists demo_id. vm_compute. by split.
  - intros u u' row row' [<- _]%lookup_singleton_Some [<- _]%lookup_singleton_Some _. done.
Qed.

Lemma demo_randoms_ok : randoms_ok demo_randoms.
Proof. done. Qed.

Lemma pii_survives_rotation_witness :
  load_pii_settings demo_json old_settings = Ok old_settings ∧
  pii_keyring demo_json new_settings !! 1 = pii_keyring demo_json old_settings !! 1 ∧
  ∃ env, encrypt_pii demo_json old_settings demo_randoms demo_id = Ok env ∧
    decrypt_pii demo_json new_settings (ciphertext env) (dek_encrypted env) 1 = Ok demo_id.
Proof.
  assert (Hl : load_pii_settings demo_json old_settings = Ok old_settings) by (vm_compute; reflexivity).
  assert (Hk : pii_keyring demo_json new_settings !! 1 = pii_keyring demo_json old_settings !! 1) by (vm_compute; reflexivity).
  split; [exact Hl|]. split; [exact Hk|].
  destruct (pii_survives_rotation demo_json old_settings demo_randoms demo_id Hl demo_randoms_ok eq_refl) as (env & He & Hv & Hd).
  exists env. split; [exact He|]. rewrite <-Hv at 1. destruct (Hd new_settings) as [H1 _]. by apply H1.
Defined.

Lemma rotation_completes_witness :
  ∃ t', rewrap_pii_keks demo_json 500 20 new_settings demo_nonces [10] (λ _, ∅) (λ _ t, t) demo_table =
      (Ok (1%nat, ∅), t') ∧
    ∃ row' dek, t' !! 10 = Some row' ∧ bi_version row' = 2 ∧
      unwrap_dek demo_json new_settings (bi_dek row') 2 = Ok dek ∧
      unwrap_dek demo_json old_settings (bi_dek (demo_row old_settings)) 1 = Ok dek.
Proof.
  assert (Hmoved : stale_rows new_settings [10] demo_table = [10]) by (vm_compute; reflexivity).
  destruct (rotation_completes demo_json 500 20 new_settings demo_nonces [10] demo_table) as (t' & He & _ & _ & Hd & _).
  - vm_compute. reflexivity.
  - done.
  - apply NoDup_singleton.
  - intros u [row Hu]. unfold demo_table in Hu. apply lookup_singleton_Some in Hu as [<- _]. left.
  - apply demo_open.
  - reflexivity.
  - lia.
  - rewrite Hmoved in He, Hd. exists t'. split; [exact He|].
    destruct (Hd 10) as (row & row' & dek & Hrow & Hrow' & _ & Hv & Ho & Ho'); [left|].
    unfold demo_table in Hrow. rewrite lookup_singleton_eq in Hrow. injection Hrow as <-.
    exists row', dek. split; [exact Hrow'|]. split; [exact Hv|]. split; [exact Ho'|]. rewrite <-Ho. vm_compute. reflexivity.
Defined.

(** The second account with the first one's number. *)
Lemma national_id_belongs_to_one_account_witness :
  create_my_buyer_info demo_json old_settings demo_randoms true {[10; 11]} ∅ 11 " Wu" demo_id demo_table =
    (Err (Domain NationalIdAlreadyRegistered), demo_table).
Proof.
  assert (Hl : load_pii_settings demo_json old_settings = Ok old_settings) by (vm_compute; reflexivity).
  pose proof (national_id_belongs_to_one_account demo_json old_settings demo_randoms true {[10; 11]} ∅ 11 " Wu" "Wu" demo_id
    demo_table Hl demo_randoms_ok eq_refl eq_refl eq_refl ltac:(set_solver) demo_registered) as Hr.
  destruct (create_my_buyer_info _ _ _ _ _ _ _ _ _ demo_table) as [r t'].
  destruct Hr as (_ & Htaken & _). destruct Htaken as [-> ->]; [reflexivity|vm_compute; reflexivity|reflexivity].
Defined.

(** Batches of one, a row on a lost version in front: the row behind it, whose key is
    on the ring, is not moved, however many batches are left. *)
Example lost_version_starves_the_rest :
  let lost := set_wrapping (demo_row old_settings) [] 7 in
  let t := <[9 := lost]> demo_table in
  let '(r, t') := rewrap_pii_keks demo_json 1 20 new_settings demo_nonces [9; 10] (λ _, ∅) (λ _ t, t) t in
  r = Ok (0%nat, {[7]}) ∧ bi_version <$> t' !! 10 = Some 1 ∧ select_stale 1 new_settings {[7]} ∅ [9; 10] t' = [10].
Proof. vm_compute. by split_and!. Qed.

(** The settings take a key version that the column does not: nobody can register. *)
Example version_beyond_its_column :
  let s := mk_pii_settings (demo_key "A") (demo_key "C") 40000 "" in
  load_pii_settings demo_json s = Ok s ∧
  (create_my_buyer_info demo_json s demo_randoms true {[10]} ∅ 10 "Lin" demo_id ∅).1 = Err DataError.
Proof. vm_compute. by split. Qed.
