(* ===== verification/Zones.v ===== *)
(** The pages about zones: the listing a buyer chooses from and its short cache
    (src/app/services/zones.py, api/v1/events.py), the seats printed on a confirmed
    order (services/zones.py, services/seat_runs.py, api/v1/orders.py), the
    administrator's edit of a zone (api/v1/zones.py, schemas/seating.py) and the
    public list of events (crud/event.py). *)

From Stdlib Require Import String QArith.
From S2P Require Import Prelude Exceptions Config Keys Redis DB Inventory Seating SeatRuns Pricing EventAdmin.

#[local] Open Scope string_scope.
#[local] Open Scope list_scope.
#[local] Open Scope Z_scope.

(** ** The listing *)

Record ZoneAvailability : Type := mk_availability {
  za_zone_id : Z;
  za_name : string;
  za_display_order : Z;
  za_price_cents : Z;
  za_available : Z;
  za_quantities : list Z;        (* available_quantities *)
}.

(** The committed database, Redis, and the cached listings with their expiries. *)
Record Front : Type := mk_front {
  fr_db : DB;
  fr_redis : Redis;
  fr_cache : gmap Z (list ZoneAvailability * Z);       (* event:{e}:zones:cache *)
}.

Definition ZONES_CACHE_SECONDS : Z := 2.

Definition zone_before (a b : Zone) : bool := zn_order a <=? zn_order b.

(** The zones of a venue, [ORDER BY display_order]. *)
Definition zones_of (d : DB) (venue : Z) : list Zone :=
  isort zone_before (filter (λ z, zn_venue z = venue) (map_to_list (d_zones d)).*2).

(** One turn of the final loop. *)
Definition availability (s : Settings) (prices : gmap Z Z) (snapshots : gmap Z ZoneSnapshot) (zone : Zone)
    : result exn ZoneAvailability :=
  match snapshots !! zn_id zone, prices !! zn_id zone with
  | Some snapshot, Some price =>
      let policy := if sn_relaxed snapshot then ENDGAME_POLICY else NORMAL_POLICY in
      let state := sn_state snapshot in
      let? quantities := feasible_quantities (zs_runs state) (zs_geometry state) (max_purchasable s) policy in
      Ok (mk_availability (zn_id zone) (zn_name zone) (zn_order zone) price (zs_remaining state) quantities)
  | _, _ => Err KeyError
  end.

Fixpoint availabilities (s : Settings) (prices : gmap Z Z) (snapshots : gmap Z ZoneSnapshot) (zones : list Zone)
    : result exn (list ZoneAvailability) :=
  match zones with
  | [] => Ok []
  | zone :: zones' =>
      let? a := availability s prices snapshots zone in
      let? rest := availabilities s prices snapshots zones' in
      Ok (a :: rest)
  end.

Definition in_front {A} (c : M Redis exn A) : M Front exn A := λ f,
  let '(a, r) := c (fr_redis f) in (a, mk_front (fr_db f) r (fr_cache f)).

(** [_compute_zone_availability]; [during k] is what the rest of the system does
    before the k-th read, every query seeing what is committed when it runs. *)
Definition compute_zone_availability (s : Settings) (during : nat → Front → Front) (event_id : Z)
    : M Front exn (list ZoneAvailability) :=
  let! d := gets fr_db in
  match d_events d !! event_id ≫= ev_venue with
  | None =>
      modify (during 0%nat) ;;;
      let! d := gets fr_db in
      if bool_decide (d_events d !! event_id = None) then raise (Domain (EventNotFound event_id)) else ret []
  | Some venue =>
      modify (during 1%nat) ;;;
      let! zones := gets (λ f, zones_of (fr_db f) venue) in
      modify (during 2%nat) ;;;
      let! prices := gets (λ f, load_zone_prices (fr_db f) event_id (Some venue)) in
      let sellable := filter (λ z, is_Some (prices !! zn_id z)) zones in
      modify (during 3%nat) ;;;
      let! snapshots := in_front (read_zone_snapshots event_id (zn_id <$> sellable)) in
      lift (availabilities s prices snapshots sellable)
  end.

Definition set_cache (c : gmap Z (list ZoneAvailability * Z)) (f : Front) : Front :=
  mk_front (fr_db f) (fr_redis f) c.

(** [list_zone_availability]: the cached rows come back from JSON as they went in. *)
Definition cached_listing (event_id : Z) (f : Front) : option (list ZoneAvailability) :=
  match fr_cache f !! event_id with
  | Some (rows, expires) => if r_now (fr_redis f) <? expires then Some rows else None
  | None => None
  end.
Definition list_zone_availability (s : Settings) (during : nat → Front → Front) (event_id : Z)
    : M Front exn (list ZoneAvailability) :=
  let! cached := gets (cached_listing event_id) in
  match cached with
  | Some rows => ret rows
  | None =>
      modify (during 4%nat) ;;;
      let! fresh := compute_zone_availability s during event_id in
      modify (during 5%nat) ;;;
      modify (λ f, set_cache (<[event_id := (fresh, r_now (fr_redis f) + ZONES_CACHE_SECONDS * 1000)]> (fr_cache f)) f) ;;;
      ret fresh
  end.

(** ** The seats of an order *)

(** [row_label] and [block_index] of the blocks, which only the pages read. *)
Record Hall : Type := mk_hall {
  ha_db : DB;
  ha_rows : gmap Z (string * Z);
}.

Record SeatedOrderDetail : Type := mk_detail {
  sd_zone_name : string;
  sd_row_label : string;
  sd_block_index : Z;
  sd_labels : list string;
}.

Definition pos_before (a b : Z * Z * string) : bool := (a.1.2 <=? b.1.2).

(** [seat_labels] *)
Definition seats_between (d : DB) (block_id start_pos length : Z) : list (Z * Z * string) :=
  isort pos_before
    (filter (λ x, x.1.1 = block_id ∧ start_pos <= x.1.2 ∧ x.1.2 < start_pos + length) (map_to_list (d_seats d))).
Definition seat_labels (d : DB) (block_id start_pos length : Z) : list string :=
  (seats_between d block_id start_pos length).*2.

(** [describe_order_seats]: the join of the hold, its block and its zone. *)
Definition describe_order_seats (h : Hall) (order : Order) : result exn SeatedOrderDetail :=
  let d := ha_db h in
  let row := hold ← d_holds d !! o_id order;
    block ← d_blocks d !! hd_block hold;
    where_ ← ha_rows h !! hd_block hold;
    zone ← d_zones d !! bk_zone block;
    Some (zn_name zone, where_, hold) in
  match row with
  | None => Err (Domain (SeatsNotAssigned (o_id order)))
  | Some (zone_name, (row_label, block_index), hold) =>
      Ok (mk_detail zone_name row_label block_index (seat_labels d (hd_block hold) (hd_start hold) (hd_len hold)))
  end.

(** [get_order_seats] *)
Definition get_order_seats (h : Hall) (user order_id : Z) : result exn SeatedOrderDetail :=
  match d_orders (ha_db h) !! order_id with
  | None => Err (Domain (OrderNotFound order_id))
  | Some order =>
      if negb (o_user order =? user) then Err (Domain (OrderNotFound order_id))
      else if bool_decide (o_zone order = None) then Err (HTTPException 404 "This event has no seat map")
      else if bool_decide (o_status order ≠ CONFIRMED) then Err (Domain (SeatsNotAssigned order_id))
      else describe_order_seats h order
  end.

(** ** The edit of a zone *)

(** [ZoneUpdate]: [Some None] is an explicit null. *)
Record ZoneUpdate : Type := mk_zone_update {
  zu_version : Z;
  zu_name : option (option string);
  zu_display_order : option (option Z);
}.
Definition zone_update_ok (u : ZoneUpdate) : bool :=
  (1 <=? zu_version u) &&
  match zu_name u with
  | Some (Some n) => (1 <=? String.length n)%nat && (String.length n <=? 64)%nat
  | _ => true
  end &&
  match zu_display_order u with Some (Some o) => 0 <=? o | _ => true end.

(** A zone as the ORM holds it, its columns possibly None after a bad edit. *)
Record AdminZone : Type := mk_admin_zone { az_row : Zone; az_name : option string; az_order : option Z }.
Definition loaded_zone (z : Zone) : AdminZone := mk_admin_zone z (Some (zn_name z)) (Some (zn_order z)).

(** [apply_zone_update] *)
Definition apply_zone_update (zone : AdminZone) (u : ZoneUpdate) : result exn (AdminZone * FieldDiff) :=
  let? _ := require_version (zn_version (az_row zone)) (zu_version u) "zone" (zn_id (az_row zone)) in
  Ok (mk_admin_zone (az_row zone) (default (az_name zone) (zu_name u)) (default (az_order zone) (zu_display_order u)),
      changed "name" JStr (az_name zone) (zu_name u) ++ changed "display_order" JInt (az_order zone) (zu_display_order u)).

Definition set_zones (v : gmap Z Zone) (d : DB) : DB :=
  mk_db (d_users d) (d_events d) v (d_blocks d) (d_seats d) (d_prices d) (d_orders d)
    (d_next_order d) (d_holds d) (d_outbox d) (d_next_outbox d) (d_stripe d).

Definition name_taken (zones : gmap Z Zone) (id venue : Z) (name : string) : bool :=
  existsb (λ p : Z * Zone, negb (p.1 =? id) && (zn_venue p.2 =? venue) && String.eqb (zn_name p.2) name)
    (map_to_list zones).

(** The flush: [UPDATE zones ... WHERE id = ... AND version = loaded]; an INTEGER
    column takes 32 bits. *)
Definition UQ_ZONE_NAME : string := "uq_zones_venue_name".
Definition flush_zone (loaded : Z) (zone : AdminZone) : M DB exn Zone := λ d,
  let id := zn_id (az_row zone) in
  match az_order zone with
  | Some o => if negb ((-2147483648 <=? o) && (o <=? 2147483647)) then (Err DataError, d) else
      match d_zones d !! id with
      | None => (Err StaleDataError, d)
      | Some cur =>
          if negb (zn_version cur =? loaded) then (Err StaleDataError, d)
          else
            match az_name zone with
            | None => (Err (IntegrityError "not null"), d)
            | Some name =>
                if name_taken (d_zones d) id (zn_venue cur) name then (Err (IntegrityError UQ_ZONE_NAME), d)
                else
                  let row := mk_zone id (zn_venue cur) name o (loaded + 1) in
                  (Ok row, set_zones (<[id := row]> (d_zones d)) d)
            end
      end
  | None =>
      match d_zones d !! id with
      | None => (Err StaleDataError, d)
      | Some cur =>
          if negb (zn_version cur =? loaded) then (Err StaleDataError, d) else (Err (IntegrityError "not null"), d)
      end
  end.

(** [unique_zone_name_guard] *)
Definition unique_zone_name_guard {A} (zone : AdminZone) (m : M DB exn A) : M DB exn A :=
  try_catch m (λ e, match e with
    | IntegrityError c =>
        if bool_decide (c = UQ_ZONE_NAME)
        then raise (Domain (ZoneNameTaken (zn_venue (az_row zone)) (default "" (az_name zone))))
        else raise e
    | _ => raise e
    end).

(** [get_zone_endpoint] *)
Definition get_zone_endpoint (zone_id : Z) : M DB exn Zone :=
  let! zone := gets (λ d, d_zones d !! zone_id) in
  match zone with None => raise (Domain (ZoneNotFound zone_id)) | Some z => ret z end.

(** [update_zone_endpoint]: the zone as answered and what the audit event records;
    [racing] is what others commit between the read and the flush. *)
Definition update_zone_endpoint (racing : DB → DB) (zone_id : Z) (u : ZoneUpdate) : M DB exn (Zone * FieldDiff) :=
  if negb (zone_update_ok u) then raise (HTTPException 422 "validation")
  else
    let! row := get_zone_endpoint zone_id in
    let! p := lift (apply_zone_update (loaded_zone row) u) in
    match p.2 with
    | [] => ret (row, [])
    | _ =>
        modify racing ;;;
        let! row' := stale_data_as_conflict "zone" zone_id (Some (zu_version u))
          (unique_zone_name_guard p.1 (flush_zone (zn_version row) p.1)) in
        ret (row', p.2)
    end.

(** ** The public list of events *)

(** [list_published_events]: [scan] is the order in which the rows are met, the
    order of equal [sale_starts_at] being left to it. *)
Definition sale_before (a b : Event) : bool := ev_sale_starts a <=? ev_sale_starts b.
Definition published_events (scan : list Event) : list Event :=
  isort sale_before (filter (λ e, ev_status e = PUBLISHED) scan).
Definition list_published_events (scan : list Event) (offset limit : nat) : list Event :=
  take limit (drop offset (published_events scan)).

(** [list_published_endpoint] *)
Definition list_published_endpoint (scan : list Event) (offset limit : Z) : result exn (list Event) :=
  if (offset <? 0) || (limit <? 1) || (100 <? limit) then Err (HTTPException 422 "validation")
  else Ok (list_published_events scan (Z.to_nat offset) (Z.to_nat limit)).

(** ** What is listed can be bought *)

Lemma availabilities_elem s prices snapshots zones l za :
  availabilities s prices snapshots zones = Ok l → za ∈ l →
  ∃ zone, zone ∈ zones ∧ availability s prices snapshots zone = Ok za.
Proof.
  revert l. induction zones as [|zone zones IH]; intros l; simpl; [intros [= <-] []%elem_of_nil|].
  destruct (availability s prices snapshots zone) as [a|e] eqn:Ha; [|done]. simpl.
  destruct (availabilities s prices snapshots zones) as [rest|e]; [|done]. simpl.
  intros [= <-] [->|Hin]%elem_of_cons; [exists zone; split; [left|done]|].
  destruct (IH rest eq_refl Hin) as (z & Hz & Hx). exists z. split; [by right|done].
Qed.

Lemma parse_snapshots_spec r event_id ids out m :
  parse_snapshots r event_id ids out = Ok m →
  ∀ z sn, m !! z = Some sn → out !! z = Some sn ∨
    parse_state (hash (r_runs r) (event_id, z)) (hash (r_geom r) (event_id, z)) = Ok (sn_state sn) ∧
    sn_relaxed sn = bool_decide ((event_id, z) ∈ r_relaxed r).
Proof.
  revert out. induction ids as [|i ids IH]; intros out; simpl; [intros [= <-]; by left|].
  destruct (parse_state (hash (r_runs r) (event_id, i)) _) as [st|e] eqn:Hst; [|done]. simpl.
  intros Hm z sn Hz. destruct (IH _ Hm z sn Hz) as [Hout|?]; [|by right].
  apply lookup_insert_Some in Hout as [[<- <-]|[_ ?]]; [by right|by left].
Qed.

(** What a row of a computed listing was made of. *)
Lemma computed_row s during event_id f l f' za :
  compute_zone_availability s during event_id f = (Ok l, f') → za ∈ l →
  ∃ zone state price,
    za_zone_id za = zn_id zone ∧ za_price_cents za = price ∧
    d_prices (fr_db (during 2%nat (during 1%nat f))) !! (event_id, zn_id zone) = Some price ∧
    parse_state (hash (r_runs (fr_redis f')) (event_id, zn_id zone)) (hash (r_geom (fr_redis f')) (event_id, zn_id zone))
      = Ok state ∧
    za_available za = zs_remaining state ∧
    feasible_quantities (zs_runs state) (zs_geometry state) (max_purchasable s)
      (if bool_decide ((event_id, zn_id zone) ∈ r_relaxed (fr_redis f')) then ENDGAME_POLICY else NORMAL_POLICY)
      = Ok (za_quantities za).
Proof.
  unfold compute_zone_availability, bind, gets, modify, raise, ret, lift.
  destruct (d_events (fr_db f) !! event_id ≫= ev_venue) as [venue|]; [|case_bool_decide; [done|by intros [= <- <-] []%elem_of_nil]].
  set (f2 := during 2%nat (during 1%nat f)). set (prices := load_zone_prices _ _ _). unfold in_front, read_zone_snapshots, bind, get, lift.
  set (ids := zn_id <$> _). set (r := fr_redis (during 3%nat f2)).
  destruct (parse_snapshots r event_id ids ∅) as [snapshots|e] eqn:Hp; [|done].
  intros [= Ha <-] Hin. destruct (availabilities_elem _ _ _ _ _ _ Ha Hin) as (zone & _ & Hz).
  unfold availability in Hz. destruct (snapshots !! zn_id zone) as [sn|] eqn:Hs; [|done].
  destruct (prices !! zn_id zone) as [price|] eqn:Hprice; [|done].
  destruct (feasible_quantities _ _ _ _) as [qs|e] eqn:Hq in Hz; [|done]. injection Hz as <-.
  destruct (parse_snapshots_spec _ _ _ _ _ Hp _ _ Hs) as [Hno|[Hst Hrel]]; [by apply lookup_empty_Some in Hno|].
  exists zone, (sn_state sn), price. simpl. split_and!; try done.
  - by apply load_zone_prices_lookup in Hprice as [? _].
  - by rewrite <-Hrel.
Qed.

Section buyable.
Context (s : Settings) (randrange : Z → Z → Z) (user_id price : Z) (idem : string).
Context (ttl top_k max_per_user : Z) (trace traceparent : string).
Hypothesis randrange_in : ∀ k n, 0 < n → 0 <= randrange k n < n.
Hypothesis top_k_pos : 0 < top_k.

#[local] Abbreviation buy event_id zone_id quantity :=
  (reserve_seats_and_enqueue s randrange (λ _ r, r) event_id zone_id user_id quantity price idem
    ttl top_k max_per_user trace traceparent NORMAL_POLICY).

Lemma no_anchor_refused event_id zone_id quantity r state quantities :
  (event_id, zone_id) ∈ r_relaxed r →
  parse_state (hash (r_runs r) (event_id, zone_id)) (hash (r_geom r) (event_id, zone_id)) = Ok state →
  legal_anchors (zs_runs state) quantity (zs_geometry state) ENDGAME_POLICY = Ok [] →
  feasible_quantities (zs_runs state) (zs_geometry state) (max_purchasable s) ENDGAME_POLICY = Ok quantities →
  buy event_id zone_id quantity r =
    (Err (Domain (if zs_remaining state <? quantity then InsufficientInventory event_id quantity (zs_remaining state)
                  else NoSeatsAvailable event_id zone_id quantity quantities)), r).
Proof.
  intros Hr Hp Ha Hf. unfold reserve_seats_and_enqueue, bind, is_relaxed, gets.
  rewrite bool_decide_true by done. change (Z.to_nat MAX_CAS_ATTEMPTS) with 5%nat. cbn [reserve_loop].
  unfold read_zone_state, bind at 1 2, gets, lift at 1. simpl. rewrite Hp.
  unfold bind at 1, lift at 1. rewrite Ha. destruct (zs_remaining state <? quantity); [done|].
  unfold no_seats, bind, feasible, lift. by rewrite Hf.
Qed.

(** C13 (the quantities listed are those that can be bought).  A row of a computed
    listing has its zone's price and as many free seats as the runs it was read from
    hold; a quantity up to the largest one order may have is offered exactly when the
    allocator can seat it.  From that same state, an offered quantity is reserved for
    a fresh key within the user's limit, and one that is not offered is refused, in a
    zone already relaxed, with the offer itself as the alternatives. *)
Theorem listed_quantities_are_buyable during event_id f l f' za :
  compute_zone_availability s during event_id f = (Ok l, f') → za ∈ l →
  let r := fr_redis f' in
  let zk := (event_id, za_zone_id za) in
  ∃ state, parse_state (hash (r_runs r) zk) (hash (r_geom r) zk) = Ok state ∧
    za_available za = zs_remaining state ∧
    d_prices (fr_db (during 2%nat (during 1%nat f))) !! zk = Some (za_price_cents za) ∧
    (geometry_covers (zs_runs state) (zs_geometry state) → ∀ n,
      (n ∈ za_quantities za ↔ 1 <= n <= max_purchasable s ∧
         ∃ pl, allocate (zs_runs state) n (zs_geometry state)
                 (if bool_decide (zk ∈ r_relaxed r) then ENDGAME_POLICY else NORMAL_POLICY) = Ok (Some pl)) ∧
      (n ∈ za_quantities za → claim_exists r idem = false →
         default 0 (hget (r_purchased r) event_id user_id) + n <= max_per_user →
         ∃ res r', buy event_id (za_zone_id za) n r = (Ok (Some res), r') ∧ sr_len res = n) ∧
      ((n ∉ za_quantities za) → 1 <= n <= max_purchasable s → zk ∈ r_relaxed r →
         buy event_id (za_zone_id za) n r =
           (Err (Domain (if zs_remaining state <? n then InsufficientInventory event_id n (zs_remaining state)
                         else NoSeatsAvailable event_id (za_zone_id za) n (za_quantities za))), r))).
Proof using randrange_in top_k_pos.
  intros Hc Hin r zk. destruct (computed_row _ _ _ _ _ _ _ Hc Hin) as (zone & state & p & Hz & <- & Hpr & Hp & Hav & Hf).
  rewrite <-Hz in Hp, Hf, Hpr. fold r zk in Hp, Hf. exists state. split_and!; [done..|]. intros Hcov n.
  set (policy := if bool_decide (zk ∈ r_relaxed r) then ENDGAME_POLICY else NORMAL_POLICY) in *.
  assert (Hm : 1 <= min_run policy) by (unfold policy; case_bool_decide; done).
  destruct (feasible_quantities_exact (zs_runs state) (zs_geometry state) (max_purchasable s) policy Hm Hcov)
    as (l' & Hl' & Hspec). rewrite Hf in Hl'. injection Hl' as <-. destruct (Hspec n) as [_ Hn].
  destruct (all_candidates_total (zs_runs state) n (zs_geometry state) policy Hcov) as [cs Hcs].
  assert (Hla : legal_anchors (zs_runs state) n (zs_geometry state) policy = Ok (isort anchor_le cs))
    by (unfold legal_anchors; by rewrite Hcs).
  pose proof (allocate_is_first_anchor (zs_runs state) n (zs_geometry state) policy) as Hal. rewrite Hla in Hal. simpl in Hal.
  rewrite Hal in Hn. split; [rewrite Hal; exact Hn|]. split.
  - intros [_ [pl Hpl]]%Hn Hfresh Hquota.
    apply (uncontended_reservation_succeeds s randrange event_id (za_zone_id za) user_id n price idem ttl top_k max_per_user trace
      traceparent NORMAL_POLICY r state (isort anchor_le cs)); try done.
    by destruct (isort anchor_le cs).
  - intros Hnot Hb Hrel. assert (policy = ENDGAME_POLICY) as Hpol by (unfold policy; by rewrite bool_decide_true).
    rewrite Hpol in *. apply no_anchor_refused; try done. rewrite Hla.
    destruct (isort anchor_le cs) as [|pl ps]; [done|]. exfalso. apply Hnot, Hn. split; [done|]. by exists pl.
Qed.
End buyable.

(** The cache of the listing.  A listing that was computed is answered again, with
    nothing read, until 2 seconds after it was stored, and never later. *)
Theorem listing_is_kept_two_seconds s during event_id f l f' g :
  cached_listing event_id f = None → list_zone_availability s during event_id f = (Ok l, f') →
  fr_cache g !! event_id = fr_cache f' !! event_id →
  let stored := r_now (fr_redis f') in
  (r_now (fr_redis g) < stored + 2000 → list_zone_availability s during event_id g = (Ok l, g)) ∧
  (stored + 2000 <= r_now (fr_redis g) → cached_listing event_id g = None).
Proof.
  intros Hmiss Hl Hg stored. unfold list_zone_availability, bind, gets, modify, ret in *. rewrite Hmiss in Hl.
  destruct (compute_zone_availability s during event_id (during 4%nat f)) as [[fresh|e] f1]; [|done].
  injection Hl as -> Hf'. subst f'. simpl in *. rewrite lookup_insert_eq in Hg. unfold cached_listing. rewrite Hg.
  unfold ZONES_CACHE_SECONDS. fold stored. split; intros Ht.
  - assert ((r_now (fr_redis g) <? stored + 2 * 1000) = true) as -> by zlia. done.
  - assert ((r_now (fr_redis g) <? stored + 2 * 1000) = false) as -> by zlia. done.
Qed.

(** ** Every seat is printed once *)

(** What the schema and the seeding guarantee of a hall. *)
Record hall_ok (h : Hall) : Prop := {
  hk_db : db_ok (ha_db h);
  hk_block : ∀ i hold, d_holds (ha_db h) !! i = Some hold →
    ∃ b, d_blocks (ha_db h) !! hd_block hold = Some b ∧ bk_zone b = hd_zone hold ∧
      hd_start hold + hd_len hold <= bk_capacity b ∧ is_Some (d_prices (ha_db h) !! (hd_event hold, hd_zone hold));
  hk_seats : ∀ i b p, d_blocks (ha_db h) !! i = Some b → 0 <= p < bk_capacity b → is_Some (d_seats (ha_db h) !! (i, p));
  hk_labels : ∀ b p q l, d_seats (ha_db h) !! (b, p) = Some l → d_seats (ha_db h) !! (b, q) = Some l → p = q;
  hk_places : ∀ i j b c x, d_blocks (ha_db h) !! i = Some b → d_blocks (ha_db h) !! j = Some c → bk_zone b = bk_zone c →
    ha_rows h !! i = Some x → ha_rows h !! j = Some x → i = j;
  hk_names : ∀ i j y z, d_zones (ha_db h) !! i = Some y → d_zones (ha_db h) !! j = Some z →
    zn_venue y = zn_venue z → zn_name y = zn_name z → i = j;
  hk_venue : ∀ e i j y z, is_Some (d_prices (ha_db h) !! (e, i)) → is_Some (d_prices (ha_db h) !! (e, j)) →
    d_zones (ha_db h) !! i = Some y → d_zones (ha_db h) !! j = Some z → zn_venue y = zn_venue z;
}.

Lemma elem_of_seats_between d b start len x :
  x ∈ seats_between d b start len ↔
  x.1.1 = b ∧ start <= x.1.2 < start + len ∧ d_seats d !! (b, x.1.2) = Some x.2.
Proof.
  unfold seats_between. rewrite elem_of_isort, list_elem_of_filter. destruct x as [[b' p] l]. simpl.
  rewrite elem_of_map_to_list. split; intros; destruct_and!; subst; by split_and!.
Qed.

Lemma zrange_sorted {A} (R : A → A → Prop) (f : Z → A) start len :
  (∀ p q, p < q → R (f p) (f q)) → StronglySorted R (f <$> zrange start len).
Proof.
  intros Hf. unfold zrange. destruct (decide (0 <= len)) as [H0|]; [|rewrite seqZ_nil by lia; constructor].
  revert start. pattern len. apply natlike_ind; [intros start; rewrite seqZ_nil by done; constructor| |done].
  intros n Hn IH start. rewrite seqZ_cons by lia. csimpl. replace (Z.pred (Z.succ n)) with n by lia.
  constructor; [apply IH|]. apply Forall_fmap, Forall_forall. intros q Hq%elem_of_seqZ. simpl. apply Hf. lia.
Qed.

(** Where every position has a seat, the labels are those of the positions in order. *)
Lemma seat_labels_range d b start len :
  (∀ p, start <= p < start + len → is_Some (d_seats d !! (b, p))) →
  seat_labels d b start len = (λ p, default "" (d_seats d !! (b, p))) <$> zrange start len.
Proof.
  intros Hall. set (f p := (b, p, default "" (d_seats d !! (b, p)))).
  assert (seats_between d b start len = f <$> zrange start len) as Heq.
  { apply (sorted_perm_unique pos_before).
    - intros [[b1 p1] l1] [[b2 p2] l2] (H1 & _ & H2)%elem_of_seats_between (H3 & _ & H4)%elem_of_seats_between.
      unfold pos_before. simpl in *. intros ? ?. assert (p1 = p2) as -> by zlia. by simplify_eq.
    - apply isort_sorted; unfold pos_before; intros; zlia.
    - apply zrange_sorted. intros p q Hpq. unfold pos_before, f. simpl. apply Z.leb_le. lia.
    - apply NoDup_Permutation.
      + unfold seats_between. rewrite isort_perm. apply NoDup_filter, NoDup_map_to_list.
      + apply NoDup_fmap_2; [intros p q Hpq; unfold f in Hpq; by simplify_eq|apply NoDup_seqZ].
      + intros [[b' p] l]. rewrite elem_of_seats_between, list_elem_of_fmap. unfold f. simpl. split.
        * intros (-> & Hp & Hl). exists p. rewrite Hl, elem_of_zrange. by split.
        * intros (q & [= -> -> ->] & Hq%elem_of_zrange). destruct (Hall q Hq) as [x Hx]. by rewrite Hx. }
  unfold seat_labels. rewrite Heq. by rewrite <-list_fmap_compose.
Qed.

Definition place (t : SeatedOrderDetail) : string * string * Z := (sd_zone_name t, sd_row_label t, sd_block_index t).

(** Who is shown seats, and which. *)
Lemma order_seats_inv h user i t :
  hall_ok h → get_order_seats h user i = Ok t →
  ∃ o hold b z, d_orders (ha_db h) !! i = Some o ∧ o_user o = user ∧ o_status o = CONFIRMED ∧
    d_holds (ha_db h) !! i = Some hold ∧ hd_event hold = o_event o ∧ hd_len hold = o_quantity o ∧
    d_blocks (ha_db h) !! hd_block hold = Some b ∧ d_zones (ha_db h) !! bk_zone b = Some z ∧
    ha_rows h !! hd_block hold = Some (sd_row_label t, sd_block_index t) ∧ sd_zone_name t = zn_name z ∧
    0 < hd_len hold ∧ 0 <= hd_start hold ∧ hd_start hold + hd_len hold <= bk_capacity b ∧
    sd_labels t = (λ p, default "" (d_seats (ha_db h) !! (hd_block hold, p))) <$> zrange (hd_start hold) (hd_len hold).
Proof.
  intros Hok. unfold get_order_seats, describe_order_seats.
  destruct (d_orders (ha_db h) !! i) as [o|] eqn:Ho; [|done].
  destruct (negb (o_user o =? user)) eqn:Hu; [done|]. case_bool_decide as Hz; [done|]. case_bool_decide as Hs; [done|].
  destruct (ok_order_checks _ (hk_db _ Hok) _ _ Ho) as [Hid _]. rewrite Hid.
  destruct (d_holds (ha_db h) !! i) as [hold|] eqn:Hh; [|done]. simpl.
  destruct (d_blocks (ha_db h) !! hd_block hold) as [b|] eqn:Hb; [|done]. simpl.
  destruct (ha_rows h !! hd_block hold) as [[rl bi]|] eqn:Hr; [|done]. simpl.
  destruct (d_zones (ha_db h) !! bk_zone b) as [z|] eqn:Hzn; [|done]. simpl. intros [= <-]. simpl.
  destruct (ok_hold_keys _ (hk_db _ Hok) _ _ Hh) as (_ & Hl & Hst & o' & Ho' & Hm).
  assert (o' = o) as -> by congruence. unfold hold_matches_order in Hm.
  destruct (hk_block _ Hok _ _ Hh) as (b' & Hb' & _ & Hcap & _). assert (b' = b) as -> by congruence.
  apply andb_true_iff in Hm as [[? _]%andb_true_iff ?].
  exists o, hold, b, z. split_and!; try done; try zlia.
  apply seat_labels_range. intros p Hp. eapply hk_seats; [done..|lia].
Qed.

(** C12 (the seats printed are the seats held, and nobody else's).  Seats are shown to
    the owner of a confirmed seated order only: as many as were bought, side by side
    in one block, in order of position.  No seat - zone, row, section and number -
    is shown for two orders of one event. *)
Theorem no_seat_is_printed_twice h user i t :
  hall_ok h → get_order_seats h user i = Ok t →
  ∃ o hold, d_orders (ha_db h) !! i = Some o ∧ o_user o = user ∧ o_status o = CONFIRMED ∧
    d_holds (ha_db h) !! i = Some hold ∧
    Z.of_nat (List.length (sd_labels t)) = o_quantity o ∧
    (∀ k, 0 <= k < o_quantity o →
       sd_labels t !! Z.to_nat k = d_seats (ha_db h) !! (hd_block hold, hd_start hold + k)) ∧
    ∀ user' j t' o', j ≠ i → get_order_seats h user' j = Ok t' → d_orders (ha_db h) !! j = Some o' →
      o_event o' = o_event o → place t' = place t → ∀ l, l ∈ sd_labels t → (l ∉ sd_labels t').
Proof.
  intros Hok Ht.
  destruct (order_seats_inv _ _ _ _ Hok Ht) as (o & hold & b & z & Ho & Hu & Hs & Hh & He & Hq & Hb & Hz & Hr & Hn & Hl & H0 & Hc & Hlab).
  exists o, hold. rewrite Hlab, <-Hq. split_and!; try done.
  - rewrite length_fmap. unfold zrange. rewrite length_seqZ. lia.
  - intros k Hk. rewrite list_lookup_fmap. unfold zrange. rewrite lookup_seqZ_lt by lia. simpl. rewrite Z2Nat.id by lia.
    destruct (hk_seats _ Hok _ _ (hd_start hold + k) Hb) as [x ->]; [lia|done].
  - intros user' j t' o' Hne Ht' Ho' Heq Hpl l Hin Hin'.
    destruct (order_seats_inv _ _ _ _ Hok Ht') as (o2 & hold' & b' & z' & Ho2 & _ & _ & Hh' & He' & Hq' & Hb' & Hz' & Hr' & Hn' & Hl' & H0' & Hc' & Hlab').
    assert (o2 = o') as -> by congruence. rewrite Hlab' in Hin'. unfold place in Hpl. injection Hpl as Hname Hrow Hidx.
    destruct (hk_block _ Hok _ _ Hh) as (b1 & Hb1 & Hbz & _ & Hp). assert (b1 = b) as -> by congruence.
    destruct (hk_block _ Hok _ _ Hh') as (b2 & Hb2 & Hbz' & _ & Hp'). assert (b2 = b') as -> by congruence.
    assert (bk_zone b' = bk_zone b) as Hzone.
    { eapply (hk_names _ Hok); [done|done| |congruence]. eapply (hk_venue _ Hok (o_event o) (bk_zone b') (bk_zone b)); [..|done|done].
      - rewrite Hbz', <-Heq, <-He'. done.
      - rewrite Hbz, <-He. done. }
    assert (hd_block hold' = hd_block hold) as Hblock.
    { eapply (hk_places _ Hok _ _ _ _ _ Hb' Hb Hzone); [exact Hr'|]. by rewrite Hr, Hrow, Hidx. }
    apply list_elem_of_fmap in Hin as (p & Hp1 & Hpr%elem_of_zrange), Hin' as (q & Hq1 & Hqr%elem_of_zrange).
    destruct (hk_seats _ Hok _ _ p Hb) as [x Hx]; [lia|]. destruct (hk_seats _ Hok _ _ q Hb') as [y Hy]; [lia|].
    rewrite Hx in Hp1. rewrite Hy in Hq1. simpl in *. rewrite Hblock in Hy. subst.
    assert (p = q) as -> by by eapply (hk_labels _ Hok).
    pose proof (ok_no_overlap _ (hk_db _ Hok) _ _ _ _ Hh' Hh Hne) as Hov. unfold holds_overlap in Hov.
    rewrite Hblock in Hov. zbool. lia.
Qed.

(** ** Editing a zone *)

(** Rows under their ids, and [uq_zones_venue_name]. *)
Record zones_ok (zones : gmap Z Zone) : Prop := {
  zk_ids : ∀ i z, zones !! i = Some z → zn_id z = i;
  zk_names : ∀ i j y z, zones !! i = Some y → zones !! j = Some z →
    zn_venue y = zn_venue z → zn_name y = zn_name z → i = j;
}.

Lemma name_taken_spec zones id venue name :
  name_taken zones id venue name = true ↔
  ∃ i z, zones !! i = Some z ∧ i ≠ id ∧ zn_venue z = venue ∧ zn_name z = name.
Proof.
  unfold name_taken. rewrite existsb_exists. split.
  - intros ([i z] & Hin & H). apply list_elem_of_In, elem_of_map_to_list in Hin. simpl in H.
    apply andb_true_iff in H as [H Hn%String.eqb_eq]. zbool. exists i, z. by destruct_and!.
  - intros (i & z & Hz & Hi & <- & <-). exists (i, z). split; [by apply list_elem_of_In, elem_of_map_to_list|].
    simpl. rewrite String.eqb_refl. zlia.
Qed.

Lemma flush_zone_cases loaded zone d :
  zones_ok (d_zones d) →
  match flush_zone loaded zone d with
  | (Ok row, d') => ∃ cur, d_zones d !! zn_id (az_row zone) = Some cur ∧ zn_version cur = loaded ∧
      d' = set_zones (<[zn_id (az_row zone) := row]> (d_zones d)) d ∧ zn_version row = loaded + 1 ∧
      zn_venue row = zn_venue cur ∧ az_name zone = Some (zn_name row) ∧ az_order zone = Some (zn_order row) ∧
      zones_ok (d_zones d')
  | (Err e, d') => d' = d ∧ (∀ x, e ≠ Domain x) ∧
      (e = StaleDataError → ∀ cur, d_zones d !! zn_id (az_row zone) = Some cur → zn_version cur ≠ loaded) ∧
      (e = IntegrityError UQ_ZONE_NAME → ∃ cur name, d_zones d !! zn_id (az_row zone) = Some cur ∧
         az_name zone = Some name ∧ name_taken (d_zones d) (zn_id (az_row zone)) (zn_venue cur) name = true)
  end.
Proof.
  intros [Hids Hnames]. unfold flush_zone. destruct (az_order zone) as [o|] eqn:Ho; [destruct (negb _); [done|]|].
  all: destruct (d_zones d !! zn_id (az_row zone)) as [cur|] eqn:Hc; [|by split_and!].
  all: destruct (negb (zn_version cur =? loaded)) eqn:Hv; [split_and!; try done; intros _ cur' [= <-]; zlia|].
  2: by split_and!.
  destruct (az_name zone) as [name|] eqn:Hn; [|done].
  destruct (name_taken _ _ _ name) eqn:Ht; [split_and!; try done; intros _; by exists cur, name|].
  exists cur. simpl. split_and!; try done; [zlia|]. split.
  - intros i z [[<- <-]|[_ Hz]]%lookup_insert_Some; [done|by apply Hids].
  - assert (Hfree : ∀ i z, d_zones d !! i = Some z → i ≠ zn_id (az_row zone) → zn_venue z = zn_venue cur → zn_name z ≠ name).
    { intros i z Hz Hi Hve He. assert (name_taken (d_zones d) (zn_id (az_row zone)) (zn_venue cur) name = true); [|congruence].
      apply name_taken_spec. by exists i, z. }
    intros i j y z [[<- <-]|[Hi Hy]]%lookup_insert_Some [[<- <-]|[Hj Hz]]%lookup_insert_Some Hve He; simpl in *; [done| | |by eapply Hnames].
    + exfalso. by eapply (Hfree j z).
    + exfalso. by eapply (Hfree i y).
Qed.

Lemma apply_zone_update_ok row u az diff :
  apply_zone_update (loaded_zone row) u = Ok (az, diff) →
  zn_version row = zu_version u ∧ az_row az = row ∧
  az_name az = default (Some (zn_name row)) (zu_name u) ∧ az_order az = default (Some (zn_order row)) (zu_display_order u).
Proof.
  unfold apply_zone_update, require_version. destruct (_ =? _) eqn:Hv; [|done]. simpl in *. intros [= <- <-]. by zbool.
Qed.

(** An edit of a zone.  Whatever others commit meanwhile, names stay apart within a
    venue; an edit that took effect replaced the version the client saw by the next
    one; one that met another version is refused and leaves what the others did. *)
Theorem zone_edit_is_never_lost racing zone_id u d :
  zones_ok (d_zones d) → zones_ok (d_zones (racing d)) →
  let '(r, d') := update_zone_endpoint racing zone_id u d in
  zones_ok (d_zones d') ∧
  match r with
  | Ok (row, []) => d' = d ∧ d_zones d !! zone_id = Some row
  | Ok (row, _ :: _) => ∃ cur, d_zones (racing d) !! zone_id = Some cur ∧ zn_version cur = zu_version u ∧
      d' = set_zones (<[zone_id := row]> (d_zones (racing d))) (racing d) ∧ zn_version row = zu_version u + 1 ∧
      zn_venue row = zn_venue cur
  | Err (Domain (ZoneNameTaken _ name)) => d' = racing d ∧
      ∃ venue, name_taken (d_zones (racing d)) zone_id venue name = true
  | Err _ => d' = d ∨ d' = racing d
  end.
Proof.
  intros Hok Hok'. unfold update_zone_endpoint, get_zone_endpoint, bind, gets, raise, ret, lift, modify.
  destruct (negb (zone_update_ok u)); [by split; [|left]|].
  destruct (d_zones d !! zone_id) as [row|] eqn:Hrow; [|by split; [|left]].
  destruct (apply_zone_update (loaded_zone row) u) as [[az diff]|e] eqn:Ha; [|].
  2:{ split; [done|]. unfold apply_zone_update, require_version in Ha. destruct (_ =? _); simplify_eq/=. by left. }
  apply apply_zone_update_ok in Ha as (Hv & Haz & _). simpl. destruct diff as [|x diff]; [by split_and!|].
  pose proof (flush_zone_cases (zn_version row) az (racing d) Hok') as Hf.
  rewrite Haz, (zk_ids _ Hok _ _ Hrow) in Hf.
  unfold stale_data_as_conflict, unique_zone_name_guard, try_catch, raise.
  destruct (flush_zone (zn_version row) az (racing d)) as [[row'|e] d'].
  - destruct Hf as (cur & Hc & Hcv & -> & Hnv & Hve & _ & _ & Hz). split; [done|].
    exists cur. rewrite <-Hv. by split_and!.
  - destruct Hf as (-> & Hdom & _ & Hname).
    destruct e; simpl; try (by split; [|right]); [by destruct (Hdom e)|].
    { case_bool_decide as Hd; [|by split; [|right]]. subst. split; [done|].
        destruct (Hname eq_refl) as (cur & name & _ & Hn & Ht). split; [done|]. rewrite Hn. by eexists. }
Qed.

(** An explicit null passes the schema and meets the column's NOT NULL: a database
    error for which there is no handler. *)
Theorem null_zone_edit_is_a_server_error zone_id row v d :
  d_zones d !! zone_id = Some row → zn_id row = zone_id → zn_version row = v → 1 <= v →
  -2147483648 <= zn_order row <= 2147483647 →
  update_zone_endpoint (λ d, d) zone_id (mk_zone_update v (Some None) None) d = (Err (IntegrityError "not null"), d).
Proof.
  intros Hrow Hid Hv H1 Hr. unfold update_zone_endpoint, get_zone_endpoint, bind, gets, ret, lift, modify, zone_update_ok. simpl.
  assert ((1 <=? v) = true) as -> by zlia. simpl. rewrite Hrow. unfold apply_zone_update, require_version. simpl.
  rewrite Hv, Z.eqb_refl. simpl. unfold stale_data_as_conflict, unique_zone_name_guard, try_catch, flush_zone. simpl.
  assert ((-2147483648 <=? zn_order row) && (zn_order row <=? 2147483647) = true) as -> by zlia. simpl.
  by rewrite Hid, Hrow, Hv, Z.eqb_refl.
Qed.

(** ** Paging the public list *)

(** While the rows are met in one order, the pages are the published events, soonest
    sale first, each once. *)
Theorem published_pages_cover scan n m :
  (List.length (published_events scan) <= n * m)%nat →
  mjoin ((λ k, list_published_events scan (k * n) n) <$> seq 0 m) = published_events scan ∧
  StronglySorted (λ a b, sale_before a b = true) (published_events scan) ∧
  ∀ e, e ∈ published_events scan ↔ e ∈ scan ∧ ev_status e = PUBLISHED.
Proof.
  intros Hl. split_and!.
  - unfold list_published_events. set (l := published_events scan) in *. clearbody l. clear scan. revert l Hl.
    assert (Hgen : ∀ m k (l : list Event), (List.length l <= n * m)%nat → ∀ full : list Event, l = drop (k * n) full →
      mjoin ((λ k, take n (drop (k * n) full)) <$> seq k m) = l).
    { intros m0. induction m0 as [|m' IH]; intros k l Hl full Hd; simpl.
      - symmetry. apply nil_length_inv. lia.
      - rewrite <-Hd. rewrite (IH (S k) (drop n l)); [by rewrite take_drop|rewrite length_drop; lia|].
        rewrite Hd, drop_drop. f_equal. lia. }
    intros l Hl. apply (Hgen m 0%nat l Hl l). done.
  - apply isort_sorted; unfold sale_before; intros; zlia.
  - intros e. unfold published_events. rewrite elem_of_isort, list_elem_of_filter. tauto.
Qed.

(** Two events go on sale together and the second page is read after the rows have
    moved: one event is on both pages and the other on none. *)
Example equal_sale_starts_skip_an_event :
  let a := mk_event 1 None 0 1 50 60 None None 10 None PUBLISHED 1 in
  let b := mk_event 2 None 0 1 50 60 None None 10 None PUBLISHED 1 in
  list_published_endpoint [a; b] 0 1 = Ok [a] ∧ list_published_endpoint [b; a] 1 1 = Ok [a].
Proof. done. Qed.

(** ** A small hall *)

Definition demo_front : Front :=
  let d := mk_db ∅ {[7 := mk_event 7 (Some 1) 0 1 0 1 None None 4 None PUBLISHED 1]}
    {[3 := mk_zone 3 1 "A" 0 1]} {[1 := mk_block 1 3 6 1 0]} ∅ {[(7, 3) := 500]} ∅ 1 ∅ ∅ 1 ∅ in
  mk_front d sample_redis ∅.

Lemma listed_quantities_are_buyable_witness :
  ∃ l za, (compute_zone_availability (default_settings "s") (λ _ f, f) 7 demo_front).1 = Ok l ∧ za ∈ l ∧
    za_available za = 4 ∧ za_quantities za = [2] ∧
    ∃ res r', reserve_seats_and_enqueue (default_settings "s") (λ _ _, 0) (λ _ r, r) 7 3 5 2 500
      "key" 60 TOP_K 4 "" "" NORMAL_POLICY sample_redis = (Ok (Some res), r') ∧ sr_len res = 2.
Proof.
  assert (Hl : ∃ l, compute_zone_availability (default_settings "s") (λ _ f, f) 7 demo_front = (Ok l, demo_front) ∧
    l = [mk_availability 3 "A" 0 500 4 [2]]) by (eexists; split; [vm_compute; reflexivity|reflexivity]).
  destruct Hl as (l & Hl & He). subst l. exists [mk_availability 3 "A" 0 500 4 [2]], (mk_availability 3 "A" 0 500 4 [2]).
  rewrite Hl. split; [done|]. split; [left|]. split; [done|]. split; [done|].
  destruct (listed_quantities_are_buyable (default_settings "s") (λ _ _, 0) 5 500 "key" 60 TOP_K 4 "" ""
    ltac:(intros; lia) ltac:(done) (λ _ f, f) 7 demo_front _ demo_front _ Hl ltac:(left)) as (state & Hp & _ & _ & Hn).
  assert (Hcov : geometry_covers (zs_runs state) (zs_geometry state)).
  { vm_compute in Hp. injection Hp as <-. intros run Hrun. vm_compute in Hrun.
    repeat (apply elem_of_cons in Hrun as [->|Hrun]; [vm_compute; by eexists|]). by apply elem_of_nil in Hrun. }
  destruct (Hn Hcov 2) as (_ & Hbuy & _). apply Hbuy; [left|by vm_compute|by vm_compute].
Defined.

(** Two confirmed orders side by side in a block of four. *)
Definition hall_order (i : Z) : Order :=
  mk_order i i 7 (Some 3) 2 1000 CONFIRMED (if i =? 1 then "a" else "b") None 0 (Some 1) (Some 2) None None.
Definition demo_hall : Hall :=
  mk_hall
    (mk_db {[1; 2]} {[7 := mk_event 7 (Some 1) 0 1 0 1 None None 4 None PUBLISHED 1]}
      (<[3 := mk_zone 3 1 "A" 0 1]> ∅) (<[1 := mk_block 1 3 4 1 0]> ∅)
      (<[(1, 0) := "1"]> (<[(1, 1) := "3"]> (<[(1, 2) := "5"]> (<[(1, 3) := "7"]> ∅))))
      (<[(7, 3) := 500]> ∅) (<[1 := hall_order 1]> (<[2 := hall_order 2]> ∅)) 3
      (<[1 := mk_hold 7 3 1 1 0 2 (Some 2)]> (<[2 := mk_hold 7 3 1 2 2 2 (Some 2)]> ∅)) ∅ 1 ∅)
    (<[1 := ("row 1", 0)]> ∅).

(** Cases of a lookup in a map written out. *)
Ltac small_map H :=
  simpl in H;
  repeat (apply lookup_insert_Some in H as [[<- <-]|[_ H]]; [|]);
  try (apply lookup_empty_Some in H; contradiction).

Lemma demo_hall_ok : hall_ok demo_hall.
Proof.
  split.
  - split.
    + intros i o Ho. small_map Ho; done.
    + intros i [o Ho]. small_map Ho; done.
    + intros i j a b Ha Hb. small_map Ha; small_map Hb; done.
    + intros i h Hh. small_map Hh; split_and!; try done; by eexists.
    + intros i j a b Ha Hb. small_map Ha; small_map Hb; done.
    + intros i [o Ho]. small_map Ho.
  - intros i h Hh. small_map Hh; eexists; split_and!; try done; by eexists.
  - intros i b p Hb Hp. small_map Hb. simpl in Hp.
    assert (p = 0 ∨ p = 1 ∨ p = 2 ∨ p = 3) as [->|[->|[->| ->]]] by lia; by eexists.
  - intros b p q l Hp Hq. simpl in Hp, Hq.
    repeat (apply lookup_insert_Some in Hp as [[[= <- <-] <-]|[_ Hp]]; [|]); [..|by apply lookup_empty_Some in Hp].
    all: repeat (apply lookup_insert_Some in Hq as [[[= <-] ?]|[_ Hq]]; [done|]); by apply lookup_empty_Some in Hq.
  - intros i j b c x Hb Hc. small_map Hb; small_map Hc; done.
  - intros i j y z Hy Hz. small_map Hy; small_map Hz; done.
  - intros e i j y z _ _ Hy Hz. small_map Hy; small_map Hz; done.
Qed.

Lemma no_seat_is_printed_twice_witness :
  ∃ t t', get_order_seats demo_hall 1 1 = Ok t ∧ get_order_seats demo_hall 2 2 = Ok t' ∧
    sd_labels t = ["1"; "3"] ∧ ("1" ∉ sd_labels t').
Proof.
  assert (H1 : get_order_seats demo_hall 1 1 = Ok (mk_detail "A" "row 1" 0 ["1"; "3"])) by (vm_compute; reflexivity).
  assert (H2 : get_order_seats demo_hall 2 2 = Ok (mk_detail "A" "row 1" 0 ["5"; "7"])) by (vm_compute; reflexivity).
  do 2 eexists. split; [exact H1|]. split; [exact H2|]. split; [reflexivity|].
  destruct (no_seat_is_printed_twice demo_hall 1 1 _ demo_hall_ok H1) as (o & hold & Ho & _ & _ & _ & _ & _ & Hapart).
  eapply (Hapart 2 2 _ (hall_order 2)); [done|exact H2|reflexivity| |reflexivity|left].
  assert (o = hall_order 1) as -> by (vm_compute in Ho; by injection Ho as <-). reflexivity.
Defined.
