(* ===== verification/Seed.v ===== *)
(** Seeding a seat map (src/app/scripts/seed_venue.py): the three rules that number
    the seats of a row, the quality of its blocks, and the insertion of a venue's
    zones, blocks and seats under the constraints of the schema.  Floating point
    numbers are rationals. *)

From Stdlib Require Import Ascii String QArith Qabs Lqa.
From S2P Require Import Prelude Exceptions Keys DB Seating Zones.

#[local] Open Scope string_scope.
#[local] Open Scope list_scope.
#[local] Open Scope Z_scope.

(** ** Numbering *)

(** ["4" in str(number)], digit by digit; the fuel bounds the digits. *)
Fixpoint has_four (fuel : nat) (n : Z) : bool :=
  match fuel with
  | O => false
  | S fuel' => if n <? 10 then n =? 4 else (n mod 10 =? 4) || has_four fuel' (n / 10)
  end.
Definition is_superstitious (number : Z) : bool := has_four (Z.to_nat number) number || (number =? 13).

(** A labeller gets the sizes of a row's blocks; [None] when it does not return. *)
Definition Labeller : Type := list Z → option (list (list string)).

Fixpoint sequential_from (number : Z) (blocks : list Z) : list (list string) :=
  match blocks with
  | [] => []
  | size :: blocks' => (z_str <$> zrange number size) :: sequential_from (number + Z.max 0 size) blocks'
  end.
Definition sequential_labels : Labeller := λ blocks, Some (sequential_from 1 blocks).

(** [while skip(number): number += 1] *)
Fixpoint skip_loop (fuel : nat) (skip : Z → bool) (number : Z) : option Z :=
  match fuel with
  | O => None
  | S fuel' => if skip number then skip_loop fuel' skip (number + 1) else Some number
  end.
Definition skip_fuel (number : Z) : nat := S (Z.to_nat (9 * number)).

(** [while len(labels) < size] *)
Fixpoint skipping_block (skip : Z → bool) (size : nat) (number : Z) : option (list string * Z) :=
  match size with
  | O => Some ([], number)
  | S size' =>
      n ← skip_loop (skip_fuel number) skip number;
      '(labels, n') ← skipping_block skip size' (n + 1);
      Some (z_str n :: labels, n')
  end.
Fixpoint skipping_from (skip : Z → bool) (number : Z) (blocks : list Z) : option (list (list string)) :=
  match blocks with
  | [] => Some []
  | size :: blocks' =>
      '(labels, n) ← skipping_block skip (Z.to_nat size) number;
      rest ← skipping_from skip n blocks';
      Some (labels :: rest)
  end.
Definition skipping_labels (skip : Z → bool) : Labeller := skipping_from skip 1.

(** The slices [numbers[start : start + size]]. *)
Fixpoint slices {A} (l : list A) (blocks : list Z) : list (list A) :=
  match blocks with
  | [] => []
  | size :: blocks' => take (Z.to_nat size) l :: slices (drop (Z.to_nat size) l) blocks'
  end.
Definition odd_even_number (mid pos : Z) : Z :=
  if pos <? mid then 2 * (mid - pos) - 1 else 2 * (pos - mid) + 2.
Definition odd_even_labels : Labeller := λ blocks,
  let total := list_sum (λ x, x) blocks in
  let mid := total / 2 in
  Some (slices (z_str ∘ odd_even_number mid <$> zrange 0 total) blocks).

(** ** The description of a venue *)

Record RowSpec : Type := mk_row_spec { rs_label : string; rs_blocks : list Z }.
Record ZoneSpec : Type := mk_zone_spec {
  zs_name : string;
  zs_display_order : Z;
  zs_rows : list RowSpec;
  zs_quality_front : Q;
  zs_quality_back : Q;
  zs_side_penalty : Q;
  zs_labeller : Labeller;
}.
Record VenueSpec : Type := mk_venue_spec { vs_name : string; vs_zones : list ZoneSpec }.

Definition total_seats (v : VenueSpec) : Z :=
  list_sum (λ zone, list_sum (λ row, list_sum (λ size, size) (rs_blocks row)) (zs_rows zone)) (vs_zones v).

Definition EDGE_RATIO : Q := 1 # 2.

Definition qmin (a b : Q) : Q := if Qle_bool a b then a else b.
Definition qmax (a b : Q) : Q := if Qle_bool a b then b else a.

Definition quality_base (zone : ZoneSpec) (row_index block_index : Z) (blocks : list Z) : Q :=
  let rows := Z.max 1 (Z.of_nat (List.length (zs_rows zone)) - 1) in
  let depth := (zs_quality_front zone
    + (zs_quality_back zone - zs_quality_front zone) * (inject_Z row_index / inject_Z rows))%Q in
  let total := list_sum (λ x, x) blocks in
  let row_center := (inject_Z (total - 1) / 2)%Q in
  let before := list_sum (λ x, x) (take (Z.to_nat block_index) blocks) in
  let size := default 0 (blocks !! Z.to_nat block_index) in
  let block_center := (inject_Z before + inject_Z (size - 1) / 2)%Q in
  let offset := (Qabs (block_center - row_center) / qmax row_center (1 # 1000000000))%Q in
  qmin 1 (qmax (1 # 20) (depth * (1 - zs_side_penalty zone * qmin 1 offset))%Q).

(** ** Inserting *)

Record SeatMap : Type := mk_seat_map {
  sm_hall : Hall;
  sm_venues : gmap Z string;
  sm_next_venue : Z;
  sm_next_zone : Z;
  sm_next_block : Z;
}.
Definition sm_db (m : SeatMap) : DB := ha_db (sm_hall m).

Definition set_blocks (v : gmap Z SeatBlock) (d : DB) : DB :=
  mk_db (d_users d) (d_events d) (d_zones d) v (d_seats d) (d_prices d) (d_orders d)
    (d_next_order d) (d_holds d) (d_outbox d) (d_next_outbox d) (d_stripe d).
Definition set_seats (v : gmap (Z * Z) string) (d : DB) : DB :=
  mk_db (d_users d) (d_events d) (d_zones d) (d_blocks d) v (d_prices d) (d_orders d)
    (d_next_order d) (d_holds d) (d_outbox d) (d_next_outbox d) (d_stripe d).

Definition insert_venue (name : string) : M SeatMap exn Z := λ m,
  let id := sm_next_venue m in
  if existsb (λ p : Z * string, String.eqb p.2 name) (map_to_list (sm_venues m))
  then (Err (IntegrityError "venues_name_key"), m)
  else (Ok id, mk_seat_map (sm_hall m) (<[id := name]> (sm_venues m)) (id + 1) (sm_next_zone m) (sm_next_block m)).

Definition insert_zone (venue : Z) (zs : ZoneSpec) : M SeatMap exn Z := λ m,
  let id := sm_next_zone m in
  let d := sm_db m in
  if name_taken (d_zones d) id venue (zs_name zs) then (Err (IntegrityError UQ_ZONE_NAME), m)
  else
    let d' := set_zones (<[id := mk_zone id venue (zs_name zs) (zs_display_order zs) 1]> (d_zones d)) d in
    (Ok id, mk_seat_map (mk_hall d' (ha_rows (sm_hall m))) (sm_venues m) (sm_next_venue m) (id + 1) (sm_next_block m)).

(** A block that waits for its id, with the labels of its seats. *)
Record Pending : Type := mk_pending {
  pd_row : string; pd_index : Z; pd_size : Z; pd_base : Q; pd_labels : list string;
}.

Definition place_taken (m : SeatMap) (zone : Z) (row : string) (index : Z) : bool :=
  existsb (λ p : Z * SeatBlock, (bk_zone p.2 =? zone) && bool_decide (ha_rows (sm_hall m) !! p.1 = Some (row, index)))
    (map_to_list (d_blocks (sm_db m))).

Definition insert_block (zone : Z) (p : Pending) : M SeatMap exn Z := λ m,
  let id := sm_next_block m in
  let d := sm_db m in
  let edge := (pd_base p * EDGE_RATIO)%Q in
  if negb (0 <? pd_size p) then (Err (IntegrityError "ck_seat_blocks_capacity_pos"), m)
  else if negb (Qle_bool 0 edge && Qle_bool edge (pd_base p) && Qle_bool (pd_base p) 1)
  then (Err (IntegrityError "ck_seat_blocks_quality_range"), m)
  else if place_taken m zone (pd_row p) (pd_index p) then (Err (IntegrityError "uq_seat_blocks_pos"), m)
  else
    let d' := set_blocks (<[id := mk_block id zone (pd_size p) (pd_base p) edge]> (d_blocks d)) d in
    (Ok id, mk_seat_map (mk_hall d' (<[id := (pd_row p, pd_index p)]> (ha_rows (sm_hall m)))) (sm_venues m)
              (sm_next_venue m) (sm_next_zone m) (id + 1)).

Definition label_taken (seats : gmap (Z * Z) string) (block : Z) (label : string) : bool :=
  existsb (λ p : Z * Z * string, (p.1.1 =? block) && String.eqb p.2 label) (map_to_list seats).

Definition insert_seat (block pos : Z) (label : string) : M SeatMap exn unit := λ m,
  let d := sm_db m in
  if bool_decide (is_Some (d_seats d !! (block, pos))) then (Err (IntegrityError "uq_seats_block_pos"), m)
  else if label_taken (d_seats d) block label then (Err (IntegrityError "uq_seats_block_label"), m)
  else
    let d' := set_seats (<[(block, pos) := label]> (d_seats d)) d in
    (Ok tt, mk_seat_map (mk_hall d' (ha_rows (sm_hall m))) (sm_venues m) (sm_next_venue m) (sm_next_zone m) (sm_next_block m)).

(** [for pos, label in enumerate(labels)] *)
Fixpoint insert_seats (block pos : Z) (labels : list string) : M SeatMap exn unit :=
  match labels with
  | [] => ret tt
  | label :: labels' => insert_seat block pos label ;;; insert_seats block (pos + 1) labels'
  end.

(** The blocks of a row: [zip(row.blocks, label_groups, strict=True)]. *)
Definition row_blocks (zs : ZoneSpec) (row_index : nat) (row : RowSpec) : result exn (list Pending) :=
  match zs_labeller zs (rs_blocks row) with
  | None => Err RuntimeError
  | Some groups =>
      if negb (List.length groups =? List.length (rs_blocks row))%nat then Err ValueError
      else Ok (imap (λ i '(size, labels),
                 mk_pending (rs_label row) (Z.of_nat i) size
                   (quality_base zs (Z.of_nat row_index) (Z.of_nat i) (rs_blocks row)) labels)
               (zip (rs_blocks row) groups))
  end.
Fixpoint rows_blocks (zs : ZoneSpec) (row_index : nat) (rows : list RowSpec) : result exn (list Pending) :=
  match rows with
  | [] => Ok []
  | row :: rows' =>
      let? here := row_blocks zs row_index row in
      let? rest := rows_blocks zs (S row_index) rows' in
      Ok (here ++ rest)
  end.

(** The two flushes of a zone: its blocks, which get their ids, and their seats. *)
Fixpoint flush_blocks (zone : Z) (pending : list Pending) : M SeatMap exn (list (Z * list string)) :=
  match pending with
  | [] => ret []
  | p :: pending' =>
      let! id := insert_block zone p in
      let! rest := flush_blocks zone pending' in
      ret ((id, pd_labels p) :: rest)
  end.
Fixpoint flush_seats (blocks : list (Z * list string)) : M SeatMap exn unit :=
  match blocks with
  | [] => ret tt
  | (id, labels) :: blocks' => insert_seats id 0 labels ;;; flush_seats blocks'
  end.

Definition seed_zone (venue : Z) (zs : ZoneSpec) : M SeatMap exn unit :=
  let! zone := insert_zone venue zs in
  let! pending := lift (rows_blocks zs 0 (zs_rows zs)) in
  let! blocks := flush_blocks zone pending in
  flush_seats blocks.
Fixpoint seed_zones (venue : Z) (zones : list ZoneSpec) : M SeatMap exn unit :=
  match zones with [] => ret tt | zs :: zones' => seed_zone venue zs ;;; seed_zones venue zones' end.

(** [seed_venue]: it flushes and does not commit; after an exception the rows already
    flushed are in the session's uncommitted transaction. *)
Definition seed_venue (spec : VenueSpec) : M SeatMap exn Z :=
  let! clash := gets (λ m, existsb (λ p : Z * string, String.eqb p.2 (vs_name spec)) (map_to_list (sm_venues m))) in
  if (clash : bool) then raise ValueError
  else
    let! venue := insert_venue (vs_name spec) in
    seed_zones venue (vs_zones spec) ;;;
    ret venue.

(** [_rows] and [DEMO_ARENA], the zone names in English. *)
Definition demo_rows (prefix : string) (count : nat) (blocks : list Z) : list RowSpec :=
  (λ i, mk_row_spec (prefix +:+ z_str (Z.of_nat i + 1)) blocks) <$> seq 0 count.
Definition DEMO_ARENA : VenueSpec := mk_venue_spec "Demo Arena"
  [mk_zone_spec "Rock" 0 (demo_rows "R" 10 [6; 12; 6]) 1 (85 # 100) (1 # 5) odd_even_labels;
   mk_zone_spec "Stand A" 1 (demo_rows "A" 15 [8; 16; 8]) (8 # 10) (55 # 100) (1 # 5) (skipping_labels is_superstitious);
   mk_zone_spec "Stand B" 2 (demo_rows "B" 20 [10; 20; 10]) (5 # 10) (25 # 100) (1 # 5) sequential_labels].

(** [main]: without a name the demo arena, with one a venue without zones; a failure
    leaves the transaction uncommitted. *)
Definition seed_venue_main (venue_name : option string) : M SeatMap exn Z := λ m,
  let spec := match venue_name with None => DEMO_ARENA | Some n => mk_venue_spec n [] end in
  match seed_venue spec m with
  | (Ok v, m') => (Ok v, m')
  | (Err e, _) => (Err e, m)
  end.

(** ** The three rules *)

(** Some power of ten lies within a factor of ten above every number. *)
Lemma power_of_ten_above n : 1 <= n → ∃ k, 0 <= k ∧ n <= 10 ^ k < 10 * n.
Proof.
  intros H1. pattern n. apply (Z_lt_induction (λ n, 1 <= n → ∃ k, 0 <= k ∧ n <= 10 ^ k < 10 * n)); [|lia|lia].
  clear n H1. intros n IH H1. destruct (decide (n = 1)) as [->|Hn]; [by exists 0|].
  destruct (IH ((n + 9) / 10)) as (k & Hk & Hlo & Hhi).
  { split; [apply Z.div_pos; lia|]. apply Z.div_lt_upper_bound; lia. }
  { apply Z.div_le_lower_bound; lia. }
  pose proof (Z.div_mod (n + 9) 10 ltac:(lia)). pose proof (Z.mod_pos_bound (n + 9) 10 ltac:(lia)).
  destruct (decide (n <= 10 ^ k)); [exists k; lia|]. exists (k + 1). rewrite Z.pow_add_r by lia.
  change (10 ^ 1) with 10. lia.
Qed.

Lemma power_is_plain k : 0 <= k → is_superstitious (10 ^ k) = false.
Proof.
  intros Hk. unfold is_superstitious. apply orb_false_iff. split.
  - generalize (Z.to_nat (10 ^ k)) as fuel. revert k Hk. apply (natlike_ind (λ k, ∀ fuel, has_four fuel (10 ^ k) = false)).
    { intros [|fuel]; done. }
    intros k Hk IH [|fuel]; [done|]. cbn [has_four]. rewrite Z.pow_succ_r by done.
    pose proof (Z.pow_pos_nonneg 10 k ltac:(lia) Hk).
    destruct (10 * 10 ^ k <? 10) eqn:Hl; [zlia|]. rewrite (Z.mul_comm 10), Z.mod_mul, Z.div_mul by done. by apply IH.
  - apply Z.eqb_neq. destruct (decide (k = 0)) as [->|H0]; [done|].
    rewrite <-(Z.succ_pred k), Z.pow_succ_r by lia. intros Hc. pose proof (Z.mod_mul (10 ^ Z.pred k) 10 ltac:(done)) as Hm.
    rewrite Z.mul_comm, Hc in Hm. done.
Qed.

Lemma skip_loop_reaches skip m fuel n :
  n <= m < n + Z.of_nat fuel → skip m = false →
  ∃ k, skip_loop fuel skip n = Some k ∧ n <= k ∧ skip k = false.
Proof.
  revert n. induction fuel as [|fuel IH]; intros n Hm Hs; [lia|]. cbn [skip_loop].
  destruct (skip n) eqn:Hn; [|exists n; by split_and!].
  destruct (IH (n + 1)) as (k & Hk & Hle & Hsk); [|done|exists k; split_and!; [done|lia|done]].
  assert (n ≠ m) by congruence. lia.
Qed.

Lemma superstition_ends n : 1 <= n →
  ∃ k, skip_loop (skip_fuel n) is_superstitious n = Some k ∧ n <= k ∧ is_superstitious k = false.
Proof.
  intros H1. destruct (power_of_ten_above n H1) as (k & Hk & Hr).
  apply (skip_loop_reaches _ (10 ^ k)); [unfold skip_fuel; lia|by apply power_is_plain].
Qed.

(** The labels are numbers, one for every seat, none twice in the row. *)
Definition numbered (P : Z → Prop) (blocks : list Z) (groups : list (list string)) : Prop :=
  ∃ ns : list (list Z), groups = ((λ l : list Z, z_str <$> l) <$> ns : list (list string)) ∧
    Forall2 (λ size l, Z.of_nat (List.length l) = size) blocks ns ∧ NoDup (mjoin ns : list Z) ∧ ∀ n, n ∈ (mjoin ns : list Z) → P n.

Lemma skipping_block_ok size number : 1 <= number →
  ∃ ns n', skipping_block is_superstitious size number = Some (z_str <$> ns, n') ∧ List.length ns = size ∧
    StronglySorted Z.lt ns ∧ number <= n' ∧ (∀ n, n ∈ ns → number <= n < n' ∧ is_superstitious n = false).
Proof.
  revert number. induction size as [|size IH]; intros number H1; cbn [skipping_block].
  { exists [], number. split_and!; [done|done|constructor|lia|by intros n ?%elem_of_nil]. }
  destruct (superstition_ends number H1) as (k & -> & Hk & Hs). simpl.
  destruct (IH (k + 1)) as (ns & n' & -> & Hl & Hsort & Hle & Hall); [lia|]. simpl.
  exists (k :: ns), n'. split_and!; [done|by rewrite <-Hl| |lia|].
  - constructor; [done|]. apply Forall_forall. intros n Hn%Hall. lia.
  - intros n [->|Hn]%elem_of_cons; [split; [lia|done]|]. apply Hall in Hn as [? ?]. split; [lia|done].
Qed.

Lemma skipping_from_ok blocks number : 1 <= number → Forall (λ x, 0 <= x) blocks →
  ∃ ns, skipping_from is_superstitious number blocks = Some (((λ l : list Z, z_str <$> l) <$> ns : list (list string))) ∧
    Forall2 (λ size l, Z.of_nat (List.length l) = size) blocks ns ∧ StronglySorted Z.lt (mjoin ns : list Z) ∧
    ∀ n, n ∈ (mjoin ns : list Z) → number <= n ∧ is_superstitious n = false.
Proof.
  revert number. induction blocks as [|size blocks IH]; intros number H1 Hb; cbn [skipping_from].
  { exists []. split_and!; [done|constructor|constructor|by intros n ?%elem_of_nil]. }
  apply Forall_cons in Hb as [H0 Hb].
  destruct (skipping_block_ok (Z.to_nat size) number H1) as (l & n' & -> & Hl & Hsort & Hle & Hall). simpl.
  destruct (IH n') as (ns & -> & Hlen & Hsorts & Halls); [lia|done|]. simpl.
  exists (l :: ns). split_and!; [done|constructor; [lia|done]| |].
  - cbn [mjoin list_join]. clear -Hsort Hall Hsorts Halls. induction Hsort as [|x l Hl IH Hx]; [done|].
    cbn [app]. constructor; [apply IH; intros n Hn; apply Hall; by right|]. apply Forall_app. split; [done|].
    apply Forall_forall. intros n [Hn _]%Halls. destruct (Hall x) as [? _]; [left|]. lia.
  - cbn [mjoin list_join]. intros n [[? ?]%Hall|[? ?]%Halls]%elem_of_app; split; (lia || done).
Qed.

Lemma sorted_nodup l : StronglySorted Z.lt l → NoDup l.
Proof.
  induction 1 as [|x l _ IH Hx]; [constructor|]. constructor; [|done]. intros Hin.
  rewrite Forall_forall in Hx. specialize (Hx x Hin). lia.
Qed.

Lemma sequential_from_ok blocks number : Forall (λ x, 0 <= x) blocks →
  ∃ ns, sequential_from number blocks = ((λ l : list Z, z_str <$> l) <$> ns : list (list string)) ∧
    Forall2 (λ size l, Z.of_nat (List.length l) = size) blocks ns ∧ NoDup (mjoin ns : list Z) ∧ ∀ n, n ∈ (mjoin ns : list Z) → number <= n.
Proof.
  revert number. induction blocks as [|size blocks IH]; intros number Hb; cbn [sequential_from].
  { exists []. split_and!; [done|constructor|constructor|by intros n ?%elem_of_nil]. }
  apply Forall_cons in Hb as [H0 Hb]. destruct (IH (number + Z.max 0 size) Hb) as (ns & -> & Hl & Hnd & Hall).
  exists (zrange number size :: ns). split_and!; [done|constructor; [unfold zrange; rewrite length_seqZ; lia|done]| |].
  - cbn [mjoin list_join]. apply NoDup_app. split_and!; [apply NoDup_seqZ| |done].
    intros n Hn%elem_of_zrange Hin%Hall. lia.
  - cbn [mjoin list_join]. intros n [Hn%elem_of_zrange|Hn%Hall]%elem_of_app; lia.
Qed.

Lemma slices_ok {A} (l : list A) blocks :
  Forall (λ x, 0 <= x) blocks → Z.of_nat (List.length l) = list_sum (λ x, x) blocks →
  Forall2 (λ size g, Z.of_nat (List.length g) = size) blocks (slices l blocks) ∧ (mjoin (slices l blocks) : list A) = l.
Proof.
  intros Hb. revert l. induction Hb as [|size blocks H0 Hb IH]; intros l Hl; simpl in *.
  { split; [constructor|]. symmetry. apply nil_length_inv. lia. }
  assert (0 <= list_sum (λ x, x) blocks) by (clear -Hb; induction Hb; simpl; lia).
  destruct (IH (drop (Z.to_nat size) l)) as [Hf Hj]; [rewrite length_drop; lia|].
  split; [constructor; [rewrite length_take; lia|done]|]. cbn [mjoin list_join] in *. by rewrite Hj, take_drop.
Qed.

Lemma slices_fmap {A B} (f : A → B) l blocks : slices (f <$> l) blocks = (λ g : list A, f <$> g) <$> slices l blocks.
Proof.
  revert l. induction blocks as [|size blocks IH]; intros l; [done|]. cbn [slices]. csimpl.
  by rewrite <-fmap_take, <-fmap_drop, IH.
Qed.

(** Every seat of a row gets a number.  For rows without a negative block each of the
    three rules returns, with as many labels for each block as it has seats, and gives
    no number twice along the row; the skipping rule finds its way past every run of
    avoided numbers and uses none of them. *)
Theorem labellers_number_every_seat blocks :
  Forall (λ x, 0 <= x) blocks →
  (∃ groups, sequential_labels blocks = Some groups ∧ numbered (λ n, 1 <= n) blocks groups) ∧
  (∃ groups, skipping_labels is_superstitious blocks = Some groups ∧
     numbered (λ n, 1 <= n ∧ is_superstitious n = false) blocks groups) ∧
  (∃ groups, odd_even_labels blocks = Some groups ∧ numbered (λ n, 1 <= n) blocks groups).
Proof.
  intros Hb. split_and!.
  - destruct (sequential_from_ok blocks 1 Hb) as (ns & He & ?). eexists. split; [done|]. exists ns. by rewrite He.
  - destruct (skipping_from_ok blocks 1 ltac:(lia) Hb) as (ns & He & Hl & Hs & Hall). eexists. split; [exact He|].
    exists ns. split_and!; [done|done|by apply sorted_nodup|done].
  - eexists. split; [done|]. set (total := list_sum _ _). set (mid := total / 2).
    exists (slices (odd_even_number mid <$> zrange 0 total) blocks).
    assert (0 <= total) by (unfold total; clear -Hb; induction Hb; simpl; lia).
    destruct (slices_ok (odd_even_number mid <$> zrange 0 total) blocks Hb) as [Hl Hj].
    { rewrite length_fmap. unfold zrange. rewrite length_seqZ. fold total. lia. }
    rewrite Hj. split_and!; [by rewrite <-slices_fmap, <-list_fmap_compose|done| |].
    + apply NoDup_fmap_2_strong; [|apply NoDup_seqZ]. intros p q _ _. unfold odd_even_number.
      destruct (p <? mid) eqn:?, (q <? mid) eqn:?; zlia.
    + intros n (p & -> & Hp%elem_of_zrange)%list_elem_of_fmap. unfold odd_even_number. destruct (p <? mid) eqn:?; zlia.
Qed.

(** Numbers next to each other need not be neighbours, nor neighbours differ by one. *)
Example odd_even_of_a_row : odd_even_labels [2; 4; 2] = Some [["7"; "5"]; ["3"; "1"; "2"; "4"]; ["6"; "8"]].
Proof. reflexivity. Qed.
Example skipping_of_a_row : skipping_labels is_superstitious [4; 4] = Some [["1"; "2"; "3"; "5"]; ["6"; "7"; "8"; "9"]].
Proof. reflexivity. Qed.

(** ** The quality of a block *)

Lemma qmin_le a b : (qmin a b <= a)%Q ∧ (qmin a b <= b)%Q.
Proof.
  unfold qmin. destruct (Qle_bool a b) eqn:H; [apply Qle_bool_iff in H; split; [apply Qle_refl|done]|].
  assert (~ (a <= b)%Q) as Hn by (rewrite <-Qle_bool_iff; congruence). apply Qnot_le_lt in Hn.
  split; [by apply Qlt_le_weak|apply Qle_refl].
Qed.

(** Whatever the description says, a block's quality and its edge satisfy the CHECK of
    the table. *)
Lemma quality_in_range zs i j blocks :
  (0 <= quality_base zs i j blocks * EDGE_RATIO)%Q ∧
  (quality_base zs i j blocks * EDGE_RATIO <= quality_base zs i j blocks)%Q ∧ (quality_base zs i j blocks <= 1)%Q.
Proof.
  assert (Hr : (0 <= quality_base zs i j blocks)%Q ∧ (quality_base zs i j blocks <= 1)%Q).
  { unfold quality_base. match goal with |- context [qmin 1 (qmax ?a ?b)] => set (x := b) end.
    split; [|apply qmin_le]. assert (Hx : (0 <= qmax (1 # 20) x)%Q).
    { unfold qmax. destruct (Qle_bool (1 # 20) x) eqn:Hb; [|done]. apply Qle_bool_iff in Hb.
      eapply Qle_trans; [|exact Hb]. done. }
    unfold qmin. by destruct (Qle_bool 1 _). }
  unfold EDGE_RATIO. destruct Hr as [H0 H1]. split_and!; [|nra|done]. nra.
Qed.

(** ** What seeding keeps *)

(** [pending] are the blocks whose seats are not inserted yet. *)
Record seated (pending : gset Z) (m : SeatMap) : Prop := {
  se_zones : zones_ok (d_zones (sm_db m));
  se_zone_ids : ∀ i, is_Some (d_zones (sm_db m) !! i) → i < sm_next_zone m;
  se_blocks : ∀ i b, d_blocks (sm_db m) !! i = Some b →
    i < sm_next_block m ∧ bk_id b = i ∧ 0 < bk_capacity b ∧ is_Some (ha_rows (sm_hall m) !! i) ∧
    is_Some (d_zones (sm_db m) !! bk_zone b) ∧ (0 <= bk_edge b)%Q ∧ (bk_edge b <= bk_base b)%Q ∧ (bk_base b <= 1)%Q;
  se_places : ∀ i j b c x, d_blocks (sm_db m) !! i = Some b → d_blocks (sm_db m) !! j = Some c → bk_zone b = bk_zone c →
    ha_rows (sm_hall m) !! i = Some x → ha_rows (sm_hall m) !! j = Some x → i = j;
  se_unseated : ∀ i p, i ∈ pending ∨ d_blocks (sm_db m) !! i = None → d_seats (sm_db m) !! (i, p) = None;
  se_dense : ∀ i b p, d_blocks (sm_db m) !! i = Some b → (i ∉ pending) →
    is_Some (d_seats (sm_db m) !! (i, p)) ↔ 0 <= p < bk_capacity b;
  se_labels : ∀ i p q l, d_seats (sm_db m) !! (i, p) = Some l → d_seats (sm_db m) !! (i, q) = Some l → p = q;
}.

Lemma insert_zone_ok venue zs m z m' :
  seated ∅ m → insert_zone venue zs m = (Ok z, m') →
  seated ∅ m' ∧ is_Some (d_zones (sm_db m') !! z) ∧ d_seats (sm_db m') = d_seats (sm_db m).
Proof.
  intros [[Hids Hnames] Hz Hb Hp Hu Hd Hl]. unfold insert_zone. destruct (name_taken _ _ _ _) eqn:Ht; [done|].
  intros [= <- <-].
  assert (Hfree : ∀ i y, d_zones (sm_db m) !! i = Some y → i < sm_next_zone m) by (intros i y Hy; apply Hz; by eexists).
  assert (Hnew : ∀ i y, d_zones (sm_db m) !! i = Some y → zn_venue y = venue → zn_name y ≠ zs_name zs).
  { intros i y Hy Hv Hn. rewrite (proj2 (name_taken_spec _ _ _ _)) in Ht; [done|]. exists i, y. split_and!; try done.
    intros ->. specialize (Hfree _ _ Hy). lia. }
  split; [|split; [simpl; rewrite lookup_insert_eq; by eexists|done]]. split; simpl; try done.
  - split.
    + intros i y [[<- <-]|[_ Hy]]%lookup_insert_Some; [done|by apply Hids].
    + intros i j y y' [[<- <-]|[Hi Hy]]%lookup_insert_Some [[<- <-]|[Hj Hy']]%lookup_insert_Some Hv Hn; simpl in *;
        [done|by edestruct Hnew|by edestruct Hnew|by eapply Hnames].
  - intros i [y [[<- <-]|[_ Hy]]%lookup_insert_Some]; [lia|]. specialize (Hfree _ _ Hy). lia.
  - intros i b Hi. destruct (Hb i b Hi) as (?&?&?&?&Hzb&?). split_and!; try done; try tauto.
    destruct (decide (bk_zone b = sm_next_zone m)) as [->|]; [rewrite lookup_insert_eq; by eexists|by rewrite lookup_insert_ne].
Qed.

Lemma place_taken_spec m zone row index :
  place_taken m zone row index = true ↔
  ∃ i b, d_blocks (sm_db m) !! i = Some b ∧ bk_zone b = zone ∧ ha_rows (sm_hall m) !! i = Some (row, index).
Proof.
  unfold place_taken. rewrite existsb_exists. split.
  - intros ([i b] & Hin & [Hz Hr%bool_decide_eq_true]%andb_true_iff). apply list_elem_of_In, elem_of_map_to_list in Hin.
    exists i, b. simpl in *. split_and!; try done. by zbool.
  - intros (i & b & Hb & <- & Hr). exists (i, b). split; [by apply list_elem_of_In, elem_of_map_to_list|]. simpl.
    rewrite Z.eqb_refl, bool_decide_true by done. done.
Qed.

Lemma insert_block_ok P zone p m id m' :
  seated P m → is_Some (d_zones (sm_db m) !! zone) → insert_block zone p m = (Ok id, m') →
  seated ({[id]} ∪ P) m' ∧ id = sm_next_block m ∧ d_blocks (sm_db m) !! id = None ∧
  (∃ b, d_blocks (sm_db m') = <[id := b]> (d_blocks (sm_db m)) ∧ bk_capacity b = pd_size p) ∧
  d_seats (sm_db m') = d_seats (sm_db m) ∧ d_zones (sm_db m') = d_zones (sm_db m).
Proof.
  intros [Hzs Hz Hb Hp Hu Hd Hl] Hzone. unfold insert_block.
  destruct (negb (0 <? pd_size p)) eqn:Hs; [done|]. destruct (negb (_ && Qle_bool _ 1)) eqn:Hq; [done|].
  destruct (place_taken m zone (pd_row p) (pd_index p)) eqn:Ht; [done|]. intros [= <- <-].
  assert (Hfresh : d_blocks (sm_db m) !! sm_next_block m = None).
  { destruct (d_blocks (sm_db m) !! sm_next_block m) as [b|] eqn:Hx; [|done]. apply Hb in Hx as [? _]. lia. }
  apply negb_false_iff, andb_true_iff in Hq as [[H0 H1]%andb_true_iff H2]. rewrite !Qle_bool_iff in *.
  assert (Hnew : ∀ i b, d_blocks (sm_db m) !! i = Some b → bk_zone b = zone →
    ha_rows (sm_hall m) !! i ≠ Some (pd_row p, pd_index p)).
  { intros i b Hi Hbz Hr. rewrite (proj2 (place_taken_spec _ _ _ _)) in Ht; [done|]. by exists i, b. }
  assert (Hold : ∀ i b, d_blocks (sm_db m) !! i = Some b → i ≠ sm_next_block m).
  { intros i b Hi ->. congruence. }
  split; [|split_and!; try done; by eexists]. split; simpl; try done.
  - intros i b [[<- <-]|[Hi Hx]]%lookup_insert_Some.
    + simpl. apply negb_false_iff, Z.ltb_lt in Hs. split_and!; try done; [lia|rewrite lookup_insert_eq; by eexists].
    + destruct (Hb i b Hx) as (?&?&?&?&?&?&?&?). split_and!; try done; [lia|by rewrite lookup_insert_ne].
  - intros i j b c x [[<- <-]|[Hi Hx]]%lookup_insert_Some [[<- <-]|[Hj Hy]]%lookup_insert_Some; simpl; intros Hbz;
      rewrite ?lookup_insert_eq; rewrite ?lookup_insert_ne by done; [done| | |by eapply Hp].
    + intros [= <-] Hr. by edestruct Hnew.
    + intros Hr [= <-]. by edestruct Hnew.
  - intros i q [Hin|Hnone]; [|apply lookup_insert_None in Hnone as [? _]; apply Hu; by right].
    apply elem_of_union in Hin as [->%elem_of_singleton|Hin]; apply Hu; [by right|by left].
  - intros i b q [[<- <-]|[Hi Hx]]%lookup_insert_Some Hnot.
    { exfalso. by apply Hnot, elem_of_union_l, elem_of_singleton. }
    apply Hd; [done|]. intros ?. by apply Hnot, elem_of_union_r.
Qed.

Lemma flush_blocks_ok zone pending P m ids m' :
  seated P m → is_Some (d_zones (sm_db m) !! zone) → flush_blocks zone pending m = (Ok ids, m') →
  seated (list_to_set ids.*1 ∪ P) m' ∧
  Forall2 (λ p x, x.2 = pd_labels p ∧ ∃ b, d_blocks (sm_db m') !! x.1 = Some b ∧ bk_capacity b = pd_size p) pending ids ∧
  NoDup ids.*1 ∧ (∀ i, i ∈ ids.*1 → d_blocks (sm_db m) !! i = None) ∧ d_blocks (sm_db m) ⊆ d_blocks (sm_db m') ∧
  d_seats (sm_db m') = d_seats (sm_db m).
Proof.
  revert P m ids. induction pending as [|p pending IH]; intros P m ids Hs Hz; simpl.
  { intros [= <- <-]. simpl. rewrite union_empty_l_L. split_and!; try done; [apply NoDup_nil_2|by intros i ?%elem_of_nil]. }
  unfold bind at 1. destruct (insert_block zone p m) as [[id|e] m1] eqn:H1; [|done].
  destruct (insert_block_ok _ _ _ _ _ _ Hs Hz H1) as (Hs1 & Hid & Hfresh & (b & Hb & Hc) & Hse & Hzo).
  unfold bind at 1. destruct (flush_blocks zone pending m1) as [[rest|e] m2] eqn:H2; [|done].
  intros [= <- <-]. destruct (IH _ _ _ Hs1 ltac:(by rewrite Hzo) H2) as (Hs2 & Hf & Hnd & Hnew & Hsub & Hse2).
  assert (Hin : d_blocks (sm_db m2) !! id = Some b).
  { eapply lookup_weaken; [|exact Hsub]. rewrite Hb. apply lookup_insert_eq. }
  split_and!.
  - csimpl. rewrite (union_comm_L {[id]}), <-union_assoc_L. exact Hs2.
  - constructor; [|done]. split; [done|]. by exists b.
  - csimpl. constructor; [|done]. intros Hx%Hnew. rewrite Hb, lookup_insert_eq in Hx. done.
  - csimpl. intros i [->|Hi]%elem_of_cons; [done|]. apply Hnew in Hi. rewrite Hb in Hi. by apply lookup_insert_None in Hi as [? _].
  - etrans; [|exact Hsub]. rewrite Hb. by apply insert_subseteq.
  - by rewrite Hse2.
Qed.

Lemma label_taken_spec seats block label :
  label_taken seats block label = true ↔ ∃ p, seats !! (block, p) = Some label.
Proof.
  unfold label_taken. rewrite existsb_exists. split.
  - intros ([[b p] l] & Hin & [Hb Hl%String.eqb_eq]%andb_true_iff). apply list_elem_of_In, elem_of_map_to_list in Hin.
    simpl in *. zbool. subst. by exists p.
  - intros (p & Hp). exists (block, p, label). split; [by apply list_elem_of_In, elem_of_map_to_list|]. simpl.
    by rewrite Z.eqb_refl, String.eqb_refl.
Qed.

Definition unique_labels (seats : gmap (Z * Z) string) : Prop :=
  ∀ i p q l, seats !! (i, p) = Some l → seats !! (i, q) = Some l → p = q.

(** Everything but the seats stays. *)
Definition only_seats (m m' : SeatMap) : Prop :=
  d_zones (sm_db m') = d_zones (sm_db m) ∧ d_blocks (sm_db m') = d_blocks (sm_db m) ∧
  ha_rows (sm_hall m') = ha_rows (sm_hall m) ∧ sm_venues m' = sm_venues m ∧
  sm_next_venue m' = sm_next_venue m ∧ sm_next_zone m' = sm_next_zone m ∧ sm_next_block m' = sm_next_block m.

Lemma insert_seats_ok block pos labels m m' :
  insert_seats block pos labels m = (Ok tt, m') → unique_labels (d_seats (sm_db m)) →
  only_seats m m' ∧ unique_labels (d_seats (sm_db m')) ∧
  size (d_seats (sm_db m')) = (size (d_seats (sm_db m)) + List.length labels)%nat ∧
  (∀ i p, i ≠ block → d_seats (sm_db m') !! (i, p) = d_seats (sm_db m) !! (i, p)) ∧
  (∀ p, is_Some (d_seats (sm_db m') !! (block, p)) ↔
        is_Some (d_seats (sm_db m) !! (block, p)) ∨ pos <= p < pos + Z.of_nat (List.length labels)).
Proof.
  revert pos m. induction labels as [|label labels IH]; intros pos m; cbn [insert_seats].
  { intros [= <-] Hu. split; [done|]. split; [done|]. split; [simpl; lia|]. split; [done|].
    intros p. simpl. split; [by left|]. intros [?|?]; [done|lia]. }
  unfold bind, insert_seat. case_bool_decide as Hpos; [done|].
  destruct (label_taken (d_seats (sm_db m)) block label) eqn:Ht; [done|]. intros Hi Hu.
  apply eq_None_not_Some in Hpos.
  assert (Hfree : ∀ p, d_seats (sm_db m) !! (block, p) ≠ Some label).
  { intros p Hp. rewrite (proj2 (label_taken_spec _ _ _)) in Ht; [done|]. by exists p. }
  apply IH in Hi as (Ho & Hu' & Hsz & Hother & Hhere).
  - simpl in *. rewrite map_size_insert_None in Hsz by done. split; [done|]. split; [done|]. split; [rewrite Hsz; lia|]. split.
    + intros i p Hne. rewrite Hother by done. apply lookup_insert_ne. congruence.
    + intros p. rewrite Hhere. destruct (decide (p = pos)) as [->|Hne].
      * rewrite lookup_insert_eq. split; [right; lia|left; by eexists].
      * rewrite lookup_insert_ne by congruence. split; intros [?|?]; auto; right; lia.
  - simpl. intros i p q l [[Hk <-]|[Hk Hp]]%lookup_insert_Some [[Hk' Hl]|[Hk' Hq]]%lookup_insert_Some; simplify_eq.
    + done.
    + by destruct (Hfree q).
    + by destruct (Hfree p).
    + by eapply Hu.
Qed.

(** Seating one waiting block. *)
Lemma seat_block_ok P id b labels m m' :
  seated ({[id]} ∪ P) m → (id ∉ P) → d_blocks (sm_db m) !! id = Some b → bk_capacity b = Z.of_nat (List.length labels) →
  insert_seats id 0 labels m = (Ok tt, m') →
  seated P m' ∧ only_seats m m' ∧ size (d_seats (sm_db m')) = (size (d_seats (sm_db m)) + List.length labels)%nat.
Proof.
  intros [Hzs Hz Hb Hp Hu Hd Hl] Hnot Hid Hc Hi.
  destruct (insert_seats_ok _ _ _ _ _ Hi Hl) as (Ho & Hu' & Hsz & Hother & Hhere).
  pose proof Ho as (E1 & E2 & E3 & E4 & E5 & E6 & E7).
  split; [|by split]. split; rewrite ?E1, ?E2, ?E3, ?E6, ?E7; try done.
  - intros i p Hin. destruct (decide (i = id)) as [->|Hne]; [exfalso; destruct Hin; [done|congruence]|].
    rewrite Hother by done. apply Hu. destruct Hin; [left; by apply elem_of_union_r|by right].
  - intros i b' p Hi' Hnp. destruct (decide (i = id)) as [->|Hne].
    + assert (b' = b) as -> by congruence. rewrite Hhere, Hc.
      rewrite (Hu id p) by (left; by apply elem_of_union_l, elem_of_singleton).
      split; [intros [[? ?]|?]; [done|lia]|right; lia].
    + rewrite Hother by done. apply Hd; [done|]. intros [->%elem_of_singleton|?]%elem_of_union; done.
Qed.

Lemma flush_seats_ok ids P m m' :
  seated (list_to_set ids.*1 ∪ P) m → NoDup ids.*1 → (∀ i, i ∈ ids.*1 → i ∉ P) →
  Forall (λ x, ∃ b, d_blocks (sm_db m) !! x.1 = Some b ∧ bk_capacity b = Z.of_nat (List.length x.2)) ids →
  flush_seats ids m = (Ok tt, m') →
  seated P m' ∧ only_seats m m' ∧
  Z.of_nat (size (d_seats (sm_db m'))) = Z.of_nat (size (d_seats (sm_db m))) + list_sum (λ x, Z.of_nat (List.length x.2)) ids.
Proof.
  revert m. induction ids as [|[id labels] ids IH]; intros m; cbn [flush_seats]; csimpl.
  { rewrite union_empty_l_L. intros Hs _ _ _ [= <-]. split_and!; try done. simpl. lia. }
  intros Hs [Hid Hnd]%NoDup_cons Hnot [(b & Hb & Hc) Hf]%Forall_cons. unfold bind at 1.
  destruct (insert_seats id 0 labels m) as [[[]|e] m1] eqn:Hi; [|done]. intros Hrest.
  rewrite <-union_assoc_L in Hs.
  destruct (seat_block_ok (list_to_set ids.*1 ∪ P) id b labels m m1 Hs) as (Hs1 & Ho1 & Hsz1); [|done..|].
  { intros [Hin%elem_of_list_to_set|Hin]%elem_of_union; [done|]. by apply (Hnot id); [left|]. }
  pose proof Ho1 as (E1 & E2 & E3 & E4 & E5 & E6 & E7).
  apply IH in Hrest as (Hs2 & (F1 & F2 & F3 & F4 & F5 & F6 & F7) & Hsz2); [|done|done|intros i Hin; apply Hnot; by right|by rewrite E2].
  split; [done|]. split; [unfold only_seats; split_and!; congruence|]. simpl in *. lia.
Qed.

(** What one zone adds: [labeller_fits] is what [labellers_number_every_seat] proves. *)
Definition labeller_fits (zs : ZoneSpec) : Prop :=
  ∀ row groups, row ∈ zs_rows zs → zs_labeller zs (rs_blocks row) = Some groups →
    Forall2 (λ size g, Z.of_nat (List.length g) = size) (rs_blocks row) groups.

(** The blocks of a row from the n-th on. *)
Lemma zip_blocks_ok row q blocks groups n :
  Forall2 (λ size g, Z.of_nat (List.length g) = size) blocks groups →
  let pending := imap (λ i '(size, labels), mk_pending row (Z.of_nat (n + i)) size (q (n + i)%nat) labels) (zip blocks groups) in
  Forall (λ p, Z.of_nat (List.length (pd_labels p)) = pd_size p) pending ∧
  list_sum pd_size pending = list_sum (λ x, x) blocks.
Proof.
  intros Hf. revert n. induction Hf as [|size g blocks groups Hg Hf IH]; intros n; [done|]. cbn [zip zip_with imap].
  destruct (IH (S n)) as [H1 H2]. cbn zeta in *.
  assert (Heq : imap ((λ i '(size0, labels), mk_pending row (Z.of_nat (n + i)) size0 (q (n + i)%nat) labels) ∘ S) (zip blocks groups) =
    imap (λ i '(size, labels), mk_pending row (Z.of_nat (S n + i)) size (q (S n + i)%nat) labels) (zip blocks groups)).
  { apply imap_ext. intros i [size' labels] _. unfold compose. simpl. by rewrite Nat.add_succ_r. }
  split; [constructor; [done|by rewrite Heq]|]. simpl. f_equal. rewrite Heq. exact H2.
Qed.

Lemma rows_blocks_ok zs i rows pending :
  (∀ row groups, row ∈ rows → zs_labeller zs (rs_blocks row) = Some groups →
     Forall2 (λ size g, Z.of_nat (List.length g) = size) (rs_blocks row) groups) →
  rows_blocks zs i rows = Ok pending →
  Forall (λ p, Z.of_nat (List.length (pd_labels p)) = pd_size p) pending ∧
  list_sum pd_size pending = list_sum (λ row, list_sum (λ size, size) (rs_blocks row)) rows.
Proof.
  revert i pending. induction rows as [|row rows IH]; intros i pending Hfit; cbn [rows_blocks]; [by intros [= <-]|].
  unfold row_blocks. destruct (zs_labeller zs (rs_blocks row)) as [groups|] eqn:Hl; [|done].
  destruct (negb _); [done|]. simpl. destruct (rows_blocks zs (S i) rows) as [rest|e] eqn:Hr; [|done]. intros [= <-].
  destruct (zip_blocks_ok (rs_label row) (λ k, quality_base zs (Z.of_nat i) (Z.of_nat k) (rs_blocks row)) (rs_blocks row) groups 0)
    as [H1 H2]; [by apply Hfit; [left|]|]. simpl in H1, H2.
  destruct (IH (S i) rest) as [H3 H4]; [intros r g Hin; apply Hfit; by right|done|].
  split; [by apply Forall_app|]. rewrite list_sum_app, H4. simpl. f_equal. exact H2.
Qed.

Lemma seed_zone_ok venue zs m m' :
  labeller_fits zs → seated ∅ m → seed_zone venue zs m = (Ok tt, m') →
  seated ∅ m' ∧ Z.of_nat (size (d_seats (sm_db m'))) = Z.of_nat (size (d_seats (sm_db m))) +
    list_sum (λ row, list_sum (λ size, size) (rs_blocks row)) (zs_rows zs).
Proof.
  intros Hfit Hs. unfold seed_zone, bind at 1. destruct (insert_zone venue zs m) as [[z|e] m1] eqn:H1; [|done].
  destruct (insert_zone_ok _ _ _ _ _ Hs H1) as (Hs1 & Hz & Hse1). unfold bind at 1, lift at 1.
  destruct (rows_blocks zs 0 (zs_rows zs)) as [pending|e] eqn:Hr; [|done].
  destruct (rows_blocks_ok _ _ _ _ Hfit Hr) as [Hlen Hsum]. unfold bind at 1.
  destruct (flush_blocks z pending m1) as [[ids|e] m2] eqn:H2; [|done]. intros H3.
  destruct (flush_blocks_ok _ _ _ _ _ _ Hs1 Hz H2) as (Hs2 & Hf & Hnd & _ & _ & Hse2).
  assert (Hids : Forall (λ x, ∃ b, d_blocks (sm_db m2) !! x.1 = Some b ∧ bk_capacity b = Z.of_nat (List.length x.2)) ids ∧
    list_sum (λ x, Z.of_nat (List.length x.2)) ids = list_sum pd_size pending).
  { clear -Hf Hlen. induction Hf as [|p [id labels] pending ids [Hl (b & Hb & Hc)] Hf IH]; [by split|].
    apply Forall_cons in Hlen as [Hp Hlen]. destruct (IH Hlen) as [IH1 IH2]. simpl in *. subst labels.
    split; [constructor; [exists b; split; [done|]; simpl; congruence|done]|]. simpl. lia. }
  destruct Hids as [Hids Hids2].
  destruct (flush_seats_ok ids ∅ m2 m' Hs2 Hnd ltac:(set_solver) Hids H3) as (Hs3 & _ & Hsz).
  split; [done|]. rewrite Hsz, Hse2, Hse1, Hids2, Hsum. done.
Qed.

(** The seats do not touch the venues. *)
Lemma seed_zone_venues venue zs vs : keeps (λ m, sm_venues m = vs) (seed_zone venue zs).
Proof.
  assert (Hseat : ∀ b p l, keeps (λ m, sm_venues m = vs) (insert_seat b p l)).
  { intros b p l m Hm. unfold insert_seat. by case_goal. }
  assert (Hseats : ∀ ls b p, keeps (λ m, sm_venues m = vs) (insert_seats b p ls)).
  { induction ls as [|l ls IH]; intros b p; cbn [insert_seats]; [apply keeps_ret|]. apply keeps_bind; [apply Hseat|intros; apply IH]. }
  unfold seed_zone. apply keeps_bind; [intros m Hm; unfold insert_zone; by case_goal|intros z].
  apply keeps_bind; [apply keeps_lift|intros pending]. apply keeps_bind.
  - induction pending as [|p pending IH]; cbn [flush_blocks]; [apply keeps_ret|].
    apply keeps_bind; [intros m Hm; unfold insert_block; by case_goal|intros id].
    apply keeps_bind; [apply IH|intros; apply keeps_ret].
  - intros ids. induction ids as [|[id labels] ids IH]; cbn [flush_seats]; [apply keeps_ret|].
    apply keeps_bind; [apply Hseats|intros; apply IH].
Qed.

(** What a seeding that succeeds leaves. *)
Lemma seed_venue_ok spec m v m' :
  Forall labeller_fits (vs_zones spec) → seated ∅ m → seed_venue spec m = (Ok v, m') →
  seated ∅ m' ∧ sm_venues m' !! v = Some (vs_name spec) ∧ (∀ u, sm_venues m !! u ≠ Some (vs_name spec)) ∧
  Z.of_nat (size (d_seats (sm_db m'))) = Z.of_nat (size (d_seats (sm_db m))) + total_seats spec.
Proof.
  intros Hfit Hs. unfold seed_venue, bind at 1, gets. destruct (existsb _ _) eqn:Hx; [done|].
  unfold bind at 1, insert_venue. rewrite Hx. set (m1 := mk_seat_map _ _ _ _ _).
  assert (Hs1 : seated ∅ m1) by (by destruct Hs; split).
  assert (Hnew : ∀ u, sm_venues m !! u ≠ Some (vs_name spec)).
  { intros u Hu. assert (existsb (λ p : Z * string, String.eqb p.2 (vs_name spec)) (map_to_list (sm_venues m)) = true); [|congruence].
    apply existsb_exists. exists (u, vs_name spec). split; [by apply list_elem_of_In, elem_of_map_to_list|apply String.eqb_refl]. }
  assert (Hv : sm_venues m1 !! sm_next_venue m = Some (vs_name spec)) by apply lookup_insert_eq.
  assert (Hm1 : d_seats (sm_db m1) = d_seats (sm_db m)) by done. clearbody m1. unfold bind at 1, total_seats.
  rewrite <-Hm1. clear Hm1 Hx Hs. revert m1 Hs1 Hv. induction (vs_zones spec) as [|zs zones IH]; intros m1 Hs1 Hv; cbn [seed_zones].
  { simpl. intros [= <- <-]. split_and!; try done. lia. }
  apply Forall_cons in Hfit as [Hz Hfit]. unfold bind at 1.
  destruct (seed_zone (sm_next_venue m) zs m1) as [[[]|e] m2] eqn:H2; [|done]. intros H3.
  destruct (seed_zone_ok _ _ _ _ Hz Hs1 H2) as [Hs2 Hsz]. specialize (IH Hfit m2 Hs2).
  destruct IH as (?&?&?&?); [|exact H3|].
  - pose proof (seed_zone_venues (sm_next_venue m) zs (sm_venues m1) m1 eq_refl) as Hk. rewrite H2 in Hk. simpl in Hk.
    by rewrite Hk.
  - split_and!; try done. simpl. lia.
Qed.

(** A sound seat map is what the pages about orders take a hall to be. *)
Theorem seated_hall m :
  seated ∅ m → db_ok (sm_db m) →
  (∀ i hold, d_holds (sm_db m) !! i = Some hold →
     ∃ b, d_blocks (sm_db m) !! hd_block hold = Some b ∧ bk_zone b = hd_zone hold ∧
       is_Some (d_seats (sm_db m) !! (hd_block hold, hd_start hold + hd_len hold - 1)) ∧
       is_Some (d_prices (sm_db m) !! (hd_event hold, hd_zone hold))) →
  (∀ e i j y z, is_Some (d_prices (sm_db m) !! (e, i)) → is_Some (d_prices (sm_db m) !! (e, j)) →
    d_zones (sm_db m) !! i = Some y → d_zones (sm_db m) !! j = Some z → zn_venue y = zn_venue z) →
  hall_ok (sm_hall m).
Proof.
  intros [Hzs Hz Hb Hp Hu Hd Hl] Hdb Hholds Hprices. split; try done.
  - intros i hold Hh. destruct (Hholds i hold Hh) as (b & Hb1 & Hz1 & Hs1 & Hp1). exists b. split_and!; try done.
    apply (Hd _ _ _ Hb1) in Hs1; [lia|apply not_elem_of_empty].
  - intros i b p Hi Hp'. apply (Hd _ _ _ Hi); [apply not_elem_of_empty|done].
  - by apply (zk_names _ Hzs).
Qed.

(** ** The demonstration venue *)

Lemma numbered_fits P blocks groups :
  numbered P blocks groups → Forall2 (λ size g, Z.of_nat (List.length g) = size) blocks groups.
Proof.
  intros (ns & -> & Hf & _). apply Forall2_fmap_r. eapply Forall2_impl; [exact Hf|]. intros size l Hl. simpl. by rewrite length_fmap.
Qed.

Lemma demo_arena_fits : Forall labeller_fits (vs_zones DEMO_ARENA).
Proof.
  assert (Hrows : ∀ prefix count blocks row, row ∈ demo_rows prefix count blocks → rs_blocks row = blocks).
  { intros prefix count blocks row (i & -> & _)%list_elem_of_fmap. done. }
  repeat constructor; intros row groups Hrow Hl; apply Hrows in Hrow; rewrite Hrow in *.
  - destruct (labellers_number_every_seat [6; 12; 6]) as (_ & _ & (g & Hg & Hn)); [by repeat constructor|].
    assert (groups = g) as -> by (simpl in Hl; congruence). by eapply numbered_fits.
  - destruct (labellers_number_every_seat [8; 16; 8]) as (_ & (g & Hg & Hn) & _); [by repeat constructor|].
    assert (groups = g) as -> by (simpl in Hl; congruence). by eapply numbered_fits.
  - destruct (labellers_number_every_seat [10; 20; 10]) as ((g & Hg & Hn) & _); [by repeat constructor|].
    assert (groups = g) as -> by (simpl in Hl; congruence). by eapply numbered_fits.
Qed.

Definition empty_seat_map : SeatMap := mk_seat_map (mk_hall empty_db ∅) ∅ 1 1 1.
Lemma seed_venue_clash spec m u :
  sm_venues m !! u = Some (vs_name spec) → seed_venue spec m = (Err ValueError, m).
Proof.
  intros Hu. unfold seed_venue, bind at 1, gets.
  assert (existsb (λ p : Z * string, String.eqb p.2 (vs_name spec)) (map_to_list (sm_venues m)) = true) as ->; [|done].
  apply existsb_exists. exists (u, vs_name spec).
  split; [by apply list_elem_of_In, elem_of_map_to_list|apply String.eqb_refl].
Qed.

(** C36 (seeding keeps the seat map sound).  When the labellers give every block as many
    labels as it has seats, a seeding that succeeds leaves every block with exactly
    the positions 0 to capacity - 1, the labels of a block and the places of a zone
    distinct, zone names distinct within a venue, and qualities the geometry accepts;
    it adds the venue and as many seats as the description has.  A venue name that is
    taken is refused before anything is written.  Any other failure can leave rows in
    the session ([failed_seeding_leaves_rows]), which commits nothing itself: a run of
    the script, demonstration hall or bare venue, either commits such a success or
    leaves the database as it was, and the map sound in both cases. *)
Theorem seeding_keeps_the_map_sound spec name m :
  Forall labeller_fits (vs_zones spec) → seated ∅ m →
  (∀ v m', seed_venue spec m = (Ok v, m') →
     seated ∅ m' ∧ sm_venues m' !! v = Some (vs_name spec) ∧ (∀ u, sm_venues m !! u ≠ Some (vs_name spec)) ∧
     Z.of_nat (size (d_seats (sm_db m'))) = Z.of_nat (size (d_seats (sm_db m))) + total_seats spec) ∧
  ((∃ u, sm_venues m !! u = Some (vs_name spec)) → seed_venue spec m = (Err ValueError, m)) ∧
  let '(r, m') := seed_venue_main name m in
  seated ∅ m' ∧
  match r with
  | Ok v => sm_venues m' !! v = Some (default (vs_name DEMO_ARENA) name) ∧
      Z.of_nat (size (d_seats (sm_db m'))) = Z.of_nat (size (d_seats (sm_db m))) +
        match name with None => total_seats DEMO_ARENA | Some _ => 0 end
  | Err _ => m' = m
  end.
Proof.
  intros Hfit Hs. split; [intros v m' H; by apply (seed_venue_ok spec m v m')|].
  split; [intros [u Hu]; by apply (seed_venue_clash spec m u)|].
  unfold seed_venue_main. set (described := match name with None => _ | Some _ => _ end).
  assert (Hmain : Forall labeller_fits (vs_zones described)) by (destruct name; [constructor|apply demo_arena_fits]).
  destruct (seed_venue described m) as [[v|e] m'] eqn:Hr; [|done].
  destruct (seed_venue_ok _ _ _ _ Hmain Hs Hr) as (Hs' & Hv & _ & Hn). split; [done|].
  unfold described in Hv, Hn. by destruct name.
Qed.

(** Two zones under one name: the second is refused when the venue and the seats of
    the first are already written. *)
Example failed_seeding_leaves_rows :
  let z := mk_zone_spec "A" 0 [mk_row_spec "1" [2]] 1 (1 # 2) (1 # 5) sequential_labels in
  let '(r, m) := seed_venue (mk_venue_spec "Hall" [z; z]) empty_seat_map in
  is_ok r = false ∧ sm_venues m = {[1 := "Hall"]} ∧ size (d_seats (sm_db m)) = 2%nat.
Proof. vm_compute. by split_and!. Qed.

Lemma empty_seated : seated ∅ empty_seat_map.
Proof. split; try done. by intros i [? ?]. Qed.

(** The command without a name seeds it: 135 blocks and 1520 seats, once. *)
Example demo_arena_seeds :
  let '(r, m) := seed_venue_main None empty_seat_map in
  r = Ok 1 ∧ size (d_zones (sm_db m)) = 3%nat ∧ size (d_blocks (sm_db m)) = 135%nat ∧
  Z.of_nat (size (d_seats (sm_db m))) = total_seats DEMO_ARENA ∧ (seed_venue_main None m).1 = Err ValueError.
Proof. vm_compute. by split_and!. Qed.

Lemma seeding_keeps_the_map_sound_witness :
  let m' := (seed_venue DEMO_ARENA empty_seat_map).2 in
  (seed_venue DEMO_ARENA empty_seat_map).1 = Ok 1 ∧ seated ∅ m' ∧ Z.of_nat (size (d_seats (sm_db m'))) = 1520.
Proof.
  assert (H1 : (seed_venue DEMO_ARENA empty_seat_map).1 = Ok 1) by (vm_compute; reflexivity).
  destruct (seed_venue DEMO_ARENA empty_seat_map) as [r m'] eqn:Hs. simpl in H1. subst r. cbn [fst snd]. split; [reflexivity|].
  destruct (seeding_keeps_the_map_sound DEMO_ARENA None empty_seat_map demo_arena_fits empty_seated) as (Hall & _).
  destruct (Hall 1 m' Hs) as (Hok & _ & _ & Hn).
  split; [exact Hok|]. rewrite Hn. vm_compute. reflexivity.
Defined.
