(* ===== verification/Simulation.v ===== *)
(** The three simulators the allocation policy was chosen with (src/app/scripts/
    simulate_seating.py, simulate_compaction.py, simulate_cas_contention.py), over the
    allocator of Seating.v.  Random numbers are arguments: what the generator hands
    out, draw by draw.  Averages over seeds and the printed tables are left out. *)

From Stdlib Require Import QArith Qround Qabs Lqa.
From S2P Require Import Prelude Exceptions DB Seating Seed.

#[local] Open Scope Z_scope.

(** ** Selling and cancelling (simulate_seating.py) *)

Fixpoint calibrate_all (specs : list (Z * Z * Q * Q)) : result exn (list BlockGeometry) :=
  match specs with
  | [] => Ok []
  | (block_id, cap, base, edge) :: specs' =>
      let? g := calibrated block_id cap base edge in
      let? rest := calibrate_all specs' in
      Ok (g :: rest)
  end.

(** [typical_venue]; [edge] is the default of [calibrated]. *)
Definition CAPACITIES : list Z := [18; 20; 21; 19; 22].
Definition DEFAULT_EDGE : Q := 0.
Definition typical_venue (blocks : nat) : result exn (list BlockGeometry) :=
  calibrate_all ((λ i, (Z.of_nat i, default 0 (CAPACITIES !! (i mod 5)%nat),
                        (1 - (2 # 100) * inject_Z (Z.of_nat i))%Q, DEFAULT_EDGE)) <$> seq 0 blocks).

Definition geometry_of (blocks : list BlockGeometry) : gmap Z BlockGeometry :=
  list_to_map ((λ g, (geo_block_id g, g)) <$> reverse blocks).
Definition whole_blocks (blocks : list BlockGeometry) : list Run :=
  (λ g, mk_run (geo_block_id g) 0 (capacity g)) <$> blocks.

(** One round's draws: whether [rng.random() < cancel_rate], [rng.randrange] and the
    quantity [rng.choices] picks. *)
Record Draw : Type := mk_draw { dr_cancels : bool; dr_randrange : Z → Z; dr_quantity : Z }.

Record Sim : Type := mk_sim { sim_runs : list Run; sim_live : list Placement; sim_no_fit : gmap Z Z }.

Definition count (k : Z) (m : gmap Z Z) : gmap Z Z := <[k := default 0 (m !! k) + 1]> m.

(** [top_k == 1] takes the best placement, otherwise one of the first [top_k]. *)
Definition choose (p : Policy) (geometry : gmap Z BlockGeometry) (top_k : Z) (randrange : Z → Z) (runs : list Run)
    (quantity : Z) : result exn (option Placement) :=
  if top_k =? 1 then allocate runs quantity geometry p
  else
    let? options := legal_anchors runs quantity geometry p in
    match options with
    | [] => Ok None
    | _ =>
        match options !! Z.to_nat (randrange (Z.min top_k (Z.of_nat (length options)))) with
        | Some x => Ok (Some x)
        | None => Err IndexError
        end
    end.

Definition sim_round (p : Policy) (geometry : gmap Z BlockGeometry) (top_k : Z) (st : Sim) (dr : Draw) : result exn Sim :=
  if bool_decide (sim_live st ≠ []) && dr_cancels dr then
    let i := Z.to_nat (dr_randrange dr (Z.of_nat (length (sim_live st)))) in
    match sim_live st !! i with
    | None => Err IndexError
    | Some victim =>
        let? runs := release (sim_runs st) (pl_block victim) (pl_start victim) (pl_len victim) None in
        Ok (mk_sim runs (delete i (sim_live st)) (sim_no_fit st))
    end
  else
    let? placed := choose p geometry top_k (dr_randrange dr) (sim_runs st) (dr_quantity dr) in
    match placed with
    | None => Ok (mk_sim (sim_runs st) (sim_live st) (count (dr_quantity dr) (sim_no_fit st)))
    | Some pl =>
        let? runs := occupy (sim_runs st) pl in
        Ok (mk_sim runs (sim_live st ++ [pl]) (sim_no_fit st))
    end.

Fixpoint sim_rounds (p : Policy) (geometry : gmap Z BlockGeometry) (top_k : Z) (st : Sim) (draws : list Draw)
    : result exn Sim :=
  match draws with
  | [] => Ok st
  | dr :: draws' => let? st' := sim_round p geometry top_k st dr in sim_rounds p geometry top_k st' draws'
  end.

Record SimResult : Type := mk_sim_result {
  sr_total_seats : Z;
  sr_remaining : Z;
  sr_orphans : Z;
  sr_unservable_ratio : Q;
  sr_no_fit : gmap Z Z;
}.
Definition sold_ratio (r : SimResult) : Q :=
  (inject_Z (sr_total_seats r - sr_remaining r) / inject_Z (sr_total_seats r))%Q.

(** [simulate]: [biggest_group] is [max(demand)]. *)
Definition sim_summary (blocks : list BlockGeometry) (biggest_group : Z) (st : Sim) : SimResult :=
  let remaining := list_sum run_len (sim_runs st) in
  let stranded := list_sum run_len (filter (λ r, run_len r < biggest_group) (sim_runs st)) in
  mk_sim_result (list_sum capacity blocks) remaining
    (Z.of_nat (length (filter (λ r, run_len r = 1) (sim_runs st))))
    (if remaining =? 0 then 0%Q else (inject_Z stranded / inject_Z remaining)%Q)
    (sim_no_fit st).
Definition simulate (blocks : list BlockGeometry) (biggest_group : Z) (p : Policy) (top_k : Z) (draws : list Draw)
    : result exn SimResult :=
  let? st := sim_rounds p (geometry_of blocks) top_k (mk_sim (whole_blocks blocks) [] ∅) draws in
  Ok (sim_summary blocks biggest_group st).

(** ** Compaction (simulate_compaction.py) *)

(** [_tight_fit]: the leftmost place, whatever its quality. *)
Fixpoint first_fit (runs : list Run) (quantity : Z) (geometry : gmap Z BlockGeometry) (p : Policy)
    : result exn (option Placement) :=
  match runs with
  | [] => Ok None
  | run :: runs' =>
      let? geo := geometry_at geometry (run_block run) in
      match candidates run quantity geo p with
      | spot :: _ => Ok (Some spot)
      | [] => first_fit runs' quantity geometry p
      end
  end.
Definition tight_fit (runs : list Run) := first_fit (isort run_le runs).

Fixpoint free_all (runs : list Run) (pending : list Placement) : result exn (list Run) :=
  match pending with
  | [] => Ok runs
  | hold :: pending' =>
      let? runs := release runs (pl_block hold) (pl_start hold) (pl_len hold) None in
      free_all runs pending'
  end.

Fixpoint place_all (tight : bool) (runs : list Run) (holds : list Placement) (geometry : gmap Z BlockGeometry) (p : Policy)
    (placed : list Placement) : result exn (option (list Run * list Placement)) :=
  match holds with
  | [] => Ok (Some (runs, placed))
  | hold :: holds' =>
      let? spot := (if tight then tight_fit runs (pl_len hold) geometry p else allocate runs (pl_len hold) geometry p) in
      match spot with
      | None => Ok None
      | Some spot =>
          let? runs := occupy runs spot in
          place_all tight runs holds' geometry p (placed ++ [spot])
      end
  end.

Definition longer (a b : Placement) : bool := pl_len b <=? pl_len a.

(** [_compact]: every pending hold is lifted and put back, the longest first. *)
Definition compact (tight : bool) (runs : list Run) (pending : list Placement) (geometry : gmap Z BlockGeometry) (p : Policy)
    : result exn (option (list Run * list Placement)) :=
  let? freed := free_all runs pending in
  place_all tight freed (isort longer pending) geometry p [].

Inductive Compaction : Type := COff | CTight | CQuality.
#[global] Instance Compaction_eq_dec : EqDecision Compaction.
Proof. solve_decision. Defined.

(** What [_script] draws: a pending hold is confirmed or abandoned, or an order comes. *)
Inductive Action : Type := AResolve (which : Q) (abandoned : bool) | ANew (quantity : Z).

Record SimWorld : Type := mk_world {
  wo_runs : list Run;
  wo_pending : list Placement;
  wo_rejected : gmap Z Z;
  wo_attempted : gmap Z Z;
  wo_moves : Z;
  wo_proposals : Z;
  wo_rejected_proposals : Z;
  wo_releases : Z;
  wo_deltas : list Q;
}.

Record Variant : Type := mk_variant { va_compaction : Compaction; va_pareto : bool; va_every : Z; va_block_scope : bool }.

(** [window] *)
Definition hold_quality (geometry : gmap Z BlockGeometry) (h : Placement) : result exn Q :=
  let? g := geometry_at geometry (pl_block h) in Ok (window_quality g (pl_start h) (pl_len h)).

(** The changes of quality, hold by hold. *)
Fixpoint quality_pairs (geometry : gmap Z BlockGeometry) (pairs : list (Placement * Placement))
    : result exn (list (Placement * Placement * Q * Q)) :=
  match pairs with
  | [] => Ok []
  | (a, b) :: pairs' =>
      let? qa := hold_quality geometry a in
      let? qb := hold_quality geometry b in
      let? rest := quality_pairs geometry pairs' in
      Ok ((a, b, qa, qb) :: rest)
  end.
Definition hold_moved (x : Placement * Placement * Q * Q) : bool :=
  negb ((pl_block x.1.1.1 =? pl_block x.1.1.2) && (pl_start x.1.1.1 =? pl_start x.1.1.2)).
Definition worse (x : Placement * Placement * Q * Q) : bool := Qltb x.2 (x.1.2 - (1 # 1000000000))%Q.

(** The proposal after the release of [victim]. *)
Definition propose (v : Variant) (geometry : gmap Z BlockGeometry) (p : Policy) (victim : Placement) (w : SimWorld)
    : result exn SimWorld :=
  let w := mk_world (wo_runs w) (wo_pending w) (wo_rejected w) (wo_attempted w) (wo_moves w) (wo_proposals w + 1)
             (wo_rejected_proposals w) (wo_releases w) (wo_deltas w) in
  let same h := va_block_scope v = false ∨ pl_block h = pl_block victim in
  let movable := filter same (wo_pending w) in
  let frozen_rest := filter (λ h, ¬ same h) (wo_pending w) in
  let refuse := mk_world (wo_runs w) (wo_pending w) (wo_rejected w) (wo_attempted w) (wo_moves w) (wo_proposals w)
             (wo_rejected_proposals w + 1) (wo_releases w) (wo_deltas w) in
  if bool_decide (movable = []) then Ok w
  else
    let? result := compact (bool_decide (va_compaction v = CTight)) (wo_runs w) movable geometry p in
    match result with
    | None => Ok refuse
    | Some (new_runs, replaced) =>
        let? pairs := quality_pairs geometry (zip (isort longer movable) replaced) in
        if va_pareto v && existsb worse pairs then Ok refuse
        else
          let changed := List.filter hold_moved pairs in
          Ok (mk_world new_runs (replaced ++ frozen_rest) (wo_rejected w) (wo_attempted w)
                (wo_moves w + Z.of_nat (length changed)) (wo_proposals w) (wo_rejected_proposals w) (wo_releases w)
                (wo_deltas w ++ ((λ x, ((x.2 - x.1.2) / inject_Z (pl_len x.1.1.1))%Q) <$> changed)))
    end.

Definition world_step (v : Variant) (geometry : gmap Z BlockGeometry) (p : Policy) (w : SimWorld) (a : Action) : result exn SimWorld :=
  match a with
  | AResolve which abandoned =>
      if bool_decide (wo_pending w = []) then Ok w
      else
        let i := Z.to_nat (Qfloor (which * inject_Z (Z.of_nat (length (wo_pending w))))) in
        match wo_pending w !! i with
        | None => Err IndexError
        | Some victim =>
            let pending := delete i (wo_pending w) in
            if negb abandoned then
              Ok (mk_world (wo_runs w) pending (wo_rejected w) (wo_attempted w) (wo_moves w) (wo_proposals w)
                    (wo_rejected_proposals w) (wo_releases w) (wo_deltas w))
            else
              let? runs := release (wo_runs w) (pl_block victim) (pl_start victim) (pl_len victim) None in
              let w := mk_world runs pending (wo_rejected w) (wo_attempted w) (wo_moves w) (wo_proposals w)
                    (wo_rejected_proposals w) (wo_releases w + 1) (wo_deltas w) in
              if bool_decide (va_compaction v ≠ COff) && bool_decide (pending ≠ []) && (wo_releases w mod va_every v =? 0)
              then propose v geometry p victim w else Ok w
        end
  | ANew quantity =>
      let countable := quantity <=? list_sum run_len (wo_runs w) in
      let attempted := if countable then count quantity (wo_attempted w) else wo_attempted w in
      let? spot := allocate (wo_runs w) quantity geometry p in
      match spot with
      | None =>
          Ok (mk_world (wo_runs w) (wo_pending w) (if countable then count quantity (wo_rejected w) else wo_rejected w)
                attempted (wo_moves w) (wo_proposals w) (wo_rejected_proposals w) (wo_releases w) (wo_deltas w))
      | Some spot =>
          let? runs := occupy (wo_runs w) spot in
          Ok (mk_world runs (wo_pending w ++ [spot]) (wo_rejected w) attempted (wo_moves w) (wo_proposals w)
                (wo_rejected_proposals w) (wo_releases w) (wo_deltas w))
      end
  end.
Fixpoint world_steps (v : Variant) (geometry : gmap Z BlockGeometry) (p : Policy) (w : SimWorld) (script : list Action)
    : result exn SimWorld :=
  match script with
  | [] => Ok w
  | a :: script' => let? w' := world_step v geometry p w a in world_steps v geometry p w' script'
  end.

Record Outcome : Type := mk_outcome {
  ou_sold : Z; ou_capacity : Z; ou_rejected : gmap Z Z; ou_attempted : gmap Z Z;
  ou_moves : Z; ou_proposals : Z; ou_rejected_proposals : Z; ou_quality_delta : Q;
}.
Definition reject_rate (o : Outcome) (quantity : Z) : Q :=
  let tried := default 0%Z (ou_attempted o !! quantity) in
  if tried =? 0 then 0%Q else (inject_Z (default 0%Z (ou_rejected o !! quantity)) / inject_Z tried)%Q.

Definition simulate_compaction (v : Variant) (p : Policy) (script : list Action) : result exn Outcome :=
  let? blocks := typical_venue 30 in
  let cap := list_sum capacity blocks in
  let? w := world_steps v (geometry_of blocks) p (mk_world (whole_blocks blocks) [] ∅ ∅ 0 0 0 0 []) script in
  Ok (mk_outcome (cap - list_sum run_len (wo_runs w)) cap (wo_rejected w) (wo_attempted w) (wo_moves w) (wo_proposals w)
        (wo_rejected_proposals w)
        (if bool_decide (wo_deltas w = []) then 0%Q
         else (foldr Qplus 0 (wo_deltas w) / inject_Z (Z.of_nat (length (wo_deltas w))))%Q)).

(** ** Contention (simulate_cas_contention.py) *)

Fixpoint zone_geometry_rows (zone : ZoneSpec) (row_index : nat) (block_id : Z) (rows : list RowSpec) : list (Z * Z * Q * Q) :=
  match rows with
  | [] => []
  | row :: rows' =>
      imap (λ i size, let base := quality_base zone (Z.of_nat row_index) (Z.of_nat i) (rs_blocks row) in
                      (block_id + Z.of_nat i, size, base, (base * EDGE_RATIO)%Q)) (rs_blocks row) ++
      zone_geometry_rows zone (S row_index) (block_id + Z.of_nat (length (rs_blocks row))) rows'
  end.
(** [_geometry_from_zone] *)
Definition geometry_from_zone (zone : ZoneSpec) (zone_index : Z) : result exn (list BlockGeometry) :=
  calibrate_all (zone_geometry_rows zone 0 (zone_index * 10000) (zs_rows zone)).

(** [_fits] *)
Definition still_fits (runs : list Run) (pl : Placement) : bool := existsb (λ run, contains run pl) runs.

(** [_prefill]: [draw k] is the k-th quantity, [target] the seats to sell. *)
Fixpoint prefill (fuel : nat) (geometry : gmap Z BlockGeometry) (p : Policy) (target : Q) (draw : nat → Z) (k : nat)
    (sold : Z) (runs : list Run) : result exn (list Run) :=
  match fuel with
  | O => Ok runs
  | S fuel' =>
      if Qle_bool target (inject_Z sold) then Ok runs
      else
        let? placed := allocate runs (draw k) geometry p in
        match placed with
        | None => Ok runs
        | Some pl =>
            let? runs := occupy runs pl in
            prefill fuel' geometry p target draw (S k) (sold + draw k) runs
        end
  end.

(** The picks of one round, all from the same snapshot; [None] when nothing fits. *)
Fixpoint picks (geometry : gmap Z BlockGeometry) (p : Policy) (top_k : Z) (runs : list Run) (wanted : list (Z * (Z → Z)))
    : result exn (list (Placement * Q)) :=
  match wanted with
  | [] => Ok []
  | (quantity, randrange) :: wanted' =>
      let? options := legal_anchors runs quantity geometry p in
      match options with
      | [] => picks geometry p top_k runs wanted'
      | best :: _ =>
          match options !! Z.to_nat (randrange (Z.min top_k (Z.of_nat (length options)))) with
          | None => Err IndexError
          | Some pick =>
              let? rest := picks geometry p top_k runs wanted' in
              Ok ((pick, (pl_score best - pl_score pick)%Q) :: rest)
          end
      end
  end.

(** The compare-and-swaps, one after the other: the winners. *)
Fixpoint cas_all (live : list Run) (chosen : list Placement) : result exn (list Run * list Placement) :=
  match chosen with
  | [] => Ok (live, [])
  | pl :: chosen' =>
      if still_fits live pl then
        let? live := occupy live pl in
        let? r := cas_all live chosen' in
        Ok (r.1, pl :: r.2)
      else cas_all live chosen'
  end.

Record Round : Type := mk_round { ro_attempts : Z; ro_successes : Z; ro_quality_gap : Q }.

(** [one_round]; [shuffle] is what [rng.shuffle] makes of the picks. *)
Definition one_round (geometry : gmap Z BlockGeometry) (p : Policy) (top_k : Z) (shuffle : list Placement → list Placement)
    (runs : list Run) (wanted : list (Z * (Z → Z))) : result exn Round :=
  let? chosen := picks geometry p top_k runs wanted in
  let? r := cas_all runs (shuffle (fst <$> chosen)) in
  Ok (mk_round (Z.of_nat (length chosen)) (Z.of_nat (length r.2))
        (if bool_decide (chosen = []) then 0%Q
         else (foldr Qplus 0 (snd <$> chosen) / inject_Z (Z.of_nat (length chosen)))%Q)).

(** ** The seat account *)

(** The holds on a seat. *)
#[global] Instance pl_has_dec pl b p : Decision (pl_has pl b p).
Proof. unfold pl_has. apply _. Defined.
Definition holders (live : list Placement) (b p : Z) : list Placement := filter (λ pl, pl_has pl b p) live.

(** Every seat of [F] is free or held, once, and nothing else is. *)
Record account (F : Z → Z → Prop) (runs : list Run) (live : list Placement) : Prop := {
  ac_wf : wf_runs runs;
  ac_len : ∀ pl, pl ∈ live → 1 <= pl_len pl;
  ac_start : ∀ b p, F b p → 0 <= p;
  ac_one : ∀ b p, (length (holders live b p) <= 1)%nat;
  ac_free : ∀ b p, free runs b p → F b p ∧ holders live b p = [];
  ac_held : ∀ pl b p, pl ∈ live → pl_has pl b p → F b p;
  ac_cover : ∀ b p, F b p → free runs b p ∨ ∃ pl, pl ∈ live ∧ pl_has pl b p;
}.

Lemma holders_none live b p : holders live b p = [] ↔ ∀ pl, pl ∈ live → ¬ pl_has pl b p.
Proof.
  unfold holders. split; [|apply filter_none]. intros Hn pl Hin Hp.
  assert (pl ∈ filter (λ pl, pl_has pl b p) live) as Hx by (by apply list_elem_of_filter). rewrite Hn in Hx. by apply elem_of_nil in Hx.
Qed.

Lemma account_perm F runs l1 l2 : l1 ≡ₚ l2 → account F runs l1 → account F runs l2.
Proof.
  intros Hp [Hw Hl Hs Ho Hf Hh Hc].
  assert (Hperm : ∀ b p, holders l1 b p ≡ₚ holders l2 b p) by (intros; unfold holders; by rewrite Hp).
  split; try done.
  - intros pl Hin. apply Hl. by rewrite Hp.
  - intros b p. rewrite <-(Permutation_length (Hperm b p)). apply Ho.
  - intros b p Hfr. destruct (Hf b p Hfr) as [? Hn]. split; [done|].
    rewrite holders_none in Hn |- *. intros pl Hin. apply Hn. by rewrite Hp.
  - intros pl b p Hin. apply Hh. by rewrite Hp.
  - intros b p HF. destruct (Hc b p HF) as [?|(pl & Hin & ?)]; [by left|right]. exists pl. by rewrite <-Hp.
Qed.

Lemma run_has_start r : 1 <= run_len r → run_has r (run_block r) (run_start r).
Proof. intros. unfold run_has, run_end. split; [done|lia]. Qed.

(** Holding what a run contains. *)
Lemma account_occupy F runs live pl :
  account F runs live → 1 <= pl_len pl → (∃ r, r ∈ runs ∧ contains r pl = true) →
  ∃ out, occupy runs pl = Ok out ∧ account F out (pl :: live).
Proof.
  intros [Hw Hl Hs Ho Hf Hh Hc] Hlen (r & Hr & Hcon). pose proof (occupy_removes_seats runs pl Hw Hlen) as Hoc.
  destruct (occupy runs pl) as [out|e]; [|destruct Hoc as [_ Hno]; by rewrite Hno in Hcon].
  destruct Hoc as (_ & Hw' & Hfree). exists out. split; [done|].
  assert (Hin : ∀ b p, pl_has pl b p → free runs b p).
  { intros b p [Hb Hp]. apply contains_spec in Hcon as (Hcb & Hcs & Hce). exists r. split; [done|]. unfold run_has, run_end in *.
    split; [congruence|lia]. }
  split; try done.
  - intros x [->|Hx]%elem_of_cons; [done|by apply Hl].
  - intros b p. unfold holders. rewrite filter_cons. destruct (decide (pl_has pl b p)) as [Hp|Hp]; [|apply Ho].
    destruct (Hf b p (Hin b p Hp)) as [_ Hn]. unfold holders in Hn. rewrite Hn. done.
  - intros b p [Hfr Hp]%Hfree. destruct (Hf b p Hfr) as [? Hn]. split; [done|]. unfold holders. by rewrite filter_cons_False.
  - intros x b p [->|Hx]%elem_of_cons Hp; [by apply Hf, Hin|by eapply Hh].
  - intros b p HF. destruct (Hc b p HF) as [Hfr|(x & Hx & Hp)].
    + destruct (decide (pl_has pl b p)) as [Hp|Hp]; [right; exists pl; split; [left|done]|left; by apply Hfree].
    + right. exists x. split; [by right|done].
Qed.

(** Giving a hold back. *)
Lemma account_release F runs live pl :
  account F runs (pl :: live) →
  ∃ out, release runs (pl_block pl) (pl_start pl) (pl_len pl) None = Ok out ∧ account F out live.
Proof.
  intros [Hw Hl Hs Ho Hf Hh Hc]. pose proof (Hl pl ltac:(left)) as Hlen.
  pose proof (release_adds_seats runs (pl_block pl) (pl_start pl) (pl_len pl) None Hw) as Hr.
  assert (Hat : ∀ p, pl_start pl <= p < pl_start pl + pl_len pl → pl_has pl (pl_block pl) p) by (intros p Hp; by split).
  assert (Halone : ∀ b p, pl_has pl b p → holders live b p = []).
  { intros b p Hp. specialize (Ho b p). unfold holders in *. rewrite filter_cons_True in Ho by done.
    apply nil_length_inv. simpl in Ho. lia. }
  destruct (release _ _ _ _ _) as [out|e].
  - destruct Hr as (Hw' & Hno & Hfree). exists out. split; [done|].
    split; try done.
    + intros x Hx. apply Hl. by right.
    + intros b p. specialize (Ho b p). unfold holders in *. rewrite filter_cons in Ho.
      destruct (decide (pl_has pl b p)); simpl in Ho; lia.
    + intros b p [Hfr|[-> Hp]]%Hfree.
      * destruct (Hf b p Hfr) as [? Hn]. split; [done|]. rewrite holders_none in Hn |- *. intros x Hx. apply Hn. by right.
      * split; [eapply Hh; [left|by apply Hat]|by apply Halone, Hat].
    + intros x b p Hx. apply Hh. by right.
    + intros b p HF. destruct (Hc b p HF) as [Hfr|(x & [->|Hx]%elem_of_cons & Hp)].
      * left. apply Hfree. by left.
      * left. apply Hfree. right. destruct Hp as [<- Hp]. by split.
      * right. by exists x.
  - exfalso. destruct Hr as (_ & [?|[Hst|[(c & ? & _)|(p & Hp & Hfr)]]]); [lia| |done|].
    + assert (0 <= pl_start pl); [|lia]. eapply Hs, Hh; [left|]. apply Hat. lia.
    + destruct (Hf _ _ Hfr) as [_ Hn]. rewrite holders_none in Hn. apply (Hn pl); [left|by apply Hat].
Qed.

(** ** Counting seats *)

Lemma occupy_run_sum pl r :
  1 <= pl_len pl → list_sum run_len (occupy_run pl r) = run_len r - (if contains r pl then pl_len pl else 0).
Proof.
  intros Hlen. unfold occupy_run. destruct (contains r pl) eqn:Hc; simpl; [|lia].
  apply contains_spec in Hc as (_ & Hs & He). unfold run_end in He. rewrite list_sum_app.
  destruct (run_start r <? pl_start pl) eqn:?, (pl_start pl + pl_len pl <? run_start r + run_len r) eqn:?; simpl; zlia.
Qed.

Lemma contained_once runs pl c :
  wf_runs runs → 1 <= pl_len pl → (∃ r, r ∈ runs ∧ contains r pl = true) →
  list_sum (λ r, if contains r pl then c else 0) runs = c.
Proof.
  intros Hw Hlen (r & Hr & Hc).
  assert (Hall : ∀ r', r' ∈ runs → r' ≠ r → contains r' pl = false).
  { intros r' Hr' Hne. apply not_true_iff_false. intros Hc'. apply Hne.
    apply contains_spec in Hc as (? & ? & ?), Hc' as (? & ? & ?).
    apply (wf_run_unique runs r' r (pl_block pl) (pl_start pl)); try done; unfold run_has; (split; [congruence|lia]). }
  pose proof (wf_nodup _ Hw) as Hnd. clear Hw. induction Hnd as [|x runs Hx Hnd IH]; [by apply elem_of_nil in Hr|].
  simpl. apply elem_of_cons in Hr as [->|Hr].
  - rewrite Hc. assert (list_sum (λ r, if contains r pl then c else 0) runs = 0) as ->; [|lia].
    assert (Hz : ∀ l, (∀ y, y ∈ l → contains y pl = false) → list_sum (λ r, if contains r pl then c else 0) l = 0).
    { induction l as [|y l IHl]; intros Hy; [done|]. simpl. rewrite (Hy y) by left. rewrite IHl; [lia|]. intros z Hz. apply Hy. by right. }
    apply Hz. intros y Hy. apply Hall; [by right|congruence].
  - rewrite (Hall x); [|left|congruence]. rewrite IH; [lia|done|]. intros r' Hr'. apply Hall. by right.
Qed.

Lemma occupy_sum runs pl out :
  wf_runs runs → 1 <= pl_len pl → occupy runs pl = Ok out → list_sum run_len out = list_sum run_len runs - pl_len pl.
Proof.
  intros Hw Hlen Ho. pose proof (occupy_removes_seats runs pl Hw Hlen) as Hoc. rewrite Ho in Hoc. destruct Hoc as (Hex & _).
  unfold occupy in Ho. destruct (negb _); [done|]. injection Ho as <-.
  rewrite (list_sum_perm _ _ _ (isort_perm run_le _)), list_sum_bind.
  rewrite (list_sum_ext _ (λ r, run_len r + (if contains r pl then - pl_len pl else 0))).
  - assert (Hadd : ∀ l, list_sum (λ r, run_len r + (if contains r pl then - pl_len pl else 0)) l =
      list_sum run_len l + list_sum (λ r, if contains r pl then - pl_len pl else 0) l)
      by (induction l; simpl in *; lia).
    rewrite Hadd, (contained_once runs pl (- pl_len pl) Hw Hlen Hex). lia.
  - intros r _. rewrite occupy_run_sum by done. destruct (contains r pl); lia.
Qed.

Lemma release_loop_sum rest b lo hi out lo' hi' out' :
  lo < hi → (∀ r, r ∈ rest → 1 <= run_len r) → release_loop rest b lo hi out = Ok (lo', hi', out') →
  list_sum run_len out' + (hi' - lo') = list_sum run_len rest + list_sum run_len out + (hi - lo) ∧ hi - lo <= hi' - lo' ∧
  ∀ r, r ∈ out' → r ∈ rest ∨ r ∈ out.
Proof.
  revert lo hi out. induction rest as [|r rest IH]; intros lo hi out Hlt Hpos; simpl.
  { intros [= <- <- <-]. split_and!; [lia|lia|by right]. }
  assert (Hr : 1 <= run_len r) by (apply Hpos; left).
  assert (Hrest : ∀ r', r' ∈ rest → 1 <= run_len r') by (intros; apply Hpos; by right).
  assert (Hkeep : release_loop rest b lo hi (out ++ [r]) = Ok (lo', hi', out') →
    list_sum run_len out' + (hi' - lo') = run_len r + list_sum run_len rest + list_sum run_len out + (hi - lo) ∧
    hi - lo <= hi' - lo' ∧ ∀ r', r' ∈ out' → r' ∈ r :: rest ∨ r' ∈ out).
  { intros (H1 & H2 & H3)%IH; [|done..]. rewrite list_sum_app in H1. simpl in H1. split_and!; [lia|done|].
    intros r' Hr'. destruct (H3 r' Hr') as [?|[?| ->%list_elem_of_singleton]%elem_of_app]; [left; by right|by right|left; left]. }
  case_goal; try done; try apply Hkeep. intros (H1 & H2 & H3)%IH; [|zlia|done]. zbool. unfold run_end in *. split_and!.
  - lia.
  - lia.
  - intros r' Hr'. destruct (H3 r' Hr'); [left; by right|by right].
Qed.

Lemma release_sum runs b start len out :
  wf_runs runs → release runs b start len None = Ok out →
  list_sum run_len out = list_sum run_len runs + len ∧
  ∀ r, r ∈ out → r ∈ runs ∨ len <= run_len r.
Proof.
  intros Hw. unfold release. destruct (len <? 1) eqn:Hl; [done|]. destruct (_ || _); [done|].
  destruct (release_loop runs b start (start + len) []) as [[[lo hi] o]|e] eqn:Hr; [|done]. simpl. intros [= <-].
  apply release_loop_sum in Hr as (H1 & H2 & H3); [|zlia|by apply (wf_pos _ Hw)].
  rewrite (list_sum_perm _ _ _ (isort_perm run_le _)), list_sum_app. simpl in *. split; [lia|].
  intros r. rewrite elem_of_isort. intros [Hin|Hin]%elem_of_app.
  - left. destruct (H3 r Hin) as [?|Hn]; [done|by apply elem_of_nil in Hn].
  - apply list_elem_of_singleton in Hin as ->. right. simpl. lia.
Qed.

(** ** Placing *)

(** What the allocator may answer: a legal cut of one of the runs. *)
Definition placeable (p : Policy) (geometry : gmap Z BlockGeometry) (runs : list Run) (q : Z) (pl : Placement) : Prop :=
  ∃ run geo, run ∈ runs ∧ geometry !! run_block run = Some geo ∧ pl ∈ candidates run q geo p.

Lemma placeable_inside p geometry runs q pl :
  placeable p geometry runs q pl →
  pl_len pl = q ∧ 1 <= q ∧ ∃ run o, run ∈ runs ∧ contains run pl = true ∧ pl_start pl = run_start run + o ∧ legal_cut p (run_len run) q o.
Proof.
  intros (run & geo & Hr & _ & Hc). pose proof (candidates_cut _ _ _ _ _ Hc) as (o & -> & Hcut).
  pose proof Hcut as (Hq & Ho & Hoq & _). simpl. split_and!; try done. exists run, o. split_and!; try done.
  apply contains_spec. simpl. unfold run_end. lia.
Qed.

Definition geometry_fits (F : Z → Z → Prop) (geometry : gmap Z BlockGeometry) : Prop :=
  ∀ b p, F b p → is_Some (geometry !! b).

Lemma account_covers F runs live geometry :
  account F runs live → geometry_fits F geometry → geometry_covers runs geometry.
Proof.
  intros Ha Hg r Hr. assert (Hfr : free runs (run_block r) (run_start r)).
  { exists r. split; [done|]. apply run_has_start. by apply (wf_pos _ (ac_wf _ _ _ Ha)). }
  apply (ac_free _ _ _ Ha) in Hfr as [HF _]. by eapply Hg.
Qed.

Lemma legal_anchors_ok p geometry runs q :
  geometry_covers runs geometry →
  ∃ l, legal_anchors runs q geometry p = Ok l ∧ ∀ pl, pl ∈ l → placeable p geometry runs q pl.
Proof.
  intros Hc. destruct (all_candidates_total runs q geometry p Hc) as [cs Hcs]. unfold legal_anchors. rewrite Hcs. simpl.
  eexists. split; [done|]. intros pl Hin%elem_of_isort.
  apply (elem_of_all_candidates _ _ _ _ _ _ Hcs) in Hin as (run & geo & ? & ? & ?). by exists run, geo.
Qed.

Lemma allocate_ok p geometry runs q :
  geometry_covers runs geometry →
  ∃ o, allocate runs q geometry p = Ok o ∧ ∀ pl, o = Some pl → placeable p geometry runs q pl.
Proof.
  intros Hc. rewrite allocate_is_first_anchor. destruct (legal_anchors_ok p geometry runs q Hc) as (l & -> & Hall). simpl.
  eexists. split; [done|]. intros pl Hh. apply Hall. destruct l; [done|]. injection Hh as ->. left.
Qed.

Lemma picked {A} (l : list A) (k : Z) : 0 <= k < Z.of_nat (length l) → ∃ x, l !! Z.to_nat k = Some x ∧ x ∈ l.
Proof.
  intros Hk. destruct (lookup_lt_is_Some_2 l (Z.to_nat k)) as [x Hx]; [lia|]. exists x. split; [done|]. by eapply list_elem_of_lookup_2.
Qed.

Definition randrange_ok (f : Z → Z) : Prop := ∀ n, 0 < n → 0 <= f n < n.

Lemma choose_ok p geometry top_k f runs q :
  geometry_covers runs geometry → randrange_ok f → 0 < top_k →
  ∃ o, choose p geometry top_k f runs q = Ok o ∧ ∀ pl, o = Some pl → placeable p geometry runs q pl.
Proof.
  intros Hc Hf Hk. unfold choose. destruct (top_k =? 1); [by apply allocate_ok|].
  destruct (legal_anchors_ok p geometry runs q Hc) as (l & -> & Hall). simpl. destruct l as [|x l]; [by eexists|].
  destruct (picked (x :: l) (f (Z.min top_k (Z.of_nat (length (x :: l)))))) as (y & -> & Hy).
  { pose proof (Hf (Z.min top_k (Z.of_nat (length (x :: l))))) as Hr. simpl length in *. lia. }
  eexists. split; [done|]. intros pl [= <-]. by apply Hall.
Qed.

(** Holding a placeable interval. *)
Lemma account_place F runs live p geometry q pl :
  account F runs live → placeable p geometry runs q pl →
  ∃ out, occupy runs pl = Ok out ∧ account F out (pl :: live) ∧ list_sum run_len out = list_sum run_len runs - q.
Proof.
  intros Ha Hp. destruct (placeable_inside _ _ _ _ _ Hp) as (Hl & Hq & run & o & Hr & Hc & _).
  destruct (account_occupy F runs live pl Ha ltac:(lia) ltac:(by exists run)) as (out & Ho & Hac).
  exists out. split_and!; try done. rewrite <-Hl. eapply occupy_sum; [apply (ac_wf _ _ _ Ha)|lia|done].
Qed.

(** *** Orphans *)

(** No run of one seat. *)
Definition no_orphans (runs : list Run) : Prop := ∀ r, r ∈ runs → 2 <= run_len r.

Lemma place_no_orphans p geometry runs q pl out :
  wf_runs runs → 2 <= min_run p → no_orphans runs → placeable p geometry runs q pl → occupy runs pl = Ok out → no_orphans out.
Proof.
  intros Hw Hm Hno Hp Ho. destruct (placeable_inside _ _ _ _ _ Hp) as (Hl & Hq & run & o & Hr & Hc & Hst & Hcut).
  unfold occupy in Ho. destruct (negb _); [done|]. injection Ho as <-. intros r'. rewrite elem_of_isort.
  intros (r & Hr' & Hin)%list_elem_of_bind. unfold occupy_run in Hr'.
  destruct (contains r pl) eqn:Hcr; simpl in Hr'; [|apply list_elem_of_singleton in Hr' as ->; by apply Hno].
  assert (r = run) as ->.
  { apply contains_spec in Hc as (? & ? & ?), Hcr as (? & ? & ?).
    apply (wf_run_unique runs r run (pl_block pl) (pl_start pl)); try done; unfold run_has; (split; [congruence|lia]). }
  destruct Hcut as (_ & H0 & H1 & Hcut). pose proof (mid_lo_ge p) as Hml. specialize (Hno run Hr).
  apply elem_of_app in Hr' as [Hr'|Hr'].
  - destruct (run_start run <? pl_start pl) eqn:Hlt; [|by apply elem_of_nil in Hr'].
    apply list_elem_of_singleton in Hr' as ->. simpl. zbool. lia.
  - destruct (pl_start pl + pl_len pl <? run_start run + run_len run) eqn:Hlt; [|by apply elem_of_nil in Hr'].
    apply list_elem_of_singleton in Hr' as ->. simpl. zbool. lia.
Qed.

(** ** The simulation of sales *)

Definition seats_of (blocks : list BlockGeometry) (b p : Z) : Prop :=
  ∃ g, g ∈ blocks ∧ geo_block_id g = b ∧ 0 <= p < capacity g.

Record blocks_sane (blocks : list BlockGeometry) : Prop := {
  bs_ids : NoDup (geo_block_id <$> blocks);
  bs_capacity : ∀ g, g ∈ blocks → 1 <= capacity g;
}.

Lemma same_block blocks g h :
  NoDup (geo_block_id <$> blocks) → g ∈ blocks → h ∈ blocks → geo_block_id g = geo_block_id h → g = h.
Proof.
  induction blocks as [|x blocks IH]; [by intros _ ?%elem_of_nil|]. csimpl. intros [Hx Hnd]%NoDup_cons.
  intros [->|Hg]%elem_of_cons [->|Hh]%elem_of_cons He; [done| | |by apply IH].
  - destruct Hx. rewrite He. by apply list_elem_of_fmap_2.
  - destruct Hx. rewrite <-He. by apply list_elem_of_fmap_2.
Qed.

Lemma whole_account blocks : blocks_sane blocks → account (seats_of blocks) (whole_blocks blocks) [].
Proof.
  intros [Hids Hcap].
  assert (Hin : ∀ r, r ∈ whole_blocks blocks ↔ ∃ g, r = mk_run (geo_block_id g) 0 (capacity g) ∧ g ∈ blocks)
    by (intros r; apply list_elem_of_fmap).
  assert (Hfree : ∀ b p, free (whole_blocks blocks) b p ↔ seats_of blocks b p).
  { intros b p. unfold free, seats_of, run_has, run_end. split.
    - intros (r & (g & -> & Hg)%Hin & Hb & Hp). exists g. simpl in *. split_and!; [done|done|lia|lia].
    - intros (g & Hg & Hb & Hp). eexists. split; [apply Hin; by exists g|]. simpl. split; [done|lia]. }
  split.
  - split.
    + unfold whole_blocks. clear Hcap Hin Hfree. induction blocks as [|g blocks IH]; [constructor|].
      csimpl in *. apply NoDup_cons in Hids as [Hg Hids]. constructor; [|by apply IH].
      intros (h & [= He _] & Hh)%list_elem_of_fmap. apply Hg. rewrite He. by apply list_elem_of_fmap_2.
    + intros r (g & -> & Hg)%Hin. by apply Hcap.
    + intros r1 r2 (g & -> & Hg)%Hin (h & -> & Hh)%Hin Hne. intros He. simpl in He.
      destruct Hne. by rewrite (same_block blocks g h Hids Hg Hh He).
  - by intros pl ?%elem_of_nil.
  - intros b p (g & _ & _ & ?). lia.
  - intros b p. simpl. lia.
  - intros b p Hf. split; [by apply Hfree|done].
  - by intros pl b p ?%elem_of_nil.
  - intros b p HF. left. by apply Hfree.
Qed.

Lemma geometry_of_fits blocks : geometry_fits (seats_of blocks) (geometry_of blocks).
Proof.
  intros b p (g & Hg & <- & _). apply not_eq_None_Some. unfold geometry_of. intros Hn%not_elem_of_list_to_map.
  apply Hn. rewrite <-list_fmap_compose. apply list_elem_of_fmap. exists g. split; [done|by apply elem_of_reverse].
Qed.

Lemma whole_blocks_sum blocks : list_sum run_len (whole_blocks blocks) = list_sum capacity blocks.
Proof. unfold whole_blocks. induction blocks as [|g blocks IH]; [done|]. csimpl. cbn [list_sum foldr run_len]. f_equal. exact IH. Qed.

(** What one round keeps. *)
Definition no_singles (st : Sim) : Prop := no_orphans (sim_runs st) ∧ ∀ pl, pl ∈ sim_live st → 2 <= pl_len pl.
Definition seats_total (st : Sim) : Z := list_sum run_len (sim_runs st) + list_sum pl_len (sim_live st).

Lemma sim_round_ok F p geometry top_k st dr :
  account F (sim_runs st) (sim_live st) → geometry_fits F geometry → 0 < top_k → randrange_ok (dr_randrange dr) →
  ∃ st', sim_round p geometry top_k st dr = Ok st' ∧ account F (sim_runs st') (sim_live st') ∧ seats_total st' = seats_total st ∧
    (2 <= min_run p → 2 <= dr_quantity dr → no_singles st → no_singles st').
Proof.
  intros Ha Hg Hk Hr. unfold sim_round, seats_total, no_singles.
  destruct (bool_decide (sim_live st ≠ []) && dr_cancels dr) eqn:Hb.
  - apply andb_true_iff in Hb as [Hne%bool_decide_eq_true _].
    destruct (picked (sim_live st) (dr_randrange dr (Z.of_nat (length (sim_live st))))) as (victim & Hv & Hin).
    { apply Hr. destruct (sim_live st); [done|simpl; lia]. }
    rewrite Hv. pose proof (delete_Permutation _ _ _ Hv) as Hperm.
    destruct (account_release F (sim_runs st) _ victim (account_perm _ _ _ _ Hperm Ha)) as (out & Ho & Hac).
    rewrite Ho. simpl. eexists. split; [done|]. simpl. destruct (release_sum _ _ _ _ _ (ac_wf _ _ _ Ha) Ho) as [Hsum Hlens].
    split; [done|]. rewrite Hsum, (list_sum_perm _ _ _ Hperm). split; [simpl; lia|].
    intros _ _ [Hno Hl]. split.
    + intros r [?|Hle]%Hlens; [by apply Hno|]. specialize (Hl victim Hin). lia.
    + intros pl Hpl. apply Hl. rewrite Hperm. by right.
  - destruct (choose_ok p geometry top_k (dr_randrange dr) (sim_runs st) (dr_quantity dr)
      (account_covers _ _ _ _ Ha Hg) Hr Hk) as (o & -> & Hpl). simpl.
    destruct o as [pl|]; [|by eexists].
    destruct (account_place _ _ _ _ _ _ _ Ha (Hpl _ eq_refl)) as (out & Ho & Hac & Hsum).
    rewrite Ho. simpl. eexists. split; [done|]. simpl.
    assert (Hperm : pl :: sim_live st ≡ₚ sim_live st ++ [pl]) by apply Permutation_cons_append.
    split; [by eapply account_perm|]. destruct (placeable_inside _ _ _ _ _ (Hpl _ eq_refl)) as (Hlen & _).
    rewrite <-(list_sum_perm _ _ _ Hperm), Hsum. split; [simpl; lia|]. intros Hm Hq [Hno Hl]. split.
    + eapply place_no_orphans; [apply (ac_wf _ _ _ Ha)|done|done|by apply Hpl|done].
    + intros x [Hx|Hx]%elem_of_app; [by apply Hl|]. apply list_elem_of_singleton in Hx as ->. lia.
Qed.

Lemma sim_rounds_ok F p geometry top_k st draws :
  account F (sim_runs st) (sim_live st) → geometry_fits F geometry → 0 < top_k →
  Forall (λ dr, randrange_ok (dr_randrange dr)) draws →
  ∃ st', sim_rounds p geometry top_k st draws = Ok st' ∧ account F (sim_runs st') (sim_live st') ∧
    seats_total st' = seats_total st ∧
    (2 <= min_run p → Forall (λ dr, 2 <= dr_quantity dr) draws → no_singles st → no_singles st').
Proof.
  intros Ha Hg Hk Hd. revert st Ha. induction Hd as [|dr draws Hr Hd IH]; intros st Ha; cbn [sim_rounds].
  { exists st. by split_and!. }
  destruct (sim_round_ok F p geometry top_k st dr Ha Hg Hk Hr) as (st1 & -> & Ha1 & Hs1 & Hn1). simpl.
  destruct (IH st1 Ha1) as (st2 & He & Ha2 & Hs2 & Hn2). exists st2. split_and!; [done|done|congruence|].
  intros Hm [Hq Hqs]%Forall_cons Hno. apply Hn2; [done|done|]. by apply Hn1.
Qed.

(** Orphans come from single tickets only.  Whatever the draws, a simulation
    raises nothing and accounts for every seat: each is free or held by one live
    order, and what remains and what is held add up to the venue.  When the policy
    keeps two seats together, no block is a single seat and nobody buys one ticket,
    no single free seat is ever left, cancellations or not. *)
Theorem no_orphans_without_singles blocks biggest_group p top_k draws :
  blocks_sane blocks → 0 < top_k → Forall (λ dr, randrange_ok (dr_randrange dr)) draws →
  ∃ st, simulate blocks biggest_group p top_k draws = Ok (sim_summary blocks biggest_group st) ∧
    account (seats_of blocks) (sim_runs st) (sim_live st) ∧
    sr_remaining (sim_summary blocks biggest_group st) + list_sum pl_len (sim_live st)
      = sr_total_seats (sim_summary blocks biggest_group st) ∧
    (2 <= min_run p → (∀ g, g ∈ blocks → 2 <= capacity g) → Forall (λ dr, 2 <= dr_quantity dr) draws →
     sr_orphans (sim_summary blocks biggest_group st) = 0).
Proof.
  intros Hb Hk Hd.
  destruct (sim_rounds_ok (seats_of blocks) p (geometry_of blocks) top_k (mk_sim (whole_blocks blocks) [] ∅) draws
    (whole_account _ Hb) (geometry_of_fits _) Hk Hd) as (st & He & Ha & Hs & Hn).
  exists st. unfold simulate. rewrite He. split; [done|]. split; [done|]. unfold seats_total in Hs. simpl in *.
  rewrite whole_blocks_sum in Hs. split; [lia|]. intros Hm Hcap Hq.
  destruct Hn as [Hno _]; [done|done| |].
  - split; [|by intros pl ?%elem_of_nil]. intros r (g & -> & Hg)%list_elem_of_fmap. by apply Hcap.
  - rewrite filter_none; [done|]. intros r Hr H1. specialize (Hno r Hr). lia.
Qed.

(** The typical venue: thirty blocks of 600 seats in all, fit for every theorem here. *)
Definition demo_blocks : list BlockGeometry := match typical_venue 30 with Ok bs => bs | Err _ => [] end.
Lemma typical_venue_sane : typical_venue 30 = Ok demo_blocks ∧ blocks_sane demo_blocks ∧ list_sum capacity demo_blocks = 600.
Proof.
  split; [vm_compute; reflexivity|]. split; [|vm_compute; reflexivity]. split.
  - apply (bool_decide_unpack _). vm_compute. exact I.
  - apply Forall_forall, (bool_decide_unpack _). vm_compute. exact I.
Qed.

(** ** Compaction *)

Lemma first_fit_ok p geometry runs q :
  geometry_covers runs geometry →
  ∃ o, first_fit runs q geometry p = Ok o ∧ ∀ pl, o = Some pl → placeable p geometry runs q pl.
Proof.
  induction runs as [|r runs IH]; intros Hc; cbn [first_fit]; [by eexists|].
  unfold geometry_at. destruct (Hc r) as [geo Hgeo]; [left|]. rewrite Hgeo. simpl.
  destruct (candidates r q geo p) as [|spot l] eqn:Hcand.
  - destruct IH as (o & -> & Ho); [intros r' Hr'; apply Hc; by right|]. exists o. split; [done|].
    intros pl Hpl. destruct (Ho pl Hpl) as (run & g & ? & ? & ?). exists run, g. split; [by right|done].
  - eexists. split; [done|]. intros pl [= <-]. exists r, geo. rewrite Hcand. split_and!; [left|done|left].
Qed.

Lemma tight_fit_ok p geometry runs q :
  geometry_covers runs geometry →
  ∃ o, tight_fit runs q geometry p = Ok o ∧ ∀ pl, o = Some pl → placeable p geometry runs q pl.
Proof.
  intros Hc. unfold tight_fit. destruct (first_fit_ok p geometry (isort run_le runs) q) as (o & -> & Ho).
  { intros r Hr. apply Hc. by rewrite <-(elem_of_isort run_le). }
  exists o. split; [done|]. intros pl Hpl. destruct (Ho pl Hpl) as (run & g & Hr & ? & ?). exists run, g.
  split; [by rewrite <-(elem_of_isort run_le)|done].
Qed.

Lemma free_all_ok F runs pending rest :
  account F runs (pending ++ rest) →
  ∃ out, free_all runs pending = Ok out ∧ account F out rest ∧
    list_sum run_len out = list_sum run_len runs + list_sum pl_len pending.
Proof.
  revert runs. induction pending as [|pl pending IH]; intros runs Ha; cbn [free_all].
  { exists runs. split_and!; [done|done|simpl; lia]. }
  destruct (account_release _ _ _ _ Ha) as (out & Ho & Hac). rewrite Ho. simpl.
  destruct (release_sum _ _ _ _ _ (ac_wf _ _ _ Ha) Ho) as [Hsum _].
  destruct (IH out Hac) as (out' & -> & Hac' & Hsum'). exists out'. split_and!; [done|done|lia].
Qed.

Lemma place_all_ok F tight runs holds geometry p placed rest :
  account F runs (placed ++ rest) → geometry_fits F geometry →
  ∃ r, place_all tight runs holds geometry p placed = Ok r ∧ ∀ runs' placed', r = Some (runs', placed') →
    account F runs' (placed' ++ rest) ∧ pl_len <$> placed' = (pl_len <$> placed) ++ (pl_len <$> holds) ∧
    list_sum run_len runs' = list_sum run_len runs - list_sum pl_len holds.
Proof.
  intros Ha Hg. revert runs placed Ha. induction holds as [|hold holds IH]; intros runs placed Ha; cbn [place_all].
  { eexists. split; [done|]. intros runs' placed' [= <- <-]. split_and!; [done|by rewrite app_nil_r|simpl; lia]. }
  pose proof (account_covers _ _ _ _ Ha Hg) as Hc.
  assert (∃ o, (if tight then tight_fit runs (pl_len hold) geometry p else allocate runs (pl_len hold) geometry p) = Ok o ∧
    ∀ pl, o = Some pl → placeable p geometry runs (pl_len hold) pl) as (o & -> & Ho)
    by (destruct tight; [by apply tight_fit_ok|by apply allocate_ok]).
  simpl. destruct o as [spot|]; [|by eexists].
  destruct (account_place _ _ _ _ _ _ _ Ha (Ho _ eq_refl)) as (out & -> & Hac & Hsum). simpl.
  destruct (IH out (placed ++ [spot])) as (r & -> & Hr).
  { eapply account_perm; [|exact Hac]. rewrite <-(assoc_L (++)). apply Permutation_middle. }
  exists r. split; [done|]. intros runs' placed' Heq. destruct (Hr _ _ Heq) as (H1 & H2 & H3). split_and!; [done| |lia].
  rewrite H2, fmap_app, <-(assoc_L (++)). csimpl. by destruct (placeable_inside _ _ _ _ _ (Ho _ eq_refl)) as (-> & _).
Qed.

(** Lifting the movable holds and putting them back. *)
Lemma compact_ok F tight runs movable rest geometry p :
  account F runs (movable ++ rest) → geometry_fits F geometry →
  ∃ r, compact tight runs movable geometry p = Ok r ∧ ∀ runs' placed, r = Some (runs', placed) →
    account F runs' (placed ++ rest) ∧ pl_len <$> placed ≡ₚ pl_len <$> movable ∧ list_sum run_len runs' = list_sum run_len runs.
Proof.
  intros Ha Hg. unfold compact. destruct (free_all_ok _ _ _ _ Ha) as (freed & -> & Hf & Hsum). simpl.
  destruct (place_all_ok F tight freed (isort longer movable) geometry p [] rest Hf Hg) as (r & -> & Hr).
  exists r. split; [done|]. intros runs' placed Heq. destruct (Hr _ _ Heq) as (H1 & H2 & H3). split; [done|].
  rewrite H2. simpl. split; [by rewrite isort_perm|]. rewrite (list_sum_perm _ _ _ (isort_perm longer movable)) in H3. lia.
Qed.

Lemma quality_pairs_ok geometry pairs :
  (∀ x, x ∈ pairs → is_Some (geometry !! pl_block x.1) ∧ is_Some (geometry !! pl_block x.2)) →
  ∃ l, quality_pairs geometry pairs = Ok l.
Proof.
  induction pairs as [|[a b] pairs IH]; intros Hall; cbn [quality_pairs]; [by eexists|].
  destruct (Hall (a, b)) as [[ga Ha] [gb Hb]]; [left|]. unfold hold_quality, geometry_at. simpl in *. rewrite Ha, Hb. simpl.
  destruct IH as [l ->]; [intros x Hx; apply Hall; by right|]. by eexists.
Qed.

Lemma account_hold_block F runs live geometry pl :
  account F runs live → geometry_fits F geometry → pl ∈ live → is_Some (geometry !! pl_block pl).
Proof.
  intros Ha Hg Hin. pose proof (ac_len _ _ _ Ha pl Hin). apply (Hg _ (pl_start pl)).
  apply (ac_held _ _ _ Ha pl); [done|]. split; [done|lia].
Qed.

Lemma elem_of_zip {A B} (l : list A) (k : list B) x : x ∈ zip l k → x.1 ∈ l ∧ x.2 ∈ k.
Proof.
  revert k. induction l as [|a l IH]; intros [|b k]; simpl; try (by intros ?%elem_of_nil).
  intros [->|Hin]%elem_of_cons; [split; left|]. destruct (IH k Hin). split; by right.
Qed.

(** The seats of a world: what is pending and what was confirmed. *)
Definition world_ok (F : Z → Z → Prop) (total : Z) (w : SimWorld) : Prop :=
  (∃ confirmed, account F (wo_runs w) (wo_pending w ++ confirmed) ∧
    list_sum run_len (wo_runs w) + list_sum pl_len (wo_pending w ++ confirmed) = total) ∧
  ∀ q, default 0 (wo_rejected w !! q) <= default 0 (wo_attempted w !! q).

Lemma propose_ok F total v geometry p victim w :
  world_ok F total w → geometry_fits F geometry →
  ∃ w', propose v geometry p victim w = Ok w' ∧ world_ok F total w'.
Proof.
  intros [(confirmed & Ha & Hs) Hrej] Hg. unfold propose. cbn zeta.
  set (same h := va_block_scope v = false ∨ pl_block h = pl_block victim).
  cbn [wo_runs wo_pending wo_rejected wo_attempted wo_moves wo_proposals wo_rejected_proposals wo_releases wo_deltas].
  set (movable := filter same (wo_pending w)). set (frozen := filter (λ h, ¬ same h) (wo_pending w)).
  case_bool_decide as Hm; [eexists; split; [done|]; split; [by exists confirmed|done]|].
  assert (Hperm : wo_pending w ++ confirmed ≡ₚ movable ++ (frozen ++ confirmed)).
  { rewrite (assoc_L (++)). apply Permutation_app_tail. unfold movable, frozen. symmetry. apply filter_app_complement. }
  pose proof (account_perm _ _ _ _ Hperm Ha) as Ha'.
  destruct (compact_ok F (bool_decide (va_compaction v = CTight)) _ _ _ geometry p Ha' Hg) as (r & -> & Hr). simpl.
  destruct r as [[runs' replaced]|]; [|eexists; split; [done|]; split; [by exists confirmed|done]].
  destruct (Hr _ _ eq_refl) as (Hac & Hlens & Hsum).
  destruct (quality_pairs_ok geometry (zip (isort longer movable) replaced)) as [pairs ->].
  { intros x [H1 H2]%elem_of_zip. rewrite elem_of_isort in H1. split.
    - eapply (account_hold_block F); [exact Ha'|done|]. apply elem_of_app. by left.
    - eapply (account_hold_block F); [exact Hac|done|]. apply elem_of_app. by left. }
  simpl. destruct (va_pareto v && existsb worse pairs); (eexists; split; [done|]; split; [|done]); [by exists confirmed|].
  exists confirmed. simpl. rewrite <-(assoc_L (++)). split; [done|]. rewrite Hsum, <-Hs, (list_sum_perm _ _ _ Hperm).
  rewrite !(list_sum_app pl_len _ (frozen ++ confirmed)).
  assert (Hmap : ∀ l, list_sum pl_len l = list_sum (λ x, x) (pl_len <$> l)).
  { intros l. induction l as [|x l IHl]; [done|]. csimpl. cbn [list_sum foldr]. f_equal. exact IHl. }
  by rewrite (Hmap replaced), (list_sum_perm _ _ _ Hlens), <-Hmap.
Qed.

Lemma count_ge k m q : default 0 (m !! q) <= default 0 (count k m !! q).
Proof.
  unfold count. destruct (decide (k = q)) as [->|Hne]; [rewrite lookup_insert_eq|rewrite lookup_insert_ne by done]; simpl; lia.
Qed.
Lemma count_mono k m m' : (∀ q, default 0 (m !! q) <= default 0 (m' !! q)) →
  ∀ q, default 0 (count k m !! q) <= default 0 (count k m' !! q).
Proof.
  intros Hm q. unfold count. destruct (decide (k = q)) as [->|Hne]; [rewrite !lookup_insert_eq|rewrite !lookup_insert_ne by done; done].
  simpl. specialize (Hm q). lia.
Qed.

Definition action_ok (a : Action) : Prop := match a with AResolve which _ => (0 <= which)%Q ∧ (which < 1)%Q | ANew _ => True end.

Lemma resolve_index (which : Q) (n : nat) :
  (0 <= which)%Q → (which < 1)%Q → (0 < n)%nat → 0 <= Qfloor (which * inject_Z (Z.of_nat n)) < Z.of_nat n.
Proof.
  intros H0 H1 Hn. assert (Hn' : (0 < inject_Z (Z.of_nat n))%Q) by (change 0%Q with (inject_Z 0); rewrite <-Zlt_Qlt; lia).
  split.
  - change 0 with (Qfloor (inject_Z 0)). apply Qfloor_resp_le. change (inject_Z 0) with 0%Q. nra.
  - apply Z.lt_le_trans with (Qfloor (which * inject_Z (Z.of_nat n)) + 1); [lia|].
    assert (Hlt : (inject_Z (Qfloor (which * inject_Z (Z.of_nat n))) < inject_Z (Z.of_nat n))%Q).
    { eapply Qle_lt_trans; [apply Qfloor_le|]. nra. }
    rewrite <-Zlt_Qlt in Hlt. lia.
Qed.

Lemma world_step_ok F total v geometry p w a :
  world_ok F total w → geometry_fits F geometry → action_ok a →
  ∃ w', world_step v geometry p w a = Ok w' ∧ world_ok F total w'.
Proof.
  intros Hw Hg Hact. pose proof Hw as [(confirmed & Ha & Hs) Hrej]. destruct a as [which abandoned|q]; cbn [world_step].
  - case_bool_decide as Hne; [by exists w|]. destruct Hact as [Hq0 Hq1].
    destruct (picked (wo_pending w) (Qfloor (which * inject_Z (Z.of_nat (length (wo_pending w)))))) as (victim & Hv & Hin).
    { apply resolve_index; [done|done|]. destruct (wo_pending w); [done|simpl; lia]. }
    rewrite Hv. pose proof (delete_Permutation _ _ _ Hv) as Hperm.
    set (pending := delete _ (wo_pending w)) in *.
    assert (Hall : wo_pending w ++ confirmed ≡ₚ victim :: (pending ++ confirmed)) by (by rewrite Hperm).
    destruct (negb abandoned).
    + eexists. split; [done|]. split; [|done]. exists (victim :: confirmed). simpl.
      assert (Hall' : wo_pending w ++ confirmed ≡ₚ pending ++ victim :: confirmed) by (rewrite Hall; apply Permutation_middle).
      split; [by eapply account_perm|]. by rewrite <-(list_sum_perm _ _ _ Hall').
    + pose proof (account_perm _ _ _ _ Hall Ha) as Ha'. destruct (account_release _ _ _ _ Ha') as (out & Ho & Hac).
      rewrite Ho. simpl. destruct (release_sum _ _ _ _ _ (ac_wf _ _ _ Ha) Ho) as [Hsum _].
      match goal with |- context [mk_world out pending ?a ?b ?c ?d ?e ?f ?g] => set (w1 := mk_world out pending a b c d e f g) end.
      assert (Hw1 : world_ok F total w1).
      { split; [|done]. exists confirmed. simpl. split; [done|]. rewrite <-Hs, (list_sum_perm _ _ _ Hall). simpl. lia. }
      destruct (_ && _); [|by exists w1]. by apply propose_ok.
  - destruct (allocate_ok p geometry (wo_runs w) q (account_covers _ _ _ _ Ha Hg)) as (o & -> & Ho). simpl.
    assert (Hrej' : ∀ k, default 0 (wo_rejected w !! k) <=
      default 0 ((if q <=? list_sum run_len (wo_runs w) then count q (wo_attempted w) else wo_attempted w) !! k)).
    { intros k. destruct (_ <=? _); [|done]. etrans; [apply Hrej|apply count_ge]. }
    destruct o as [spot|].
    + destruct (account_place _ _ _ _ _ _ _ Ha (Ho _ eq_refl)) as (out & -> & Hac & Hsum). simpl.
      eexists. split; [done|]. split; [|done]. exists confirmed. simpl.
      assert (Hperm : spot :: wo_pending w ++ confirmed ≡ₚ (wo_pending w ++ [spot]) ++ confirmed)
        by (rewrite <-(assoc_L (++)); apply Permutation_middle).
      split; [by eapply account_perm|]. rewrite <-(list_sum_perm _ _ _ Hperm). cbn [list_sum foldr].
      fold (list_sum pl_len (wo_pending w ++ confirmed)). destruct (placeable_inside _ _ _ _ _ (Ho _ eq_refl)) as (-> & _). lia.
    + eexists. split; [done|]. split; [by exists confirmed|]. simpl. destruct (_ <=? _); [by apply count_mono|done].
Qed.

Lemma world_steps_ok F total v geometry p w script :
  world_ok F total w → geometry_fits F geometry → Forall action_ok script →
  ∃ w', world_steps v geometry p w script = Ok w' ∧ world_ok F total w'.
Proof.
  intros Hw Hg Hs. revert w Hw. induction Hs as [|a script Ha Hs IH]; intros w Hw; cbn [world_steps]; [by exists w|].
  destruct (world_step_ok F total v geometry p w a Hw Hg Ha) as (w1 & -> & Hw1). simpl. by apply IH.
Qed.

(** Compaction sells the same seats.  Whatever variant of compaction runs, with or
    without protection, in every block or one, and whatever is confirmed or abandoned:
    the simulation raises nothing, what it calls sold is what the pending and the
    confirmed orders hold, each seat once, and no more orders of a size are rejected
    than were tried. *)
Theorem compaction_sells_the_same_seats v p script :
  Forall action_ok script →
  ∃ o w confirmed, simulate_compaction v p script = Ok o ∧
    account (seats_of demo_blocks) (wo_runs w) (wo_pending w ++ confirmed) ∧
    ou_sold o = list_sum pl_len (wo_pending w ++ confirmed) ∧ ou_capacity o = 600 ∧
    (∀ q, default 0 (ou_rejected o !! q) <= default 0 (ou_attempted o !! q)).
Proof.
  intros Hs. unfold simulate_compaction. destruct typical_venue_sane as (-> & Hsane & Hsum). cbn [result_bind].
  destruct (world_steps_ok (seats_of demo_blocks) (list_sum capacity demo_blocks) v (geometry_of demo_blocks) p
    (mk_world (whole_blocks demo_blocks) [] ∅ ∅ 0 0 0 0 []) script) as (w & -> & (confirmed & Ha & Hw) & Hrej).
  - split; [|done]. exists []. split; [by apply whole_account|].
    change (list_sum run_len (whole_blocks demo_blocks) + 0 = list_sum capacity demo_blocks). rewrite whole_blocks_sum. lia.
  - apply geometry_of_fits.
  - done.
  - cbn [result_bind]. eexists _, w, confirmed. split; [done|]. cbn [ou_sold ou_capacity ou_rejected ou_attempted].
    split; [done|]. split; [lia|]. by split.
Qed.

(** ** Contention *)

Lemma still_fits_spec runs pl : still_fits runs pl = true ↔ ∃ r, r ∈ runs ∧ contains r pl = true.
Proof. unfold still_fits. apply contains_exists. Qed.

(** *** Prefilling ends *)
Lemma prefill_ok F runs live geometry p target draw k sold fuel :
  account F runs live → geometry_fits F geometry → (∀ k, 1 <= draw k) →
  (target <= inject_Z (sold + Z.of_nat fuel))%Q →
  ∃ out live', prefill fuel geometry p target draw k sold runs = Ok out ∧ account F out live' ∧
    ((∃ q, allocate out q geometry p = Ok None) ∨
     (target <= inject_Z (sold + (list_sum run_len runs - list_sum run_len out)))%Q).
Proof.
  intros Ha Hg Hd. revert runs live Ha k sold. induction fuel as [|fuel IH]; intros runs live Ha k sold Ht; cbn [prefill].
  { exists runs, live. split; [done|]. split; [done|]. right. by replace (sold + (list_sum run_len runs - list_sum run_len runs))
      with (sold + Z.of_nat 0) by lia. }
  destruct (Qle_bool target (inject_Z sold)) eqn:Hb.
  { exists runs, live. split; [done|]. split; [done|]. right. apply Qle_bool_iff in Hb.
    by replace (sold + (list_sum run_len runs - list_sum run_len runs)) with sold by lia. }
  destruct (allocate_ok p geometry runs (draw k) (account_covers _ _ _ _ Ha Hg)) as (o & Hal & Ho). rewrite Hal. cbn [result_bind].
  destruct o as [pl|]; [|exists runs, live; split_and!; [done|done|left; by exists (draw k)]].
  destruct (account_place _ _ _ _ _ _ _ Ha (Ho _ eq_refl)) as (out & -> & Hac & Hsum). cbn [result_bind].
  destruct (IH out (pl :: live) Hac (S k) (sold + draw k)) as (out' & live' & -> & Hac' & Hend).
  { eapply Qle_trans; [exact Ht|]. rewrite <-Zle_Qle. specialize (Hd k). lia. }
  exists out', live'. split; [done|]. split; [done|]. destruct Hend as [?|Hle]; [by left|right].
  by replace (sold + (list_sum run_len runs - list_sum run_len out')) with
    (sold + draw k + (list_sum run_len out - list_sum run_len out')) by lia.
Qed.

(** *** One round *)

Lemma picks_ok F runs live geometry p top_k wanted :
  account F runs live → geometry_fits F geometry → 0 < top_k → Forall (λ x, randrange_ok x.2) wanted →
  ∃ chosen, picks geometry p top_k runs wanted = Ok chosen ∧ (length chosen <= length wanted)%nat ∧
    ∀ x, x ∈ chosen → 1 <= pl_len x.1 ∧ still_fits runs x.1 = true.
Proof.
  intros Ha Hg Hk Hw. induction Hw as [|[q f] wanted Hf Hw (chosen & He & Hl & Hall)]; cbn [picks].
  { exists []. split_and!; [done|done|by intros x ?%elem_of_nil]. }
  destruct (legal_anchors_ok p geometry runs q (account_covers _ _ _ _ Ha Hg)) as (options & -> & Hopt). cbn [result_bind].
  destruct options as [|best options]; [exists chosen; split_and!; [done|simpl; lia|done]|].
  destruct (picked (best :: options) (f (Z.min top_k (Z.of_nat (length (best :: options)))))) as (pick & -> & Hin).
  { pose proof (Hf (Z.min top_k (Z.of_nat (length (best :: options))))) as Hr. simpl in *. lia. }
  rewrite He. cbn [result_bind]. eexists. split; [done|]. split; [simpl; lia|].
  intros x [->|Hx]%elem_of_cons; [|by apply Hall]. simpl.
  destruct (placeable_inside _ _ _ _ _ (Hopt _ Hin)) as (Hlen & Hq & run & o & Hr & Hc & _).
  split; [lia|]. apply still_fits_spec. by exists run.
Qed.

Lemma cas_all_ok F runs live chosen :
  account F runs live → (∀ pl, pl ∈ chosen → 1 <= pl_len pl) →
  ∃ out winners, cas_all runs chosen = Ok (out, winners) ∧ account F out (winners ++ live) ∧ (winners `sublist_of` chosen) ∧
    list_sum run_len out = list_sum run_len runs - list_sum pl_len winners ∧
    (∀ pl rest, chosen = pl :: rest → still_fits runs pl = true → pl ∈ winners).
Proof.
  revert runs live. induction chosen as [|pl chosen IH]; intros runs live Ha Hlen; cbn [cas_all].
  { exists runs, []. split_and!; [done|done|constructor|simpl; lia|done]. }
  assert (Hl : 1 <= pl_len pl) by (apply Hlen; left).
  assert (Hrest : ∀ x, x ∈ chosen → 1 <= pl_len x) by (intros; apply Hlen; by right).
  destruct (still_fits runs pl) eqn:Hf.
  - pose proof Hf as Hfit. apply still_fits_spec in Hf. destruct (account_occupy F runs live pl Ha Hl Hf) as (out & Ho & Hac).
    rewrite Ho. cbn [result_bind].
    destruct (IH out (pl :: live) Hac Hrest) as (out' & winners & -> & Hac' & Hsub & Hsum & _). cbn [result_bind fst snd].
    exists out', (pl :: winners). split; [done|]. split; [eapply account_perm; [|exact Hac']; symmetry; apply Permutation_middle|].
    split; [by constructor|]. split; [rewrite Hsum, (occupy_sum _ _ _ (ac_wf _ _ _ Ha) Hl Ho); simpl; lia|].
    intros x rest [= -> ->] _. left.
  - destruct (IH runs live Ha Hrest) as (out & winners & -> & Hac & Hsub & Hsum & _).
    exists out, winners. split_and!; [done|done|by constructor|done|]. intros x rest [= <- <-] Hx. congruence.
Qed.

(** A round of contention always has a winner.  However the requests that saw one
    snapshot pick and in whichever order their swaps arrive, the round raises
    nothing, nobody wins a seat twice, no more win than tried - and as soon as one
    tries, one wins: retries cannot starve each other for ever. *)
Theorem contention_has_a_winner F runs live geometry p top_k shuffle wanted :
  account F runs live → geometry_fits F geometry → 0 < top_k →
  Forall (λ x : Z * (Z → Z), randrange_ok x.2) wanted → (∀ l, shuffle l ≡ₚ l) →
  ∃ r out winners, one_round geometry p top_k shuffle runs wanted = Ok r ∧ account F out (winners ++ live) ∧
    ro_successes r = Z.of_nat (length winners) ∧
    0 <= ro_successes r <= ro_attempts r ∧ ro_attempts r <= Z.of_nat (length wanted) ∧
    (0 < ro_attempts r → 0 < ro_successes r).
Proof.
  intros Ha Hg Hk Hw Hsh. unfold one_round.
  destruct (picks_ok F runs live geometry p top_k wanted Ha Hg Hk Hw) as (chosen & -> & Hl & Hall). cbn [result_bind].
  assert (Hin : ∀ pl, pl ∈ shuffle chosen.*1 → 1 <= pl_len pl ∧ still_fits runs pl = true).
  { intros pl Hpl. rewrite Hsh in Hpl. apply list_elem_of_fmap in Hpl as (x & -> & Hx). by apply Hall. }
  destruct (cas_all_ok F runs live (shuffle chosen.*1) Ha ltac:(intros; by apply Hin)) as (out & winners & -> & Hac & Hsub & _ & Hfirst).
  cbn [result_bind]. eexists _, out, winners. split; [done|]. split; [done|]. simpl.
  assert (Hlen : length (shuffle chosen.*1) = length chosen) by (by rewrite Hsh, length_fmap).
  apply sublist_length in Hsub. split_and!; [done|lia|lia|lia|]. intros Hpos.
  destruct (shuffle chosen.*1) as [|pl rest] eqn:He; [simpl in Hlen; lia|].
  assert (Hw1 : pl ∈ winners) by (apply (Hfirst pl rest); [done|apply Hin; left]).
  destruct winners; [by apply elem_of_nil in Hw1|simpl; lia].
Qed.

(** Ten requests for two seats each, all picking the best place: one wins. *)
Example determinism_makes_them_collide :
  match typical_venue 30 with
  | Ok bs =>
      match one_round (geometry_of bs) NORMAL_POLICY 1 (λ l, l) (whole_blocks bs) (replicate 10 (2, λ _, 0)) with
      | Ok r => (ro_attempts r, ro_successes r)
      | Err _ => (0, 0)
      end
  | Err _ => (0, 0)
  end = (10, 1).
Proof. vm_compute. reflexivity. Qed.
