(* ===== verification/ClosedLoop.v ===== *)
(** The closed loop of src/app/scripts/simulate_cas_contention.py, in which a
    request that lost its compare-and-swap comes back in the next step, and the
    averages of simulate_seating.py.  As in Simulation.v the random numbers are
    arguments: a step's quantities, choices and shuffle. *)

From Stdlib Require Import QArith Qround Lqa.
From S2P Require Import Prelude Exceptions DB Seating Seed Simulation.

#[local] Open Scope Z_scope.

(** ** One step *)

(** What the generator hands out in a step: the quantity of the i-th request of the
    batch, its choice among so many places, the order of the swaps. *)
Record StepDraw : Type := mk_step_draw {
  sd_quantity : nat → Z;
  sd_randrange : nat → Z → Z;
  sd_shuffle : list (Z * Placement) → list (Z * Placement);
}.

Record Loop : Type := mk_loop {
  lo_runs : list Run;
  lo_pending : list Z;                (* how often each waiting request was retried *)
  lo_attempts : Z;
  lo_successes : Z;
  lo_retries_at_success : list Z;
  lo_fractional : Q;
  lo_peak_backlog : Z;
}.

(** The picks of a batch, the i-th request first; a quantity that fits nowhere is
    dropped from the loop.  The anchors are cached per quantity: the runs stay the
    same while the batch picks. *)
Fixpoint batch_picks (geometry : gmap Z BlockGeometry) (top_k : Z) (runs : list Run) (d : StepDraw) (i : nat)
    (batch : list Z) : result exn (list (Z * Placement)) :=
  match batch with
  | [] => Ok []
  | retried :: batch' =>
      let? options := legal_anchors runs (sd_quantity d i) geometry NORMAL_POLICY in
      match options with
      | [] => batch_picks geometry top_k runs d (S i) batch'
      | _ :: _ =>
          match options !! Z.to_nat (sd_randrange d i (Z.min top_k (Z.of_nat (length options)))) with
          | None => Err IndexError
          | Some pick =>
              let? rest := batch_picks geometry top_k runs d (S i) batch' in
              Ok ((retried, pick) :: rest)
          end
      end
  end.

(** The swaps: the runs, the requests that lost, the retries of those that won. *)
Fixpoint swap_all (runs : list Run) (l : list (Z * Placement)) : result exn (list Run * list Z * list Z) :=
  match l with
  | [] => Ok (runs, [], [])
  | (retried, pl) :: l' =>
      if still_fits runs pl then
        let? runs := occupy runs pl in
        let? r := swap_all runs l' in
        Ok (r.1.1, r.1.2, retried :: r.2)
      else
        let? r := swap_all runs l' in
        Ok (r.1.1, (retried + 1) :: r.1.2, r.2)
  end.

(** One turn of the loop; [true]: it goes on. *)
Definition loop_step (geometry : gmap Z BlockGeometry) (top_k : Z) (per_step : Q) (st : Loop) (d : StepDraw)
    : result exn (bool * Loop) :=
  let fractional := (lo_fractional st + per_step)%Q in
  let arrivals := Qfloor fractional in
  let fractional := (fractional - inject_Z arrivals)%Q in
  let batch := lo_pending st ++ replicate (Z.to_nat arrivals) 0 in
  let idle := mk_loop (lo_runs st) (lo_pending st) (lo_attempts st) (lo_successes st) (lo_retries_at_success st)
                      fractional (lo_peak_backlog st) in
  match batch with
  | [] => Ok (true, idle)
  | _ =>
      let? picks := batch_picks geometry top_k (lo_runs st) d 0 batch in
      match picks with
      | [] => Ok (false, idle)
      | _ =>
          let? r := swap_all (lo_runs st) (sd_shuffle d picks) in
          let '(runs, pending, won) := r in
          Ok (true, mk_loop runs pending (lo_attempts st + Z.of_nat (length (sd_shuffle d picks)))
                            (lo_successes st + Z.of_nat (length won))
                            (lo_retries_at_success st ++ won) fractional
                            (Z.max (lo_peak_backlog st) (Z.of_nat (length pending))))
      end
  end.

(** The steps of a seed, 4000 at most. *)
Fixpoint loop_steps (geometry : gmap Z BlockGeometry) (top_k : Z) (per_step : Q) (st : Loop) (draws : list StepDraw)
    : result exn Loop :=
  match draws with
  | [] => Ok st
  | d :: draws' =>
      let? r := loop_step geometry top_k per_step st d in
      if r.1 : bool then loop_steps geometry top_k per_step r.2 draws' else Ok r.2
  end.

Definition LOOP_STEPS : nat := 4000.

Definition loop_start (blocks : list BlockGeometry) : Loop := mk_loop (whole_blocks blocks) [] 0 0 [] 0%Q 0.

(** What a seed contributes: attempts per success and the 95th percentile of the
    retries; [None] when nothing was sold. *)
Definition loop_result (st : Loop) : result exn (option (Q * Z)) :=
  if lo_successes st =? 0 then Ok None
  else
    match isort Z.leb (lo_retries_at_success st) !!
          Z.to_nat (Qfloor (inject_Z (Z.of_nat (length (lo_retries_at_success st))) * (95 # 100))) with
    | None => Err IndexError
    | Some p95 => Ok (Some ((inject_Z (lo_attempts st) / inject_Z (lo_successes st))%Q, p95))
    end.

(** [closed_loop], for one choice of [top_k] and one seed. *)
Definition closed_loop (blocks : list BlockGeometry) (top_k arrival_per_second : Z) (window_ms : Q)
    (draws : list StepDraw) : result exn (option (Q * Z) * Z) :=
  let per_step := (inject_Z arrival_per_second * window_ms / 1000)%Q in
  let? st := loop_steps (geometry_of blocks) top_k per_step (loop_start blocks) (take LOOP_STEPS draws) in
  let? r := loop_result st in
  Ok (r, lo_peak_backlog st).

(** ** The averages of simulate_seating.py *)

Record Aggregate : Type := mk_aggregate {
  ag_sold_ratio : Q; ag_worst_sold_ratio : Q; ag_remaining : Q; ag_orphans : Q; ag_unservable_ratio : Q;
}.

Definition mean (l : list Q) : Q := (foldr Qplus 0 l / inject_Z (Z.of_nat (length l)))%Q.

Definition Qmin2 (a b : Q) : Q := if Qle_bool a b then a else b.
Definition worst (l : list Q) : option Q :=
  match l with [] => None | x :: l' => Some (foldr Qmin2 x l') end.

Definition SEEDS : nat := 24.

(** [aggregate]: one list of draws per seed; the minimum of nothing is an error. *)
Fixpoint run_seeds (blocks : list BlockGeometry) (biggest_group : Z) (p : Policy) (top_k : Z)
    (seeds : list (list Draw)) : result exn (list SimResult) :=
  match seeds with
  | [] => Ok []
  | draws :: seeds' =>
      let? r := simulate blocks biggest_group p top_k draws in
      let? rest := run_seeds blocks biggest_group p top_k seeds' in
      Ok (r :: rest)
  end.
Definition aggregate (blocks : list BlockGeometry) (biggest_group : Z) (p : Policy) (top_k : Z)
    (seeds : list (list Draw)) : result exn Aggregate :=
  let? results := run_seeds blocks biggest_group p top_k seeds in
  match worst (sold_ratio <$> results) with
  | None => Err ZeroDivisionError
  | Some w =>
      Ok (mk_aggregate (mean (sold_ratio <$> results)) w
            (mean ((λ r, inject_Z (sr_remaining r)) <$> results))
            (mean ((λ r, inject_Z (sr_orphans r)) <$> results))
            (mean (sr_unservable_ratio <$> results)))
  end.

(** ** Steps keep the account *)

Definition draw_ok (d : StepDraw) : Prop :=
  (∀ i, randrange_ok (sd_randrange d i)) ∧ (∀ l, sd_shuffle d l ≡ₚ l).

Lemma batch_picks_ok F runs live geometry top_k d i batch :
  account F runs live → geometry_fits F geometry → 0 < top_k → (∀ i, randrange_ok (sd_randrange d i)) →
  ∃ l, batch_picks geometry top_k runs d i batch = Ok l ∧
    (∀ x, x ∈ l → x.1 ∈ batch ∧ 1 <= pl_len x.2 ∧ still_fits runs x.2 = true) ∧
    (l = [] ↔ ∀ j, (j < length batch)%nat → legal_anchors runs (sd_quantity d (i + j)) geometry NORMAL_POLICY = Ok []).
Proof.
  intros Ha Hg Hk Hd. revert i. induction batch as [|retried batch IH]; intros i; cbn [batch_picks].
  { exists []. split_and!; [done|by intros x ?%elem_of_nil|split; [simpl; lia|done]]. }
  destruct (IH (S i)) as (l & Hl & Hall & Hnil).
  destruct (legal_anchors_ok NORMAL_POLICY geometry runs (sd_quantity d i) (account_covers _ _ _ _ Ha Hg))
    as (options & Ho & Hopt). rewrite Ho. cbn [result_bind].
  destruct options as [|best options].
  - exists l. split; [done|]. split.
    + intros x Hx. destruct (Hall x Hx) as (? & ? & ?). split_and!; [by right|done|done].
    + rewrite Hnil. split.
      * intros H [|j] Hj; [by rewrite Nat.add_0_r|].
        replace (i + S j)%nat with (S i + j)%nat by lia. apply H. simpl in Hj. lia.
      * intros H j Hj. replace (S i + j)%nat with (i + S j)%nat by lia. apply H. simpl. lia.
  - destruct (picked (best :: options) (sd_randrange d i (Z.min top_k (Z.of_nat (length (best :: options))))))
      as (pick & -> & Hin).
    { pose proof (Hd i (Z.min top_k (Z.of_nat (length (best :: options))))) as Hr. simpl in *. lia. }
    rewrite Hl. cbn [result_bind]. eexists. split; [done|]. split.
    + intros x [->|Hx]%elem_of_cons.
      * destruct (placeable_inside _ _ _ _ _ (Hopt _ Hin)) as (Hlen & Hq & run & o & Hr & Hc & _).
        split_and!; [left|simpl; lia|]. apply still_fits_spec. by exists run.
      * destruct (Hall x Hx) as (? & ? & ?). split_and!; [by right|done|done].
    + split; [done|]. intros H. specialize (H 0%nat ltac:(simpl; lia)). by rewrite Nat.add_0_r, Ho in H.
Qed.

Lemma swap_all_ok F runs live l :
  account F runs live → (∀ x, x ∈ l → 0 <= x.1 ∧ 1 <= pl_len x.2) →
  ∃ out pending won live', swap_all runs l = Ok (out, pending, won) ∧ account F out live' ∧
    (length pending + length won = length l)%nat ∧ (∀ r, r ∈ pending → 1 <= r) ∧
    list_sum run_len out + Z.of_nat (length won) <= list_sum run_len runs ∧
    (∀ x rest, l = x :: rest → still_fits runs x.2 = true → (0 < length won)%nat).
Proof.
  revert runs live. induction l as [|[retried pl] l IH]; intros runs live Ha Hl; cbn [swap_all].
  { exists runs, [], [], live. split_and!; [done|done|done|by intros r ?%elem_of_nil|simpl; lia|done]. }
  destruct (Hl (retried, pl) ltac:(left)) as [H0 H1]. simpl in H0, H1.
  assert (Hrest : ∀ x, x ∈ l → 0 <= x.1 ∧ 1 <= pl_len x.2) by (intros; apply Hl; by right).
  destruct (still_fits runs pl) eqn:Hf.
  - pose proof Hf as Hfit. apply still_fits_spec in Hfit.
    destruct (account_occupy F runs live pl Ha H1 Hfit) as (out & Ho & Hac). rewrite Ho. cbn [result_bind].
    destruct (IH out (pl :: live) Hac Hrest) as (out' & pending & won & live' & -> & Hac' & Hlen & Hp & Hsum & _).
    cbn [result_bind fst snd]. exists out', pending, (retried :: won), live'.
    pose proof (occupy_sum _ _ _ (ac_wf _ _ _ Ha) H1 Ho).
    split_and!; [done|done|simpl in *; lia|done|simpl length; lia|intros; simpl; lia].
  - destruct (IH runs live Ha Hrest) as (out & pending & won & live' & -> & Hac & Hlen & Hp & Hsum & _).
    cbn [result_bind fst snd]. exists out, ((retried + 1) :: pending), won, live'.
    split_and!; [done|done|simpl in *; lia| |done|].
    + intros r [->|Hr]%elem_of_cons; [lia|by apply Hp].
    + intros x rest [= <- <-] Hx. simpl in Hx. congruence.
Qed.

(** The invariant: the free seats and those sold, at least one a success, make up
    the zone; every success is on record, after no more attempts than were made. *)
Record loop_ok (F : Z → Z → Prop) (total : Z) (st : Loop) : Prop := {
  lk_account : ∃ live, account F (lo_runs st) live;
  lk_seats : list_sum run_len (lo_runs st) + lo_successes st <= total;
  lk_record : lo_successes st = Z.of_nat (length (lo_retries_at_success st));
  lk_tries : 0 <= lo_successes st <= lo_attempts st;
  lk_pending : ∀ r, r ∈ lo_pending st → 0 <= r;
  lk_fraction : (0 <= lo_fractional st)%Q ∧ (lo_fractional st < 1)%Q;
}.

(** A step that goes on either meets no request at all or sells; it stops exactly
    when there are requests and none of them has a place. *)
Lemma loop_step_ok F total geometry top_k per_step st d :
  loop_ok F total st → geometry_fits F geometry → 0 < top_k → (0 <= per_step)%Q → draw_ok d →
  ∃ go_on st', loop_step geometry top_k per_step st d = Ok (go_on, st') ∧ loop_ok F total st' ∧
    let arrivals := Z.to_nat (Qfloor (lo_fractional st + per_step)) in
    let n := (length (lo_pending st) + arrivals)%nat in
    (go_on = false ↔ n ≠ 0%nat ∧
       ∀ j, (j < n)%nat → legal_anchors (lo_runs st) (sd_quantity d j) geometry NORMAL_POLICY = Ok []) ∧
    (go_on = true → n ≠ 0%nat → lo_successes st < lo_successes st').
Proof.
  intros [[live Ha] Hseats Hrec Htries Hpend [Hf0 Hf1]] Hg Hk Hper [Hd Hsh]. unfold loop_step.
  set (fr := (lo_fractional st + per_step)%Q). set (arrivals := Qfloor fr).
  assert (Hfr : (0 <= fr - inject_Z arrivals)%Q ∧ (fr - inject_Z arrivals < 1)%Q).
  { pose proof (Qfloor_le fr). pose proof (Qlt_floor fr) as Hlt. rewrite inject_Z_plus in Hlt.
    fold arrivals in H, Hlt. change (inject_Z 1) with 1%Q in Hlt. split; lra. }
  set (batch := lo_pending st ++ replicate (Z.to_nat arrivals) 0).
  assert (Hlen : length batch = (length (lo_pending st) + Z.to_nat arrivals)%nat)
    by (unfold batch; by rewrite length_app, length_replicate).
  assert (Hb : ∀ r, r ∈ batch → 0 <= r).
  { intros r [Hr|Hr]%elem_of_app; [by apply Hpend|]. apply elem_of_replicate_inv in Hr. lia. }
  cbn zeta. rewrite <-Hlen. destruct batch as [|r0 batch'] eqn:Hbatch.
  { eexists true, _. split; [done|]. split; [by split; [by exists live|..]|]. split; [split; [done|by intros [? _]]|by intros _ ?]. }
  rewrite <-Hbatch in *. assert (Hne : length batch ≠ 0%nat) by (by rewrite Hbatch). clear Hbatch r0 batch'.
  destruct (batch_picks_ok F (lo_runs st) live geometry top_k d 0 batch Ha Hg Hk Hd) as (l & -> & Hall & Hnil).
  cbn [result_bind]. simpl in Hnil. destruct l as [|x0 l0] eqn:Hl.
  { eexists false, _. split; [done|]. split; [by split; [by exists live|..]|].
    split; [|done]. split; [intros _; split; [done|by apply Hnil]|done]. }
  rewrite <-Hl in *. assert (Hcontra : l ≠ []) by (by rewrite Hl). clear Hl x0 l0.
  assert (Hpos : ∀ x, x ∈ sd_shuffle d l → 0 <= x.1 ∧ 1 <= pl_len x.2 ∧ still_fits (lo_runs st) x.2 = true).
  { intros x Hx. rewrite Hsh in Hx. destruct (Hall x Hx) as (? & ? & ?). split_and!; [by apply Hb|done|done]. }
  destruct (swap_all_ok F (lo_runs st) live (sd_shuffle d l) Ha) as (out & pending & won & live' & -> & Hac & Hsum & Hp & Hfree & Hwin).
  { intros x Hx. by destruct (Hpos x Hx) as (? & ? & _). }
  cbn [result_bind]. eexists true, _. split; [done|]. split.
  - split; simpl; [by exists live'|lia|rewrite length_app; lia|lia| |done].
    intros r Hr. pose proof (Hp r Hr). lia.
  - split; [|].
    + split; [done|]. intros [_ H]. by apply Hnil in H.
    + intros _ _. simpl. assert (0 < length won)%nat; [|lia].
      destruct (sd_shuffle d l) as [|x rest] eqn:Hs.
      { by apply Permutation_nil_l in Hs || (exfalso; apply Hcontra; apply Permutation_nil_r; rewrite <-(Hsh l), Hs). }
      eapply Hwin; [done|]. apply Hpos. left.
Qed.

(** ** The loop *)

Lemma loop_steps_ok F total geometry top_k per_step st draws :
  loop_ok F total st → geometry_fits F geometry → 0 < top_k → (0 <= per_step)%Q → Forall draw_ok draws →
  ∃ st', loop_steps geometry top_k per_step st draws = Ok st' ∧ loop_ok F total st'.
Proof.
  intros Hs Hg Hk Hp Hd. revert st Hs. induction Hd as [|d draws Hd Hds IH]; intros st Hs; cbn [loop_steps]; [by exists st|].
  destruct (loop_step_ok F total geometry top_k per_step st d Hs Hg Hk Hp Hd) as (go_on & st' & -> & Hs' & _).
  cbn [result_bind fst snd]. destruct go_on; [by apply IH|by exists st'].
Qed.

Lemma list_sum_at_least {A} (f : A → Z) l : (∀ x, x ∈ l → 0 <= f x) → 0 <= list_sum f l.
Proof.
  intros H. induction l as [|x l IH]; simpl; [done|].
  pose proof (H x ltac:(left)). specialize (IH ltac:(intros; apply H; by right)). unfold list_sum in *. lia.
Qed.

(** The index of the percentile is inside the list. *)
Lemma percentile_inside n : (0 < n)%nat → (Z.to_nat (Qfloor (inject_Z (Z.of_nat n) * (95 # 100))) < n)%nat.
Proof.
  intros Hn. assert (Hq : (inject_Z (Z.of_nat n) * (95 # 100) < inject_Z (Z.of_nat n))%Q).
  { assert (0 < inject_Z (Z.of_nat n))%Q by (change 0%Q with (inject_Z 0); rewrite <-Zlt_Qlt; lia). lra. }
  pose proof (Qfloor_le (inject_Z (Z.of_nat n) * (95 # 100))) as Hle.
  assert (Qfloor (inject_Z (Z.of_nat n) * (95 # 100)) < Z.of_nat n); [|lia].
  rewrite Zlt_Qlt. lra.
Qed.

(** A run of the closed loop raises nothing, whatever the arrival rate and the
    random numbers: no seat is sold twice, no more swaps succeed than are tried or
    than the zone has seats, and what it prints for a seed that sold something is
    at least one attempt per success and an entry of the record. *)
Theorem closed_loop_total blocks top_k arrival_per_second window_ms draws :
  blocks_sane blocks → 0 < top_k → 0 <= arrival_per_second → (0 <= window_ms)%Q → Forall draw_ok draws →
  ∃ st live r, closed_loop blocks top_k arrival_per_second window_ms draws = Ok (r, lo_peak_backlog st) ∧
    account (seats_of blocks) (lo_runs st) live ∧
    lo_successes st <= list_sum capacity blocks ∧ lo_successes st <= lo_attempts st ∧
    match r with
    | None => lo_successes st = 0
    | Some (amplification, p95) => (1 <= amplification)%Q ∧ p95 ∈ lo_retries_at_success st
    end.
Proof.
  intros Hb Hk Harr Hwin Hd. set (total := list_sum capacity blocks).
  assert (Hstart : loop_ok (seats_of blocks) total (loop_start blocks)).
  { split; simpl; [exists []; by apply whole_account|rewrite whole_blocks_sum; lia|done|lia|by intros r ?%elem_of_nil|].
    split; [apply Qle_refl|done]. }
  assert (Hper : (0 <= inject_Z arrival_per_second * window_ms / 1000)%Q).
  { apply Qmult_le_0_compat; [|done]. apply Qmult_le_0_compat; [|done]. change 0%Q with (inject_Z 0). by rewrite <-Zle_Qle. }
  destruct (loop_steps_ok _ _ _ top_k _ _ (take LOOP_STEPS draws) Hstart (geometry_of_fits blocks) Hk Hper) as (st & Hst & Hok);
    [by apply Forall_take|].
  destruct Hok as [[live Ha] Hseats Hrec Htries _ _].
  assert (Hres : ∃ r, loop_result st = Ok r ∧ match r with
    | None => lo_successes st = 0
    | Some (amplification, p95) => (1 <= amplification)%Q ∧ p95 ∈ lo_retries_at_success st
    end).
  { unfold loop_result. destruct (Z.eqb_spec (lo_successes st) 0) as [Hz|Hz]; [by exists None|].
    set (l := lo_retries_at_success st) in *.
    assert (Hn : (0 < length l)%nat) by lia. pose proof (percentile_inside _ Hn) as Hi.
    destruct (lookup_lt_is_Some_2 (isort Z.leb l) _ ltac:(rewrite isort_perm; exact Hi)) as [p95 Hp]. rewrite Hp.
    eexists. split; [done|]. split.
    - apply Qle_shift_div_l; [change 0%Q with (inject_Z 0); rewrite <-Zlt_Qlt; lia|].
      rewrite Qmult_1_l, <-Zle_Qle. lia.
    - apply list_elem_of_lookup_2 in Hp. by apply elem_of_isort in Hp. }
  destruct Hres as (r & Hr & Hspec). exists st, live, r. unfold closed_loop. rewrite Hst. cbn [result_bind]. rewrite Hr.
  cbn [result_bind]. split_and!; [done|done| |lia|done].
  assert (0 <= list_sum run_len (lo_runs st)); [|lia].
  apply list_sum_at_least. intros x Hx. pose proof (wf_pos _ (ac_wf _ _ _ Ha) x Hx). lia.
Qed.

(** ** The end of the loop is not the end of the sale *)

(** Two seats are left and the one request of the step wants four: the loop ends,
    as if sold out, although a pair would still be served. *)
Definition last_pair : list BlockGeometry :=
  match calibrate_all [(1, 2, 0%Q, 0%Q)] with Ok bs => bs | Err _ => [] end.
Definition wants (quantity : Z) : StepDraw := mk_step_draw (λ _, quantity) (λ _ _, 0) (λ l, l).

Example misfit_ends_the_loop :
  let run d := loop_step (geometry_of last_pair) 16 1 (loop_start last_pair) d in
  (match run (wants 4) with Ok (go_on, st) => (go_on, list_sum run_len (lo_runs st)) | Err _ => (true, 0) end,
   match run (wants 2) with Ok (go_on, st) => (go_on, list_sum run_len (lo_runs st)) | Err _ => (true, 2) end) =
  ((false, 2), (true, 0)).
Proof. by vm_compute. Qed.

(** ** Averages *)

Lemma Qmin2_le a b : (Qmin2 a b <= a)%Q ∧ (Qmin2 a b <= b)%Q.
Proof.
  unfold Qmin2. destruct (Qle_bool a b) eqn:E; [apply Qle_bool_iff in E; split; lra|].
  split; [|lra]. destruct (Qlt_le_dec a b) as [H|H]; [|done]. apply Qlt_le_weak, Qle_bool_iff in H. congruence.
Qed.

Lemma foldr_min_le (l : list Q) (x : Q) : (foldr Qmin2 x l <= x)%Q ∧ ∀ y, y ∈ l → (foldr Qmin2 x l <= y)%Q.
Proof.
  induction l as [|z l [IH1 IH2]]; cbn [foldr]; [split; [apply Qle_refl|by intros y ?%elem_of_nil]|].
  destruct (Qmin2_le z (foldr Qmin2 x l)) as [H1 H2]. split; [lra|].
  intros y [->|Hy]%elem_of_cons; [done|]. specialize (IH2 y Hy). lra.
Qed.

Lemma mean_bounds (l : list Q) (lo : Q) : l ≠ [] → (∀ y, y ∈ l → (lo <= y)%Q) → (lo <= mean l)%Q.
Proof.
  intros Hne Hlo. unfold mean. apply Qle_shift_div_l.
  { change 0%Q with (inject_Z 0). rewrite <-Zlt_Qlt. destruct l; [done|simpl; lia]. }
  clear Hne. induction l as [|x l IH]; [change (lo * 0 <= 0)%Q; lra|].
  rewrite length_cons, Nat2Z.inj_succ, <-Z.add_1_l, inject_Z_plus. cbn [foldr].
  specialize (IH ltac:(intros; apply Hlo; by right)). specialize (Hlo x ltac:(left)).
  rewrite Qmult_plus_distr_r. change (inject_Z 1) with 1%Q. lra.
Qed.

(** What the table calls the worst seed sold no more than the average one, and no
    seed sold less. *)
Theorem worst_is_below_the_mean blocks biggest_group p top_k seeds a results :
  run_seeds blocks biggest_group p top_k seeds = Ok results →
  aggregate blocks biggest_group p top_k seeds = Ok a →
  (ag_worst_sold_ratio a <= ag_sold_ratio a)%Q ∧
  ∀ r, r ∈ results → (ag_worst_sold_ratio a <= sold_ratio r)%Q.
Proof.
  intros Hr. unfold aggregate. rewrite Hr. cbn [result_bind]. destruct results as [|r0 results]; [done|].
  cbn [worst fmap list_fmap]. intros [= <-]. cbn [ag_worst_sold_ratio ag_sold_ratio].
  set (l := sold_ratio <$> results). destruct (foldr_min_le l (sold_ratio r0)) as [H1 H2].
  assert (Hall : ∀ y, y ∈ sold_ratio r0 :: l → (foldr Qmin2 (sold_ratio r0) l <= y)%Q).
  { intros y [->|Hy]%elem_of_cons; [done|by apply H2]. }
  split.
  - apply mean_bounds; [done|exact Hall].
  - intros r [->|Hin]%elem_of_cons; [done|]. apply H2. by apply list_elem_of_fmap_2.
Qed.
