(* ===== verification/Ops.v ===== *)
(** Running the system: the log lines and their context (src/app/core/logging.py),
    the job wrapper, the cron table and the maintenance jobs of src/app/worker.py,
    the long-lived order consumer, the health probes of src/app/main.py and the
    script that makes an administrator.

    A log record is the map of its attributes.  A job's body is a function of the
    logging context it runs in, to the records it emits and how it ends. *)

From Stdlib Require Import Ascii String.
From S2P Require Import Prelude Exceptions Config Redis Streams DB World Auth Payments Worker.

#[local] Open Scope string_scope.
#[local] Open Scope list_scope.
#[local] Open Scope Z_scope.

Module Logging.

(** What an attribute of a record holds. *)
Inductive value : Type :=
  | VStr (s : string)
  | VInt (n : Z)
  | VBool (b : bool).

Abbreviation attrs := (gmap string value).

(** The two names [Logger.makeRecord] keeps for the formatter. *)
Definition RESERVED : gset string := {[ "message"; "asctime" ]}.

(** [Logger.makeRecord]: [built_in] is what the logging call itself sets; an
    [extra] that names one of these attributes is a [KeyError]. *)
Definition make_record (built_in extra : attrs) : result exn attrs :=
  if decide (dom extra ∩ (RESERVED ∪ dom built_in) = ∅) then Ok (extra ∪ built_in) else Err KeyError.

(** [_ContextFilter.filter] *)
Definition context_filter (context record : attrs) : attrs :=
  foldl (λ record '(key, v), match record !! key with Some _ => record | None => <[key := v]> record end)
    record (map_to_list context).

(** One logging call under a context. *)
Definition log_call (context built_in extra : attrs) : result exn attrs :=
  result_bind (make_record built_in extra) (λ r, Ok (context_filter context r)).

(** The [extra] of [alert]; [fields] may not name [event], a parameter. *)
Definition alert_extra (event : string) (fields : attrs) : attrs :=
  fields ∪ <["event" := VStr event]> {[ "needs_human" := VBool true ]}.

Definition alert (context built_in : attrs) (event : string) (fields : attrs) : result exn attrs :=
  log_call context built_in (alert_extra event fields).

(** What [log_context] binds in its block: the new fields win. *)
Definition bind_context (fields context : attrs) : attrs := fields ∪ context.

(** The attribute [current_trace_id] reads. *)
Definition TRACE_ID_FIELD : string := "trace_id".

Definition current_trace_id (context : attrs) : option string :=
  match context !! TRACE_ID_FIELD with Some (VStr s) => Some s | _ => None end.

(** The filter is a union in which the record wins. *)
Lemma context_filter_union context record : context_filter context record = record ∪ context.
Proof.
  unfold context_filter. rewrite <-(list_to_map_to_list context) at 2.
  generalize (map_to_list context). intros l. revert record.
  induction l as [|[k v] l IH]; intros record; simpl; [by rewrite map_union_empty|].
  rewrite IH, (insert_union_singleton_l (list_to_map l)), (assoc_L (∪)). f_equal.
  apply map_eq. intros i. destruct (record !! k) as [x|] eqn:Hx; rewrite lookup_union;
    destruct (decide (i = k)) as [->|Hne];
    rewrite ?Hx, ?lookup_insert_eq, ?lookup_insert_ne, ?lookup_singleton_eq, ?lookup_singleton_ne by done;
    try done; by destruct (record !! i).
Qed.

(** Whatever the context holds, an alert that is logged at all carries its own
    event and the mark the alarm filters on, and every attribute of the
    context its fields do not name. *)
Theorem alert_needs_human context built_in event fields r :
  fields !! "event" = None → fields !! "needs_human" = None →
  alert context built_in event fields = Ok r →
  r !! "event" = Some (VStr event) ∧ r !! "needs_human" = Some (VBool true) ∧
  (∀ k v, fields !! k = Some v → r !! k = Some v) ∧
  (∀ k v, context !! k = Some v → fields !! k = None → built_in !! k = None →
     k ≠ "event" → k ≠ "needs_human" → r !! k = Some v).
Proof.
  intros He Hn H. unfold alert, log_call, make_record in H.
  case_decide as Hd; simpl in H; [|done]. injection H as <-.
  assert (Hx : ∀ k v, alert_extra event fields !! k = Some v →
    context_filter context (alert_extra event fields ∪ built_in) !! k = Some v).
  { intros k v Hk. rewrite context_filter_union. apply lookup_union_Some_l.
    by apply lookup_union_Some_l. }
  split_and!.
  - apply Hx. unfold alert_extra. by rewrite lookup_union, He.
  - apply Hx. unfold alert_extra. by rewrite lookup_union, Hn.
  - intros k v Hk. apply Hx. by apply lookup_union_Some_l.
  - intros k v Hk Hf Hb Hne1 Hne2. rewrite context_filter_union, !lookup_union. unfold alert_extra.
    rewrite lookup_union, Hf, lookup_insert_ne, lookup_singleton_ne, Hb by done. by rewrite Hk.
Qed.

Example alert_in_a_job :
  alert {[ "run_id" := VStr "r1"; "event" := VStr "outer" ]} {[ "name" := VStr "app.worker" ]} "abandoned_sweep_capped"
    {[ "expired" := VInt 200 ]} =
  Ok {[ "run_id" := VStr "r1"; "event" := VStr "abandoned_sweep_capped"; "needs_human" := VBool true;
        "expired" := VInt 200; "name" := VStr "app.worker" ]}.
Proof. by vm_compute. Qed.

(** A field with the name of a record's own attribute is an exception in place of
    a log line. *)
Example name_is_taken :
  alert ∅ {[ "name" := VStr "app.worker" ]} "x" {[ "name" := VStr "stalls" ]} = Err KeyError.
Proof. by vm_compute. Qed.

End Logging.

Module Jobs.
Import Logging.

(** ** One run of a job *)

Definition Job (S A : Type) : Type := attrs → S → list attrs * (result exn A * S).

Section wrapper.
Context (built_in : attrs).     (* what a logging call sets by itself *)

(** What [cron_job] binds: arq's job id or a fresh one, and the trace id of the
    job's span or the run's id. *)
Definition run_id_of (job_id : option string) (fresh : string) : string :=
  match job_id with Some i => if bool_decide (i = "") then fresh else i | None => fresh end.

Definition job_context (name run_id : string) (otel : option string) : attrs :=
  let trace_id := match otel with Some t => if bool_decide (t = "") then run_id else t | None => run_id end in
  {[ "job" := VStr name; "run_id" := VStr run_id; TRACE_ID_FIELD := VStr trace_id ]}.

(** [cron_job] *)
Definition cron_job {S A} (name : string) (job_id : option string) (fresh : string) (otel : option string)
    (func : Job S A) : Job S A := λ outer s,
  let context := bind_context (job_context name (run_id_of job_id fresh) otel) outer in
  let '(records, (r, s')) := func context s in
  match r with
  | Ok a => (records, (Ok a, s'))
  | Err e =>
      match log_call context built_in {[ "event" := VStr "cron_failed" ]} with
      | Ok line => (records ++ [line], (Err e, s'))
      | Err k => (records, (Err k, s'))
      end
  end.

(** A body that only logs through the logger: each of its records was made by a
    call under the context it was given. *)
Definition logs_in_context {S A} (func : Job S A) : Prop :=
  ∀ context s line, line ∈ (func context s).1 → ∃ extra, log_call context built_in extra = Ok line ∧
    extra !! "run_id" = None.

(** The line that says a run failed carries the same run id as every line logged
    during the run; the run's own outcome and effects are kept. *)
Theorem failed_run_is_one_story {S A} name job_id fresh otel (func : Job S A) outer s :
  built_in !! "run_id" = None → built_in !! "event" = None → logs_in_context func →
  let run_id := run_id_of job_id fresh in
  let context := bind_context (job_context name run_id otel) outer in
  let '(records, (r, s')) := cron_job name job_id fresh otel func outer s in
  (r, s') = (func context s).2 ∧
  (∀ line, line ∈ records → line !! "run_id" = Some (VStr run_id)) ∧
  (∀ e, r = Err e → ∃ line, last records = Some line ∧ line !! "event" = Some (VStr "cron_failed") ∧
     line !! "job" = built_in !! "job" ∪ Some (VStr name)).
Proof.
  intros Hr He Hlogs run_id context.
  assert (Hc : context !! "run_id" = Some (VStr run_id)).
  { apply lookup_union_Some_l. unfold job_context, TRACE_ID_FIELD. by simplify_map_eq. }
  assert (Hj : context !! "job" = Some (VStr name)).
  { apply lookup_union_Some_l. unfold job_context, TRACE_ID_FIELD. by simplify_map_eq. }
  assert (Hline : ∀ extra line, extra !! "run_id" = None → log_call context built_in extra = Ok line →
    line !! "run_id" = Some (VStr run_id)).
  { intros extra line Hx Hl. unfold log_call, make_record in Hl. case_decide; simpl in Hl; [|done].
    injection Hl as <-. by rewrite context_filter_union, !lookup_union, Hx, Hr, Hc. }
  unfold cron_job. fold run_id. fold context. pose proof (Hlogs context s) as Hin.
  destruct (func context s) as [records [[a|e] s']] eqn:Hf; simpl in Hin.
  - split_and!; [done| |done]. intros line (extra & Hl & Hx)%Hin. by eapply Hline.
  - set (fail := {[ "event" := VStr "cron_failed" ]} : attrs).
    assert (Hd : dom fail ∩ (RESERVED ∪ dom built_in) = ∅).
    { unfold fail. apply not_elem_of_dom in He. rewrite dom_singleton_L. unfold RESERVED. apply elem_of_equiv_empty_L.
      intros k. rewrite elem_of_intersection, !elem_of_union, !elem_of_singleton. naive_solver. }
    assert (Hlog : log_call context built_in fail = Ok ((fail ∪ built_in) ∪ context)).
    { unfold log_call, make_record. rewrite decide_True by done. simpl. by rewrite context_filter_union. }
    rewrite Hlog. split_and!; [done| |].
    + intros line [Hl|Hl]%elem_of_app.
      * apply Hin in Hl as (extra & Hl & Hx). by eapply Hline.
      * apply list_elem_of_singleton in Hl as ->. eapply Hline; [|done].
        unfold fail. by rewrite lookup_singleton_ne.
    + intros e' _. eexists. split_and!; [by rewrite last_snoc| |].
      * unfold fail. apply lookup_union_Some_l, lookup_union_Some_l. by rewrite lookup_singleton_eq.
      * unfold fail. rewrite !lookup_union, lookup_singleton_ne, Hj by done. by destruct (built_in !! "job").
Qed.
End wrapper.

(** ** The cron table *)

(** An entry runs at every hour it names (every one when it names none), in the
    minutes it names. *)
Record cron : Type := mk_cron { cj_name : string; cj_hour : option Z; cj_minute : list Z }.

Definition every_minute (name : string) : cron := mk_cron name None (zrange 0 60).
Definition nightly (name : string) (hour minute : Z) : cron := mk_cron name (Some hour) [minute].
Definition every_five (name : string) : cron := mk_cron name None ((λ i, 5 * i) <$> zrange 0 12).

(** [WorkerSettings.max_jobs], [WorkerSettings.cron_jobs] *)
Definition max_jobs : Z := 4.
Definition cron_jobs : list cron := [
  every_minute "expire_pending_orders";
  every_minute "expire_abandoned_payments";
  nightly "purge_expired_refresh_tokens" 3 0;
  every_minute "consume_audit_events";
  every_minute "reclaim_stale_order_intents";
  every_minute "process_outbox";
  every_minute "report_queue_depth";
  every_minute "publish_prewarm_signal";
  nightly "ensure_audit_log_partitions" 2 15;
  nightly "purge_old_audit_logs" 2 30;
  nightly "purge_old_stripe_events" 2 45;
  nightly "purge_processed_outbox" 3 15;
  every_five "detect_inventory_drift";
  every_five "detect_seat_structure_drift";
  nightly "purge_finished_event_keys" 3 30;
  mk_cron "rewrap_pii_keks" None [5; 20; 35; 50] ].

Definition due_jobs (hour minute : Z) : list string :=
  cj_name <$> filter (λ c, default hour (cj_hour c) = hour ∧ minute ∈ cj_minute c) cron_jobs.

(** What is checked of every minute of the day. *)
Definition minute_load_ok (hour minute : Z) : bool :=
  let n := Z.of_nat (List.length (due_jobs hour minute)) in
  (7 <=? n) && (n <=? 10) && (bool_decide (minute mod 5 = 0) || (n =? 7)).

(** The load the table puts on the worker: seven jobs in any minute, never more
    than ten, and more than seven only every fifth minute.  The breaker's report,
    the outbox relay and the recovery of intents are among them every minute. *)
Theorem worker_load hour minute :
  0 <= hour < 24 → 0 <= minute < 60 →
  (7 <= List.length (due_jobs hour minute) <= 10)%nat ∧
  (minute mod 5 ≠ 0 → List.length (due_jobs hour minute) = 7%nat) ∧
  (∀ j, j ∈ ["report_queue_depth"; "process_outbox"; "reclaim_stale_order_intents"] → j ∈ due_jobs hour minute).
Proof.
  intros Hh Hm.
  assert (Hall : forallb (λ h, forallb (minute_load_ok h) (zrange 0 60)) (zrange 0 24) = true) by by vm_compute.
  rewrite forallb_forall in Hall.
  assert (Hok : minute_load_ok hour minute = true).
  { specialize (Hall hour). rewrite forallb_forall in Hall.
    apply Hall; apply list_elem_of_In, elem_of_seqZ; lia. }
  unfold minute_load_ok in Hok. rewrite !andb_true_iff, orb_true_iff, bool_decide_eq_true in Hok. split_and!; [lia..|].
  intros j Hj. apply list_elem_of_fmap.
  exists (every_minute j). split; [done|]. apply list_elem_of_filter. split.
  - split; [done|]. simpl. apply elem_of_seqZ. lia.
  - apply list_elem_of_In in Hj as [<-|[<-|[<-|[]]]]; by repeat constructor.
Qed.

(** The maintenance window of a night, in the order of the clock. *)
Example night_shift :
  (λ p : Z * Z, filter (λ j, j ∉ due_jobs 12 p.2) (due_jobs p.1 p.2)) <$>
    [(2, 15); (2, 30); (2, 45); (3, 0); (3, 15); (3, 30)] =
  [["ensure_audit_log_partitions"]; ["purge_old_audit_logs"]; ["purge_old_stripe_events"];
   ["purge_expired_refresh_tokens"]; ["purge_processed_outbox"]; ["purge_finished_event_keys"]].
Proof. by vm_compute. Qed.

(** ** Maintenance jobs *)

(** A job that commits what it did or rolls it back, and reports neither. *)
Definition commit_or_log {S A} (m : M S exn A) : M S exn unit := λ s,
  match m s with (Ok _, s') => (Ok tt, s') | (Err _, _) => (Ok tt, s) end.

(** [purge_old_stripe_events], [purge_expired_refresh_tokens] *)
Definition purge_old_stripe_events (s : Settings) (now : Z) : M DB exn unit :=
  commit_or_log (purge_events_older_than (cutoff_for (STRIPE_EVENT_RETENTION_DAYS s) now)).
Definition purge_expired_refresh_tokens (now : Z) : M AuthDb exn unit :=
  commit_or_log (purge_expired now).

(** The nightly purge never makes a payment event new again while Stripe may
    still send it: with settings that load, an event received in the last week
    (Stripe resends for three days) is still told apart as a duplicate. *)
Theorem purge_keeps_recent_events s0 s now d id ty received tx_now :
  load_settings s0 = Ok s → d_stripe d !! id = Some (ty, received) → now - received <= 7 * 86400000 →
  let '(r, d') := purge_old_stripe_events s now d in
  r = Ok tt ∧ claim_event id ty tx_now d' = (Ok false, d').
Proof.
  intros (_ & Hb & _)%load_settings_guards Hd Hage. unfold purge_old_stripe_events, commit_or_log,
    purge_events_older_than, claim_event, cutoff_for. simpl. split; [done|].
  unfold field_bounds in Hb. rewrite !andb_true_iff in Hb.
  assert (7 <= STRIPE_EVENT_RETENTION_DAYS s) by lia.
  rewrite (proj2 (map_lookup_filter_Some _ _ id (ty, received))); [done|].
  split; [done|]. simpl. lia.
Qed.

Lemma purge_keeps_recent_events_run :
  let d := set_stripe {[ "evt_1" := ("payment_intent.succeeded", 0) ]} empty_db in
  let '(r, d') := purge_old_stripe_events (default_settings "whsec") (3 * 86400000) d in
  r = Ok tt ∧ claim_event "evt_1" "payment_intent.succeeded" (3 * 86400000) d' = (Ok false, d').
Proof.
  apply (purge_keeps_recent_events (default_settings "whsec") _ _ _ _ _ 0); [by vm_compute|done|lia].
Qed.

(** ** Consumer groups and the long-lived consumer *)

(** A key that may hold a stream, and the stream its group. *)
Inductive stream_key : Type :=
  | NoStream
  | Ungrouped (entries : list (sid * fields)) (last_id : sid)
  | Grouped (st : Stream).

(** [XGROUP CREATE key group 0 MKSTREAM]: the group starts before the first entry. *)
Definition xgroup_create (k : stream_key) : (string + unit) * stream_key :=
  match k with
  | NoStream => (inr tt, Grouped empty_stream)
  | Ungrouped entries last_id => (inr tt, Grouped (mk_stream entries last_id (0, 0) ∅))
  | Grouped _ => (inl "BUSYGROUP Consumer Group name already exists", k)
  end.

(** [needle in text] *)
Definition has_text (needle text : string) : bool := is_some (String.index 0 needle text).

(** [ensure_consumer_group]; [inl] is the error it raises again. *)
Definition ensure_consumer_group (k : stream_key) : (string + unit) * stream_key :=
  match xgroup_create k with
  | (inl e, k') => if has_text "BUSYGROUP" e then (inr tt, k') else (inl e, k')
  | done_ => done_
  end.

(** [startup]: the audit group, then the order group; both processes ensure the
    order group. *)
Definition startup (audit orders : stream_key) : (string + unit) * (stream_key * stream_key) :=
  match ensure_consumer_group audit with
  | (inl e, audit) => (inl e, (audit, orders))
  | (inr _, audit) => let '(r, orders) := ensure_consumer_group orders in (r, (audit, orders))
  end.

(** Processes start in any order and any number of times: a group that is there is
    left as it is, with its cursor and what is pending in it, and one that is
    created later still hands out the entries that were sent before it. *)
Theorem ensure_consumer_group_twice k :
  ∃ st, ensure_consumer_group k = (inr tt, Grouped st) ∧
    ensure_consumer_group (Grouped st) = (inr tt, Grouped st) ∧
    (∀ st0, k = Grouped st0 → st = st0) ∧
    (∀ entries last_id now consumer, k = Ungrouped entries last_id →
       (∀ e, e ∈ entries → sid_ltb (0, 0) e.1 = true) →
       (xreadgroup now consumer (List.length entries) st).1 = entries).
Proof.
  destruct k as [|entries last_id|st]; eexists; (split_and!; [reflexivity|reflexivity|..]); try congruence.
  intros ? ? now consumer [= <- <-] Hids. unfold xreadgroup. simpl.
  replace (filter (λ e : sid * fields, sid_ltb (0, 0) e.1 = true) entries) with entries; [by rewrite firstn_all|].
  clear -Hids. induction entries as [|e entries IH]; [done|].
  rewrite filter_cons_True by (apply Hids; by left). f_equal. apply IH. intros e' He. apply Hids. by right.
Qed.

Definition ORDER_LOOP_CONSUMER_NAME : string := "stream-consumer".

(** One turn of [run_order_consumer_loop]; [false]: the batch raised, the error was
    logged and the loop slept. *)
Definition consumer_turn (x : faults) (tx_now : Z) : M World exn bool :=
  try_catch (consume_batch x tx_now ORDER_LOOP_CONSUMER_NAME ;;; ret true) (λ _, ret false).

(** [run_order_consumer_loop]: [turns] gives the database's moods and the clock of
    each turn until the stop event is found set, and what the other processes did to the world before it. *)
Fixpoint run_order_consumer_loop (turns : list (faults * Z * (World → World))) : M World exn (list bool) :=
  match turns with
  | [] => ret []
  | (x, tx_now, others) :: turns =>
      modify others ;;;
      let! ok := consumer_turn x tx_now in
      let! rest := run_order_consumer_loop turns in
      ret (ok :: rest)
  end.

(** The loop outlives every error: it ends only with the stop event, after a turn
    per check of it, and what a batch and the other processes keep, it keeps. *)
Theorem consumer_loop_survives (P : World → Prop) turns w :
  (∀ x tx_now, keeps P (consume_batch x tx_now ORDER_LOOP_CONSUMER_NAME)) →
  (∀ turn, turn ∈ turns → ∀ w, P w → P (turn.2 w)) → P w →
  ∃ oks w', run_order_consumer_loop turns w = (Ok oks, w') ∧ List.length oks = List.length turns ∧ P w'.
Proof.
  intros Hbatch. revert w. induction turns as [|[[x tx_now] others] turns IH]; intros w Hothers Hw; [by exists [], w|].
  assert (Hw1 : P (others w)) by (apply (Hothers (x, tx_now, others)); [left|done]).
  pose proof (Hbatch x tx_now _ Hw1) as Hw2.
  assert (Hturn : ∃ ok, consumer_turn x tx_now (others w) =
    (Ok ok, (consume_batch x tx_now ORDER_LOOP_CONSUMER_NAME (others w)).2)).
  { unfold consumer_turn, try_catch, bind, ret.
    destruct (consume_batch _ _ _ _) as [[n|e] w2]; by eexists. }
  destruct Hturn as [ok Hturn].
  destruct (IH (consume_batch x tx_now ORDER_LOOP_CONSUMER_NAME (others w)).2) as (oks & w' & Hrun & Hlen & Hw');
    [intros turn Ht; apply Hothers; by right|done|].
  exists (ok :: oks), w'. split_and!; [|by simpl; rewrite Hlen|done].
  simpl. unfold bind, modify. rewrite Hturn, Hrun. done.
Qed.

(** ** The job of the abandoned payments *)

Section abandoned.
Context (built_in : attrs) (api : StripeApi) (t : clocks) (seen : Z → DB).

(** What the job writes down of a sweep. *)
Definition sweep_summary (r : AbandonedPaymentSweep) : attrs :=
  {[ "expired" := VInt (sw_expired r); "awaiting_webhook" := VInt (sw_awaiting_webhook r);
     "in_flight" := VInt (sw_in_flight r); "missing" := VInt (sw_missing r); "errors" := VInt (sw_errors r) ]}.

Definition any_settled (r : AbandonedPaymentSweep) : bool :=
  existsb (λ n, negb (n =? 0)) [sw_expired r; sw_awaiting_webhook r; sw_in_flight r; sw_missing r; sw_errors r].

(** Its one line, or none in a minute that found nothing. *)
Definition sweep_line (context : attrs) (r : AbandonedPaymentSweep) : option (result exn attrs) :=
  if sw_capped r then Some (alert context built_in "abandoned_sweep_capped" (sweep_summary r))
  else if any_settled r then
    Some (log_call context built_in (<["event" := VStr "abandoned_sweep"]> (sweep_summary r)))
  else None.

(** [expire_abandoned_payments] of worker.py, inside its wrapper. *)
Definition expire_abandoned_payments_job (s : Settings) (now : Z) : Job Shop AbandonedPaymentSweep :=
  λ context shop,
    match expire_abandoned_payments api t seen (now - PAYMENT_ABANDON_TIMEOUT_MINUTES s * 60000) ABANDON_BATCH shop with
    | (Err e, shop) => ([], (Err e, shop))
    | (Ok r, shop) =>
        match sweep_line context r with
        | None => ([], (Ok r, shop))
        | Some (Ok line) => ([line], (Ok r, shop))
        | Some (Err e) => ([], (Err e, shop))
        end
    end.

(** A computation that raises nothing. *)
Definition returns {S E A} (m : M S E A) : Prop := ∀ x, ∃ a x', m x = (Ok a, x').

Lemma returns_ret {S E A} (a : A) : returns (E := E) (S := S) (ret a).
Proof. intros x. by exists a, x. Qed.
Lemma returns_bind {S E A B} (m : M S E A) (f : A → M S E B) :
  returns m → (∀ a, returns (f a)) → returns (bind m f).
Proof. intros Hm Hf x. unfold bind. destruct (Hm x) as (a & x' & ->). apply Hf. Qed.
Lemma returns_try {S E A} (m : M S E A) (h : E → M S E A) : (∀ e, returns (h e)) → returns (try_catch m h).
Proof. intros Hh x. unfold try_catch. destruct (m x) as [[a|e] x']; [by exists a, x'|apply Hh]. Qed.

Lemma settle_one_returns order_id intent_id : returns (settle_one api t seen order_id intent_id).
Proof.
  apply returns_bind.
  { unfold cancel_payment_intent. apply returns_bind; [intros x; by eexists _, _|]. intros _.
    destruct (cancel_async _ _ _) as [st|[code carried|]]; try apply returns_ret.
    destruct (negb _); [apply returns_ret|]. destruct carried; [apply returns_ret|].
    apply returns_bind; [intros x; by eexists _, _|]. intros _. apply returns_ret. }
  intros [st|[code carried|]]; [|destruct (bool_decide _); apply returns_ret|apply returns_ret].
  destruct (bool_decide (st = Succeeded)); [apply returns_ret|].
  destruct (negb (bool_decide (st = Canceled))); [apply returns_ret|].
  apply returns_bind; [apply returns_try; intros; apply returns_ret|].
  intros [[order|]|]; try apply returns_ret.
  apply returns_bind; [apply returns_try; intros; apply returns_ret|intros; apply returns_ret].
Qed.

Lemma count_settled_capped r w : sw_capped (count_settled r w) = sw_capped w.
Proof. by destruct w, r. Qed.

Lemma settle_all_returns rows w shop :
  ∃ r shop', settle_all api t seen rows w shop = (Ok r, shop') ∧ sw_capped r = sw_capped w.
Proof.
  revert w shop. induction rows as [|o rows IH]; intros w shop; [by exists w, shop|]. cbn [settle_all]. unfold bind.
  destruct (settle_one_returns (o_id o) (default EmptyString (o_payment o)) shop) as (r & shop' & ->).
  destruct (IH (count_settled r w) shop') as (r' & shop'' & -> & Hc). rewrite count_settled_capped in Hc. by exists r', shop''.
Qed.

(** The orders the job should look at. *)
Definition abandoned (cutoff : Z) (d : DB) : list Order :=
  filter (λ o, paying cutoff o = true) (map_to_list (d_orders d)).*2.

(** The attributes of the job's line; a logging call sets none of them itself. *)
Definition sweep_keys : list string :=
  ["event"; "needs_human"; "expired"; "awaiting_webhook"; "in_flight"; "missing"; "errors"].

Lemma log_sweep context extra :
  Forall (λ k, built_in !! k = None) sweep_keys → dom extra ⊆ list_to_set sweep_keys →
  log_call context built_in extra = Ok ((extra ∪ built_in) ∪ context).
Proof.
  intros Hb Hd. unfold log_call, make_record. rewrite decide_True; [simpl; by rewrite context_filter_union|].
  apply elem_of_equiv_empty_L. intros k [Hk Hk']%elem_of_intersection. apply Hd, elem_of_list_to_set in Hk.
  rewrite Forall_forall in Hb. pose proof (Hb k Hk) as Hn. apply elem_of_union in Hk' as [Hr|Hin].
  - clear -Hk Hr. unfold RESERVED in Hr. apply elem_of_union in Hr as [Hr|Hr]; apply elem_of_singleton in Hr as ->;
      repeat (apply elem_of_cons in Hk as [Hk|Hk]; [done|]); by apply elem_of_nil in Hk.
  - by apply not_elem_of_dom in Hn.
Qed.

Lemma sweep_summary_dom r : dom (sweep_summary r) ⊆ list_to_set sweep_keys.
Proof.
  intros k. unfold sweep_summary. rewrite !dom_insert, dom_singleton, elem_of_list_to_set, !elem_of_union, !elem_of_singleton.
  intros H. unfold sweep_keys. rewrite !elem_of_cons. tauto.
Qed.

(** The job never fails, whatever Stripe answers and whatever the settlements run
    into; and when more orders wait than one run takes, it says so with a line the
    alarm for people picks up: a backlog never looks like a quiet minute. *)
Theorem abandoned_backlog_is_loud s now context shop :
  Forall (λ k, built_in !! k = None) sweep_keys →
  let cutoff := now - PAYMENT_ABANDON_TIMEOUT_MINUTES s * 60000 in
  let '(records, (r, shop')) := expire_abandoned_payments_job s now context shop in
  is_ok r = true ∧
  ((ABANDON_BATCH < List.length (abandoned cutoff (w_db (sh_world shop))))%nat →
   ∃ line, records = [line] ∧ line !! "needs_human" = Some (VBool true) ∧
     line !! "event" = Some (VStr "abandoned_sweep_capped")).
Proof.
  intros Hb cutoff. unfold expire_abandoned_payments_job. fold cutoff.
  unfold expire_abandoned_payments, bind, get. set (rows := abandoned_rows _ _ _).
  destruct (settle_all_returns (take ABANDON_BATCH rows) (mk_sweep 0 0 0 0 0 (ABANDON_BATCH <? List.length rows)%nat) shop)
    as (r & shop' & -> & Hc). cbn [sw_capped] in Hc.
  assert (Hrows : List.length rows = Nat.min (S ABANDON_BATCH) (List.length (abandoned cutoff (w_db (sh_world shop))))).
  { unfold rows, abandoned_rows, abandoned. by rewrite length_take, isort_perm. }
  assert (Hevent : dom (<["event" := VStr "abandoned_sweep"]> (sweep_summary r)) ⊆ list_to_set sweep_keys).
  { rewrite dom_insert. apply union_subseteq. split; [|apply sweep_summary_dom].
    apply singleton_subseteq_l, elem_of_list_to_set. unfold sweep_keys. left. }
  assert (Halert : dom (alert_extra "abandoned_sweep_capped" (sweep_summary r)) ⊆ list_to_set sweep_keys).
  { unfold alert_extra. rewrite dom_union. apply union_subseteq. split; [apply sweep_summary_dom|].
    rewrite dom_insert, dom_singleton. intros k. rewrite elem_of_union, !elem_of_singleton, elem_of_list_to_set.
    unfold sweep_keys. intros [->| ->]; [left|right; left]. }
  unfold sweep_line, alert. destruct (sw_capped r) eqn:Hcap.
  - rewrite log_sweep by done. split; [done|]. intros _. eexists. split; [done|].
    split; apply lookup_union_Some_l, lookup_union_Some_l; unfold alert_extra, sweep_summary; by simplify_map_eq.
  - assert (Hfew : ¬ (ABANDON_BATCH < List.length (abandoned cutoff (w_db (sh_world shop))))%nat).
    { symmetry in Hc. apply Nat.ltb_ge in Hc. lia. }
    by destruct (any_settled r); [rewrite log_sweep by done|].
Qed.
End abandoned.
End Jobs.

Module Health.

(** How a probed call ends: after how many milliseconds, with an answer or with an
    exception of a type and text; [None]: it never does. *)
Definition Call : Type := option (Z * option (string * string)).

Definition DEPS_PROBE_TIMEOUT_MS : Z := 2000.

(** [probe]: the text of the check and when it is there.  [asyncio.TimeoutError] has
    no text of its own. *)
Definition probe (c : Call) : string * Z :=
  let report (e : string * string) := String.substring 0 200 (e.1 +:+ ": " +:+ e.2) in
  let timed_out := (report ("TimeoutError", ""), DEPS_PROBE_TIMEOUT_MS) in
  match c with
  | None => timed_out
  | Some (t, answer) =>
      if t <? DEPS_PROBE_TIMEOUT_MS then
        (match answer with None => "ok" | Some e => report e end, t)
      else timed_out
  end.

Record JSONResponse : Type := mk_json_response {
  jr_status_code : Z; jr_status : string; jr_checks : list (string * string);
}.

(** [health] *)
Definition health : Z * list (string * string) := (200, [("status", "ok")]).

(** [health_deps] with its two calls; the answer and when it is sent. *)
Definition health_deps (postgres redis : Call) : JSONResponse * Z :=
  let p := probe postgres in
  let r := probe redis in
  let results := [("postgres", p.1); ("redis", r.1)] in
  let healthy := forallb (λ v : string * string, bool_decide (v.2 = "ok")) results in
  (mk_json_response (if healthy then 200 else 503) (if healthy then "ok" else "degraded") results,
   Z.max p.2 r.2).

Definition answered (c : Call) : Prop := ∃ t, c = Some (t, None) ∧ t < DEPS_PROBE_TIMEOUT_MS.

(** No report of an exception reads "ok", whatever the exception says. *)
Lemma report_is_not_ok a b : String.substring 0 200 (a +:+ ": " +:+ b) ≠ "ok".
Proof.
  by destruct a as [|c [|c' [|c'' a]]].
Qed.

Lemma probe_ok c : (probe c).1 = "ok" ↔ answered c.
Proof.
  unfold probe, answered. split.
  - destruct c as [[t [e|]]|]; [| |done]; (destruct (Z.ltb_spec t DEPS_PROBE_TIMEOUT_MS); [|done]); simpl.
    + intros H'. by apply report_is_not_ok in H'.
    + intros _. by exists t.
  - intros (t & -> & Ht). destruct (Z.ltb_spec t DEPS_PROBE_TIMEOUT_MS); [done|lia].
Qed.

Lemma probe_in_time c : (∀ t a, c = Some (t, a) → 0 <= t) → 0 <= (probe c).2 <= DEPS_PROBE_TIMEOUT_MS.
Proof.
  intros Hc. unfold probe. assert (0 <= DEPS_PROBE_TIMEOUT_MS) by done.
  destruct c as [[t a]|]; simpl; [|lia]. specialize (Hc t a eq_refl).
  destruct (Z.ltb_spec t DEPS_PROBE_TIMEOUT_MS); simpl; lia.
Qed.

(** The probe of the dependencies always answers, within its two seconds even when
    a dependency hangs; it answers 200 exactly when both dependencies answered
    without an exception in that time, and no text of an exception can pass for an
    answer.  The two checks do not hide each other. *)
Theorem health_deps_exact postgres redis :
  (∀ t a, postgres = Some (t, a) → 0 <= t) → (∀ t a, redis = Some (t, a) → 0 <= t) →
  let '(response, sent_at) := health_deps postgres redis in
  0 <= sent_at <= DEPS_PROBE_TIMEOUT_MS ∧
  (jr_status_code response = 200 ↔ answered postgres ∧ answered redis) ∧
  (jr_status_code response = 200 ∨ jr_status_code response = 503) ∧
  (("postgres", "ok") ∈ jr_checks response ↔ answered postgres) ∧
  (("redis", "ok") ∈ jr_checks response ↔ answered redis).
Proof.
  intros Hp Hr. pose proof (probe_in_time _ Hp). pose proof (probe_in_time _ Hr).
  unfold health_deps. rewrite <-!probe_ok.
  destruct (probe postgres) as [p tp], (probe redis) as [r tr]. cbn [fst snd jr_status_code jr_checks forallb] in *.
  split_and!; [lia|lia| | | |].
  - rewrite !andb_true_r. destruct (_ && _) eqn:E; simpl;
      [rewrite andb_true_iff, !bool_decide_eq_true in E; tauto|].
    split; [done|]. intros [-> ->]. done.
  - destruct (_ && _); simpl; auto.
  - rewrite !elem_of_cons, elem_of_nil. split; [|intros ->; by left]. intros [[= <-]|[[=]|[]]]; done.
  - rewrite !elem_of_cons, elem_of_nil. split; [|intros ->; right; by left]. intros [[=]|[[= <-]|[]]]; done.
Qed.

Example redis_hangs :
  health_deps (Some (3, None)) None =
    (mk_json_response 503 "degraded" [("postgres", "ok"); ("redis", "TimeoutError: ")], 2000).
Proof. by vm_compute. Qed.

End Health.

(** ** Making an administrator (src/app/scripts/create_admin.py) *)

Module Admin.
Section script.
Context (hash_password : string → string).

(** The width of the column [users.username]. *)
Definition USERNAME_WIDTH : nat := 64.

(** [create_admin]: the word it prints. *)
Definition create_admin (username password : string) : M AuthDb exn string := λ d,
  match user_by_name d username with
  | None =>
      let i := au_next_user d in
      if (String.length username <=? USERNAME_WIDTH)%nat then
        (Ok "created", set_users (<[i := mk_user i username (hash_password password) true true]> (au_users d)) (i + 1) d)
      else (Err DataError, set_users (au_users d) (i + 1) d)
  | Some u =>
      (Ok "promoted", set_users (<[us_id u := mk_user (us_id u) (us_username u) (us_hashed_password u)
                                                (us_is_active u) true]> (au_users d)) (au_next_user d) d)
  end.

(** Running the script again is safe: afterwards the name belongs to exactly one
    account, an administrator; an account that was there keeps its id, its password
    and whether it is active, and no other account changed.  A name that passes the
    rule of the registration keeps the invariant of the accounts. *)
Theorem create_admin_exact username password d d' action :
  accounts_ok d → create_admin username password d = (Ok action, d') →
  (∃ i u, au_users d' !! i = Some u ∧ us_username u = username ∧ us_is_admin u = true ∧
     (∀ j v, au_users d' !! j = Some v → us_username v = username → j = i) ∧
     (∀ j, j ≠ i → au_users d' !! j = au_users d !! j) ∧
     match au_users d !! i with
     | Some old => action = "promoted" ∧ us_hashed_password u = us_hashed_password old ∧
                   us_is_active u = us_is_active old
     | None => action = "created" ∧ us_hashed_password u = hash_password password ∧ us_is_active u = true
     end) ∧
  (username_ok (list_ascii_of_string username) = true ∨ action = "promoted" → accounts_ok d').
Proof.
  intros [Hids Huniq Hnames]. unfold create_admin. destruct (user_by_name d username) as [u|] eqn:Hx.
  - intros [= <- <-]. apply user_by_name_some in Hx as (i & Hi & Hname).
    destruct (Hids _ _ Hi) as [-> Hlt]. set (u' := mk_user i _ _ _ true). split.
    + exists i, u'. cbn [set_users au_users]. rewrite lookup_insert_eq, Hi. split_and!; try done.
      * intros j v [[<- <-]|[_ Hj]]%lookup_insert_Some Hv; [done|]. by apply (Huniq j i v u); [..|by rewrite Hv].
      * intros j Hj. by apply lookup_insert_ne.
    + intros _. split; cbn [set_users au_users au_next_user].
      * intros j v [[<- <-]|[_ Hj]]%lookup_insert_Some; [done|by apply Hids].
      * intros j k a b [[<- <-]|[_ Hj]]%lookup_insert_Some [[<- <-]|[_ Hk]]%lookup_insert_Some Heq;
          [done|by eapply (Huniq _ _ u)|by eapply (Huniq _ _ _ u)|by eapply Huniq].
      * intros j v [[<- <-]|[_ Hj]]%lookup_insert_Some; [by apply (Hnames _ u)|by apply Hnames].
  - destruct (_ <=? _)%nat; [|done]. intros [= <- <-].
    assert (Hfresh : au_users d !! au_next_user d = None).
    { apply eq_None_not_Some. intros [v Hv]. destruct (Hids _ _ Hv). lia. }
    pose proof (λ i v, user_by_name_none d username i v Hx) as Hno. split.
    + eexists _, _. cbn [set_users au_users]. rewrite lookup_insert_eq, Hfresh. split_and!; try done.
      * intros j v [[<- _]|[_ Hj]]%lookup_insert_Some Hv; [done|]. by destruct (Hno j v).
      * intros j Hj. by apply lookup_insert_ne.
    + intros [Hok|[=]].
      split; cbn.
      * intros j v [[<- <-]|[_ Hj]]%lookup_insert_Some; [simpl; lia|].
        destruct (Hids _ _ Hj). lia.
      * intros j k a b [[<- <-]|[_ Hj]]%lookup_insert_Some [[<- <-]|[_ Hk']]%lookup_insert_Some Heq; simpl in *;
          [done|by destruct (Hno k b)|by destruct (Hno j a)|by eapply Huniq].
      * intros j v [[<- <-]|[_ Hj]]%lookup_insert_Some; [by left|by apply Hnames].
Qed.
End script.

(** The script does not check the name as the registration does.  An administrator
    named like an erased account makes the erasure of that account fail. *)
Lemma admin_name_blocks_erasure :
  let hash pw := "$argon2$" +:+ pw in
  let buyer := mk_user 1 "buyer" "h" true false in
  let d := mk_auth_db {[ 1 := buyer ]} 2 ∅ 1 ∅ in
  let '(r, d') := create_admin hash "erased-user-1" "secret" d in
  r = Ok "created" ∧ (committed (erase_user buyer) d').1 = Err (IntegrityError "ix_users_username").
Proof. by vm_compute. Qed.
End Admin.

(** ** Claims of an access token (src/app/core/security.py) *)

Module AccessTokens.

Inductive claim : Type :=
  | CStr (s : string)
  | CInt (n : Z)
  | CTime (ms : Z).

Definition RESERVED_CLAIMS : gset string := {[ "sub"; "iat"; "exp"; "type" ]}.

(** The payload [create_access_token] signs; signing is the library's. *)
Definition create_access_token (s : Settings) (now : Z) (subject : string) (expires_delta : option Z)
    (extra_claims : option (gmap string claim)) : result exn (gmap string claim) :=
  let expire := match expires_delta with Some d => now + d | None => access_exp s now end in
  let payload : gmap string claim :=
    {[ "sub" := CStr subject; "iat" := CTime now; "exp" := CTime expire; "type" := CStr "access" ]} in
  match extra_claims with
  | None => Ok payload
  | Some extra =>
      if decide (RESERVED_CLAIMS ∩ dom extra = ∅) then Ok (extra ∪ payload) else Err ValueError
  end.

(** Whatever else a caller asks for, a token that is made is an access token of its
    subject from now until it expires, and carries every extra claim. *)
Theorem access_token_claims s now subject expires_delta extra p :
  create_access_token s now subject expires_delta extra = Ok p →
  p !! "sub" = Some (CStr subject) ∧ p !! "type" = Some (CStr "access") ∧ p !! "iat" = Some (CTime now) ∧
  p !! "exp" = Some (CTime (match expires_delta with Some d => now + d | None => access_exp s now end)) ∧
  (∀ k v, default ∅ extra !! k = Some v → p !! k = Some v) ∧
  dom p = RESERVED_CLAIMS ∪ dom (default ∅ extra).
Proof.
  unfold create_access_token. set (expire := match expires_delta with Some d => _ | None => _ end).
  set (payload := {[ "sub" := _; "iat" := _; "exp" := _; "type" := _ ]} : gmap string claim).
  assert (Hp : payload !! "sub" = Some (CStr subject) ∧ payload !! "type" = Some (CStr "access") ∧
    payload !! "iat" = Some (CTime now) ∧ payload !! "exp" = Some (CTime expire)) by (split_and!; done).
  assert (Hdom : dom payload = RESERVED_CLAIMS).
  { unfold payload, RESERVED_CLAIMS. by rewrite !dom_insert_L, dom_singleton_L, !(assoc_L (∪)). }
  destruct Hp as (H1 & H2 & H3 & H4). destruct extra as [extra|]; simpl.
  - destruct (decide _) as [Hd|]; [|done]. intros [= <-].
    assert (Hres : ∀ k v, k ∈ RESERVED_CLAIMS → payload !! k = Some v → (extra ∪ payload) !! k = Some v).
    { intros k v Hk Hv. rewrite lookup_union_r; [done|]. apply not_elem_of_dom. intros Hx.
      assert (Hin : k ∈ RESERVED_CLAIMS ∩ dom extra) by by apply elem_of_intersection.
      rewrite Hd in Hin. by apply elem_of_empty in Hin. }
    split_and!; [apply Hres; [by apply (bool_decide_unpack (_ ∈ RESERVED_CLAIMS))|done]..| |by rewrite dom_union_L, Hdom, union_comm_L].
    intros k v Hk. by apply lookup_union_Some_l.
  - intros [= <-]. split_and!; [done..| |by rewrite Hdom, dom_empty_L, union_empty_r_L].
    intros k v Hk. by rewrite lookup_empty in Hk.
Qed.

End AccessTokens.
