(* ===== verification/SchemaDrift.v ===== *)
(** The schema check of src/app/scripts/check_schema_drift.py: the definitions a
    database holds against those of a fresh one built from the models.

    What the three catalogue queries answer is the state of a database here, a
    list of (table, definition) rows each; the server is a map of databases, and
    what a URL connects to is a parameter. *)

From Stdlib Require Import Ascii String.
From S2P Require Import Prelude.

#[local] Open Scope string_scope.
#[local] Open Scope list_scope.
#[local] Open Scope Z_scope.

(** ** Snapshots *)

Definition IGNORED_TABLES : gset string := {[ "alembic_version" ]}.

Abbreviation Rows := (list (string * string)).
Abbreviation Items := (gmap string (gset string)).

Definition bucket (rows : Rows) : Items :=
  foldl (λ out '(table, item),
    if decide (table ∈ IGNORED_TABLES) then out
    else <[table := {[ item ]} ∪ default ∅ (out !! table)]> out) ∅ rows.

(** ** The report *)

(** [sorted] of a set of strings. *)
Definition sorted_set (s : gset string) : list string := isort String.leb (elements s).

Definition report_line (kind side item : string) : string :=
  "  [" +:+ kind +:+ "] [" +:+ side +:+ "] " +:+ item.

Definition ONLY_DB : string := "只在資料庫裡".
Definition ONLY_MODEL : string := "只在 model 裡".

(** [_report] *)
Definition report (kind : string) (migrated reference : Items) : list string :=
  table ← sorted_set (dom migrated ∪ dom reference);
  let a := default ∅ (migrated !! table) in
  let b := default ∅ (reference !! table) in
  (report_line kind ONLY_DB <$> sorted_set (a ∖ b)) ++ (report_line kind ONLY_MODEL <$> sorted_set (b ∖ a)).

(** ** The run *)

Record Catalog : Type := mk_catalog { ct_indexes : Rows; ct_options : Rows; ct_triggers : Rows }.
Definition empty_catalog : Catalog := mk_catalog [] [] [].

Abbreviation Server := (gmap string Catalog).
Inductive db_error : Type := NoDatabase | DuplicateDatabase.

Fixpoint rsplit (sep : ascii) (l : list ascii) : option (list ascii * list ascii) :=
  match l with
  | [] => None
  | c :: l' =>
      match rsplit sep l' with
      | Some (a, b) => Some (c :: a, b)
      | None => if Ascii.eqb c sep then Some ([], l') else None
      end
  end.

(** [base, _, name = url.rpartition(sep)] *)
Definition rpartition (sep : ascii) (url : string) : string * string :=
  match rsplit sep (list_ascii_of_string url) with
  | Some (a, b) => (string_of_list_ascii a, string_of_list_ascii b)
  | None => ("", url)
  end.

Section run.
Context (connect : string → option string).     (* the database a URL names *)
Context (create_all : Catalog → Catalog).       (* Base.metadata.create_all *)

(** [create_async_engine(url).connect()] *)
Definition session (url : string) : M Server db_error string := λ sv,
  match connect url with
  | Some n => if decide (n ∈ dom sv) then (Ok n, sv) else (Err NoDatabase, sv)
  | None => (Err NoDatabase, sv)
  end.

Definition create_database (name : string) : M Server db_error unit := λ sv,
  if decide (name ∈ dom sv) then (Err DuplicateDatabase, sv) else (Ok tt, <[name := empty_catalog]> sv).

(** [_snapshot] *)
Definition snapshot (url : string) : M Server db_error (Items * Items * Items) :=
  let! n := session url in
  gets (λ sv : Server, let c := default empty_catalog (sv !! n) in
        (bucket (ct_indexes c), bucket (ct_options c), bucket (ct_triggers c))).

(** [_build_reference], [_drop_reference] *)
Definition build_reference (admin_url ref_url ref_name : string) : M Server db_error unit :=
  let! _ := session admin_url in
  modify (delete ref_name) ;;;
  create_database ref_name ;;;
  let! n := session ref_url in
  modify (λ sv : Server, <[n := create_all (default empty_catalog (sv !! n))]> sv).
Definition drop_reference (admin_url ref_name : string) : M Server db_error unit :=
  let! _ := session admin_url in
  modify (delete ref_name).

(** [try: ... finally: cleanup]: an exception of the cleanup takes over. *)
Definition finally {A} (m : M Server db_error A) (cleanup : M Server db_error unit) : M Server db_error A := λ sv,
  let '(r, sv) := m sv in
  match cleanup sv with (Ok _, sv) => (r, sv) | (Err e, sv) => (Err e, sv) end.

(** [main]: the exit code and the lines of the report. *)
Definition main (url : string) : M Server db_error (Z * list string) :=
  let '(base, db_name) := rpartition "/"%char url in
  let ref_name := db_name +:+ "_indexref" in
  let ref_url := base +:+ "/" +:+ ref_name in
  let admin_url := base +:+ "/postgres" in
  build_reference admin_url ref_url ref_name ;;;
  let! snapshots := finally (let! db := snapshot url in let! ref := snapshot ref_url in ret (db, ref))
                            (drop_reference admin_url ref_name) in
  let '((db_indexes, db_options, db_triggers), (ref_indexes, ref_options, ref_triggers)) := snapshots in
  let problems := report "索引" db_indexes ref_indexes ++ report "儲存參數" db_options ref_options ++
                  report "trigger" db_triggers ref_triggers in
  ret (if bool_decide (problems = []) then 0 else 1, problems).
End run.

(** ** What the buckets hold *)

Definition row_items (rows : Rows) (table : string) : gset string :=
  if decide (table ∈ IGNORED_TABLES) then ∅ else list_to_set (snd <$> filter (λ r, r.1 = table) rows).

Lemma elem_of_row_items rows table item :
  item ∈ row_items rows table ↔ (table ∉ IGNORED_TABLES) ∧ (table, item) ∈ rows.
Proof.
  unfold row_items. case_decide as Hi; [by split; [intros ?%elem_of_empty|intros [? _]]|]. rewrite elem_of_list_to_set, list_elem_of_fmap.
  setoid_rewrite list_elem_of_filter. split.
  - intros ([t i] & -> & Ht & Hr). simpl in *. by subst.
  - intros [_ Hr]. by exists (table, item).
Qed.

Lemma bucket_items rows table : default ∅ (bucket rows !! table) = row_items rows table.
Proof.
  unfold bucket. induction rows as [|[t i] rows IH] using rev_ind.
  - simpl. rewrite lookup_empty. apply set_eq. intros x. rewrite elem_of_row_items.
    by split; [intros ?%elem_of_empty|intros [_ ?%elem_of_nil]].
  - rewrite foldl_app. simpl. apply set_eq. intros x. rewrite elem_of_row_items, elem_of_app, list_elem_of_singleton.
    destruct (decide (t ∈ IGNORED_TABLES)) as [Hi|Hi].
    + rewrite IH, elem_of_row_items. naive_solver.
    + destruct (decide (t = table)) as [->|Hne].
      * rewrite lookup_insert_eq. simpl. rewrite IH, elem_of_union, elem_of_singleton, elem_of_row_items. naive_solver.
      * rewrite lookup_insert_ne, IH, elem_of_row_items by done. naive_solver.
Qed.

Lemma elem_of_sorted_items s x : x ∈ sorted_set s ↔ x ∈ s.
Proof. unfold sorted_set. by rewrite elem_of_isort, elem_of_elements. Qed.

(** A line of the report is a definition that one side has and the other has not. *)
Lemma elem_of_report kind m r line :
  line ∈ report kind m r ↔ ∃ table item,
    (item ∈ default ∅ (m !! table) ∧ (item ∉ default ∅ (r !! table)) ∧ line = report_line kind ONLY_DB item) ∨
    (item ∈ default ∅ (r !! table) ∧ (item ∉ default ∅ (m !! table)) ∧ line = report_line kind ONLY_MODEL item).
Proof.
  assert (Hdom : ∀ (x : Items) table item, item ∈ default ∅ (x !! table) → table ∈ dom x).
  { intros x table item. rewrite elem_of_dom. destruct (x !! table); [by eexists|set_solver]. }
  unfold report. rewrite list_elem_of_bind. split.
  - intros (table & Hline & _). exists table.
    apply elem_of_app in Hline as [(item & -> & Hi)%list_elem_of_fmap|(item & -> & Hi)%list_elem_of_fmap];
      apply elem_of_sorted_items, elem_of_difference in Hi; exists item; naive_solver.
  - intros (table & item & H). exists table. rewrite elem_of_sorted_items, elem_of_union, elem_of_app, !list_elem_of_fmap.
    setoid_rewrite elem_of_sorted_items. setoid_rewrite elem_of_difference.
    destruct H as [(? & ? & ->)|(? & ? & ->)]; split; eauto 6.
Qed.

Lemma report_nil kind m r : report kind m r = [] ↔ ∀ table, default ∅ (m !! table) = default ∅ (r !! table).
Proof.
  split.
  - intros H table. apply set_eq. intros x.
    assert (Hno : ∀ line, line ∉ report kind m r) by (rewrite H; intros ? []%elem_of_nil).
    split; intros Hx; apply dec_stable; intros Hn.
    + apply (Hno (report_line kind ONLY_DB x)), elem_of_report. exists table, x. auto.
    + apply (Hno (report_line kind ONLY_MODEL x)), elem_of_report. exists table, x. auto.
  - intros H. destruct (report kind m r) as [|line l] eqn:E; [done|].
    assert (Hin : line ∈ report kind m r) by (rewrite E; left).
    apply elem_of_report in Hin as (table & item & [(H1 & H2 & _)|(H1 & H2 & _)]); by rewrite H in *.
Qed.

(** ** The run *)

(** The part after the last separator, when it is the only one in it. *)
Lemma rsplit_last sep a b : (sep ∉ b) → rsplit sep (a ++ sep :: b) = Some (a, b).
Proof.
  intros Hb. assert (Hnone : rsplit sep b = None).
  { induction b as [|c b IH]; [done|]. simpl. rewrite IH by (intros ?; apply Hb; by right).
    destruct (Ascii.eqb_spec c sep) as [->|]; [|done]. destruct Hb. left. }
  induction a as [|c a IH]; simpl; [|by rewrite IH]. by rewrite Hnone, Ascii.eqb_refl.
Qed.

Lemma ascii_list_app s1 s2 : list_ascii_of_string (s1 +:+ s2) = list_ascii_of_string s1 ++ list_ascii_of_string s2.
Proof. induction s1 as [|c s1 IH]; [done|]. simpl. by rewrite <-IH. Qed.

Lemma rpartition_url base name :
  ("/"%char ∉ list_ascii_of_string name) → rpartition "/"%char (base +:+ "/" +:+ name) = (base, name).
Proof.
  intros Hn. unfold rpartition. rewrite !ascii_list_app. simpl.
  by rewrite rsplit_last, !string_of_list_ascii_of_string.
Qed.

(** A database name that stands as it is in a URL. *)
Definition plain (name : string) : bool :=
  forallb (λ c, negb (Ascii.eqb c "/"%char) && negb (Ascii.eqb c "?"%char)) (list_ascii_of_string name).

Lemma plain_name_app a b : plain (a +:+ b) = plain a && plain b.
Proof. unfold plain. by rewrite ascii_list_app, forallb_app. Qed.

Lemma plain_no_slash name : plain name = true → "/"%char ∉ list_ascii_of_string name.
Proof.
  unfold plain. rewrite forallb_forall. intros H Hin. apply list_elem_of_In in Hin.
  specialize (H _ Hin). done.
Qed.

Lemma reference_is_another name other : String.length other = 8%nat ∨ other = name → name +:+ "_indexref" ≠ other.
Proof.
  assert (Hlen : String.length (name +:+ "_indexref") = (String.length name + 9)%nat).
  { induction name as [|c name IH]; [done|]. simpl. by rewrite <-IH. }
  intros H <-. rewrite Hlen in H. destruct H as [H|H]; [lia|]. rewrite H in Hlen at 1. lia.
Qed.

(** The definitions of both databases agree, table by table. *)
Definition same_schema (a b : Catalog) : Prop :=
  ∀ table, row_items (ct_indexes a) table = row_items (ct_indexes b) table ∧
           row_items (ct_options a) table = row_items (ct_options b) table ∧
           row_items (ct_triggers a) table = row_items (ct_triggers b) table.

Lemma buckets_same a b :
  report "索引" (bucket (ct_indexes a)) (bucket (ct_indexes b)) ++
  report "儲存參數" (bucket (ct_options a)) (bucket (ct_options b)) ++
  report "trigger" (bucket (ct_triggers a)) (bucket (ct_triggers b)) = [] ↔ same_schema a b.
Proof.
  unfold same_schema. rewrite !app_nil, !report_nil. setoid_rewrite bucket_items. naive_solver.
Qed.

(** The check answers 0 exactly when every table but Alembic's has the same index
    definitions, storage parameters and triggers in the database as in one built
    from the models, and 1 otherwise; it leaves the databases as they were, but for
    its reference, which is gone, also when a crashed run had left one. *)
Theorem schema_check_exact connect create_all (base name : string) (db : Catalog) (sv : Server) :
  (∀ n, plain n = true → connect (base +:+ "/" +:+ n) = Some n) →
  plain name = true → sv !! name = Some db → "postgres" ∈ dom sv →
  ∃ code problems, main connect create_all (base +:+ "/" +:+ name) sv =
      (Ok (code, problems), delete (name +:+ "_indexref") sv) ∧
    (code = 0 ∨ code = 1) ∧ (code = 0 ↔ same_schema db (create_all empty_catalog)).
Proof.
  intros Hconn Hplain Hdb Hadm. set (ref := name +:+ "_indexref").
  assert (Href : plain ref = true) by by (unfold ref; rewrite plain_name_app, Hplain).
  assert (Hr1 : ref ≠ "postgres") by (apply reference_is_another; by left).
  assert (Hr2 : ref ≠ name) by (apply reference_is_another; by right).
  set (model := create_all empty_catalog). set (sv1 := <[ref := model]> (delete ref sv) : Server).
  assert (Hopen : ∀ n x, plain n = true → n ∈ dom x → session connect (base +:+ "/" +:+ n) x = (Ok n, x)).
  { intros n x Hn Hx. unfold session. by rewrite Hconn, decide_True. }
  assert (Hopen_admin : ∀ x, "postgres" ∈ dom x → session connect (base +:+ "/postgres") x = (Ok "postgres", x)).
  { intros x. by apply (Hopen "postgres"). }
  assert (Hbuild : build_reference connect create_all (base +:+ "/postgres") (base +:+ "/" +:+ ref) ref sv = (Ok tt, sv1)).
  { unfold build_reference, bind. rewrite Hopen_admin by done. simpl. unfold create_database.
    rewrite decide_False by (rewrite dom_delete_L; set_solver). simpl.
    rewrite (Hopen ref _ Href) by (rewrite dom_insert_L; set_solver). simpl. unfold modify. f_equal.
    by rewrite lookup_insert_eq, insert_insert_eq. }
  assert (Hsnap : ∀ n c, plain n = true → sv1 !! n = Some c →
    snapshot connect (base +:+ "/" +:+ n) sv1 =
      (Ok (bucket (ct_indexes c), bucket (ct_options c), bucket (ct_triggers c)), sv1)).
  { intros n c Hn Hc. unfold snapshot, bind. rewrite Hopen by (done || by apply elem_of_dom). simpl.
    unfold gets. by rewrite Hc. }
  assert (Hdrop : drop_reference connect (base +:+ "/postgres") ref sv1 = (Ok tt, delete ref sv)).
  { unfold drop_reference, bind. rewrite Hopen_admin.
    - simpl. unfold modify, sv1. f_equal. by rewrite delete_insert_eq, delete_delete_eq.
    - apply elem_of_dom in Hadm. apply elem_of_dom. unfold sv1. by rewrite lookup_insert_ne, lookup_delete_ne. }
  unfold main. rewrite rpartition_url by by apply plain_no_slash. fold ref.
  unfold bind at 1. rewrite Hbuild. unfold bind at 1, finally, bind.
  rewrite (Hsnap name db), (Hsnap ref model); [|done|by apply lookup_insert_eq|done|].
  2: { unfold sv1. by rewrite lookup_insert_ne, lookup_delete_ne. }
  unfold ret. rewrite Hdrop. do 2 eexists. split; [reflexivity|].
  pose proof (buckets_same db model) as Hsame. split; [by case_bool_decide; [left|right]|].
  rewrite <-Hsame. case_bool_decide; naive_solver.
Qed.

(** What a URL names, for URLs without a query. *)
Definition after_slash (url : string) : option string := Some (rpartition "/"%char url).2.

Definition orders_indexes : Rows := [("orders", "CREATE INDEX ix_orders_event ON orders (event_id) INCLUDE (quantity)")].
Definition model_catalog (c : Catalog) : Catalog :=
  mk_catalog orders_indexes [("orders", "autovacuum_vacuum_scale_factor=0.02")] [].

Lemma schema_check_run :
  let live := mk_catalog (("alembic_version", "alembic_version_pkc") :: orders_indexes) [] [] in
  let sv := {[ "testdb" := live; "postgres" := empty_catalog; "testdb_indexref" := empty_catalog ]} in
  main after_slash model_catalog "postgresql+asyncpg://db:5432/testdb" sv =
    (Ok (1, ["  [儲存參數] [只在 model 裡] autovacuum_vacuum_scale_factor=0.02"]), delete "testdb_indexref" sv) ∧
  ∃ code problems, main after_slash model_catalog "postgresql+asyncpg://db:5432/testdb" sv =
      (Ok (code, problems), delete "testdb_indexref" sv) ∧
    (code = 0 ∨ code = 1) ∧ (code = 0 ↔ same_schema live (model_catalog empty_catalog)).
Proof.
  intros live sv. split; [by vm_compute|].
  apply (schema_check_exact after_slash model_catalog "postgresql+asyncpg://db:5432" "testdb"); [|done|done|].
  - intros n Hn. unfold after_slash. by rewrite rpartition_url by by apply plain_no_slash.
  - apply elem_of_dom. by eexists.
Qed.
