(* ===== verification/Telemetry.v ===== *)
(** Traces and gauges (src/app/core/tracing.py; the spans around jobs and intents and
    the metric calls of src/app/worker.py; core/queue_metrics.py): the id that log
    records and spans share, what a request takes over from its caller, how an intent
    carries the trace through the stream, which spans are kept, and that a metric
    never fails a job.  The tracer, its W3C codec and the metric service are
    libraries: parameters here, with what their documentation promises. *)

From Stdlib Require Import Ascii String QArith.
From S2P Require Import Prelude Exceptions Keys Uuid Redis Inventory SeatRuns Config Auth Http Ops.
Import Logging.

#[local] Open Scope string_scope.
#[local] Open Scope list_scope.
#[local] Open Scope Z_scope.

(** ** Ids in hexadecimal *)

Definition trace_digits : list ascii := list_ascii_of_string "0123456789abcdef".
Definition trace_digit (d : Z) : ascii := List.nth (Z.to_nat d) trace_digits "0"%char.

(** The last [n] hexadecimal digits of [v], leading zeros kept. *)
Fixpoint hex_fixed (n : nat) (v : Z) : list ascii :=
  match n with
  | O => []
  | S n' => hex_fixed n' (v / 16) ++ [trace_digit (v mod 16)]
  end.

(** [format(trace_id, "032x")]; a trace id has 128 bits. *)
Definition hex32 (v : Z) : string := string_of_list_ascii (hex_fixed 32 v).

(** ** Spans *)

Inductive SpanKind : Type := INTERNAL | SERVER | CLIENT | PRODUCER | CONSUMER.
#[global] Instance SpanKind_eq_dec : EqDecision SpanKind.
Proof. solve_decision. Defined.

Record span_context : Type := mk_span_context {
  sp_trace : Z;
  sp_span : Z;
  sp_sampled : bool;
}.

(** [SpanContext.is_valid] *)
Definition sp_valid (c : span_context) : bool := negb (sp_trace c =? 0) && negb (sp_span c =? 0).

(** The context a task runs in: its current span, if any. *)
Definition Context : Type := option span_context.

(** [current_trace_id] *)
Definition otel_trace_id (ctx : Context) : option string :=
  match ctx with
  | Some c => if sp_valid c then Some (hex32 (sp_trace c)) else None
  | None => None
  end.

(** [_NoOrphanClientRoots.should_sample]: a root is kept unless it is a CLIENT span. *)
Definition should_sample (kind : SpanKind) : bool := negb (bool_decide (kind = CLIENT)).

Section tracing.
(* the W3C codec of a traceparent, and the tracer: the context of a new span under a
   parent, of a kind, with the ids drawn for it *)
Context (w3c_inject : span_context → string) (w3c_extract : string → option span_context).
Context (tracer : Context → SpanKind → Z * Z → span_context).

(** [_InjectOnlyPropagator]: a carrier coming in is not looked at. *)
Definition extract (carrier : gmap string string) (context : Context) : Context :=
  let _ := carrier in context.
Definition inject (context : Context) (carrier : gmap string string) : gmap string string :=
  match context with
  | Some c => if sp_valid c then <["traceparent" := w3c_inject c]> carrier else carrier
  | None => carrier
  end.

(** The server span of a request, opened by the instrumentation with the propagator
    set for the process. *)
Definition server_span (headers : gmap string string) (ids : Z * Z) : span_context :=
  tracer (extract headers None) SERVER ids.

(** [current_traceparent] *)
Definition current_traceparent (ctx : Context) : string :=
  default "" (inject ctx ∅ !! "traceparent").

(** [extract_trace_context]: a missing or broken traceparent leaves the current one. *)
Definition extract_trace_context (carrier : fields) (ctx : Context) : Context :=
  match carrier !! "traceparent" with
  | Some s => match w3c_extract s with Some c => Some c | None => ctx end
  | None => ctx
  end.

(** [_intent_span] *)
Definition intent_span (f : fields) (ctx : Context) (ids : Z * Z) : span_context :=
  tracer (extract_trace_context f ctx) CONSUMER ids.

(** [fields.get("trace_id") or otel_trace_id() or "-"], under the intent's span. *)
Definition intent_trace_id (f : fields) (span : Context) : string :=
  match f !! "trace_id" with
  | Some s => if bool_decide (s = "") then default "-" (otel_trace_id span) else s
  | None => default "-" (otel_trace_id span)
  end.

(** What [_consume_batch] binds around one entry, and [reclaim_stale_order_intents]
    with the deliveries so far. *)
Definition entry_context (entry_id : string) (f : fields) (times_delivered : option Z) (span : Context)
    : attrs :=
  let base : attrs := {[ TRACE_ID_FIELD := VStr (intent_trace_id f span); "stream_id" := VStr entry_id ]} in
  let base := match f !! "idempotency_key" with
              | Some k => <["idempotency_key" := VStr k]> base
              | None => base
              end in
  match times_delivered with Some n => <["times_delivered" := VInt n]> base | None => base end.

(** The span of one run of a job; [job_context] (Ops.v) takes its id. *)
Definition cron_span (ctx : Context) (ids : Z * Z) : span_context := tracer ctx INTERNAL ids.

(** ** One trace, from the request to the order *)

(** A codec that reads what it wrote, and a tracer that keeps a parent's trace and
    lets the root decide what is kept: the documented ParentBased sampler around
    [should_sample]. *)
Record tracer_laws : Prop := {
  tl_codec : ∀ c, sp_valid c = true → w3c_extract (w3c_inject c) = Some c;
  tl_root : ∀ k i, sp_trace (tracer None k i) = i.1 ∧ sp_span (tracer None k i) = i.2 ∧
    sp_sampled (tracer None k i) = should_sample k;
  tl_child : ∀ p k i, sp_valid p = true → sp_trace (tracer (Some p) k i) = sp_trace p ∧
    sp_span (tracer (Some p) k i) = i.2 ∧ sp_sampled (tracer (Some p) k i) = sp_sampled p;
}.

(** The spans below a span, each opened under the one before. *)
Inductive span_below (root : span_context) : span_context → Prop :=
  | below_self : span_below root root
  | below_child p k i : span_below root p → i.2 ≠ 0 → span_below root (tracer (Some p) k i).
End tracing.

(** *** Ids *)

Lemma hex_fixed_length n v : List.length (hex_fixed n v) = n.
Proof.
  revert v. induction n as [|n IH]; intros v; simpl; [done|]. rewrite length_app, IH. simpl. lia.
Qed.

Lemma trace_digit_lower d : lower_hex (trace_digit d) = Some (trace_digit d).
Proof.
  unfold trace_digit. generalize (Z.to_nat d). intros n.
  assert (Hall : Forall (λ c, lower_hex c = Some c) trace_digits) by by repeat constructor.
  destruct (decide (n < List.length trace_digits)%nat) as [Hlt|Hge].
  - rewrite Forall_forall in Hall. apply Hall, list_elem_of_In, nth_In. exact Hlt.
  - rewrite nth_overflow; [done|]. lia.
Qed.

Lemma hex_fixed_lower n v : Forall (λ c, lower_hex c = Some c) (hex_fixed n v).
Proof.
  revert v. induction n as [|n IH]; intros v; simpl; [constructor|].
  apply Forall_app. split; [done|]. repeat constructor. apply trace_digit_lower.
Qed.

Lemma chars_of_list l : chars (string_of_list_ascii l) = l.
Proof. induction l as [|c l IH]; simpl; [done|]. by rewrite IH. Qed.

(** The id of a span looks like the uuid it stands in for: 32 lower-case digits. *)
Lemma hex32_uuid v : is_uuid (hex32 v).
Proof.
  unfold is_uuid, hex32. rewrite chars_of_list. split; [apply hex_fixed_length|apply hex_fixed_lower].
Qed.

Lemma trace_digit_inj a b : 0 <= a < 16 → 0 <= b < 16 → trace_digit a = trace_digit b → a = b.
Proof.
  intros Ha Hb. unfold trace_digit. intros Heq. apply (NoDup_nth trace_digits "0"%char) in Heq; try (simpl; lia).
  apply NoDup_ListNoDup. apply (bool_decide_unpack _). by vm_compute.
Qed.

Lemma hex_fixed_inj n a b :
  0 <= a < 16 ^ Z.of_nat n → 0 <= b < 16 ^ Z.of_nat n → hex_fixed n a = hex_fixed n b → a = b.
Proof.
  revert a b. induction n as [|n IH]; intros a b Ha Hb Heq; [simpl in *; lia|].
  rewrite Nat2Z.inj_succ, Z.pow_succ_r in Ha, Hb by lia. simpl in Heq.
  apply app_inj_tail in Heq as [Hq Hd].
  apply IH in Hq; [|split; [apply Z.div_pos; lia|apply Z.div_lt_upper_bound; lia]..].
  apply trace_digit_inj in Hd; [|apply Z.mod_pos_bound; lia..].
  rewrite (Z.div_mod a 16), (Z.div_mod b 16) by lia. congruence.
Qed.

(** Two traces never share an id in the logs. *)
Lemma hex32_inj a b : 0 <= a < 2 ^ 128 → 0 <= b < 2 ^ 128 → hex32 a = hex32 b → a = b.
Proof.
  intros Ha Hb Heq. apply (f_equal chars) in Heq. unfold hex32 in Heq. rewrite !chars_of_list in Heq.
  by apply (hex_fixed_inj 32).
Qed.

Lemma hex32_not_empty v : hex32 v ≠ "".
Proof. intros Heq. destruct (hex32_uuid v) as [Hl _]. by rewrite Heq in Hl. Qed.

Section one_trace.
Context (w3c_inject : span_context → string) (w3c_extract : string → option span_context).
Context (tracer : Context → SpanKind → Z * Z → span_context).
Hypothesis laws : tracer_laws w3c_inject w3c_extract tracer.

Lemma below_trace root c :
  sp_valid root = true → span_below tracer root c →
  sp_valid c = true ∧ sp_trace c = sp_trace root ∧ sp_sampled c = sp_sampled root.
Proof using laws.
  intros Hr. induction 1 as [|p k i _ (Hv & Ht & Hs) Hi]; [done|].
  destruct (tl_child _ _ _ laws p k i Hv) as (E1 & E2 & E3). rewrite E1, E3.
  split; [|done]. unfold sp_valid in *. rewrite E1, E2, andb_true_iff, !negb_true_iff, !Z.eqb_neq in *.
  by destruct Hv.
Qed.

Lemma otel_id_valid c : sp_valid c = true → otel_trace_id (Some c) = Some (hex32 (sp_trace c)).
Proof. unfold otel_trace_id. by intros ->. Qed.

Lemma traceparent_of_valid c : sp_valid c = true → current_traceparent w3c_inject (Some c) = w3c_inject c.
Proof. unfold current_traceparent, inject. intros ->. by rewrite lookup_insert_eq. Qed.

(** The trace of a request is its own.  Whatever headers the client sends, a
    traceparent among them, the server span is the root of a new trace, with the
    ids drawn here; the access log and every record of the request carry its id. *)
Theorem inbound_trace_is_ignored headers headers' ids settings fresh s app :
  ids.1 ≠ 0 → ids.2 ≠ 0 → is_http s = true →
  let c := server_span tracer headers ids in
  server_span tracer headers' ids = c ∧ sp_trace c = ids.1 ∧ sp_sampled c = true ∧
  ∃ bound, trace_id_middleware settings (otel_trace_id (Some c)) fresh s app =
      log_context bound (trace_requests settings s (hex32 ids.1) None app) ∧
    bound !! "trace_id" = Some (hex32 ids.1).
Proof using laws.
  intros H1 H2 Hs c. destruct (tl_root _ _ _ laws SERVER ids) as (E1 & E2 & E3).
  assert (Hv : sp_valid c = true).
  { unfold sp_valid, c, server_span, extract. rewrite E1, E2.
    by rewrite andb_true_iff, !negb_true_iff, !Z.eqb_neq. }
  split; [done|]. split; [done|]. split; [done|].
  unfold trace_id_middleware. rewrite Hs. cbn [negb]. rewrite (otel_id_valid c Hv).
  change (sp_trace c) with (sp_trace (tracer None SERVER ids)). rewrite E1.
  rewrite bool_decide_eq_false_2 by apply hex32_not_empty. eexists. split; [done|].
  destruct (alb_trace_id settings s); [rewrite lookup_insert_ne by done|]; by rewrite lookup_singleton_eq.
Qed.

(** An order's processing is in the trace of its request.  An intent written below
    the server span, by the counter's script or the seats', carries the trace on:
    wherever and whenever a consumer or the recovery handles it, its span is in the
    request's trace, kept if the request's was, and its records bear the id the
    request logged under. *)
Theorem one_trace_per_order root c ids f entry times ctx :
  sp_valid root = true → span_below tracer root c → ids.2 ≠ 0 →
  (∃ a, f = counter_intent a ∧ va_trace a = hex32 (sp_trace root) ∧
        va_traceparent a = current_traceparent w3c_inject (Some c)) ∨
  (∃ a, f = seat_intent a ∧ ca_trace a = hex32 (sp_trace root) ∧
        ca_traceparent a = current_traceparent w3c_inject (Some c)) →
  let span := intent_span w3c_extract tracer f ctx ids in
  sp_trace span = sp_trace root ∧ sp_sampled span = sp_sampled root ∧
  current_trace_id (entry_context entry f times (Some span)) = Some (hex32 (sp_trace root)).
Proof using laws.
  intros Hr Hb Hi Hf. destruct (below_trace root c Hr Hb) as (Hv & Ht & Hs).
  assert (Hfields : f !! "traceparent" = Some (w3c_inject c) ∧ f !! "trace_id" = Some (hex32 (sp_trace root))).
  { rewrite (traceparent_of_valid c Hv) in Hf.
    destruct Hf as [(a & -> & <- & <-)|(a & -> & <- & <-)]; split; reflexivity. }
  destruct Hfields as [Hp Hid]. cbn zeta. unfold intent_span, extract_trace_context.
  rewrite Hp, (tl_codec _ _ _ laws c Hv).
  destruct (tl_child _ _ _ laws c CONSUMER ids Hv) as (E1 & _ & E3). rewrite E1, E3.
  split; [done|]. split; [done|]. unfold current_trace_id, entry_context, intent_trace_id. rewrite Hid.
  rewrite bool_decide_eq_false_2 by apply hex32_not_empty.
  destruct times as [n|]; [rewrite lookup_insert_ne by done|];
    (destruct (f !! "idempotency_key"); [rewrite lookup_insert_ne by done|]);
    by rewrite ?lookup_insert_eq.
Qed.

(** An intent of before, without the two fields, joins the run that handles it. *)
Theorem old_intent_joins_its_run f root ctx ids entry times :
  sp_valid root = true → span_below tracer root ctx → ids.2 ≠ 0 →
  f !! "traceparent" = None → f !! "trace_id" = None →
  let span := intent_span w3c_extract tracer f (Some ctx) ids in
  sp_trace span = sp_trace root ∧
  current_trace_id (entry_context entry f times (Some span)) = Some (hex32 (sp_trace root)).
Proof using laws.
  intros Hr Hb Hi Hp Hid. cbn zeta. unfold intent_span, extract_trace_context. rewrite Hp.
  destruct (below_trace root (tracer (Some ctx) CONSUMER ids) Hr) as (Hv & Ht & _); [by constructor|].
  split; [done|]. unfold current_trace_id, entry_context, intent_trace_id. rewrite Hid.
  rewrite (otel_id_valid _ Hv), Ht. simpl.
  destruct times as [n|]; [rewrite lookup_insert_ne by done|];
    (destruct (f !! "idempotency_key"); [rewrite lookup_insert_ne by done|]); by rewrite ?lookup_insert_eq.
Qed.

(** Polling leaves no traces, and nothing else is lost: a trace is kept, with all of
    its spans, exactly when its root is no client call. *)
Theorem trace_kept_unless_polling kind ids c :
  ids.1 ≠ 0 → ids.2 ≠ 0 → span_below tracer (tracer None kind ids) c →
  sp_sampled c = true ↔ kind ≠ CLIENT.
Proof using laws.
  intros H1 H2 Hb. destruct (tl_root _ _ _ laws kind ids) as (E1 & E2 & E3).
  destruct (below_trace (tracer None kind ids) c) as (_ & _ & ->); [|done|].
  - unfold sp_valid. by rewrite E1, E2, andb_true_iff, !negb_true_iff, !Z.eqb_neq.
  - rewrite E3. unfold should_sample. by rewrite negb_true_iff, bool_decide_eq_false.
Qed.
End one_trace.

(** ** Setting up *)

Inductive tracing_setup : Type :=
  | SetTracerProvider (service_name : string) (exporter : option string)
  | SetPropagator
  | InstrumentSql
  | InstrumentRedis
  | InstrumentHttpx
  | LogConfigured (service_name : string) (export : bool).

(** [s.rstrip("/")] *)
Fixpoint rstrip_slash (l : list ascii) : list ascii :=
  match l with
  | [] => []
  | c :: l' => match rstrip_slash l' with
               | [] => if bool_decide (c = "/"%char) then [] else [c]
               | r => c :: r
               end
  end.

Definition traces_url (endpoint : string) : string :=
  string_of_list_ascii (rstrip_slash (list_ascii_of_string endpoint)) +:+ "/v1/traces".

(** An unset or empty setting. *)
Definition truthy (o : option string) : option string :=
  match o with Some s => if bool_decide (s = "") then None else Some s | None => None end.

(** [configure_tracing]: the state is whether it ran and what was set up;
    [app_component] is the environment's APP_COMPONENT, [endpoint] the setting. *)
Definition configure_tracing (app_component endpoint component : option string)
    : M (bool * list tracing_setup) exn unit := λ '(configured, log),
  if (configured : bool) then (Ok tt, (configured, log))
  else
    let name := match truthy component with
                | Some n => n
                | None => default "ticket-api" app_component
                end in
    let url := traces_url <$> truthy endpoint in
    (Ok tt, (true, log ++ [SetTracerProvider name url; SetPropagator; InstrumentSql; InstrumentRedis;
                           InstrumentHttpx; LogConfigured name (is_some url)])).

(** However often it is called, and by whom, the first call alone takes effect: one
    provider, each library instrumented once. *)
Theorem tracing_is_set_up_once env endpoint calls c0 :
  let run := λ cs, foldl (λ st c, (configure_tracing env endpoint c st).2) (false, []) cs in
  run (c0 :: calls) = run [c0] ∧ List.length (run [c0]).2 = 6%nat.
Proof.
  cbn zeta. split; [|done]. simpl. induction calls as [|c calls IH]; [done|exact IH].
Qed.

Example exporter_url :
  traces_url "http://tempo:4318//" = "http://tempo:4318/v1/traces" ∧
  (configure_tracing (Some "api") (Some "") None (false, [])).2.2 !! 0%nat =
    Some (SetTracerProvider "api" None).
Proof. by vm_compute. Qed.

(** ** Gauges *)

Definition METRIC_NAME_BACKLOG : string := "order_stream_backlog".
Definition METRIC_NAME_DEAD_LETTER : string := "order_dead_letter_depth".
Definition METRIC_NAME_DEAD_LETTER_NEW : string := "order_dead_letter_new".
Definition METRIC_NAME_OLDEST_INTENT_AGE : string := "order_stream_oldest_age_seconds".

(** What [put_metric_data] is sent of one gauge; its unit is always Count. *)
Definition datum : Type := string * Q.

(** [_put_gauges]: [client] is there when namespace and region are set; the calls that
    were made, and the names in the warning of one that failed. *)
Definition put_gauges (client : option (list datum → result exn unit)) (values : list datum)
    : list (list datum) * option (list string) :=
  match client with
  | None => ([], None)
  | Some put =>
      ([values], match put values with
                 | Ok _ => None
                 | Err _ => Some (isort String.leb (fst <$> values))
                 end)
  end.

(** [_publish_pipeline_gauges] *)
Definition publish_pipeline_gauges (client : option (list datum → result exn unit))
    (backlog dead_letter new_dead_letters : Z) (oldest_intent_age : Q)
    : list (list datum) * option (list string) :=
  put_gauges client [(METRIC_NAME_BACKLOG, inject_Z backlog); (METRIC_NAME_DEAD_LETTER, inject_Z dead_letter);
    (METRIC_NAME_DEAD_LETTER_NEW, inject_Z new_dead_letters);
    (METRIC_NAME_OLDEST_INTENT_AGE, oldest_intent_age)].

(** [QueueDepthCollector.collect] *)
Definition collect (r : Redis) : list datum :=
  [("order_stream_backlog", inject_Z (xlen (r_stream r)));
   ("order_dead_letter_depth", inject_Z (xlen (r_dead r)))].

(** What Prometheus scrapes of the API is what the worker publishes, and the worker
    pays for one call a minute at most, whatever the service answers. *)
Theorem gauges_agree client r new age :
  let '(backlog, dead) := queue_depth r in
  let '(calls, warning) := publish_pipeline_gauges client backlog dead new age in
  (List.length calls <= 1)%nat ∧
  (∀ values, values ∈ calls → take 2 values = collect r) ∧
  (warning ≠ None ↔ ∃ put values e, client = Some put ∧ calls = [values] ∧ put values = Err e).
Proof.
  unfold queue_depth, publish_pipeline_gauges, put_gauges. destruct client as [put|].
  - split; [simpl; lia|]. split; [by intros v ->%list_elem_of_singleton|].
    destruct (put _) as [[]|e] eqn:Hp; split; try done.
    + intros (p & v & x & [= <-] & [= <-] & Hx). congruence.
    + intros _. by eexists put, _, e.
  - split; [simpl; lia|]. split; [by intros v ?%elem_of_nil|]. split; [done|]. by intros (p & v & e & ? & _).
Qed.

(** ** Witnesses: a codec and a tracer with the laws *)

Definition demo_inject (c : span_context) : string :=
  join (z_str (sp_trace c)) (join (z_str (sp_span c)) (if sp_sampled c then "01" else "00")).
Definition demo_extract (s : string) : option span_context :=
  match break_colon s with
  | (t, Some rest) =>
      match break_colon rest with
      | (p, Some flags) =>
          match z_parse t, z_parse p with
          | Some t, Some p => Some (mk_span_context t p (bool_decide (flags = "01")))
          | _, _ => None
          end
      | _ => None
      end
  | _ => None
  end.
Definition demo_tracer (ctx : Context) (k : SpanKind) (ids : Z * Z) : span_context :=
  match ctx with
  | Some p => if sp_valid p then mk_span_context (sp_trace p) ids.2 (sp_sampled p)
              else mk_span_context ids.1 ids.2 (should_sample k)
  | None => mk_span_context ids.1 ids.2 (should_sample k)
  end.

Lemma demo_laws : tracer_laws demo_inject demo_extract demo_tracer.
Proof.
  split; [|done|].
  - intros [t p sampled] _. unfold demo_extract, demo_inject. simpl.
    rewrite break_join by apply no_colon_z_str. rewrite break_join by apply no_colon_z_str.
    rewrite !z_parse_str. by destruct sampled.
  - intros p k i Hv. unfold demo_tracer. by rewrite Hv.
Qed.

(** A request that claims to be in trace 77 is given trace 255; a consumer without any
    span of its own handles its order in trace 255. *)
Lemma one_trace_per_order_witness :
  let root := server_span demo_tracer {[ "traceparent" := "77:1:01" ]} (255, 9) in
  let a := mk_reserve_args 7 5 2 100 "k" None 60 4 (hex32 255)
             (current_traceparent demo_inject (Some root)) in
  sp_trace (intent_span demo_extract demo_tracer (counter_intent a) None (4, 12)) = 255 ∧
  hex32 255 = "000000000000000000000000000000ff".
Proof.
  split; [|by vm_compute].
  by apply (one_trace_per_order demo_inject demo_extract demo_tracer demo_laws
    (server_span demo_tracer {[ "traceparent" := "77:1:01" ]} (255, 9))
    (server_span demo_tracer {[ "traceparent" := "77:1:01" ]} (255, 9)) (4, 12) _ "1-1" None None
    eq_refl (below_self _ _) ltac:(done)); left; eexists.
Defined.
