(* ===== verification/Drill.v ===== *)
(** The tool of the restore drill (src/infra/drill.py): it seeds a marked event with
    orders, notes a fingerprint, damages the data the way a bad migration would, and
    compares after the restore.  The database is the three tables it touches, a
    command's result its exit code; what it prints is left out. *)

From S2P Require Import Prelude.

#[local] Open Scope string_scope.
#[local] Open Scope list_scope.
#[local] Open Scope Z_scope.

Definition SENTINEL_BEFORE : string := "DRILL-BEFORE".
Definition SENTINEL_AFTER : string := "DRILL-AFTER".
Definition DRILL_VENUE : string := "DRILL-ARENA".
Definition ORDER_COUNT : nat := 20.
Definition DELETE_COUNT : nat := 5.

(** [SELECT ... WHERE venue = ...] sees names and venues of events, and which event an
    order is of; every INSERT uses up an id. *)
Record DrillDb : Type := mk_drill {
  dr_users : gmap string Z;
  dr_next_user : Z;
  dr_events : gmap Z (string * string);   (* name, venue *)
  dr_next_event : Z;
  dr_orders : gmap Z Z;                   (* to the event *)
  dr_next_order : Z;
}.

Definition set_drill_events (v : gmap Z (string * string)) (d : DrillDb) : DrillDb :=
  mk_drill (dr_users d) (dr_next_user d) v (dr_next_event d) (dr_orders d) (dr_next_order d).
Definition set_drill_orders (v : gmap Z Z) (d : DrillDb) : DrillDb :=
  mk_drill (dr_users d) (dr_next_user d) (dr_events d) (dr_next_event d) v (dr_next_order d).

(** [seed]: the buyer is there once, the event and its orders are new each time. *)
Definition drill_seed (d : DrillDb) : DrillDb :=
  let user := default (dr_next_user d) (dr_users d !! "drill-buyer") in
  let e := dr_next_event d in
  let ids := zrange (dr_next_order d) (Z.of_nat ORDER_COUNT) in
  mk_drill (<["drill-buyer" := user]> (dr_users d)) (dr_next_user d + 1)
    (<[e := (SENTINEL_BEFORE, DRILL_VENUE)]> (dr_events d)) (e + 1)
    (foldr (λ i m, <[i := e]> m) (dr_orders d) ids) (dr_next_order d + Z.of_nat ORDER_COUNT).

(** The row of [_snapshot]. *)
Record Fingerprint : Type := mk_fingerprint {
  fp_event : Z;
  fp_sentinel : string;
  fp_orders : Z;
  fp_max_order : Z;
}.
#[global] Instance Fingerprint_eq_dec : EqDecision Fingerprint.
Proof. solve_decision. Defined.

Definition is_drill (d : DrillDb) (e : Z) : Prop := snd <$> dr_events d !! e = Some DRILL_VENUE.
#[global] Instance is_drill_dec d e : Decision (is_drill d e).
Proof. unfold is_drill. apply _. Defined.

(** The drill's events, the oldest first. *)
Definition drill_events (d : DrillDb) : list Z :=
  isort Z.leb (filter (is_drill d) (fst <$> map_to_list (dr_events d))).

Definition drill_orders (d : DrillDb) (e : Z) : list Z :=
  fst <$> filter (λ x : Z * Z, x.2 = e) (map_to_list (dr_orders d)).

(** [_snapshot]: [None] is the exit for want of drill data. *)
Definition drill_snapshot (d : DrillDb) : option Fingerprint :=
  match drill_events d with
  | [] => None
  | e :: _ =>
      let ids := drill_orders d e in
      Some (mk_fingerprint e (default "" (fst <$> dr_events d !! e)) (Z.of_nat (length ids))
              (foldr Z.max 0 ids))
  end.

(** [fingerprint]: the file, or the exit that leaves it as it was. *)
Definition drill_fingerprint (d : DrillDb) (file : option Fingerprint) : option Fingerprint * Z :=
  match drill_snapshot d with
  | Some f => (Some f, 0)
  | None => (file, 1)
  end.

(** The ids of the DELETE: the newest of all the drill's orders. *)
Definition newest_orders (d : DrillDb) : list Z :=
  take DELETE_COUNT (isort (λ a b, b <=? a)
    (fst <$> filter (λ x : Z * Z, is_drill d x.2) (map_to_list (dr_orders d)))).

(** [mutate] *)
Definition drill_mutate (delete_only : bool) (d : DrillDb) : DrillDb :=
  let d := if delete_only then d
           else set_drill_events ((λ x : string * string,
                  if bool_decide (x.2 = DRILL_VENUE) then (SENTINEL_AFTER, x.2) else x) <$> dr_events d) d in
  set_drill_orders (filter (λ x, x.1 ∉ newest_orders d) (dr_orders d)) d.

(** [verify]: its exit code. *)
Definition drill_verify (file : option Fingerprint) (d : DrillDb) : Z :=
  match file, drill_snapshot d with
  | Some expected, Some actual => if decide (expected = actual) then 0 else 1
  | _, _ => 1
  end.

(** ** What the drill proves *)

Lemma mutate_keeps_drill o d e : is_drill (drill_mutate o d) e ↔ is_drill d e.
Proof.
  unfold is_drill, drill_mutate. destruct o; simpl; [done|]. rewrite lookup_fmap.
  destruct (dr_events d !! e) as [[n v]|]; simpl; [|done]. by case_bool_decide.
Qed.

Lemma elem_of_drill_events d e : e ∈ drill_events d ↔ is_drill d e.
Proof.
  unfold drill_events. rewrite elem_of_isort, list_elem_of_filter. split; [by intros [? _]|].
  intros He. split; [done|]. unfold is_drill in He.
  destruct (dr_events d !! e) as [x|] eqn:Hx; [|done]. apply list_elem_of_fmap. exists (e, x).
  split; [done|]. by apply elem_of_map_to_list.
Qed.

Lemma snapshot_some d f :
  drill_snapshot d = Some f →
  is_drill d (fp_event f) ∧ fst <$> dr_events d !! fp_event f = Some (fp_sentinel f).
Proof.
  unfold drill_snapshot. destruct (drill_events d) as [|e l] eqn:Hl; [done|]. intros [= <-]. simpl.
  assert (He : is_drill d e) by (apply elem_of_drill_events; rewrite Hl; left).
  split; [done|]. unfold is_drill in He. by destruct (dr_events d !! e).
Qed.

(** A connection to the damaged database never passes.  Whatever was seeded, once the
    damage renamed the sentinel a comparison with a fingerprint taken before it - a
    sentinel with any other name - exits with 1: a restore that did not happen is
    found out although the orders may look right. *)
Theorem unrestored_is_noticed d f :
  drill_snapshot d = Some f → fp_sentinel f ≠ SENTINEL_AFTER →
  drill_verify (Some f) (drill_mutate false d) = 1.
Proof.
  intros Hf Hs. unfold drill_verify. destruct (drill_snapshot (drill_mutate false d)) as [g|] eqn:Hg; [|done].
  destruct (decide (f = g)) as [<-|]; [exfalso|done]. apply snapshot_some in Hg as [Hd Hn].
  rewrite mutate_keeps_drill in Hd. revert Hn. unfold drill_mutate. simpl. rewrite lookup_fmap.
  unfold is_drill in Hd. destruct (dr_events d !! fp_event f) as [[n v]|]; simpl in *; [|done].
  injection Hd as ->. rewrite bool_decide_eq_true_2 by done. simpl. intros [= Heq]. by apply Hs.
Qed.

(** The comparison is exact: it passes when and only when the first drill event is
    the one that was noted, with its name, its number of orders and its last order. *)
Theorem verify_exact file d :
  drill_verify file d = 0 ↔ ∃ f, file = Some f ∧ drill_snapshot d = Some f.
Proof.
  unfold drill_verify. destruct file as [f|]; [|split; [done|by intros (? & ? & _)]].
  destruct (drill_snapshot d) as [g|]; [|split; [done|by intros (? & _ & ?)]].
  destruct (decide (f = g)) as [->|Hne]; [split; eauto|].
  split; [done|]. intros (x & [= <-] & [= <-]). done.
Qed.

Lemma elem_of_drill_orders d e i : i ∈ drill_orders d e ↔ dr_orders d !! i = Some e.
Proof.
  unfold drill_orders. rewrite list_elem_of_fmap. split.
  - intros ([j x] & -> & [Hx Hin]%list_elem_of_filter). simpl in *. subst. by apply elem_of_map_to_list.
  - intros Hi. exists (i, e). split; [done|]. apply list_elem_of_filter. split; [done|].
    by apply elem_of_map_to_list.
Qed.

Lemma drill_orders_nodup d e : NoDup (drill_orders d e).
Proof.
  eapply sublist_NoDup; [apply (NoDup_fst_map_to_list (dr_orders d))|].
  apply fmap_sublist, sublist_filter.
Qed.

Lemma newest_are_drill d i : i ∈ newest_orders d → ∃ e, dr_orders d !! i = Some e ∧ is_drill d e.
Proof.
  unfold newest_orders. intros Hi.
  eapply elem_of_submseteq in Hi; [|apply sublist_submseteq, sublist_take].
  rewrite elem_of_isort in Hi. apply list_elem_of_fmap in Hi as ([j e] & -> & [He Hin]%list_elem_of_filter).
  exists e. split; [by apply elem_of_map_to_list|done].
Qed.

(** Lost orders are noticed as well, of a drill that was seeded once. *)
Theorem lost_orders_are_noticed d f e :
  drill_snapshot d = Some f → drill_events d = [e] → drill_orders d e ≠ [] →
  drill_verify (Some f) (drill_mutate true d) = 1.
Proof.
  intros Hf He Hne.
  assert (Hevents : drill_events (drill_mutate true d) = [e]) by exact He.
  unfold drill_verify, drill_snapshot in *. rewrite He in Hf. rewrite Hevents. injection Hf as <-.
  destruct (decide _) as [Heq|]; [exfalso|done]. injection Heq as Hlen _.
  assert (Hex : ∃ i, i ∈ newest_orders d ∧ i ∈ drill_orders d e).
  { destruct (drill_orders d e) as [|j l] eqn:Hl; [done|].
    assert (Hj : j ∈ drill_orders d e) by (rewrite Hl; left). apply elem_of_drill_orders in Hj.
    assert (Hd : is_drill d e) by (apply elem_of_drill_events; rewrite He; left).
    assert (Hnew : ∃ i, i ∈ newest_orders d).
    { unfold newest_orders. destruct (isort _ _) as [|i l'] eqn:Hs; [|exists i; left].
      assert (Hin : j ∈ ([] : list Z)); [|by apply elem_of_nil in Hin]. rewrite <-Hs, elem_of_isort.
      apply list_elem_of_fmap. exists (j, e). split; [done|]. apply list_elem_of_filter.
      split; [done|]. by apply elem_of_map_to_list. }
    destruct Hnew as [i Hi]. exists i. split; [done|]. rewrite <-Hl.
    destruct (newest_are_drill d i Hi) as (e' & Ho & He').
    apply elem_of_drill_events in He'. rewrite He in He'. apply list_elem_of_singleton in He' as ->.
    by apply elem_of_drill_orders. }
  destruct Hex as (i & Hi & Hie).
  assert (Hsub : i :: drill_orders (drill_mutate true d) e ⊆+ drill_orders d e); [|apply submseteq_length in Hsub; simpl in *; lia].
  assert (Hmem : ∀ j, j ∈ drill_orders (drill_mutate true d) e → (j ∉ newest_orders d) ∧ j ∈ drill_orders d e).
  { intros j. rewrite !elem_of_drill_orders. unfold drill_mutate. simpl.
    rewrite map_lookup_filter_Some. by intros [? ?]. }
  apply NoDup_submseteq; [constructor; [by intros [? _]%Hmem|apply drill_orders_nodup]|].
  by intros j [->|[_ ?]%Hmem]%elem_of_cons.
Qed.

Definition no_data : DrillDb := mk_drill ∅ 1 ∅ 1 ∅ 1.

Example drill_round :
  let d := drill_seed no_data in
  let '(file, code) := drill_fingerprint d None in
  file = Some (mk_fingerprint 1 SENTINEL_BEFORE 20 20) ∧ code = 0 ∧
  drill_verify file d = 0 ∧ drill_verify file (drill_mutate false d) = 1 ∧
  drill_verify file (drill_mutate true d) = 1 ∧ drill_verify None d = 1 ∧
  drill_snapshot (drill_mutate false d) = Some (mk_fingerprint 1 SENTINEL_AFTER 15 15).
Proof. by vm_compute. Qed.

(** Seeded twice, the drill watches the older event and deletes the newer one's
    orders: the loss of [--delete-only] passes for a restore. *)
Lemma second_seed_hides_the_loss :
  let d := drill_seed (drill_seed no_data) in
  let '(file, _) := drill_fingerprint d None in
  let d' := drill_mutate true d in
  drill_verify file d' = 0 ∧ size (dr_orders d) = 40%nat ∧ size (dr_orders d') = 35%nat.
Proof. by vm_compute. Qed.
